(* ===== verification/_CoqProject ===== *)
-Q . S2P
Prelude.v
RustStd.v
RustNet.v
WinPath.v
Chrono.v
Crates.v
Config.v
Status.v
Schedule.v
Policy.v
Restic.v
Protocol.v
Management.v
Outcome.v
Output.v
ServiceState.v
Diagnostics.v
History.v
Credentials.v
AtomicFile.v
DpapiCalls.v
HistoryFile.v
PowerRequest.v
Updater.v
DataRoot.v
Access.v
Sources.v
Staging.v
PolicyCache.v
Executor.v
Jobs.v
Runtime.v
Scheduler.v
Lifecycle.v
Enrollment.v
Ipc.v
Profiles.v
Service.v
Locks.v
Interference.v
Guards.v
GuardsRun.v
Threads.v
Authority.v
Stores.v
Coherence.v
Settled.v
Secrets.v
Progress.v
EventLoop.v
ManagementWorker.v
Startup.v
ServiceMain.v
Exclusion.v
TrayFeed.v
Build.v
NamedPipe.v
PipeName.v
Tray.v
TrayLoop.v
