(* ===== verification/Prelude.v ===== *)
(** * resticpal: a machine-checked model of the Windows backup service

    resticpal backs a Windows machine up with restic.  A Windows service owns
    the configuration, the credentials and the schedule; a tray application
    and a settings window talk to it over a named pipe; a management server
    may push a signed policy.  This library models the service and the crates
    it is made of, and proves what they promise.

    ** The program and the files that model it

    The program's pure core is the crate [crates/resticpal-core]:
    - [Config]: [config.rs], the local and the effective configuration and
      their validation;
    - [Status]: [status.rs], the vocabulary of states and run records;
    - [Schedule]: [schedule.rs], [completion_deadline] and [decide];
    - [Policy]: [policy.rs], the merge of defaults, local configuration and
      managed policy with its locks;
    - [Restic]: [restic.rs], the builders of restic command lines and the
      containment test on Windows paths;
    - [Management]: [management.rs], bootstrap URLs, signed manifests and the
      enrollment exchange.

    Around it are [crates/resticpal-protocol] ([Protocol]: requests, responses
    and framing) and [crates/resticpal-windows/src]: [Credentials]
    ([credentials.rs]; [DpapiCalls] its DPAPI calls with their memory,
    [Access] its ACLs and the descriptor of the pipe), [NamedPipe]
    ([named_pipe.rs], the server and the client; [PipeName] the name among
    several processes) and [Profiles] ([user_profiles.rs]).  The service
    [apps/resticpal-service/src]:
    - [ServiceState]: [state.rs] and [config_store.rs];
    - [AtomicFile]: [atomic_file.rs] and the writer of [credentials.rs], call
      by call with every state a crash can leave: what was written and not
      flushed may then be anything, so [sync_all] matters;
    - [Diagnostics]: [diagnostics.rs]; [History]: [history.rs], and
      [HistoryFile] the opening of its database with the migration;
    - [Updater], [Staging] and [DataRoot]: [updater.rs], the installation of
      updates, its staging directory among other processes, and the
      protection of the service's data root;
    - [PolicyCache]: [management.rs]; [PowerRequest]: [power_request.rs];
    - [executor.rs]: [Outcome] (outcomes and failure details), [Sources]
      (plans and environments), [Output] (restic's output), [Executor]
      (processes, their polling and the sequences of commands), [Jobs] (the
      job object and the helpers of restic);
    - [Runtime], [Scheduler], [Lifecycle], [Enrollment], [Ipc]: the files of
      [runtime/], where the parts meet; [Guards] is the same operations with
      the locks they take, in the language of [Locks];
    - [main.rs]: [EventLoop] (the event loop and the workers),
      [ManagementWorker] (the management thread), [Startup] (start-up up to
      the threads), [ServiceMain] (the life of the process as the service
      manager sees it).
    The build scripts of both executables are [Build].
    The tray application [apps/resticpal-tray/src/main.rs] is [TrayFeed] (the
    signed update feed), [Tray] (its window procedure and what it calls) and
    [TrayLoop] (its processes as a transition system).

    [Service], [Authority], [Progress], [Exclusion], [Coherence], [Secrets],
    [Stores], [Threads] and [Settled] hold no code: they put the operations together into
    transition systems, [Service] of handlers, [Exclusion], [Threads] and
    [Settled] of interleaved threads, and prove what holds of them.
    [Prelude], [RustStd], [RustNet] and [WinPath] are the Rust language
    and standard library as far as the sources use them (results, machine
    integers, UTF-8 strings, ordered maps, IP addresses, Windows paths);
    [Chrono] and [Crates] are the interfaces to third-party crates.

    ** How the code is represented

    - A Rust [struct] is a [Record], an [enum] an [Inductive], with the
      source's names; field projections carry a prefix per type ([sc_] for
      [ScheduleConfig], [rt_] for [RuntimeState], [sr_] for
      [ServiceRuntime], ...).
    - [Result<T, E>] is [result E T] and [?] its bind.  Where the code can
      panic (the constructors and [+] of [chrono]) the model returns an
      [option] whose [None] is the panic, and theorems show it is not
      reached.
    - Integers are [Z]; saturation, limits and conversions are written out
      where the code has them ([u32_saturating_add], [clamp_i64]).  Instants
      and durations are nanoseconds.  Strings are lists of Unicode scalar
      values, with their UTF-8 bytes where the code counts bytes.
    - [ServiceRuntime] is the record of everything behind the service's
      locks, including what its stores hold on disk and the events it has
      sent.  A handler is a function from a runtime to an answer and a new
      runtime.  The code serialises configuration changes with
      [configuration_mutation] and takes the state mutex around each decision,
      so one handler is one step; enrollment and unenrollment let go of the
      mutex in between and are several steps in [EventLoop].
    - [Guards] drops this assumption: there an operation is a program of
      accesses between acquisitions and releases of locks, which other threads
      can interrupt anywhere.  [GuardsRun] proves that each program, run
      alone, is the operation of the other files; [Interference] is the
      discipline of a lock that protects a part of the state, and [Settled]
      its use for the mutation lock.
    - Threads are inductive step relations ([thread_step], [worker_step],
      [tp_step], the activations of [TrayLoop]) whose reachable states cover
      every interleaving.  The tray's functions are programs over their
      effects (calls of Windows and of the service), because a call of
      Windows can run the window procedure again; [TrayLoop] gives them a
      small program logic.
    - What the outside decides is an argument: [Env] holds the clock readings
      of one operation, whether each store operation succeeds and the random
      bytes; [InstallEnv] the staging directory, network and installer;
      [FileRead] what reading a file gives; [ReadIo] and [WriteIo] how the
      calls on a credential end; [HttpClient] the server.  A write of the log
      may stop in the middle of a line ([env_log_torn]).
      Theorems quantify over all of them, so they include every I/O failure.
    - Third-party crates are type classes ([Chrono], [UrlCrate],
      [CryptoCrates], [Dpapi], [Serde], [Base64Standard], [UnicodeData],
      [Filesystem]) and so is what Windows does behind a name or a text
      ([PipeNames], [SddlMeaning]), with laws apart ([ChronoLaws], [SerdeLaws], [DpapiLaws],
      ...) that state their documented behaviour; every class that a theorem
      assumes has an instance in the witness of that theorem.
    - Fuel: only poll loops take fuel, and each has a theorem that a bound
      computed from its deadline is enough: [install_terminates] (7,202 polls
      of the installer, its timeout over the interval and two more),
      [repository_operations_end] (the polls of restic processes) and
      [pipe_polls_end] (the waits on a pipe, with [waits_left]).  Loops the
      code bounds itself ([put_new]: eight references, profile keys: 256) are
      bounded the same way.  Everything else is structural recursion.

    ** What is proved

    - Safety of the service: over all reachable states a backup starts only
      for a verified connection, or for the local repository that an
      unenrollment has switched back to, which the code does not verify
      again ([Service]); users without elevation and
      administrators against a locking policy cannot change what is not
      theirs ([Authority]); every request is answered, the end of every run
      is recorded and the event loop never spins ([Progress]).
    - Policy and schedule: the merge and the decision are equivalent to
      declarative specifications ([resolved_by], [decision_spec]), with the
      exact error of every rejection.
    - Restic: command lines read back, through an independent parser, as what
      was asked for; nothing destructive in append-only mode; the path test
      is prefix containment of normalised locations.
    - Authenticity: manifests, enrollments and updates are accepted only with
      the pinned key's signature, in time and without rollback
      ([Management], [PolicyCache], [Updater]).
    - Stores: round trips, bounds and rotation ([ServiceState],
      [Diagnostics], [History], [Credentials], [Protocol]); the write of a
      credential is all or nothing across a crash ([AtomicFile]); nothing is read before the data
      root is protected ([DataRoot], [Startup]); what the service has saved
      is what it works with after a restart ([Coherence]) and what it can
      read back ([Stores]); opening the history loses nothing
      ([HistoryFile]); data, credentials and the pipe are out of reach of
      other users ([Access], [PipeName]), decrypted secrets are overwritten
      ([DpapiCalls]) and reach restic unchanged ([Secrets]).
    - Threads: at most one of backup, repository operation and update at a
      time ([Exclusion], a refinement of one slot); the management thread
      keeps its schedule and never goes back to an older policy of its source
      ([ManagementWorker]); wake locks are given back ([PowerRequest]); no
      lock is waited for for ever ([Threads]) and concurrent updates of the
      configuration are not mixed up ([Settled]); the reports to the service
      manager are truthful ([ServiceMain]).
    - Installers: Windows Installer reads the bytes that were verified
      ([Staging]); the version of the executables is that of the release, and
      a version that is not three 16-bit numbers or a processor without a
      name stops the build ([Build]).
    - Processes and pipes: restic runs the plan that was checked, forgets
      before it prunes, its output gives the outcome, every wait ends ([Output], [Executor]), no helper outlives its job
      ([Jobs]); a call over
      the pipe is the call of the handler, with the caller's identity
      ([NamedPipe]).
    - The tray announces and installs only signed releases and asks a user
      only in manual mode, with one prompt and one check at a time
      ([TrayFeed], [TrayLoop]); panics of its callbacks are both caught and
      fatal, as the profiles of [Cargo.toml] differ in it.  The folders
      offered are exactly the existing standard folders of local profiles
      ([Profiles]).
    - Deviations are stated as theorems: [future_success_never_due] (a
      success stamped in the future postpones backups until the clock passes
      it), [unenrollment_skips_validation] (unenrollment changes the
      repository without requiring a validation) and
      [stale_sequence_blocks_new_source] (a switch of the management source
      during a backup keeps the old source's sequence, so the new source's
      policy may never be applied), [recommended_credentials_are_lost] (a
      restart loses credentials a policy only recommends), [path_protection_releases]
      (a descriptor that is not freed), [refused_start_is_never_stopped] (a
      failed start stays pending), [early_helper_survives] (a helper started
      before its process is in the job), [squatted_name_is_joined]
      (the second attempt joins a stranger's pipe),
      [torn_line_swallows_the_next] (a half-written log line takes the next
      entry with it) and [late_save_forgets_validation] (a state saved after
      its mutex was released overwrites a newer one).

    Names: a [C<n>] in a comment is the number of a property of the
    development's list; modules called [...Witness] evaluate the model on
    concrete inputs and show that the hypotheses of the theorems can hold.

    ** What is not modelled

    Windows itself: its calls are arguments that may answer anything.  HTTP
    with TLS, SQLite, the encryption of DPAPI, signatures, TOML and JSON are
    parameters, as the crates that implement them are not part of the
    sources.  The texts of error messages are left out where nothing depends
    on them.  Tests, the C# settings window, installers and packaging hold no
    core logic. *)
From stdpp Require Export base option list gmap strings.
From Stdlib Require Export ZArith Lia.
#[global] Open Scope Z_scope.

(** ** Rust's [Result]

    [result E T] is [Result<T, E>]; the error comes first so that [result E]
    is a monad and the [?] operator is stdpp's bind. *)
Inductive result (E T : Type) : Type :=
| Ok (t : T)
| Err (e : E).
Arguments Ok {E T} t.
Arguments Err {E T} e.

#[global] Instance result_ret {E} : MRet (result E) := λ T x, Ok x.
#[global] Instance result_bind {E} : MBind (result E) := λ T U f r,
  match r with Ok x => f x | Err e => Err e end.
#[global] Instance result_fmap {E} : FMap (result E) := λ T U f r,
  match r with Ok x => Ok (f x) | Err e => Err e end.

#[global] Instance result_eq_dec {E T} `{EqDecision E, EqDecision T} : EqDecision (result E T).
Proof. solve_decision. Defined.

(** [if cond { return Err(e) }] *)
Definition reject_if {E} (cond : bool) (e : E) : result E unit :=
  if cond then Err e else Ok ().

(** [Option::ok_or] *)
Definition ok_or {E T} (o : option T) (e : E) : result E T :=
  match o with Some x => Ok x | None => Err e end.

(** [Result::map_err] *)
Definition map_err {E F T} (f : E -> F) (r : result E T) : result F T :=
  match r with Ok x => Ok x | Err e => Err (f e) end.

Definition is_ok {E T} (r : result E T) : bool :=
  match r with Ok _ => true | Err _ => false end.

(** A [for] loop whose body may return early with an error. *)
Fixpoint for_each {E A} (f : A -> result E unit) (l : list A) : result E unit :=
  match l with
  | [] => Ok ()
  | x :: l => f x ;; for_each f l
  end.

(** ** Machine integers, kept as [Z] with their width written out *)
Definition u16_max : Z := 2 ^ 16 - 1.
Definition u32_max : Z := 2 ^ 32 - 1.
Definition u64_max : Z := 2 ^ 64 - 1.
Definition i64_max : Z := 2 ^ 63 - 1.

Definition u32_saturating_add (a b : Z) : Z := Z.min u32_max (a + b).
Definition u64_saturating_add (a b : Z) : Z := Z.min u64_max (a + b).
(** [saturating_sub] on an unsigned type stops at zero. *)
Definition saturating_sub (a b : Z) : Z := Z.max 0 (a - b).

(** [(lo..=hi).contains(&x)] *)
Definition in_range (lo hi x : Z) : bool := (lo <=? x) && (x <=? hi).

(** ** Shared automation *)
Create HintDb resticpal.

Section result_lemmas.
Context {E T U : Type}.

Lemma bind_Ok (r : result E T) (f : T -> result E U) y :
  r ≫= f = Ok y <-> exists x, r = Ok x /\ f x = Ok y.
Proof. destruct r; cbn; naive_solver. Qed.

Lemma bind_Err (r : result E T) (f : T -> result E U) e :
  r ≫= f = Err e <-> r = Err e \/ exists x, r = Ok x /\ f x = Err e.
Proof. destruct r; cbn; naive_solver. Qed.

Lemma seq_Ok (r : result E unit) (k : result E U) y :
  (r ;; k) = Ok y <-> r = Ok () /\ k = Ok y.
Proof. destruct r as [[]|]; cbn; naive_solver. Qed.

Lemma fmap_Ok (r : result E T) (f : T -> U) y :
  f <$> r = Ok y <-> exists x, r = Ok x /\ y = f x.
Proof. destruct r; cbn; naive_solver. Qed.

Lemma ok_or_Ok (o : option T) (e : E) x : ok_or o e = Ok x <-> o = Some x.
Proof. destruct o; cbn; naive_solver. Qed.

Lemma map_err_Ok {F} (g : E -> F) (r : result E T) x : map_err g r = Ok x <-> r = Ok x.
Proof. destruct r; cbn; naive_solver. Qed.
End result_lemmas.

Lemma reject_if_Ok {E} b (e : E) u : reject_if b e = Ok u <-> b = false.
Proof. destruct b, u; cbn; naive_solver. Qed.

Lemma reject_if_Err {E} b (e e' : E) : reject_if b e = Err e' <-> b = true /\ e' = e.
Proof. destruct b; cbn; naive_solver. Qed.

Lemma for_each_Ok {E A} (f : A -> result E unit) l u :
  for_each f l = Ok u <-> Forall (fun x => f x = Ok ()) l.
Proof.
  destruct u. induction l as [|x l IH]; cbn; [naive_solver|].
  rewrite Forall_cons, <- IH. destruct (f x) as [[]|]; naive_solver.
Qed.

Lemma in_range_true lo hi x : in_range lo hi x = true <-> lo <= x <= hi.
Proof. unfold in_range. rewrite andb_true_iff, !Z.leb_le. lia. Qed.

Lemma in_range_false lo hi x : in_range lo hi x = false <-> ~ (lo <= x <= hi).
Proof. rewrite <- in_range_true. destruct (in_range lo hi x); naive_solver. Qed.

(** [ok_steps] takes a hypothesis saying that a chain of [?] steps ended in
    [Ok] apart into one fact per step. *)
Ltac ok_steps :=
  repeat match goal with
  | H : _ ≫= _ = Ok _ |- _ => apply bind_Ok in H as (? & ? & H)
  | H : _ <$> _ = Ok _ |- _ => apply fmap_Ok in H as (? & ? & H)
  | H : reject_if _ _ = Ok _ |- _ => apply reject_if_Ok in H
  | H : ok_or _ _ = Ok _ |- _ => apply ok_or_Ok in H
  | H : map_err _ _ = Ok _ |- _ => apply map_err_Ok in H
  | H : Ok _ = Ok _ |- _ => injection H; clear H; intros; subst
  | H : Err _ = Ok _ |- _ => discriminate H
  | H : unit |- _ => destruct H
  end.

(** [bool_steps] turns boolean tests among the hypotheses into propositions. *)
Ltac bool_steps :=
  repeat match goal with
  | H : _ && _ = true |- _ => apply andb_true_iff in H as [? ?]
  | H : _ || _ = false |- _ => apply orb_false_iff in H as [? ?]
  | H : negb _ = true |- _ => apply negb_true_iff in H
  | H : negb _ = false |- _ => apply negb_false_iff in H
  | H : bool_decide _ = true |- _ => apply bool_decide_eq_true in H
  | H : bool_decide _ = false |- _ => apply bool_decide_eq_false in H
  | H : (_ <? _) = true |- _ => apply Z.ltb_lt in H
  | H : (_ <? _) = false |- _ => apply Z.ltb_ge in H
  | H : (_ <=? _) = true |- _ => apply Z.leb_le in H
  | H : (_ <=? _) = false |- _ => apply Z.leb_gt in H
  | H : (_ =? _) = true |- _ => apply Z.eqb_eq in H
  | H : (_ =? _) = false |- _ => apply Z.eqb_neq in H
  | H : in_range _ _ _ = true |- _ => apply in_range_true in H
  | H : in_range _ _ _ = false |- _ => apply in_range_false in H
  end.

(** ** Options and lists *)
Lemma forall_Some {A} (x : A) (P : A -> Prop) : (forall y, Some x = Some y -> P y) <-> P x.
Proof. split; [auto|]. intros ? ? [= <-]. done. Qed.

Lemma forall_None {A} (P : A -> Prop) : (forall y, None = Some y -> P y) <-> True.
Proof. split; [done|]. intros ? ? [=]. Qed.

Lemma existsb_false_Forall {A} (f : A -> bool) l :
  existsb f l = false <-> Forall (fun x => f x = false) l.
Proof.
  induction l as [|x l IH]; cbn; [naive_solver|].
  rewrite orb_false_iff, Forall_cons, IH. done.
Qed.

Lemma forallb_true_Forall {A} (f : A -> bool) l :
  forallb f l = true <-> Forall (fun x => f x = true) l.
Proof.
  induction l as [|x l IH]; cbn; [naive_solver|].
  rewrite andb_true_iff, Forall_cons, IH. done.
Qed.
