(* ===== verification/RustStd.v ===== *)
(** * The parts of Rust's standard library the sources use

    Strings are sequences of code points ([char]s); [utf8] gives their bytes,
    which is what [len], [bytes] and [as_bytes] look at.  [OsString]s are the
    same sequences with surrogates allowed (WTF-8).  [BTreeMap] is the sorted
    association list its iteration order exposes. *)
From stdpp Require Import base list strings sorting.
From S2P Require Import Prelude.

(** ** Strings and characters *)
Abbreviation rstr := (list Z).

(** An ASCII literal of the source. *)
Definition lit (s : string) : rstr :=
  (fun a => Z.of_nat (Ascii.nat_of_ascii a)) <$> String.list_ascii_of_string s.
Arguments lit : simpl never.

Definition str_eqb (a b : rstr) : bool := bool_decide (a = b).

(** [char::len_utf8] and the bytes of one character. *)
Definition utf8_char (c : Z) : list Z :=
  if c <? 0x80 then [c]
  else if c <? 0x800 then [0xC0 + Z.shiftr c 6; 0x80 + Z.land c 0x3F]
  else if c <? 0x10000 then
    [0xE0 + Z.shiftr c 12; 0x80 + Z.land (Z.shiftr c 6) 0x3F; 0x80 + Z.land c 0x3F]
  else
    [0xF0 + Z.shiftr c 18; 0x80 + Z.land (Z.shiftr c 12) 0x3F;
     0x80 + Z.land (Z.shiftr c 6) 0x3F; 0x80 + Z.land c 0x3F].

(** [str::as_bytes] *)
Definition utf8 (s : rstr) : list Z := flat_map utf8_char s.

(** [std::str::from_utf8]: the decoder of well-formed UTF-8, which has one
    encoding per scalar value and none for surrogates. *)
Definition is_cont (b : Z) : bool := in_range 0x80 0xBF b.
Definition is_surrogate (c : Z) : bool := in_range 0xD800 0xDFFF c.
Fixpoint from_utf8 (b : list Z) : option rstr :=
  match b with
  | [] => Some []
  | b0 :: r =>
      if in_range 0 0x7F b0 then cons b0 <$> from_utf8 r
      else if in_range 0xC2 0xDF b0 then
        match r with
        | b1 :: r => if is_cont b1 then cons ((b0 - 0xC0) * 64 + (b1 - 0x80)) <$> from_utf8 r else None
        | _ => None
        end
      else if in_range 0xE0 0xEF b0 then
        match r with
        | b1 :: b2 :: r =>
            let c := (b0 - 0xE0) * 4096 + (b1 - 0x80) * 64 + (b2 - 0x80) in
            if is_cont b1 && is_cont b2 && (0x800 <=? c) && negb (is_surrogate c)
            then cons c <$> from_utf8 r else None
        | _ => None
        end
      else if in_range 0xF0 0xF4 b0 then
        match r with
        | b1 :: b2 :: b3 :: r =>
            let c := (b0 - 0xF0) * 262144 + (b1 - 0x80) * 4096 + (b2 - 0x80) * 64 + (b3 - 0x80) in
            if is_cont b1 && is_cont b2 && is_cont b3 && (0x10000 <=? c) && (c <=? 0x10FFFF)
            then cons c <$> from_utf8 r else None
        | _ => None
        end
      else None
  end.

(** [String::from_utf8_lossy]: each longest prefix of a well-formed sequence
    that cannot be completed, and each stray byte, becomes U+FFFD. *)
Definition second_ok (b0 b1 : Z) : bool :=
  if b0 =? 0xE0 then in_range 0xA0 0xBF b1
  else if b0 =? 0xED then in_range 0x80 0x9F b1
  else if b0 =? 0xF0 then in_range 0x90 0xBF b1
  else if b0 =? 0xF4 then in_range 0x80 0x8F b1
  else is_cont b1.
Fixpoint from_utf8_lossy (b : list Z) : rstr :=
  match b with
  | [] => []
  | b0 :: r =>
      if in_range 0 0x7F b0 then b0 :: from_utf8_lossy r
      else if in_range 0xC2 0xDF b0 then
        match r with
        | b1 :: r1 =>
            if is_cont b1 then ((b0 - 0xC0) * 64 + (b1 - 0x80)) :: from_utf8_lossy r1 else 0xFFFD :: from_utf8_lossy r
        | [] => [0xFFFD]
        end
      else if in_range 0xE0 0xEF b0 then
        match r with
        | b1 :: r1 =>
            if second_ok b0 b1 then
              match r1 with
              | b2 :: r2 =>
                  if is_cont b2
                  then ((b0 - 0xE0) * 4096 + (b1 - 0x80) * 64 + (b2 - 0x80)) :: from_utf8_lossy r2
                  else 0xFFFD :: from_utf8_lossy r1
              | [] => [0xFFFD]
              end
            else 0xFFFD :: from_utf8_lossy r
        | [] => [0xFFFD]
        end
      else if in_range 0xF0 0xF4 b0 then
        match r with
        | b1 :: r1 =>
            if second_ok b0 b1 then
              match r1 with
              | b2 :: r2 =>
                  if is_cont b2 then
                    match r2 with
                    | b3 :: r3 =>
                        if is_cont b3
                        then ((b0 - 0xF0) * 262144 + (b1 - 0x80) * 4096 + (b2 - 0x80) * 64 + (b3 - 0x80))
                               :: from_utf8_lossy r3
                        else 0xFFFD :: from_utf8_lossy r2
                    | [] => [0xFFFD]
                    end
                  else 0xFFFD :: from_utf8_lossy r1
              | [] => [0xFFFD]
              end
            else 0xFFFD :: from_utf8_lossy r
        | [] => [0xFFFD]
        end
      else 0xFFFD :: from_utf8_lossy r
  end.

(** A Rust [char]. *)
Definition is_scalar (c : Z) : bool := in_range 0 0x10FFFF c && negb (is_surrogate c).

(** [str::len], [str::chars().count()], [str::is_empty] *)
Definition str_len (s : rstr) : Z := Z.of_nat (length (utf8 s)).
Definition chars_count (s : rstr) : Z := Z.of_nat (length s).
Definition str_is_empty (s : rstr) : bool := match s with [] => true | _ => false end.

Definition is_ascii_digit (c : Z) : bool := in_range 48 57 c.
Definition is_ascii_uppercase (c : Z) : bool := in_range 65 90 c.
Definition is_ascii_lowercase (c : Z) : bool := in_range 97 122 c.
Definition is_ascii_alphabetic (c : Z) : bool := is_ascii_uppercase c || is_ascii_lowercase c.
Definition is_ascii_alphanumeric (c : Z) : bool := is_ascii_alphabetic c || is_ascii_digit c.
Definition to_ascii_lowercase (c : Z) : Z := if is_ascii_uppercase c then c + 32 else c.
Definition to_ascii_uppercase (c : Z) : Z := if is_ascii_lowercase c then c - 32 else c.

(** [char::is_control]: general category Cc. *)
Definition is_control (c : Z) : bool := in_range 0 0x1F c || in_range 0x7F 0x9F c.

(** [char::is_whitespace]: the [White_Space] property. *)
Definition is_whitespace (c : Z) : bool :=
  in_range 9 13 c || (c =? 32) || (c =? 0x85) || (c =? 0xA0) || (c =? 0x1680)
  || in_range 0x2000 0x200A c || in_range 0x2028 0x2029 c || (c =? 0x202F)
  || (c =? 0x205F) || (c =? 0x3000).

Fixpoint drop_while {A} (p : A -> bool) (l : list A) : list A :=
  match l with
  | [] => []
  | x :: l' => if p x then drop_while p l' else l
  end.

Definition trim_start (s : rstr) : rstr := drop_while is_whitespace s.
Definition trim_end (s : rstr) : rstr := reverse (drop_while is_whitespace (reverse s)).
(** [str::trim] *)
Definition trim (s : rstr) : rstr := trim_end (trim_start s).

Definition contains_char (c : Z) (s : rstr) : bool := existsb (Z.eqb c) s.

(** [value.contains(['\0', '\r', '\n'])] *)
Definition contains_line_break (s : rstr) : bool :=
  existsb (fun c => (c =? 0) || (c =? 13) || (c =? 10)) s.

Fixpoint starts_with (p s : rstr) : bool :=
  match p, s with
  | [], _ => true
  | _, [] => false
  | a :: p, b :: s => (a =? b) && starts_with p s
  end.

Definition strip_prefix (p s : rstr) : option rstr :=
  if starts_with p s then Some (drop (length p) s) else None.

(** [str::strip_suffix], [str::trim_end_matches] of a set of characters *)
Definition strip_suffix (p s : rstr) : option rstr := reverse <$> strip_prefix (reverse p) (reverse s).
Definition trim_end_matches (p : Z -> bool) (s : rstr) : rstr := reverse (drop_while p (reverse s)).

(** [str::contains(&str)] *)
Fixpoint str_contains (p s : rstr) : bool :=
  starts_with p s || match s with [] => false | _ :: s => str_contains p s end.

(** [str::eq_ignore_ascii_case] *)
Definition eq_ignore_ascii_case (a b : rstr) : bool :=
  str_eqb (to_ascii_lowercase <$> a) (to_ascii_lowercase <$> b).

Definition str_to_ascii_lowercase (s : rstr) : rstr := to_ascii_lowercase <$> s.

(** [encode_utf16().count()] *)
Definition utf16_count (s : rstr) : Z :=
  foldr (fun c n => (if c <? 0x10000 then 1 else 2) + n) 0 s.

(** [str::encode_utf16], and the prefix of a buffer overwritten by a call *)
Definition utf16_char (c : Z) : list Z :=
  if c <? 0x10000 then [c] else [0xD800 + Z.shiftr (c - 0x10000) 10; 0xDC00 + Z.land (c - 0x10000) 0x3FF].
Definition encode_utf16 (s : rstr) : list Z := flat_map utf16_char s.
Fixpoint overwrite (destination source : list Z) : list Z :=
  match destination, source with
  | _ :: destination, s :: source => s :: overwrite destination source
  | _, _ => destination
  end.

(** [String::from_utf16]: surrogates must come in pairs. *)
Fixpoint from_utf16 (units : list Z) : option rstr :=
  match units with
  | [] => Some []
  | u :: units =>
      if in_range 0xD800 0xDBFF u then
        match units with
        | v :: units =>
            if in_range 0xDC00 0xDFFF v
            then cons (0x10000 + (u - 0xD800) * 1024 + (v - 0xDC00)) <$> from_utf16 units else None
        | [] => None
        end
      else if in_range 0xDC00 0xDFFF u then None
      else cons u <$> from_utf16 units
  end.

(** [OsStr::to_string_lossy]: an unpaired surrogate becomes U+FFFD. *)
Definition to_string_lossy (s : rstr) : rstr :=
  (fun c => if is_surrogate c then 0xFFFD else c) <$> s.

(** [u64::to_string]; a [u64] has at most 20 digits. *)
Fixpoint digits_of (fuel : nat) (n : Z) (acc : rstr) : rstr :=
  match fuel with
  | O => acc
  | S fuel =>
      let acc := (48 + n mod 10) :: acc in
      if n <? 10 then acc else digits_of fuel (n / 10) acc
  end.
Definition to_string (n : Z) : rstr := digits_of 20 n [].
(** [i32::to_string] *)
Definition i32_to_string (n : Z) : rstr := if n <? 0 then 45 :: to_string (- n) else to_string n.

(** [str::to_lowercase] follows the Unicode Character Database, whose tables
    are data outside the sources: the function is a parameter, and what the
    code relies on is its documented value on ASCII text. *)
Class UnicodeData := { str_to_lowercase : rstr -> rstr }.
Definition is_ascii (s : rstr) : bool := forallb (in_range 0 127) s.
Class UnicodeLaws `{UnicodeData} : Prop :=
  { to_lowercase_ascii s : is_ascii s = true -> str_to_lowercase s = str_to_ascii_lowercase s }.

(** ** [BTreeMap] *)
Class KeyOrder (K : Type) := {
  key_ltb : K -> K -> bool;
  key_ltb_irrefl k : key_ltb k k = false;
  key_ltb_trans a b c : key_ltb a b = true -> key_ltb b c = true -> key_ltb a c = true;
  key_ltb_total a b : key_ltb a b = false -> key_ltb b a = false -> a = b
}.

Section btree.
Context {K V : Type} `{KeyOrder K}.

(** The entries in key order, as [BTreeMap]'s iterators yield them. *)
Definition btree_insert : K -> V -> list (K * V) -> list (K * V) :=
  fix go k v m :=
    match m with
    | [] => [(k, v)]
    | (k', v') :: m' =>
        if key_ltb k k' then (k, v) :: m
        else if key_ltb k' k then (k', v') :: go k v m'
        else (k, v) :: m'
    end.

Fixpoint btree_get (k : K) (m : list (K * V)) : option V :=
  match m with
  | [] => None
  | (k', v') :: m' =>
      if key_ltb k k' then None
      else if key_ltb k' k then btree_get k m'
      else Some v'
  end.

Fixpoint btree_remove (k : K) (m : list (K * V)) : list (K * V) :=
  match m with
  | [] => []
  | (k', v') :: m' =>
      if key_ltb k k' then m
      else if key_ltb k' k then (k', v') :: btree_remove k m'
      else m'
  end.

Definition btree_contains_key (k : K) (m : list (K * V)) : bool :=
  match btree_get k m with Some _ => true | None => false end.

Definition btree_keys (m : list (K * V)) : list K := m.*1.
Definition btree_values (m : list (K * V)) : list V := m.*2.

Definition key_lt (a b : K * V) : Prop := key_ltb a.1 b.1 = true.

(** The representation invariant: strictly increasing keys. *)
Definition btree_ok (m : list (K * V)) : Prop := StronglySorted key_lt m.

Lemma key_ltb_asym a b : key_ltb a b = true -> key_ltb b a = false.
Proof.
  intros Hab. destruct (key_ltb b a) eqn:Hba; [|done].
  pose proof (key_ltb_trans _ _ _ Hab Hba). pose proof (key_ltb_irrefl a). congruence.
Qed.

Lemma btree_ok_nil : btree_ok [].
Proof. constructor. Qed.

Lemma btree_insert_Forall (P : K * V -> Prop) k v m :
  P (k, v) -> Forall P m -> Forall P (btree_insert k v m).
Proof.
  induction m as [|[k' v'] m IH]; cbn; intros Hk Hm; [auto|].
  apply Forall_cons in Hm as [? ?].
  destruct (key_ltb k k'), (key_ltb k' k); auto.
Qed.

Lemma btree_insert_ok k v m : btree_ok m -> btree_ok (btree_insert k v m).
Proof.
  unfold btree_ok. induction m as [|[k' v'] m IH]; cbn; intros Hm; [auto using SSorted_nil, SSorted_cons|].
  inversion_clear Hm as [|? ? Hs Hf].
  destruct (key_ltb k k') eqn:E1.
  - constructor; [by constructor|]. constructor; [done|].
    eapply Forall_impl; [done|]. intros [a b]; unfold key_lt; cbn; eauto using key_ltb_trans.
  - destruct (key_ltb k' k) eqn:E2.
    + constructor; [auto|]. by apply btree_insert_Forall.
    + rewrite <- (key_ltb_total k k') in Hf by done. by constructor.
Qed.

Lemma btree_get_below k m : Forall (fun p => key_ltb k p.1 = true) m -> btree_get k m = None.
Proof. destruct m as [|[k' v'] m]; cbn; [done|]. intros [Hk _]%Forall_cons. cbn in Hk. by rewrite Hk. Qed.

Lemma btree_get_insert k v m k' :
  btree_ok m ->
  btree_get k' (btree_insert k v m) =
  if key_ltb k k' || key_ltb k' k then btree_get k' m else Some v.
Proof.
  unfold btree_ok. induction m as [|[k0 v0] m IH]; cbn; intros Hm.
  { destruct (key_ltb k' k), (key_ltb k k'); done. }
  inversion_clear Hm as [|? ? Hs Hf].
  destruct (key_ltb k k0) eqn:E1; cbn.
  { destruct (key_ltb k' k) eqn:E2; cbn.
    - rewrite orb_true_r. by rewrite (key_ltb_trans _ _ _ E2 E1).
    - destruct (key_ltb k k') eqn:E3; done. }
  destruct (key_ltb k0 k) eqn:E2; cbn.
  { destruct (key_ltb k' k0) eqn:E3; cbn.
    - by rewrite (key_ltb_trans _ _ _ E3 E2), orb_true_r.
    - destruct (key_ltb k0 k') eqn:E4; [by apply IH|].
      rewrite <- (key_ltb_total _ _ E3 E4) in E2. by rewrite E2, orb_true_r. }
  rewrite (key_ltb_total _ _ E1 E2).
  destruct (key_ltb k' k0) eqn:E3, (key_ltb k0 k') eqn:E4; done.
Qed.

Lemma btree_get_insert_eq k v m : btree_ok m -> btree_get k (btree_insert k v m) = Some v.
Proof. intros. rewrite btree_get_insert by done. by rewrite key_ltb_irrefl. Qed.

Lemma btree_get_elem k v m : btree_get k m = Some v -> (k, v) ∈ m.
Proof.
  induction m as [|[k' v'] m IH]; cbn; [done|].
  destruct (key_ltb k k') eqn:E1; [done|].
  destruct (key_ltb k' k) eqn:E2; [set_solver|].
  intros [= ->]. rewrite (key_ltb_total _ _ E1 E2). set_solver.
Qed.

Lemma btree_insert_elem k v m p : p ∈ btree_insert k v m -> p = (k, v) \/ p ∈ m.
Proof.
  induction m as [|[k' v'] m IH]; cbn; [set_solver|].
  destruct (key_ltb k k'), (key_ltb k' k); set_solver.
Qed.

Lemma btree_remove_elem k m p : p ∈ btree_remove k m -> p ∈ m.
Proof.
  induction m as [|[k' v'] m IH]; cbn; [done|].
  destruct (key_ltb k k'), (key_ltb k' k); set_solver.
Qed.

Lemma btree_get_insert_ne k v m k' : btree_ok m -> k' <> k -> btree_get k' (btree_insert k v m) = btree_get k' m.
Proof.
  intros Hm Hk. rewrite btree_get_insert by done. destruct (key_ltb k k') eqn:E1; [done|].
  destruct (key_ltb k' k) eqn:E2; [done|]. by destruct Hk, (key_ltb_total _ _ E1 E2).
Qed.

Lemma btree_remove_ok k m : btree_ok m -> btree_ok (btree_remove k m).
Proof.
  unfold btree_ok. induction m as [|[k' v'] m IH]; cbn; intros Hm; [done|]. inversion_clear Hm as [|? ? Hs Hf].
  destruct (key_ltb k k'); [by constructor|]. destruct (key_ltb k' k); [|done]. constructor; [auto|].
  apply Forall_forall. intros p Hp%btree_remove_elem. by eapply Forall_forall in Hf.
Qed.

Lemma btree_get_remove_eq k m : btree_ok m -> btree_get k (btree_remove k m) = None.
Proof.
  unfold btree_ok. induction m as [|[k' v'] m IH]; cbn; intros Hm; [done|]. inversion_clear Hm as [|? ? Hs Hf].
  destruct (key_ltb k k') eqn:E1; cbn; [by rewrite E1|]. destruct (key_ltb k' k) eqn:E2; cbn; [rewrite E1, E2; auto|].
  rewrite (key_ltb_total _ _ E1 E2). by apply btree_get_below.
Qed.

Lemma btree_get_remove_ne k m k' : btree_ok m -> k' <> k -> btree_get k' (btree_remove k m) = btree_get k' m.
Proof.
  unfold btree_ok. induction m as [|[k0 v0] m IH]; cbn; intros Hm Hk; [done|]. inversion_clear Hm as [|? ? Hs Hf].
  destruct (key_ltb k k0) eqn:E1; cbn; [done|]. destruct (key_ltb k0 k) eqn:E2; cbn; [by rewrite IH|].
  pose proof (key_ltb_total _ _ E1 E2) as ->. destruct (key_ltb k' k0) eqn:E3.
  - apply btree_get_below. eapply Forall_impl; [exact Hf|]. intros p. unfold key_lt. cbn. by apply key_ltb_trans.
  - destruct (key_ltb k0 k') eqn:E4; [done|]. by destruct Hk, (key_ltb_total _ _ E3 E4).
Qed.

Lemma btree_ok_NoDup m : btree_ok m -> NoDup (fst <$> m).
Proof.
  unfold btree_ok. induction 1 as [|[k v] m Hs IH Hf]; cbn; [constructor|]. constructor; [|done].
  intros ([k' v'] & -> & Hin)%list_elem_of_fmap. eapply Forall_forall in Hf; [|exact Hin]. unfold key_lt in Hf. cbn in Hf.
  by rewrite key_ltb_irrefl in Hf.
Qed.

Lemma btree_elem_get k v m : btree_ok m -> (k, v) ∈ m -> btree_get k m = Some v.
Proof.
  unfold btree_ok. induction 1 as [|[k' v'] m Hs IH Hf]; intros Hin; [by apply elem_of_nil in Hin|].
  apply elem_of_cons in Hin as [[= -> ->]|Hin]; cbn; [by rewrite key_ltb_irrefl|].
  eapply Forall_forall in Hf; [|exact Hin]. unfold key_lt in Hf. cbn in Hf. rewrite (key_ltb_asym _ _ Hf), Hf. by apply IH.
Qed.
End btree.

(** Strings order by their bytes, which for UTF-8 is the order of the code
    points. *)
Fixpoint str_ltb (a b : rstr) : bool :=
  match a, b with
  | _, [] => false
  | [], _ => true
  | x :: a, y :: b => (x <? y) || ((x =? y) && str_ltb a b)
  end.

#[global] Instance str_order : KeyOrder rstr.
Proof.
  refine {| key_ltb := str_ltb |}.
  - intros k; induction k as [|x k IH]; cbn; [done|]. rewrite IH, Z.ltb_irrefl, andb_false_r. done.
  - intros a; induction a as [|x a IH]; intros [|y b] [|z c]; cbn; try done.
    rewrite !orb_true_iff, !andb_true_iff, !Z.ltb_lt, !Z.eqb_eq.
    intros [?|[-> ?]] [?|[-> ?]]; eauto; left; lia.
  - intros a; induction a as [|x a IH]; intros [|y b]; cbn; try done.
    rewrite !orb_false_iff, !andb_false_iff, !Z.ltb_ge, !Z.eqb_neq.
    intros [? ?] [? ?]. assert (x = y) as -> by lia. f_equal. apply IH; naive_solver.
Defined.

(** A fieldless enum orders by its discriminant. *)
Definition index_order {K} (index : K -> Z) (inj : forall a b, index a = index b -> a = b) : KeyOrder K.
Proof.
  refine {| key_ltb a b := index a <? index b |}.
  - intros k. apply Z.ltb_irrefl.
  - intros a b c. rewrite !Z.ltb_lt. lia.
  - intros a b. rewrite !Z.ltb_ge. intros. apply inj. lia.
Defined.

(** ** Lemmas on strings *)
Lemma str_eqb_true a b : str_eqb a b = true <-> a = b.
Proof. unfold str_eqb. by rewrite bool_decide_eq_true. Qed.

Lemma str_eqb_refl a : str_eqb a a = true.
Proof. by apply str_eqb_true. Qed.

Lemma starts_with_app p s : starts_with p (p ++ s) = true.
Proof. induction p as [|x p IH]; cbn; [done|]. by rewrite Z.eqb_refl. Qed.

Lemma starts_with_true p s : starts_with p s = true <-> exists r, s = p ++ r.
Proof.
  split; [|intros [r ->]; apply starts_with_app].
  revert s; induction p as [|x p IH]; intros s; cbn; [by eexists|].
  destruct s as [|y s]; [done|]. intros [->%Z.eqb_eq [r ->]%IH]%andb_true_iff. by exists r.
Qed.

Lemma strip_prefix_Some p s r : strip_prefix p s = Some r <-> s = p ++ r.
Proof.
  unfold strip_prefix. split.
  - destruct (starts_with p s) eqn:E; [|done]. apply starts_with_true in E as [r' ->].
    intros [= <-]. by rewrite drop_app_length.
  - intros ->. by rewrite starts_with_app, drop_app_length.
Qed.

Lemma chars_le_len s : chars_count s <= str_len s.
Proof.
  unfold chars_count, str_len, utf8. apply Nat2Z.inj_le.
  induction s as [|c s IH]; cbn; [done|]. rewrite length_app.
  assert (1 <= length (utf8_char c))%nat by (unfold utf8_char; repeat case_match; cbn; lia). lia.
Qed.

Lemma contains_line_break_false s :
  contains_line_break s = false <-> 0 ∉ s /\ 13 ∉ s /\ 10 ∉ s.
Proof.
  unfold contains_line_break. rewrite existsb_false_Forall, Forall_forall. split.
  - intros Hs. repeat split; intros Hin; by specialize (Hs _ Hin).
  - intros (? & ? & ?) x Hx. rewrite !orb_false_iff, !Z.eqb_neq. repeat split; naive_solver.
Qed.

(** Decoding what was encoded gives the text back. *)
Lemma in_range_eval lo hi x : lo <= x <= hi -> in_range lo hi x = true.
Proof. apply in_range_true. Qed.
Lemma in_range_above lo hi x : hi < x -> in_range lo hi x = false.
Proof. intros. apply in_range_false. lia. Qed.

Ltac decode_range :=
  repeat match goal with
  | |- context [in_range ?lo ?hi ?x] =>
      first [rewrite (in_range_eval lo hi x) by lia | rewrite (in_range_above lo hi x) by lia]
  | |- context [?a <=? ?b] => rewrite (proj2 (Z.leb_le a b)) by lia
  end.

(** Numbers are written in digits. *)
Lemma digits_of_digits fuel n acc :
  0 <= n -> exists ds, digits_of fuel n acc = ds ++ acc /\ forallb is_ascii_digit ds = true /\ (fuel <> 0%nat -> ds <> []).
Proof.
  revert n acc. induction fuel as [|fuel IH]; intros n acc Hn; [by exists []|]. cbn [digits_of].
  assert (is_ascii_digit (48 + n mod 10) = true) as Hd.
  { apply in_range_true. pose proof (Z.mod_pos_bound n 10). lia. }
  destruct (n <? 10); [exists [48 + n mod 10]; cbn [forallb app]; by rewrite Hd|].
  destruct (IH (n / 10) ((48 + n mod 10) :: acc)) as (ds & -> & Hds & _); [apply Z.div_pos; lia|].
  exists (ds ++ [48 + n mod 10]). rewrite <- app_assoc, forallb_app, Hds. cbn [forallb]. rewrite Hd.
  split_and!; [done..|by destruct ds].
Qed.

Lemma to_string_digits n : 0 <= n -> forallb is_ascii_digit (to_string n) = true /\ to_string n <> [].
Proof.
  intros Hn. destruct (digits_of_digits 20 n [] Hn) as (ds & E & Hd & Hne). unfold to_string. rewrite E, app_nil_r. auto.
Qed.

Lemma from_utf8_char c r : is_scalar c = true -> from_utf8 (utf8_char c ++ r) = cons c <$> from_utf8 r.
Proof.
  unfold is_scalar. intros [Hr Hs]%andb_true_iff. apply in_range_true in Hr. rewrite negb_true_iff in Hs.
  assert (forall n, Z.land n 0x3F = n mod 64) as Hland by (intros; change 0x3F with (Z.ones 6); by rewrite Z.land_ones by lia).
  unfold utf8_char. destruct (Z.ltb_spec c 0x80); [cbn; by decode_range|].
  rewrite !Hland, !Z.shiftr_div_pow2 by lia.
  change (2 ^ 6) with 64. change (2 ^ 12) with (64 * 64). change (2 ^ 18) with (64 * 64 * 64).
  rewrite <- !Z.div_div by lia.
  pose proof (Z.div_mod c 64 ltac:(lia)). pose proof (Z.mod_pos_bound c 64 ltac:(lia)).
  pose proof (Z.div_mod (c / 64) 64 ltac:(lia)). pose proof (Z.mod_pos_bound (c / 64) 64 ltac:(lia)).
  pose proof (Z.div_mod (c / 64 / 64) 64 ltac:(lia)). pose proof (Z.mod_pos_bound (c / 64 / 64) 64 ltac:(lia)).
  destruct (Z.ltb_spec c 0x800); [|destruct (Z.ltb_spec c 0x10000)]; cbn -[Z.add Z.sub Z.mul Z.div Z.modulo];
    unfold is_cont; decode_range; cbn -[Z.add Z.sub Z.mul Z.div Z.modulo];
    match goal with |- context [cons ?x <$> _] => replace x with c by lia end; rewrite ?Hs; decode_range; done.
Qed.

Lemma from_utf8_utf8 s : forallb is_scalar s = true -> from_utf8 (utf8 s) = Some s.
Proof.
  induction s as [|c s IH]; [done|]. cbn [forallb]. intros [Hc Hs]%andb_true_iff.
  change (utf8 (c :: s)) with (utf8_char c ++ utf8 s). by rewrite from_utf8_char, IH.
Qed.

(** One character at a time: its bytes decode alone, and a sequence of more
    than one byte holds no ASCII. *)
Lemma from_utf8_step b s :
  from_utf8 b = Some s -> b = [] /\ s = []
  \/ exists p c r t, b = p ++ r /\ s = c :: t /\ from_utf8 r = Some t /\ (0 < length p)%nat
     /\ (forall r', from_utf8 (p ++ r') = cons c <$> from_utf8 r')
     /\ (length p = 1%nat \/ forall x, x ∈ p -> 0x80 <= x).
Proof.
  destruct b as [|b0 r]; [intros [= <-]; by left|]. cbn [from_utf8]. intros E. right.
  destruct (in_range 0 127 b0) eqn:E0.
  { apply fmap_Some in E as (t & Ht & ->). exists [b0], b0, r, t. split_and!; try done; [cbn; lia| |by left].
    intros r'. cbn [app from_utf8]. by rewrite E0. }
  destruct (in_range 0xC2 0xDF b0) eqn:E1.
  { destruct r as [|b1 r]; [done|]. destruct (is_cont b1) eqn:C1; [|done]. apply fmap_Some in E as (t & Ht & ->).
    eexists [b0; b1], _, r, t. split_and!; try done; [cbn; lia| |].
    - intros r'. cbn [app from_utf8]. by rewrite E0, E1, C1.
    - right. unfold is_cont in *. apply in_range_true in E1, C1. intros x [->|[->|[]%elem_of_nil]%elem_of_cons]%elem_of_cons; lia. }
  destruct (in_range 0xE0 0xEF b0) eqn:E2.
  { destruct r as [|b1 [|b2 r]]; [done..|]. cbv zeta in E. destruct (_ && _) eqn:C; [|done].
    apply fmap_Some in E as (t & Ht & ->). eexists [b0; b1; b2], _, r, t. split_and!; try done; [cbn; lia| |].
    - intros r'. cbn [app from_utf8]. cbv zeta. by rewrite E0, E1, E2, C.
    - right. rewrite !andb_true_iff in C. destruct C as [[[C1 C2] _] _]. unfold is_cont in *. apply in_range_true in E2, C1, C2.
      intros x [->|[->|[->|[]%elem_of_nil]%elem_of_cons]%elem_of_cons]%elem_of_cons; lia. }
  destruct (in_range 0xF0 0xF4 b0) eqn:E3; [|done].
  destruct r as [|b1 [|b2 [|b3 r]]]; [done..|]. cbv zeta in E. destruct (_ && _) eqn:C; [|done].
  apply fmap_Some in E as (t & Ht & ->). eexists [b0; b1; b2; b3], _, r, t. split_and!; try done; [cbn; lia| |].
  - intros r'. cbn [app from_utf8]. cbv zeta. by rewrite E0, E1, E2, E3, C.
  - right. rewrite !andb_true_iff in C. destruct C as [[[[C1 C2] C3] _] _]. unfold is_cont in *. apply in_range_true in E3, C1, C2, C3.
    intros x [->|[->|[->|[->|[]%elem_of_nil]%elem_of_cons]%elem_of_cons]%elem_of_cons]%elem_of_cons; lia.
Qed.

(** Text after text is text, and text can be cut at an ASCII character. *)
Lemma from_utf8_app a b s : from_utf8 a = Some s -> from_utf8 (a ++ b) = app s <$> from_utf8 b.
Proof.
  revert a. induction s as [|c s IH]; intros a [[-> E]|(p & c' & r & t & -> & E & Hr & _ & Hp & _)]%from_utf8_step; try discriminate E.
  - cbn [app]. by destruct (from_utf8 b).
  - injection E as <- <-. rewrite <- app_assoc, Hp, (IH r Hr). by destruct (from_utf8 b).
Qed.

Lemma from_utf8_split a c b s :
  from_utf8 (a ++ c :: b) = Some s -> 0 <= c < 0x80 -> is_Some (from_utf8 a) /\ is_Some (from_utf8 b).
Proof.
  revert a. induction s as [|x s IH]; intros a [[E1 E2]|(p & c' & r & t & E & Es & Hr & Hl & Hp & Hx)]%from_utf8_step Hc; try done.
  { by destruct a. }
  injection Es as <- <-. destruct a as [|a0 a].
  - split; [by eexists|]. destruct p as [|p0 p]; [cbn in Hl; lia|]. injection E as <- E.
    destruct Hx as [Hx|Hx]; [|specialize (Hx c ltac:(left)); lia]. destruct p as [|]; [|cbn in Hx; lia]. cbn in E. rewrite E. by eexists.
  - destruct (decide (length p <= length (a0 :: a))%nat) as [Hle|Hgt].
    + rewrite <- (take_drop (length p) (a0 :: a)), <- app_assoc in E.
      assert (p = take (length p) (a0 :: a) /\ r = drop (length p) (a0 :: a) ++ c :: b) as [Ep Er].
      { symmetry in E. apply app_inj_1 in E; [by destruct E|]. rewrite length_take. lia. }
      rewrite Er in Hr. destruct (IH _ Hr Hc) as [Ha Hb]. split; [|done].
      rewrite <- (take_drop (length p) (a0 :: a)), <- Ep, Hp. by destruct Ha as [? ->].
    + exfalso. destruct Hx as [Hx|Hx]; [cbn in Hgt; lia|]. assert (c ∈ p) as Hin; [|specialize (Hx c Hin); lia].
      apply (f_equal (lookup (length (a0 :: a)))) in E. rewrite lookup_app_r, Nat.sub_diag in E by lia. cbn in E.
      rewrite lookup_app_l in E by (cbn in *; lia). symmetry in E. by eapply list_elem_of_lookup_2.
Qed.

Lemma from_utf8_ascii b : is_ascii b = true -> from_utf8 b = Some b.
Proof.
  unfold is_ascii. induction b as [|c b IH]; [done|]. cbn [forallb from_utf8]. intros [Hc Hb]%andb_true_iff. by rewrite Hc, IH.
Qed.

(** Characters with one-byte encodings are their encodings. *)
Lemma ascii_bytes (P : Z -> bool) s :
  (forall b, P b = true -> in_range 0 127 b = true) -> forallb P (utf8 s) = true -> is_ascii s = true.
Proof.
  intros HP. induction s as [|c s IH]; [done|]. change (utf8 (c :: s)) with (utf8_char c ++ utf8 s).
  rewrite forallb_app. intros [Hc Hs]%andb_true_iff. unfold is_ascii in *. cbn [forallb]. rewrite IH, andb_true_r by done.
  unfold utf8_char in Hc. destruct (Z.ltb_spec c 0x80).
  { cbn in Hc. rewrite andb_true_r in Hc. by apply HP. }
  exfalso. assert (forall n, 0 <= Z.shiftr c n) as Hsh by (intros n; apply Z.shiftr_nonneg; lia).
  destruct (c <? 0x800); [|destruct (c <? 0x10000)]; cbn [forallb] in Hc; apply andb_true_iff in Hc as [Hc%HP%in_range_true _];
    [specialize (Hsh 6)|specialize (Hsh 12)|specialize (Hsh 18)]; lia.
Qed.

Example from_utf8_examples :
  from_utf8 [0xE2; 0x82; 0xAC; 0x41] = Some [0x20AC; 0x41] /\ from_utf8 [0xC0; 0x80] = None
  /\ from_utf8 [0xED; 0xA0; 0x80] = None /\ from_utf8 [0xF0; 0x9F; 0x98; 0x80] = Some [0x1F600].
Proof. repeat split; reflexivity. Qed.

Example from_utf8_lossy_examples :
  from_utf8_lossy [0x41; 0xFF; 0x42] = [0x41; 0xFFFD; 0x42] /\ from_utf8_lossy [0xE2; 0x82; 0x41] = [0xFFFD; 0x41]
  /\ from_utf8_lossy [0xE0; 0x80; 0x80] = [0xFFFD; 0xFFFD; 0xFFFD] /\ from_utf8_lossy [0xF0; 0x9F; 0x98] = [0xFFFD]
  /\ from_utf8_lossy [0xE2; 0x82; 0xAC] = [0x20AC].
Proof. repeat split; reflexivity. Qed.

(** [Read::take(n)] followed by [read_to_end] on a file holding [bytes]. *)
Definition read_up_to (n : Z) (bytes : list Z) : list Z :=
  if Z.of_nat (length bytes) <=? n then bytes else take (Z.to_nat n) bytes.

Lemma read_up_to_take n bytes : read_up_to n bytes = take (Z.to_nat n) bytes.
Proof.
  unfold read_up_to. destruct (_ <=? _) eqn:E; [|done]. apply Z.leb_le in E. symmetry. apply take_ge. lia.
Qed.

Lemma read_up_to_within n bytes : Z.of_nat (length bytes) <= n -> read_up_to (n + 1) bytes = bytes.
Proof. intros Hl. rewrite read_up_to_take. apply take_ge. lia. Qed.
