(* ===== verification/RustNet.v ===== *)
(** * [std::net::IpAddr] parsing

    [host.parse::<IpAddr>()] followed by [is_loopback], as
    [validate_signed_transport] uses it: the recursive-descent parser of
    [core::net::parser], with the rest of the input as its state. *)
From stdpp Require Import base option list.
From S2P Require Import Prelude RustStd.

Definition to_digit (radix c : Z) : option Z :=
  let d :=
    if is_ascii_digit c then Some (c - 48)
    else if in_range 97 122 c then Some (c - 87)
    else if in_range 65 90 c then Some (c - 55)
    else None in
  d ← d; if d <? radix then Some d else None.

(** The digits at the front: value (if it stays below [limit]), count, rest. *)
Fixpoint read_digits (radix limit acc count : Z) (s : rstr) : option (Z * Z * rstr) :=
  match s with
  | c :: s' =>
      match to_digit radix c with
      | Some d =>
          let acc := acc * radix + d in
          if limit <=? acc then None else read_digits radix limit acc (count + 1) s'
      | None => Some (acc, count, s)
      end
  | [] => Some (acc, count, [])
  end.

(** [Parser::read_number] with [max_digits] and [allow_zero_prefix]. *)
Definition read_number (radix limit max_digits : Z) (allow_zero_prefix : bool) (s : rstr) : option (Z * rstr) :=
  let leading_zero := match s with c :: _ => c =? 48 | [] => false end in
  '(n, count, rest) ← read_digits radix limit 0 0 s;
  if (count =? 0) || (max_digits <? count) then None
  else if negb allow_zero_prefix && leading_zero && (1 <? count) then None
  else Some (n, rest).

Definition read_char (c : Z) (s : rstr) : option rstr :=
  match s with x :: s' => if x =? c then Some s' else None | [] => None end.

(** [Parser::read_separator]: every group but the first is preceded by [sep]. *)
Definition read_separator {A} (sep : Z) (first : bool) (f : rstr -> option (A * rstr)) (s : rstr) : option (A * rstr) :=
  if first then f s else s ← read_char sep s; f s.

Definition read_octet (first : bool) (s : rstr) : option (Z * rstr) :=
  read_separator 46 first (read_number 10 256 3 false) s.

Definition read_ipv4_addr (s : rstr) : option (list Z * rstr) :=
  '(a, s) ← read_octet true s;
  '(b, s) ← read_octet false s;
  '(c, s) ← read_octet false s;
  '(d, s) ← read_octet false s;
  Some ([a; b; c; d], s).

(** [read_groups] with [slots] groups left and [first] at index zero: the
    groups read, whether an embedded IPv4 address ended them, the rest. *)
Fixpoint read_groups (slots : nat) (first : bool) (s : rstr) : list Z * bool * rstr :=
  match slots with
  | O => ([], false, s)
  | S slots_left =>
      match (if (0 <? Z.of_nat slots_left)
             then read_separator 58 first read_ipv4_addr s else None) with
      | Some ([a; b; c; d], s') => ([a * 256 + b; c * 256 + d], true, s')
      | _ =>
          match read_separator 58 first (read_number 16 65536 4 true) s with
          | Some (g, s') =>
              let '(gs, v4, s'') := read_groups slots_left false s' in (g :: gs, v4, s'')
          | None => ([], false, s)
          end
      end
  end.

Definition read_ipv6_addr (s : rstr) : option (list Z * rstr) :=
  let '(head, head_ipv4, s1) := read_groups 8 true s in
  if (Z.of_nat (length head) =? 8) then Some (head, s1)
  else if head_ipv4 then None
  else
    s2 ← read_char 58 s1;
    s3 ← read_char 58 s2;
    let '(tail, _, s4) := read_groups (8 - (length head + 1)) true s3 in
    Some (head ++ replicate (8 - length head - length tail) 0 ++ tail, s4).

Inductive IpAddr : Type := V4 (octets : list Z) | V6 (segments : list Z).

Definition parse_ip_addr (s : rstr) : option IpAddr :=
  match read_ipv4_addr s with
  | Some (octets, rest) => if str_is_empty rest then Some (V4 octets) else None
  | None =>
      '(segments, rest) ← read_ipv6_addr s;
      if str_is_empty rest then Some (V6 segments) else None
  end.

(** [IpAddr::is_loopback]: 127.0.0.0/8 or ::1 *)
Definition is_loopback (a : IpAddr) : bool :=
  match a with
  | V4 (o :: _) => o =? 127
  | V4 [] => false
  | V6 segments => bool_decide (segments = [0; 0; 0; 0; 0; 0; 0; 1])
  end.

Example loopback_v4 : is_loopback <$> parse_ip_addr (lit "127.0.0.1") = Some true.
Proof. reflexivity. Qed.
Example loopback_v6 : is_loopback <$> parse_ip_addr (lit "::1") = Some true.
Proof. reflexivity. Qed.
Example embedded_v4 :
  parse_ip_addr (lit "1:2::3.4.5.6") = Some (V6 [1; 2; 0; 0; 0; 0; 772; 1286]).
Proof. reflexivity. Qed.
Example not_an_address :
  parse_ip_addr <$> [lit "127.0.0.01"; lit "127.0.0"; lit "256.0.0.1"; lit "[::1]"; lit "localhost"; lit "1.2.3.4x"]
  = [None; None; None; None; None; None].
Proof. reflexivity. Qed.
