(* ===== verification/WinPath.v ===== *)
(** * [std::path] on Windows

    A path is its [OsStr]; [components] is the parser of
    [std::path::Components] with the prefix grammar of
    [std::sys::path::windows]. *)
From stdpp Require Import base option list.
From S2P Require Import Prelude RustStd.

Abbreviation PathBuf := (list Z) (only parsing).

Definition backslash : Z := 92.
Definition slash : Z := 47.
Definition is_sep (c : Z) : bool := (c =? backslash) || (c =? slash).
Definition is_verbatim_sep (c : Z) : bool := c =? backslash.

Inductive Prefix : Type :=
| Verbatim (value : rstr)
| VerbatimUNC (server share : rstr)
| VerbatimDisk (drive : Z)
| DeviceNS (device : rstr)
| UNC (server share : rstr)
| Disk (drive : Z).

Inductive Component : Type :=
| CPrefix (prefix : Prefix)
| RootDir
| CurDir
| ParentDir
| Normal (name : rstr).

#[global] Instance Prefix_eq_dec : EqDecision Prefix.
Proof. solve_decision. Defined.
#[global] Instance Component_eq_dec : EqDecision Component.
Proof. solve_decision. Defined.

(** [parse_next_component]: up to the next separator, and what follows it. *)
Fixpoint parse_next_component (sep : Z -> bool) (s : rstr) : rstr * rstr :=
  match s with
  | [] => ([], [])
  | c :: s' =>
      if sep c then ([], s')
      else let '(comp, rest) := parse_next_component sep s' in (c :: comp, rest)
  end.

Definition parse_drive (s : rstr) : option Z :=
  match s with
  | d :: 58 :: _ => if is_ascii_alphabetic d then Some (to_ascii_uppercase d) else None
  | _ => None
  end.

Definition parse_drive_exact (s : rstr) : option Z :=
  match s !! 2%nat with
  | Some c => if is_sep c then parse_drive s else None
  | None => parse_drive s
  end.

(** The prefix scanner compares with forward slashes read as backslashes. *)
Definition normalize_seps (s : rstr) : rstr :=
  (fun c => if c =? slash then backslash else c) <$> s.

Definition scan (pattern s : rstr) : option rstr :=
  if starts_with pattern (normalize_seps (take (length pattern) s)) then Some (drop (length pattern) s) else None.

Definition parse_prefix (path : rstr) : option Prefix :=
  match scan (lit "\\") path with
  | Some rest =>
      match scan (lit "?\") rest with
      | Some body =>
          if existsb (Z.eqb slash) (take 4 path) then
            (* mixed separators: not a verbatim path *)
            let '(server, more) := parse_next_component is_sep rest in
            let '(share, _) := parse_next_component is_sep more in
            if negb (str_is_empty server) && negb (str_is_empty share) then Some (UNC server share) else None
          else
            match scan (lit "UNC\") body with
            | Some unc =>
                let '(server, more) := parse_next_component is_verbatim_sep unc in
                let '(share, _) := parse_next_component is_verbatim_sep more in
                Some (VerbatimUNC server share)
            | None =>
                match parse_drive_exact body with
                | Some drive => Some (VerbatimDisk drive)
                | None => Some (Verbatim (parse_next_component is_verbatim_sep body).1)
                end
            end
      | None =>
          match scan (lit ".\") rest with
          | Some device => Some (DeviceNS (parse_next_component is_sep device).1)
          | None =>
              let '(server, more) := parse_next_component is_sep rest in
              let '(share, _) := parse_next_component is_sep more in
              if negb (str_is_empty server) && negb (str_is_empty share) then Some (UNC server share) else None
          end
      end
  | None => Disk <$> parse_drive path
  end.

Definition with_share (share : rstr) : nat :=
  if str_is_empty share then 0%nat else S (length share).

(** [Prefix::len] *)
Definition prefix_len (p : Prefix) : nat :=
  match p with
  | Verbatim x => 4 + length x
  | VerbatimUNC x y => 8 + length x + with_share y
  | VerbatimDisk _ => 6
  | UNC x y => 2 + length x + with_share y
  | DeviceNS x => 4 + length x
  | Disk _ => 2
  end%nat.

Definition is_verbatim (p : Prefix) : bool :=
  match p with Verbatim _ | VerbatimUNC _ _ | VerbatimDisk _ => true | _ => false end.

Definition has_implicit_root (p : Prefix) : bool :=
  match p with Disk _ => false | _ => true end.

(** What is left of the path after its prefix. *)
Definition body_of (path : rstr) (prefix : option Prefix) : rstr :=
  match prefix with Some p => drop (prefix_len p) path | None => path end.

Definition has_physical_root (body : rstr) : bool :=
  match body with c :: _ => is_sep c | [] => false end.

Definition has_root (path : rstr) : bool :=
  let prefix := parse_prefix path in
  has_physical_root (body_of path prefix)
  || match prefix with Some p => has_implicit_root p | None => false end.

(** [Path::is_absolute] on Windows *)
Definition is_absolute (path : rstr) : bool :=
  has_root path && match parse_prefix path with Some _ => true | None => false end.

(** [parse_single_component] *)
Definition parse_single (verbatim : bool) (comp : rstr) : option Component :=
  if str_eqb comp (lit ".") then (if verbatim then Some CurDir else None)
  else if str_eqb comp (lit "..") then Some ParentDir
  else if str_is_empty comp then None
  else Some (Normal comp).

(** The body, split at separators; [acc] is the current component, reversed. *)
Fixpoint split_body (sep : Z -> bool) (acc s : rstr) : list rstr :=
  match s with
  | [] => [reverse acc]
  | c :: s => if sep c then reverse acc :: split_body sep [] s else split_body sep (c :: acc) s
  end.

Definition body_components (verbatim : bool) (body : rstr) : list Component :=
  omap (parse_single verbatim) (split_body (if verbatim then is_verbatim_sep else is_sep) [] body).

(** [include_cur_dir]: a relative path that starts with [.] *)
Definition leading_cur_dir (body : rstr) : bool :=
  match body with
  | [46] => true
  | 46 :: c :: _ => is_sep c
  | _ => false
  end.

(** [Path::components] *)
Definition components (path : rstr) : list Component :=
  let prefix := parse_prefix path in
  let body := body_of path prefix in
  let verbatim := match prefix with Some p => is_verbatim p | None => false end in
  match prefix with Some p => [CPrefix p] | None => [] end ++
  (if has_physical_root body then RootDir :: body_components verbatim (drop 1 body)
   else match prefix with
        | Some p =>
            if has_implicit_root p && negb (is_verbatim p)
            then RootDir :: body_components verbatim body
            else body_components verbatim body
        | None =>
            if leading_cur_dir body then CurDir :: body_components verbatim (drop 1 body)
            else body_components verbatim body
        end).

(** [Path::parent]: without the last component and the separators before it,
    the root excepted; a path that ends in its prefix or root has none. *)
Definition parent (path : rstr) : option rstr :=
  let prefix := parse_prefix path in
  let body := body_of path prefix in
  let sep := if match prefix with Some p => is_verbatim p | None => false end then is_verbatim_sep else is_sep in
  let head := take (length path - length body) path in
  match drop_while sep (reverse body) with
  | [] => None
  | trimmed =>
      let before := drop_while (fun c => negb (sep c)) trimmed in
      match drop_while sep before with
      | [] => Some (head ++ take 1 before)
      | kept => Some (head ++ reverse kept)
      end
  end.

(** [Path::file_name]: the last component, when it is a name. *)
Definition file_name (path : rstr) : option rstr :=
  match last (components path) with Some (Normal name) => Some name | _ => None end.

(** [if let Some(Component::Prefix(prefix)) = path.components().next()] *)
Definition first_prefix (path : rstr) : option Prefix :=
  match components path with CPrefix p :: _ => Some p | _ => None end.

Lemma body_components_no_prefix verbatim body p :
  CPrefix p ∉ body_components verbatim body.
Proof.
  unfold body_components. rewrite list_elem_of_omap. intros (comp & _ & Hc).
  unfold parse_single in Hc. repeat case_match; naive_solver.
Qed.

(** Only the front of a path is a prefix, and it is the one [parse_prefix]
    recognises. *)
Lemma first_prefix_spec path : first_prefix path = parse_prefix path.
Proof.
  unfold first_prefix, components. destruct (parse_prefix path) as [p|]; cbn; [done|].
  assert (forall l, match body_components false l with CPrefix p :: _ => Some p | _ => None end = None) as Hb.
  { intros l. destruct (body_components false l) as [|[p| | | |] ?] eqn:E; try done.
    exfalso. eapply (body_components_no_prefix false l p). rewrite E. set_solver. }
  destruct (has_physical_root path); [done|]. destruct (leading_cur_dir path); [done|apply Hb].
Qed.

Example components_drive :
  components (lit "C:\Users/.\a\\..\b") =
  [CPrefix (Disk 67); RootDir; Normal (lit "Users"); Normal (lit "a"); ParentDir; Normal (lit "b")].
Proof. reflexivity. Qed.
Example components_unc :
  components (lit "\\server\share\Data") =
  [CPrefix (UNC (lit "server") (lit "share")); RootDir; Normal (lit "Data")].
Proof. reflexivity. Qed.
Example components_verbatim :
  components (lit "\\?\UNC\server\share\Data") =
  [CPrefix (VerbatimUNC (lit "server") (lit "share")); RootDir; Normal (lit "Data")].
Proof. reflexivity. Qed.
Example components_volume :
  components (lit "\\?\Volume{01}\Data") =
  [CPrefix (Verbatim (lit "Volume{01}")); RootDir; Normal (lit "Data")].
Proof. reflexivity. Qed.
Example components_relative :
  components (lit "./a") = [CurDir; Normal (lit "a")] /\ is_absolute (lit "C:a") = false
  /\ is_absolute (lit "\a") = false /\ is_absolute (lit "c:/a") = true.
Proof. repeat split; reflexivity. Qed.
Example parent_examples :
  parent (lit "C:\ProgramData\resticpal\config.toml") = Some (lit "C:\ProgramData\resticpal")
  /\ parent (lit "C:\config.toml") = Some (lit "C:\") /\ parent (lit "C:\") = None.
Proof. repeat split; reflexivity. Qed.
