(* ===== verification/Chrono.v ===== *)
(** * The [chrono] crate, as far as the sources use it

    A [DateTime<Utc>] is its instant in nanoseconds since the epoch and a
    [Duration] ([TimeDelta]) its length in nanoseconds, so comparisons,
    [min]/[max] and differences are those of [Z].  The operations that can
    leave the representable range belong to the crate: they are parameters
    with their documented behaviour as [ChronoLaws].  [None] stands for a
    panic, except for [checked_add_signed], where it is the returned value. *)
From stdpp Require Import base option.
From S2P Require Import Prelude.

Abbreviation DateTime := Z (only parsing).
Abbreviation TimeDelta := Z (only parsing).

Definition ns_per_second : Z := 1_000_000_000.
Definition seconds (n : Z) : TimeDelta := n * ns_per_second.
Definition minutes (n : Z) : TimeDelta := seconds (n * 60).
Definition hours (n : Z) : TimeDelta := seconds (n * 3600).
Definition days (n : Z) : TimeDelta := seconds (n * 86400).

Class Chrono := {
  datetime_min : DateTime;  (* [DateTime::<Utc>::MIN_UTC] *)
  datetime_max : DateTime;  (* [DateTime::<Utc>::MAX_UTC] *)
  checked_add_signed : DateTime -> TimeDelta -> option DateTime;
  datetime_add : DateTime -> TimeDelta -> option DateTime;  (* the [+] operator *)
  duration_seconds : Z -> option TimeDelta;  (* [Duration::seconds] *)
  timestamp_millis_opt : Z -> option DateTime  (* [Utc.timestamp_millis_opt(ms).single()] *)
}.

(** [Duration::minutes], [hours] and [days] are [seconds] of the product. *)
Definition duration_minutes `{Chrono} (n : Z) : option TimeDelta := duration_seconds (n * 60).
Definition duration_hours `{Chrono} (n : Z) : option TimeDelta := duration_seconds (n * 3600).
Definition duration_days `{Chrono} (n : Z) : option TimeDelta := duration_seconds (n * 86400).

(** [TimeDelta::num_milliseconds]: whole milliseconds, truncated. *)
Definition num_milliseconds (d : TimeDelta) : Z := Z.quot d 1_000_000.

(** [DateTime::timestamp_millis]: whole milliseconds since the epoch, rounded
    towards the past. *)
Definition timestamp_millis (t : DateTime) : Z := t / 1_000_000.

Definition valid_datetime `{Chrono} (t : DateTime) : Prop := datetime_min <= t <= datetime_max.

Class ChronoLaws `{Chrono} : Prop := {
  (* Two instants a year apart are representable around any instant the
     service can read from its clock; the crate covers 520,000 years. *)
  datetime_span : datetime_min <= 0 /\ hours (24 * 366) <= datetime_max;
  checked_add_spec t d :
    valid_datetime t ->
    checked_add_signed t d = if in_range datetime_min datetime_max (t + d) then Some (t + d) else None;
  datetime_add_spec t d :
    valid_datetime t ->
    datetime_add t d = if in_range datetime_min datetime_max (t + d) then Some (t + d) else None;
  duration_seconds_spec n :
    duration_seconds n = if Z.abs n <=? i64_max / 1000 then Some (seconds n) else None;
  timestamp_millis_spec t :
    valid_datetime t -> timestamp_millis_opt (timestamp_millis t) = Some (timestamp_millis t * 1_000_000)
}.

Section chrono.
Context `{ChronoLaws}.

Lemma checked_add_in t d :
  valid_datetime t -> valid_datetime (t + d) -> checked_add_signed t d = Some (t + d).
Proof. intros ? Hr. rewrite checked_add_spec by done. by apply in_range_true in Hr as ->. Qed.

Lemma checked_add_Some t d r :
  valid_datetime t -> checked_add_signed t d = Some r -> r = t + d /\ valid_datetime r.
Proof.
  intros ?. rewrite checked_add_spec by done.
  destruct (in_range _ _ _) eqn:E; [|done]. intros [= <-]. by apply in_range_true in E.
Qed.

Lemma datetime_add_in t d :
  valid_datetime t -> valid_datetime (t + d) -> datetime_add t d = Some (t + d).
Proof. intros ? Hr. rewrite datetime_add_spec by done. by apply in_range_true in Hr as ->. Qed.

Lemma duration_seconds_small n : 0 <= n <= i64_max / 1000 -> duration_seconds n = Some (seconds n).
Proof.
  intros Hn. rewrite duration_seconds_spec. destruct (Z.leb_spec (Z.abs n) (i64_max / 1000)); [done|lia].
Qed.
End chrono.

(** An instance with [chrono] 0.4's bounds, to evaluate the model with. *)
Module ChronoExample.
#[export] Instance chrono_04 : Chrono := {|
  datetime_min := seconds (-8334601228800);
  datetime_max := seconds 8210266876799 + 999999999;
  checked_add_signed t d :=
    let r := t + d in
    if in_range (seconds (-8334601228800)) (seconds 8210266876799 + 999999999) r then Some r else None;
  datetime_add t d :=
    let r := t + d in
    if in_range (seconds (-8334601228800)) (seconds 8210266876799 + 999999999) r then Some r else None;
  duration_seconds n := if Z.abs n <=? i64_max / 1000 then Some (seconds n) else None;
  timestamp_millis_opt ms :=
    if in_range (-8334601228800000) 8210266876799999 ms then Some (ms * 1_000_000) else None
|}.

#[export] Instance chrono_04_laws : ChronoLaws.
Proof.
  split; [split; by vm_compute|done..|].
  intros t [H1 H2]. cbn in *. unfold timestamp_millis, seconds, ns_per_second in *.
  rewrite (proj2 (in_range_true _ _ _)); [done|].
  split; [apply Z.div_le_lower_bound; lia|]. apply Z.lt_succ_r, Z.div_lt_upper_bound; lia.
Qed.
End ChronoExample.
