(* ===== verification/Crates.v ===== *)
(** * Interfaces of the third-party crates

    What the sources call of the [url] and [serde_json]/[toml] crates, as
    operations without a definition.  [toy_url] is a small concrete instance
    of the first, used only to evaluate the model on examples. *)
From stdpp Require Import base option list.
From S2P Require Import Prelude RustStd.

(** [url::Url] and [url::form_urlencoded] *)
Class UrlCrate := {
  Url : Type;
  url_parse : rstr -> option Url;
  url_scheme : Url -> rstr;
  url_host_str : Url -> option rstr;
  url_username : Url -> rstr;
  url_password : Url -> option rstr;
  url_fragment : Url -> option rstr;
  url_clear_fragment : Url -> Url;        (* [set_fragment(None)] *)
  url_to_string : Url -> rstr;
  form_urlencoded_parse : rstr -> list (rstr * rstr)
}.

(** A [serde] format for one type: [to_vec]/[from_slice] (JSON) or
    [to_string_pretty]/[from_str] (TOML); [None] is the crate's error. *)
Class Serde (T : Type) := {
  serialize : T -> option (list Z);
  deserialize : list Z -> option T
}.

(** Documented behaviour of a derived [Serialize]/[Deserialize] pair: what is
    written reads back as the same value, and a document is never empty. *)
Class SerdeLaws (T : Type) `{Serde T} : Prop := {
  serde_roundtrip (x : T) b : serialize x = Some b -> deserialize b = Some x;
  serde_nonempty (x : T) b : serialize x = Some b -> b <> []
}.

(** ** A small [UrlCrate] *)
Module UrlExample.
Fixpoint split_at (c : Z) (s : rstr) : rstr * option rstr :=
  match s with
  | [] => ([], None)
  | x :: s =>
      if x =? c then ([], Some s)
      else let '(a, b) := split_at c s in (x :: a, b)
  end.

Record ToyUrl : Type := {
  tu_scheme : rstr; tu_user : option rstr; tu_host : rstr; tu_rest : rstr; tu_fragment : option rstr
}.

Definition toy_url_parse (s : rstr) : option ToyUrl :=
  match split_at 58 s with
  | (scheme, Some (47 :: 47 :: rest)) =>
      let '(rest, fragment) := split_at 35 rest in
      let '(authority, path) := split_at 47 rest in
      let '(user, host) :=
        match split_at 64 authority with
        | (user, Some host) => (Some user, host)
        | (host, None) => (None, host)
        end in
      let '(host, _) := split_at 58 host in
      if str_is_empty host then None
      else Some {| tu_scheme := scheme; tu_user := user; tu_host := host;
                   tu_rest := default [] path; tu_fragment := fragment |}
  | _ => None
  end.

#[export] Instance toy_url : UrlCrate := {|
  Url := ToyUrl;
  url_parse := toy_url_parse;
  url_scheme := tu_scheme;
  url_host_str u := Some (tu_host u);
  url_username u := default [] (tu_user u);
  url_password u := None;
  url_fragment := tu_fragment;
  url_clear_fragment u :=
    {| tu_scheme := tu_scheme u; tu_user := tu_user u; tu_host := tu_host u;
       tu_rest := tu_rest u; tu_fragment := None |};
  url_to_string u := tu_scheme u ++ lit "://" ++ tu_host u ++ lit "/" ++ tu_rest u;
  form_urlencoded_parse s :=
    (fix fields (fuel : nat) (s : rstr) : list (rstr * rstr) :=
       match fuel with
       | O => []
       | S fuel =>
           let '(field, more) := split_at 38 s in
           let '(name, value) := split_at 61 field in
           (name, default [] value) :: match more with Some s => fields fuel s | None => [] end
       end) (length s) s
|}.
End UrlExample.
