(* ===== verification/Config.v ===== *)
(** * Configuration layers ([crates/resticpal-core/src/config.rs])

    The local layer ([LocalConfig], every field optional), the effective
    configuration the service runs with, and their validation. *)
From stdpp Require Import base option list gmap strings.
From S2P Require Import Prelude RustStd RustNet WinPath Crates.

(** ** Limits *)
Definition CONFIG_SCHEMA_VERSION : Z := 1.
Definition MAX_BACKUP_PATHS : Z := 128.
Definition MAX_EXCLUSIONS : Z := 512.
Definition MAX_PATH_CHARACTERS : Z := 32767.
Definition MAX_EXCLUSION_CHARACTERS : Z := 1024.
Definition MAX_REPOSITORY_URL_CHARACTERS : Z := 8 * 1024.
Definition MAX_REPOSITORY_DISPLAY_NAME_CHARACTERS : Z := 256.
Definition MAX_REPOSITORY_OPTIONS : Z := 64.
Definition MAX_REPOSITORY_OPTION_VALUE_CHARACTERS : Z := 4 * 1024.
Definition MAX_SECRET_REFERENCE_BYTES : Z := 64.
Definition MAX_SCHEDULE_INTERVAL_HOURS : Z := 24 * 365.
Definition MAX_RETENTION_COUNT : Z := 10000.
Definition MAX_PRUNE_INTERVAL_DAYS : Z := 365.
Definition MAX_MANAGEMENT_URL_CHARACTERS : Z := 8 * 1024.
Definition MAX_MANAGEMENT_ID_CHARACTERS : Z := 256.
Definition MIN_MANAGEMENT_REFRESH_MINUTES : Z := 5.
Definition MAX_MANAGEMENT_REFRESH_MINUTES : Z := 24 * 60.

Definition DEFAULT_INTERVAL_HOURS : Z := 24.
Definition DEFAULT_WAKE_GRACE_SECONDS : Z := 5 * 60.
Definition DEFAULT_WAKE_LOCK_TIMEOUT_SECONDS : Z := 2 * 60 * 60.

Definition SNAPSHOT_DISABLING_REPOSITORY_OPTIONS : list rstr :=
  [lit "vss.exclude-volumes"; lit "vss.exclude-all-mount-points"].

Definition repository_option_disables_source_snapshots (option : rstr) : bool :=
  existsb (fun reserved => eq_ignore_ascii_case option reserved) SNAPSHOT_DISABLING_REPOSITORY_OPTIONS.

(** ** Enumerations *)
Inductive ManagementMode : Type := Disabled | PlainManifest | SignedManifest.
Inductive RepositoryMode : Type := Standard | AppendOnly.
Inductive SecretEnvironmentVariable : Type :=
| ResticPassword | AwsAccessKeyId | AwsSecretAccessKey | AwsSessionToken
| AzureAccountKey | B2AccountKey | GoogleApplicationCredentials | RcloneConfigPassword.

#[global] Instance ManagementMode_eq_dec : EqDecision ManagementMode.
Proof. solve_decision. Defined.
#[global] Instance RepositoryMode_eq_dec : EqDecision RepositoryMode.
Proof. solve_decision. Defined.
#[global] Instance SecretEnvironmentVariable_eq_dec : EqDecision SecretEnvironmentVariable.
Proof. solve_decision. Defined.

(** The derived [Ord]: declaration order. *)
Definition secret_index (v : SecretEnvironmentVariable) : Z :=
  match v with
  | ResticPassword => 0 | AwsAccessKeyId => 1 | AwsSecretAccessKey => 2 | AwsSessionToken => 3
  | AzureAccountKey => 4 | B2AccountKey => 5 | GoogleApplicationCredentials => 6 | RcloneConfigPassword => 7
  end.
Lemma secret_index_inj a b : secret_index a = secret_index b -> a = b.
Proof. by destruct a, b. Qed.
#[global] Instance secret_order : KeyOrder SecretEnvironmentVariable := index_order secret_index secret_index_inj.

Definition secret_as_str (v : SecretEnvironmentVariable) : rstr :=
  match v with
  | ResticPassword => lit "RESTIC_PASSWORD"
  | AwsAccessKeyId => lit "AWS_ACCESS_KEY_ID"
  | AwsSecretAccessKey => lit "AWS_SECRET_ACCESS_KEY"
  | AwsSessionToken => lit "AWS_SESSION_TOKEN"
  | AzureAccountKey => lit "AZURE_ACCOUNT_KEY"
  | B2AccountKey => lit "B2_ACCOUNT_KEY"
  | GoogleApplicationCredentials => lit "GOOGLE_APPLICATION_CREDENTIALS"
  | RcloneConfigPassword => lit "RCLONE_CONFIG_PASS"
  end.

Definition reference_prefix (v : SecretEnvironmentVariable) : rstr :=
  match v with
  | ResticPassword => lit "restic-password"
  | AwsAccessKeyId => lit "aws-access-key-id"
  | AwsSecretAccessKey => lit "aws-secret-access-key"
  | AwsSessionToken => lit "aws-session-token"
  | AzureAccountKey => lit "azure-account-key"
  | B2AccountKey => lit "b2-account-key"
  | GoogleApplicationCredentials => lit "google-credentials"
  | RcloneConfigPassword => lit "rclone-config-password"
  end.

Abbreviation Options := (list (rstr * rstr)).
Abbreviation SecretRefs := (list (SecretEnvironmentVariable * rstr)).

(** ** The local layer *)
Record LocalBackupConfig : Type := {
  lb_paths : option (list rstr);
  lb_exclusions : option (list rstr)
}.
#[global] Instance LocalBackupConfig_eq_dec : EqDecision LocalBackupConfig.
Proof. solve_decision. Defined.
Record LocalRepositoryConfig : Type := {
  lr_display_name : option rstr;
  lr_url : option rstr;
  lr_mode : option RepositoryMode;
  lr_options : option Options;
  lr_secret_refs : option SecretRefs
}.
#[global] Instance LocalRepositoryConfig_eq_dec : EqDecision LocalRepositoryConfig.
Proof. solve_decision. Defined.
Record LocalScheduleConfig : Type := {
  ls_interval_hours : option Z;
  ls_wake_grace_seconds : option Z;
  ls_wake_lock_timeout_seconds : option Z;
  ls_allow_on_battery : option bool;
  ls_allow_metered_network : option bool
}.
#[global] Instance LocalScheduleConfig_eq_dec : EqDecision LocalScheduleConfig.
Proof. solve_decision. Defined.
Record LocalRetentionConfig : Type := {
  lt_daily : option Z;
  lt_weekly : option Z;
  lt_monthly : option Z;
  lt_yearly : option Z;
  lt_prune_interval_days : option Z
}.
#[global] Instance LocalRetentionConfig_eq_dec : EqDecision LocalRetentionConfig.
Proof. solve_decision. Defined.
Record LocalUpdateConfig : Type := {
  lu_automatic_install : option bool
}.
#[global] Instance LocalUpdateConfig_eq_dec : EqDecision LocalUpdateConfig.
Proof. solve_decision. Defined.
Record LocalManagementConfig : Type := {
  lm_mode : ManagementMode;
  lm_manifest_url : option rstr;
  lm_signing_public_key : option rstr;
  lm_refresh_interval_minutes : option Z;
  lm_status_url : option rstr;
  lm_device_id : option rstr;
  lm_status_token_ref : option rstr;
  lm_enrollment_key_ref : option rstr
}.
#[global] Instance LocalManagementConfig_eq_dec : EqDecision LocalManagementConfig.
Proof. solve_decision. Defined.
Record LocalConfig : Type := {
  lc_schema_version : Z;
  lc_backup : LocalBackupConfig;
  lc_repository : LocalRepositoryConfig;
  lc_schedule : LocalScheduleConfig;
  lc_retention : LocalRetentionConfig;
  lc_updates : LocalUpdateConfig;
  lc_management : LocalManagementConfig
}.
#[global] Instance LocalConfig_eq_dec : EqDecision LocalConfig.
Proof. solve_decision. Defined.

Definition LocalManagementConfig_default : LocalManagementConfig :=
  {| lm_mode := Disabled; lm_manifest_url := None; lm_signing_public_key := None;
     lm_refresh_interval_minutes := None; lm_status_url := None; lm_device_id := None;
     lm_status_token_ref := None; lm_enrollment_key_ref := None |}.
Definition LocalConfig_default : LocalConfig :=
  {| lc_schema_version := CONFIG_SCHEMA_VERSION;
     lc_backup := {| lb_paths := None; lb_exclusions := None |};
     lc_repository := {| lr_display_name := None; lr_url := None; lr_mode := None; lr_options := None; lr_secret_refs := None |};
     lc_schedule := {| ls_interval_hours := None; ls_wake_grace_seconds := None; ls_wake_lock_timeout_seconds := None;
                       ls_allow_on_battery := None; ls_allow_metered_network := None |};
     lc_retention := {| lt_daily := None; lt_weekly := None; lt_monthly := None; lt_yearly := None; lt_prune_interval_days := None |};
     lc_updates := {| lu_automatic_install := None |};
     lc_management := LocalManagementConfig_default |}.

(** ** The effective configuration *)
Record BackupConfig : Type := {
  bc_paths : list rstr;
  bc_exclusions : list rstr
}.
#[global] Instance BackupConfig_eq_dec : EqDecision BackupConfig.
Proof. solve_decision. Defined.
Record RepositoryConfig : Type := {
  rc_display_name : option rstr;
  rc_url : option rstr;
  rc_mode : RepositoryMode;
  rc_options : Options;
  rc_secret_refs : SecretRefs
}.
#[global] Instance RepositoryConfig_eq_dec : EqDecision RepositoryConfig.
Proof. solve_decision. Defined.
Record ScheduleConfig : Type := {
  sc_interval_hours : Z;
  sc_wake_grace_seconds : Z;
  sc_wake_lock_timeout_seconds : Z;
  sc_allow_on_battery : bool;
  sc_allow_metered_network : bool
}.
#[global] Instance ScheduleConfig_eq_dec : EqDecision ScheduleConfig.
Proof. solve_decision. Defined.
Record RetentionConfig : Type := {
  tc_daily : Z;
  tc_weekly : Z;
  tc_monthly : Z;
  tc_yearly : Z;
  tc_prune_interval_days : Z
}.
#[global] Instance RetentionConfig_eq_dec : EqDecision RetentionConfig.
Proof. solve_decision. Defined.
Record UpdateConfig : Type := {
  uc_automatic_install : bool
}.
#[global] Instance UpdateConfig_eq_dec : EqDecision UpdateConfig.
Proof. solve_decision. Defined.
Record EffectiveConfig : Type := {
  ec_backup : BackupConfig;
  ec_repository : RepositoryConfig;
  ec_schedule : ScheduleConfig;
  ec_retention : RetentionConfig;
  ec_updates : UpdateConfig
}.
#[global] Instance EffectiveConfig_eq_dec : EqDecision EffectiveConfig.
Proof. solve_decision. Defined.

Definition ScheduleConfig_default : ScheduleConfig :=
  {| sc_interval_hours := DEFAULT_INTERVAL_HOURS; sc_wake_grace_seconds := DEFAULT_WAKE_GRACE_SECONDS;
     sc_wake_lock_timeout_seconds := DEFAULT_WAKE_LOCK_TIMEOUT_SECONDS;
     sc_allow_on_battery := true; sc_allow_metered_network := true |}.
Definition RetentionConfig_default : RetentionConfig :=
  {| tc_daily := 7; tc_weekly := 5; tc_monthly := 12; tc_yearly := 3; tc_prune_interval_days := 7 |}.
Definition EffectiveConfig_default : EffectiveConfig :=
  {| ec_backup := {| bc_paths := []; bc_exclusions := [] |};
     ec_repository := {| rc_display_name := None; rc_url := None; rc_mode := Standard; rc_options := []; rc_secret_refs := [] |};
     ec_schedule := ScheduleConfig_default; ec_retention := RetentionConfig_default;
     ec_updates := {| uc_automatic_install := false |} |}.

(** Assignments to one field, [config.section.field = v]. *)
Definition set_lc_backup (v : LocalBackupConfig) (r : LocalConfig) : LocalConfig :=
  {| lc_schema_version := lc_schema_version r; lc_backup := v; lc_repository := lc_repository r; lc_schedule := lc_schedule r; lc_retention := lc_retention r; lc_updates := lc_updates r; lc_management := lc_management r |}.
Definition set_lc_repository (v : LocalRepositoryConfig) (r : LocalConfig) : LocalConfig :=
  {| lc_schema_version := lc_schema_version r; lc_backup := lc_backup r; lc_repository := v; lc_schedule := lc_schedule r; lc_retention := lc_retention r; lc_updates := lc_updates r; lc_management := lc_management r |}.
Definition set_lc_schedule (v : LocalScheduleConfig) (r : LocalConfig) : LocalConfig :=
  {| lc_schema_version := lc_schema_version r; lc_backup := lc_backup r; lc_repository := lc_repository r; lc_schedule := v; lc_retention := lc_retention r; lc_updates := lc_updates r; lc_management := lc_management r |}.
Definition set_lc_retention (v : LocalRetentionConfig) (r : LocalConfig) : LocalConfig :=
  {| lc_schema_version := lc_schema_version r; lc_backup := lc_backup r; lc_repository := lc_repository r; lc_schedule := lc_schedule r; lc_retention := v; lc_updates := lc_updates r; lc_management := lc_management r |}.
Definition set_lc_updates (v : LocalUpdateConfig) (r : LocalConfig) : LocalConfig :=
  {| lc_schema_version := lc_schema_version r; lc_backup := lc_backup r; lc_repository := lc_repository r; lc_schedule := lc_schedule r; lc_retention := lc_retention r; lc_updates := v; lc_management := lc_management r |}.
Definition set_lc_management (v : LocalManagementConfig) (r : LocalConfig) : LocalConfig :=
  {| lc_schema_version := lc_schema_version r; lc_backup := lc_backup r; lc_repository := lc_repository r; lc_schedule := lc_schedule r; lc_retention := lc_retention r; lc_updates := lc_updates r; lc_management := v |}.
Definition set_ec_backup (v : BackupConfig) (r : EffectiveConfig) : EffectiveConfig :=
  {| ec_backup := v; ec_repository := ec_repository r; ec_schedule := ec_schedule r; ec_retention := ec_retention r; ec_updates := ec_updates r |}.
Definition set_ec_repository (v : RepositoryConfig) (r : EffectiveConfig) : EffectiveConfig :=
  {| ec_backup := ec_backup r; ec_repository := v; ec_schedule := ec_schedule r; ec_retention := ec_retention r; ec_updates := ec_updates r |}.
Definition set_ec_schedule (v : ScheduleConfig) (r : EffectiveConfig) : EffectiveConfig :=
  {| ec_backup := ec_backup r; ec_repository := ec_repository r; ec_schedule := v; ec_retention := ec_retention r; ec_updates := ec_updates r |}.
Definition set_ec_retention (v : RetentionConfig) (r : EffectiveConfig) : EffectiveConfig :=
  {| ec_backup := ec_backup r; ec_repository := ec_repository r; ec_schedule := ec_schedule r; ec_retention := v; ec_updates := ec_updates r |}.
Definition set_ec_updates (v : UpdateConfig) (r : EffectiveConfig) : EffectiveConfig :=
  {| ec_backup := ec_backup r; ec_repository := ec_repository r; ec_schedule := ec_schedule r; ec_retention := ec_retention r; ec_updates := v |}.

(** ** Errors *)
Inductive ManagementConfigError : Type :=
| InvalidRefreshInterval | UnexpectedDisabledFields | MissingManifestUrl | InvalidUrl
| PlainModeCannotReport | MissingSigningKey | InvalidSigningKey | InsecureTransport
| IncompleteStatusConfiguration | InvalidDeviceId | InvalidStatusTokenReference
| InvalidEnrollmentKeyReference.

Inductive ConfigValidationError : Type :=
| EmptyRepositoryUrl | InvalidRepositoryUrl | InvalidRepositoryDisplayName
| InvalidScheduleInterval | WakeGraceTooLong | InvalidWakeLockTimeout | TooManyBackupPaths
| InvalidBackupPath (path : rstr)
| UnsupportedNetworkBackupPath (path : rstr)
| UnsupportedBackupPathNamespace (path : rstr)
| TooManyExclusions | InvalidExclusion
| InvalidRepositoryOption (key : rstr)
| SnapshotDisablingRepositoryOption (key : rstr)
| InvalidRepositoryOptionValue (key : rstr)
| TooManyRepositoryOptions | InvalidSecretReference | InvalidRetentionCount
| EmptyRetentionPolicy | InvalidPruneInterval.

Inductive LocalConfigError : Type :=
| LCE_Parse | LCE_Serialize
| UnsupportedSchema (expected actual : Z)
| LCE_Management (e : ManagementConfigError).

#[global] Instance ManagementConfigError_eq_dec : EqDecision ManagementConfigError.
Proof. solve_decision. Defined.
#[global] Instance ConfigValidationError_eq_dec : EqDecision ConfigValidationError.
Proof. solve_decision. Defined.

(** ** Validation of the effective configuration *)
Definition is_valid_option_name (value : rstr) : bool :=
  match value with
  | [] => false
  | first :: chars =>
      is_ascii_alphanumeric first
      && forallb (fun c => is_ascii_alphanumeric c || (c =? 46) || (c =? 95) || (c =? 45)) chars
  end.

Definition is_valid_secret_reference (reference : rstr) : bool :=
  negb (str_is_empty reference)
  && (str_len reference <=? MAX_SECRET_REFERENCE_BYTES)
  && forallb (fun b => is_ascii_lowercase b || is_ascii_digit b || (b =? 45)) (utf8 reference).

Definition validate_backup_path (path : rstr) : result ConfigValidationError unit :=
  reject_if (str_is_empty path
             || negb (is_absolute path)
             || (MAX_PATH_CHARACTERS <? utf16_count (to_string_lossy path))
             || contains_char 0 (to_string_lossy path)) (InvalidBackupPath path) ;;
  match first_prefix path with
  | Some (UNC _ _) | Some (VerbatimUNC _ _) => Err (UnsupportedNetworkBackupPath path)
  | Some (DeviceNS _) | Some (Verbatim _) => Err (UnsupportedBackupPathNamespace path)
  | Some (Disk _) | Some (VerbatimDisk _) => Ok ()
  | None => Ok ()
  end.

Definition validate_exclusion (exclusion : rstr) : result ConfigValidationError unit :=
  reject_if (str_is_empty exclusion
             || (MAX_EXCLUSION_CHARACTERS <? chars_count exclusion)
             || contains_line_break exclusion) InvalidExclusion.

Definition validate_option (entry : rstr * rstr) : result ConfigValidationError unit :=
  let '(key, value) := entry in
  reject_if (repository_option_disables_source_snapshots key) (SnapshotDisablingRepositoryOption key) ;;
  reject_if (negb (is_valid_option_name key)) (InvalidRepositoryOption key) ;;
  reject_if ((MAX_REPOSITORY_OPTION_VALUE_CHARACTERS <? chars_count value) || contains_line_break value)
    (InvalidRepositoryOptionValue key).

Definition validate (c : EffectiveConfig) : result ConfigValidationError unit :=
  let repository := ec_repository c in
  let schedule := ec_schedule c in
  let retention := ec_retention c in
  match rc_url repository with
  | Some url =>
      reject_if (str_is_empty (trim url)) EmptyRepositoryUrl ;;
      reject_if ((MAX_REPOSITORY_URL_CHARACTERS <? chars_count url) || contains_line_break url) InvalidRepositoryUrl
  | None => Ok ()
  end ;;
  reject_if (match rc_display_name repository with
             | Some name =>
                 str_is_empty (trim name)
                 || (MAX_REPOSITORY_DISPLAY_NAME_CHARACTERS <? chars_count name)
                 || contains_line_break name
             | None => false
             end) InvalidRepositoryDisplayName ;;
  reject_if (negb (in_range 1 MAX_SCHEDULE_INTERVAL_HOURS (sc_interval_hours schedule))) InvalidScheduleInterval ;;
  reject_if (24 * 60 * 60 <? sc_wake_grace_seconds schedule) WakeGraceTooLong ;;
  reject_if ((sc_wake_lock_timeout_seconds schedule =? 0)
             || (24 * 60 * 60 <? sc_wake_lock_timeout_seconds schedule)) InvalidWakeLockTimeout ;;
  reject_if (MAX_BACKUP_PATHS <? Z.of_nat (length (bc_paths (ec_backup c)))) TooManyBackupPaths ;;
  for_each validate_backup_path (bc_paths (ec_backup c)) ;;
  reject_if (MAX_EXCLUSIONS <? Z.of_nat (length (bc_exclusions (ec_backup c)))) TooManyExclusions ;;
  for_each validate_exclusion (bc_exclusions (ec_backup c)) ;;
  reject_if (MAX_REPOSITORY_OPTIONS <? Z.of_nat (length (rc_options repository))) TooManyRepositoryOptions ;;
  for_each validate_option (rc_options repository) ;;
  for_each (fun secret_id => reject_if (negb (is_valid_secret_reference secret_id)) InvalidSecretReference)
    (btree_values (rc_secret_refs repository)) ;;
  reject_if (existsb (fun count => MAX_RETENTION_COUNT <? count)
               [tc_daily retention; tc_weekly retention; tc_monthly retention; tc_yearly retention])
    InvalidRetentionCount ;;
  reject_if ((tc_daily retention =? 0) && (tc_weekly retention =? 0)
             && (tc_monthly retention =? 0) && (tc_yearly retention =? 0)) EmptyRetentionPolicy ;;
  reject_if (negb (in_range 1 MAX_PRUNE_INTERVAL_DAYS (tc_prune_interval_days retention))) InvalidPruneInterval.

Definition is_some {A} (o : option A) : bool := match o with Some _ => true | None => false end.

Definition is_configured (c : EffectiveConfig) : bool :=
  is_some (rc_url (ec_repository c)) && negb (match bc_paths (ec_backup c) with [] => true | _ => false end).

(** ** Validation of the management section *)
Definition refresh_interval_minutes (m : LocalManagementConfig) : Z :=
  default 15 (lm_refresh_interval_minutes m).

Section management.
Context `{UrlCrate}.

Definition validate_management_url (value : option rstr) : result ManagementConfigError Url :=
  value ← ok_or value MissingManifestUrl;
  reject_if ((MAX_MANAGEMENT_URL_CHARACTERS <? chars_count value) || contains_line_break value) InvalidUrl ;;
  url ← ok_or (url_parse value) InvalidUrl;
  reject_if (negb (str_eqb (url_scheme url) (lit "http") || str_eqb (url_scheme url) (lit "https"))
             || negb (is_some (url_host_str url))
             || negb (str_is_empty (url_username url))
             || is_some (url_password url)
             || is_some (url_fragment url)) InvalidUrl ;;
  Ok url.

Definition host_is_loopback (host : rstr) : bool :=
  eq_ignore_ascii_case host (lit "localhost")
  || match parse_ip_addr host with Some address => is_loopback address | None => false end.

Definition validate_signed_transport (value : Url) : result ManagementConfigError unit :=
  let loopback := match url_host_str value with Some host => host_is_loopback host | None => false end in
  if str_eqb (url_scheme value) (lit "https") || loopback then Ok () else Err InsecureTransport.

Definition is_valid_device_id (value : rstr) : bool :=
  negb (str_is_empty value)
  && (str_len value <=? MAX_MANAGEMENT_ID_CHARACTERS)
  && forallb (fun b => is_ascii_alphanumeric b || (b =? 45) || (b =? 95)) (utf8 value).

(** [LocalManagementConfig::validate] *)
Definition validate_management (m : LocalManagementConfig) : result ManagementConfigError unit :=
  reject_if (negb (in_range MIN_MANAGEMENT_REFRESH_MINUTES MAX_MANAGEMENT_REFRESH_MINUTES
                     (default 15 (lm_refresh_interval_minutes m)))) InvalidRefreshInterval ;;
  match lm_mode m with
  | Disabled =>
      reject_if (is_some (lm_manifest_url m) || is_some (lm_signing_public_key m)
                 || is_some (lm_status_url m) || is_some (lm_device_id m)
                 || is_some (lm_status_token_ref m) || is_some (lm_enrollment_key_ref m))
        UnexpectedDisabledFields
  | PlainManifest =>
      manifest_url ← validate_management_url (lm_manifest_url m);
      validate_signed_transport manifest_url ;;
      reject_if (is_some (lm_signing_public_key m)
                 || is_some (lm_status_url m) || is_some (lm_device_id m)
                 || is_some (lm_status_token_ref m) || is_some (lm_enrollment_key_ref m))
        PlainModeCannotReport
  | SignedManifest =>
      manifest_url ← validate_management_url (lm_manifest_url m);
      validate_signed_transport manifest_url ;;
      key ← ok_or (lm_signing_public_key m) MissingSigningKey;
      reject_if (str_is_empty key || (256 <? str_len key) || contains_line_break key) InvalidSigningKey ;;
      let reporting_fields :=
        [is_some (lm_status_url m); is_some (lm_device_id m); is_some (lm_status_token_ref m)] in
      reject_if (existsb id reporting_fields && negb (forallb id reporting_fields))
        IncompleteStatusConfiguration ;;
      match lm_status_url m with
      | Some status_url =>
          url ← validate_management_url (Some status_url);
          validate_signed_transport url
      | None => Ok ()
      end ;;
      reject_if (match lm_device_id m with Some v => negb (is_valid_device_id v) | None => false end)
        InvalidDeviceId ;;
      reject_if (match lm_status_token_ref m with
                 | Some reference => negb (is_valid_secret_reference reference) | None => false end)
        InvalidStatusTokenReference ;;
      reject_if (match lm_enrollment_key_ref m with
                 | Some reference => negb (is_valid_secret_reference reference) | None => false end)
        InvalidEnrollmentKeyReference
  end.

(** [LocalConfig::from_toml] and [to_toml_pretty], over the [toml] crate. *)
Definition from_toml `{Serde LocalConfig} (input : list Z) : result LocalConfigError LocalConfig :=
  config ← ok_or (deserialize input) LCE_Parse;
  reject_if (negb (lc_schema_version config =? CONFIG_SCHEMA_VERSION))
    (UnsupportedSchema CONFIG_SCHEMA_VERSION (lc_schema_version config)) ;;
  map_err LCE_Management (validate_management (lc_management config)) ;;
  Ok config.

Definition to_toml_pretty `{Serde LocalConfig} (config : LocalConfig) : result LocalConfigError (list Z) :=
  ok_or (serialize config) LCE_Serialize.
End management.

(** ** What an accepted configuration guarantees *)
Definition single_line (s : rstr) : Prop := 0 ∉ s /\ 13 ∉ s /\ 10 ∉ s.

(** A source is an absolute path on a drive letter, never a network share, a
    device or a volume name. *)
Definition local_drive_path (p : rstr) : Prop :=
  p <> [] /\ is_absolute p = true /\ utf16_count (to_string_lossy p) <= MAX_PATH_CHARACTERS
  /\ 0 ∉ to_string_lossy p
  /\ exists drive, parse_prefix p = Some (Disk drive) \/ parse_prefix p = Some (VerbatimDisk drive).

Record ValidConfig (c : EffectiveConfig) : Prop := {
  vc_url : forall url, rc_url (ec_repository c) = Some url ->
    trim url <> [] /\ chars_count url <= MAX_REPOSITORY_URL_CHARACTERS /\ single_line url;
  vc_display_name : forall name, rc_display_name (ec_repository c) = Some name ->
    trim name <> [] /\ chars_count name <= MAX_REPOSITORY_DISPLAY_NAME_CHARACTERS /\ single_line name;
  vc_interval : 1 <= sc_interval_hours (ec_schedule c) <= 8760;
  vc_grace : sc_wake_grace_seconds (ec_schedule c) <= 86400;
  vc_wake_lock : sc_wake_lock_timeout_seconds (ec_schedule c) <> 0
    /\ sc_wake_lock_timeout_seconds (ec_schedule c) <= 86400;
  vc_paths : Z.of_nat (length (bc_paths (ec_backup c))) <= MAX_BACKUP_PATHS
    /\ Forall local_drive_path (bc_paths (ec_backup c));
  vc_exclusions : Z.of_nat (length (bc_exclusions (ec_backup c))) <= MAX_EXCLUSIONS
    /\ Forall (fun e => e <> [] /\ chars_count e <= MAX_EXCLUSION_CHARACTERS /\ single_line e)
         (bc_exclusions (ec_backup c));
  vc_options : Z.of_nat (length (rc_options (ec_repository c))) <= MAX_REPOSITORY_OPTIONS
    /\ Forall (fun kv => repository_option_disables_source_snapshots kv.1 = false
                 /\ is_valid_option_name kv.1 = true
                 /\ chars_count kv.2 <= MAX_REPOSITORY_OPTION_VALUE_CHARACTERS
                 /\ single_line kv.2) (rc_options (ec_repository c));
  vc_secrets : Forall (fun r => is_valid_secret_reference r = true) (btree_values (rc_secret_refs (ec_repository c)));
  vc_counts : Forall (fun n => n <= MAX_RETENTION_COUNT)
    [tc_daily (ec_retention c); tc_weekly (ec_retention c); tc_monthly (ec_retention c); tc_yearly (ec_retention c)];
  vc_keeps_something : exists n, n <> 0 /\
    n ∈ [tc_daily (ec_retention c); tc_weekly (ec_retention c); tc_monthly (ec_retention c); tc_yearly (ec_retention c)];
  vc_prune : 1 <= tc_prune_interval_days (ec_retention c) <= 365
}.

Lemma str_is_empty_false s : str_is_empty s = false <-> s <> [].
Proof. destruct s; naive_solver. Qed.

Lemma contains_char_false c s : contains_char c s = false <-> c ∉ s.
Proof.
  unfold contains_char. rewrite existsb_false_Forall, Forall_forall. split.
  - intros Hs Hin. specialize (Hs _ Hin). by rewrite Z.eqb_refl in Hs.
  - intros Hs x Hx. apply Z.eqb_neq. naive_solver.
Qed.

Lemma absolute_has_prefix p : is_absolute p = true -> exists x, parse_prefix p = Some x.
Proof. unfold is_absolute. destruct (parse_prefix p); [eauto|]. by rewrite andb_false_r. Qed.

Lemma bounded_line_spec limit s :
  (limit <? chars_count s) || contains_line_break s = false <-> chars_count s <= limit /\ single_line s.
Proof. rewrite orb_false_iff, Z.ltb_ge, contains_line_break_false. done. Qed.

Lemma validate_backup_path_Ok p : validate_backup_path p = Ok () <-> local_drive_path p.
Proof.
  unfold validate_backup_path, local_drive_path.
  rewrite first_prefix_spec, seq_Ok, reject_if_Ok, !orb_false_iff, str_is_empty_false,
    negb_false_iff, Z.ltb_ge, contains_char_false.
  split.
  - intros ((((? & Ha) & ?) & ?) & Hp). destruct (absolute_has_prefix _ Ha) as [x Hx].
    rewrite Hx in *. destruct x; try discriminate; naive_solver.
  - intros (? & ? & ? & ? & drive & [Hx|Hx]); rewrite Hx; done.
Qed.

Lemma validate_exclusion_Ok e :
  validate_exclusion e = Ok () <-> e <> [] /\ chars_count e <= MAX_EXCLUSION_CHARACTERS /\ single_line e.
Proof.
  unfold validate_exclusion.
  rewrite reject_if_Ok, <- orb_assoc, orb_false_iff, str_is_empty_false, bounded_line_spec. done.
Qed.

Lemma validate_option_Ok kv :
  validate_option kv = Ok () <->
  repository_option_disables_source_snapshots kv.1 = false /\ is_valid_option_name kv.1 = true
  /\ chars_count kv.2 <= MAX_REPOSITORY_OPTION_VALUE_CHARACTERS /\ single_line kv.2.
Proof.
  destruct kv as [k v]. unfold validate_option. cbn [fst snd].
  by rewrite !seq_Ok, !reject_if_Ok, negb_false_iff, bounded_line_spec.
Qed.

Lemma keeps_something_spec d w m y :
  (d =? 0) && (w =? 0) && (m =? 0) && (y =? 0) = false <-> exists n, n <> 0 /\ n ∈ [d; w; m; y].
Proof.
  rewrite !andb_false_iff, !Z.eqb_neq. split.
  - intros [[[?|?]|?]|?]; eexists; (split; [eassumption|set_solver]).
  - intros (n & Hn & Hin). set_unfold. naive_solver.
Qed.

Lemma validate_url_Ok o :
  match o with
  | Some url =>
      reject_if (str_is_empty (trim url)) EmptyRepositoryUrl ;;
      reject_if ((MAX_REPOSITORY_URL_CHARACTERS <? chars_count url) || contains_line_break url) InvalidRepositoryUrl
  | None => Ok ()
  end = Ok () <->
  forall url, o = Some url -> trim url <> [] /\ chars_count url <= MAX_REPOSITORY_URL_CHARACTERS /\ single_line url.
Proof.
  destruct o as [url|]; [|by rewrite forall_None].
  by rewrite forall_Some, seq_Ok, !reject_if_Ok, str_is_empty_false, bounded_line_spec.
Qed.

Lemma validate_name_Ok o :
  match o with
  | Some name =>
      str_is_empty (trim name) || (MAX_REPOSITORY_DISPLAY_NAME_CHARACTERS <? chars_count name)
      || contains_line_break name
  | None => false
  end = false <->
  forall name, o = Some name ->
    trim name <> [] /\ chars_count name <= MAX_REPOSITORY_DISPLAY_NAME_CHARACTERS /\ single_line name.
Proof.
  destruct o as [name|]; [|by rewrite forall_None].
  by rewrite forall_Some, <- orb_assoc, orb_false_iff, str_is_empty_false, bounded_line_spec.
Qed.

Lemma validate_iff c : validate c = Ok () <-> ValidConfig c.
Proof.
  unfold validate.
  rewrite !seq_Ok, !reject_if_Ok, !for_each_Ok, validate_url_Ok, validate_name_Ok, keeps_something_spec.
  rewrite !negb_false_iff, !in_range_true, orb_false_iff, !Z.ltb_ge, Z.eqb_neq, existsb_false_Forall.
  rewrite (Forall_iff _ _ _ validate_backup_path_Ok), (Forall_iff _ _ _ validate_exclusion_Ok),
    (Forall_iff _ _ _ validate_option_Ok).
  rewrite (Forall_iff (fun r => reject_if _ _ = _) _ (fun r => is_valid_secret_reference r = true))
    by (intros; by rewrite reject_if_Ok, negb_false_iff).
  rewrite (Forall_iff (fun n => (_ <? n) = false) _ (fun n => n <= MAX_RETENTION_COUNT))
    by (intros; by rewrite Z.ltb_ge).
  split; [intros; destruct_and!; constructor; auto|]. intros []. destruct_and!. split_and!; auto.
Qed.

(** [EffectiveConfig::validate] accepts exactly the configurations that
    meet the product's stated limits: non-blank single-line texts, schedule
    and retention numbers in range with at least one snapshot kept, local
    drive-letter sources only, no option that switches off filesystem
    snapshots, and well-formed secret references. *)
Theorem validate_spec (c : EffectiveConfig) : validate c = Ok () <-> ValidConfig c.
Proof. apply validate_iff. Qed.



(** *** The management section *)
Section management_spec.
Context `{UrlCrate}.

(** A URL policy may be fetched from: bounded HTTP(S) without embedded
    credentials or fragment, and encrypted unless it stays on this host. *)
Definition secure_url (value : rstr) : Prop :=
  chars_count value <= MAX_MANAGEMENT_URL_CHARACTERS /\ single_line value /\
  exists url host, url_parse value = Some url /\ url_host_str url = Some host
    /\ (url_scheme url = lit "http" \/ url_scheme url = lit "https")
    /\ url_username url = [] /\ url_password url = None /\ url_fragment url = None
    /\ (url_scheme url = lit "https" \/ host_is_loopback host = true).

Definition reports_status (m : LocalManagementConfig) : Prop :=
  exists url device token,
    lm_status_url m = Some url /\ secure_url url
    /\ lm_device_id m = Some device /\ is_valid_device_id device = true
    /\ lm_status_token_ref m = Some token /\ is_valid_secret_reference token = true.

Definition management_contract (m : LocalManagementConfig) : Prop :=
  (MIN_MANAGEMENT_REFRESH_MINUTES <= refresh_interval_minutes m <= MAX_MANAGEMENT_REFRESH_MINUTES) /\
  match lm_mode m with
  | Disabled =>
      lm_manifest_url m = None /\ lm_signing_public_key m = None /\ lm_status_url m = None
      /\ lm_device_id m = None /\ lm_status_token_ref m = None /\ lm_enrollment_key_ref m = None
  | PlainManifest =>
      (exists url, lm_manifest_url m = Some url /\ secure_url url)
      /\ lm_signing_public_key m = None /\ lm_status_url m = None
      /\ lm_device_id m = None /\ lm_status_token_ref m = None /\ lm_enrollment_key_ref m = None
  | SignedManifest =>
      (exists url, lm_manifest_url m = Some url /\ secure_url url)
      /\ (exists key, lm_signing_public_key m = Some key /\ key <> [] /\ str_len key <= 256 /\ single_line key)
      /\ (reports_status m
          \/ (lm_status_url m = None /\ lm_device_id m = None /\ lm_status_token_ref m = None))
      /\ (forall r, lm_enrollment_key_ref m = Some r -> is_valid_secret_reference r = true)
  end.

Lemma is_some_false {A} (o : option A) : is_some o = false <-> o = None.
Proof. destruct o; naive_solver. Qed.
Lemma is_some_true {A} (o : option A) : is_some o = true <-> exists x, o = Some x.
Proof. destruct o; naive_solver. Qed.


Definition url_acceptable (url : Url) : bool :=
  negb (negb (str_eqb (url_scheme url) (lit "http") || str_eqb (url_scheme url) (lit "https"))
        || negb (is_some (url_host_str url)) || negb (str_is_empty (url_username url))
        || is_some (url_password url) || is_some (url_fragment url)).

Lemma url_acceptable_spec url :
  url_acceptable url = true <->
  (url_scheme url = lit "http" \/ url_scheme url = lit "https")
  /\ (exists host, url_host_str url = Some host)
  /\ url_username url = [] /\ url_password url = None /\ url_fragment url = None.
Proof.
  unfold url_acceptable.
  rewrite negb_true_iff, !orb_false_iff, !negb_false_iff, orb_true_iff, !str_eqb_true,
    is_some_true, !is_some_false.
  assert (forall s, str_is_empty s = true <-> s = []) as -> by (intros [|]; naive_solver).
  tauto.
Qed.

(** A management URL that is fetched passed both the syntax and the
    transport check. *)
Lemma secure_fetch_Ok o (k : result ManagementConfigError unit) :
  (url ← validate_management_url o; validate_signed_transport url ;; k) = Ok () <->
  (exists v, o = Some v /\ secure_url v) /\ k = Ok ().
Proof.
  unfold validate_management_url, validate_signed_transport, secure_url. split.
  - intros Hv. apply bind_Ok in Hv as (url & Hu & Hv). rewrite seq_Ok in Hv. destruct Hv as [Ht Hk].
    apply bind_Ok in Hu as (v & Ho%ok_or_Ok & Hu). rewrite seq_Ok, reject_if_Ok in Hu.
    destruct Hu as [Hb Hu]. apply bind_Ok in Hu as (url' & Hp%ok_or_Ok & Hu).
    rewrite seq_Ok, reject_if_Ok in Hu. destruct Hu as [Hacc [= ->]].
    apply bounded_line_spec in Hb as [? ?]. assert (url_acceptable url = true) as Ha by by apply negb_true_iff.
    apply url_acceptable_spec in Ha as (? & [host Hh] & ? & ? & ?). rewrite Hh in Ht.
    destruct (_ || _) eqn:E in Ht; [|done].
    apply orb_true_iff in E. rewrite str_eqb_true in E. split; [|done]. exists v. split_and!; eauto 20.
  - intros [(v & -> & Hc & Hl & url & host & Hp & Hh & Hs & Hu & Hpw & Hf & Ht) ->]. cbn.
    rewrite (proj2 (bounded_line_spec _ _) (conj Hc Hl)), Hp. cbn.
    assert (url_acceptable url = true) as Ha%negb_true_iff by (apply url_acceptable_spec; eauto 10).
    rewrite Ha. cbn. rewrite Hh. rewrite <- str_eqb_true in Ht. by apply orb_true_iff in Ht as ->.
Qed.

Lemma secure_fetch_Ok' v :
  (url ← validate_management_url (Some v); validate_signed_transport url) = Ok () <-> secure_url v.
Proof.
  pose proof (secure_fetch_Ok (Some v) (Ok ())) as Hs.
  assert ((url ← validate_management_url (Some v); validate_signed_transport url) = Ok () <->
          (url ← validate_management_url (Some v); validate_signed_transport url ;; Ok ()) = Ok ()) as ->.
  { destruct (validate_management_url (Some v)) as [u|]; cbn; [|done].
    by destruct (validate_signed_transport u) as [[]|]. }
  rewrite Hs. naive_solver.
Qed.

Lemma optional_check_spec {A} (o : option A) (f : A -> bool) :
  match o with Some x => negb (f x) | None => false end = false <-> forall x, o = Some x -> f x = true.
Proof. destruct o; [by rewrite forall_Some, negb_false_iff|by rewrite forall_None]. Qed.

(** Status URL, device id and token come together or not at all. *)
Lemma reporting_spec m :
  (existsb id [is_some (lm_status_url m); is_some (lm_device_id m); is_some (lm_status_token_ref m)]
   && negb (forallb id [is_some (lm_status_url m); is_some (lm_device_id m); is_some (lm_status_token_ref m)])
   = false
   /\ match lm_status_url m with
      | Some u => (url ← validate_management_url (Some u); validate_signed_transport url)
      | None => Ok ()
      end = Ok ()
   /\ (forall x, lm_device_id m = Some x -> is_valid_device_id x = true)
   /\ (forall x, lm_status_token_ref m = Some x -> is_valid_secret_reference x = true))
  <-> reports_status m \/ (lm_status_url m = None /\ lm_device_id m = None /\ lm_status_token_ref m = None).
Proof.
  unfold reports_status.
  destruct (lm_status_url m) as [u|], (lm_device_id m) as [d|], (lm_status_token_ref m) as [t|];
    rewrite ?secure_fetch_Ok', ?forall_Some, ?forall_None; split;
    solve [intros (Hb & ? & ? & ?); first [discriminate Hb | left; by exists u, d, t | by right]
          |intros [(? & ? & ? & ? & ? & ? & ? & ? & ?)|(? & ? & ?)]; simplify_eq; done].
Qed.

Lemma validate_management_iff m : validate_management m = Ok () <-> management_contract m.
Proof.
  unfold validate_management, management_contract.
  rewrite seq_Ok, reject_if_Ok, negb_false_iff, in_range_true. fold (refresh_interval_minutes m).
  apply and_iff_compat_l. destruct (lm_mode m).
  - rewrite reject_if_Ok, !orb_false_iff, !is_some_false. tauto.
  - rewrite secure_fetch_Ok, reject_if_Ok, !orb_false_iff, !is_some_false. tauto.
  - rewrite secure_fetch_Ok, <- reporting_spec. apply and_iff_compat_l.
    destruct (lm_signing_public_key m) as [key|] eqn:Hk; [|split; [done|naive_solver]].
    rewrite bind_Ok. setoid_rewrite ok_or_Ok.
    split.
    + intros (k & [= <-] & Hr). rewrite !seq_Ok, !reject_if_Ok, !optional_check_spec in Hr.
      rewrite !orb_false_iff, str_is_empty_false, Z.ltb_ge, contains_line_break_false in Hr.
      destruct_and!. split; [by exists key|]. split_and!; auto.
    + intros ((k & [= <-] & ? & ? & ?) & (? & ? & ? & ?) & ?). exists key. split; [done|].
      rewrite !seq_Ok, !reject_if_Ok, !optional_check_spec.
      rewrite !orb_false_iff, str_is_empty_false, Z.ltb_ge, contains_line_break_false. unfold single_line in *. destruct_and!. split_and!; auto.
Qed.

(** The management section is accepted exactly when it keeps its mode's
    promise: a disabled section is empty; an unsigned manifest is fetched
    only over HTTPS or from this host and carries no identity or reporting
    fields; a signed one also pins a bounded key and configures status
    reporting completely or not at all. *)
Theorem validate_management_spec (m : LocalManagementConfig) :
  validate_management m = Ok () <-> management_contract m.
Proof. apply validate_management_iff. Qed.


(** A local configuration with the current schema and an acceptable
    management section survives being written to TOML and read back. *)
Theorem toml_roundtrip `{SerdeLaws LocalConfig} (config : LocalConfig) text :
  lc_schema_version config = CONFIG_SCHEMA_VERSION -> management_contract (lc_management config) ->
  to_toml_pretty config = Ok text -> from_toml text = Ok config.
Proof.
  unfold to_toml_pretty, from_toml. intros Hv Hm Ht%ok_or_Ok.
  apply serde_roundtrip in Ht as ->. cbn. rewrite Hv, Z.eqb_refl. cbn.
  rewrite <- validate_management_iff in Hm. by rewrite Hm.
Qed.
End management_spec.

Module ConfigWitness.
Import UrlExample.
(** A one-value [toml] for the default configuration. *)
Definition toy_toml : Serde LocalConfig :=
  {| serialize c := if decide (c = LocalConfig_default) then Some [35] else None;
     deserialize b := if decide (b = [35]) then Some LocalConfig_default else None |}.
Lemma toy_toml_laws : @SerdeLaws LocalConfig toy_toml.
Proof.
  split; cbn; intros x b; case_decide; intros [= <-]; subst; [|done]. done.
Qed.

Lemma toml_roundtrip_witness :
  @from_toml toy_url toy_toml [35] = Ok LocalConfig_default.
Proof.
  apply (@toml_roundtrip toy_url toy_toml toy_toml_laws LocalConfig_default [35]).
  - reflexivity.
  - apply validate_management_iff. reflexivity.
  - reflexivity.
Defined.

(** A plain manifest over cleartext HTTP is refused, over HTTPS accepted. *)
Example plain_transport :
  let plain url :=
    {| lm_mode := PlainManifest; lm_manifest_url := Some (lit url); lm_signing_public_key := None;
       lm_refresh_interval_minutes := None; lm_status_url := None; lm_device_id := None;
       lm_status_token_ref := None; lm_enrollment_key_ref := None |} in
  validate_management <$> [plain "https://files.example.test/resticpal.json";
                           plain "http://127.0.0.1:8080/resticpal.json";
                           plain "http://files.example.test/resticpal.json";
                           plain "http://localhost.example.test/policy";
                           plain "https://user@example.test/policy"]%string
  = [Ok (); Ok (); Err InsecureTransport; Err InsecureTransport; Err InvalidUrl].
Proof. reflexivity. Qed.

Example default_is_valid : validate EffectiveConfig_default = Ok ().
Proof. reflexivity. Qed.
End ConfigWitness.
