(* ===== verification/Status.v ===== *)
(** * Status model ([crates/resticpal-core/src/status.rs])

    The backup state machine's states, the service status every client sees,
    and the filter on source names retained from a failed run. *)
From stdpp Require Import base option list strings.
From S2P Require Import Prelude RustStd Chrono Config.

Definition MAX_BACKUP_FAILED_ITEMS : Z := 100.
Definition MAX_BACKUP_FAILED_ITEM_BYTES : Z := 4 * 1024.

(** The bidirectional formatting characters that can disguise a path. *)
Definition is_bidi_control (c : Z) : bool :=
  (c =? 0x202A) || (c =? 0x202B) || (c =? 0x202C) || (c =? 0x202D) || (c =? 0x202E)
  || (c =? 0x2066) || (c =? 0x2067) || (c =? 0x2068) || (c =? 0x2069).

Definition is_safe_backup_failed_item (item : rstr) : bool :=
  negb (str_is_empty item)
  && (str_len item <=? MAX_BACKUP_FAILED_ITEM_BYTES)
  && negb (existsb (fun character => is_control character || is_bidi_control character) item).

Inductive WaitingReason : Type :=
| WR_WakeGrace | WR_Network | WR_PolicyBackoff | WR_Battery | WR_MeteredNetwork
| WR_RepositoryValidation | WR_Update.

Inductive BackupPhase : Type :=
| PreparingSnapshot | Scanning | Uploading | Finalizing | Retention | Checking.

Inductive BackupState : Type :=
| Unconfigured
| BS_Idle
| BS_Waiting (reason : WaitingReason)
| BS_Running (phase : BackupPhase)
| BS_Succeeded
| BS_SucceededWithWarnings
| BS_Failed (code : rstr)
| BS_Cancelled
| BS_Paused.

Inductive BackupRunOutcome : Type :=
| Run_Succeeded | Run_SucceededWithWarnings | Run_Failed | Run_Cancelled.

#[global] Instance WaitingReason_eq_dec : EqDecision WaitingReason.
Proof. solve_decision. Defined.
#[global] Instance BackupPhase_eq_dec : EqDecision BackupPhase.
Proof. solve_decision. Defined.
#[global] Instance BackupState_eq_dec : EqDecision BackupState.
Proof. solve_decision. Defined.
#[global] Instance BackupRunOutcome_eq_dec : EqDecision BackupRunOutcome.
Proof. solve_decision. Defined.

(** [matches!(state, BackupState::Running { .. })] *)
Definition is_running (s : BackupState) : bool :=
  match s with BS_Running _ => true | _ => false end.

Record BackupProgress : Type := {
  bp_percent_done : option Z;
  bp_files_done : Z;
  bp_total_files : option Z;
  bp_bytes_done : Z;
  bp_total_bytes : option Z;
  bp_error_count : Z
}.
#[global] Instance BackupProgress_eq_dec : EqDecision BackupProgress.
Proof. solve_decision. Defined.
Record ServiceStatus : Type := {
  ss_state : BackupState;
  ss_state_since : DateTime;
  ss_last_attempt : option DateTime;
  ss_last_success : option DateTime;
  ss_next_deadline : option DateTime;
  ss_repository_display_name : option rstr;
  ss_repository_mode : RepositoryMode;
  ss_managed_revision : option rstr;
  ss_progress : option BackupProgress
}.
#[global] Instance ServiceStatus_eq_dec : EqDecision ServiceStatus.
Proof. solve_decision. Defined.
Record BackupRunRecord : Type := {
  br_id : Z;
  br_started_at : DateTime;
  br_completed_at : DateTime;
  br_outcome : BackupRunOutcome;
  br_error_code : option rstr;
  br_files_processed : option Z;
  br_bytes_processed : option Z;
  br_data_added : option Z;
  br_snapshot_id : option rstr;
  br_failed_item_count : Z
}.
#[global] Instance BackupRunRecord_eq_dec : EqDecision BackupRunRecord.
Proof. solve_decision. Defined.

(** Assignments to one field of the status. *)
Definition set_ss_state (v : BackupState) (r : ServiceStatus) : ServiceStatus :=
  {| ss_state := v; ss_state_since := ss_state_since r; ss_last_attempt := ss_last_attempt r; ss_last_success := ss_last_success r; ss_next_deadline := ss_next_deadline r; ss_repository_display_name := ss_repository_display_name r; ss_repository_mode := ss_repository_mode r; ss_managed_revision := ss_managed_revision r; ss_progress := ss_progress r |}.
Definition set_ss_state_since (v : DateTime) (r : ServiceStatus) : ServiceStatus :=
  {| ss_state := ss_state r; ss_state_since := v; ss_last_attempt := ss_last_attempt r; ss_last_success := ss_last_success r; ss_next_deadline := ss_next_deadline r; ss_repository_display_name := ss_repository_display_name r; ss_repository_mode := ss_repository_mode r; ss_managed_revision := ss_managed_revision r; ss_progress := ss_progress r |}.
Definition set_ss_last_attempt (v : option DateTime) (r : ServiceStatus) : ServiceStatus :=
  {| ss_state := ss_state r; ss_state_since := ss_state_since r; ss_last_attempt := v; ss_last_success := ss_last_success r; ss_next_deadline := ss_next_deadline r; ss_repository_display_name := ss_repository_display_name r; ss_repository_mode := ss_repository_mode r; ss_managed_revision := ss_managed_revision r; ss_progress := ss_progress r |}.
Definition set_ss_last_success (v : option DateTime) (r : ServiceStatus) : ServiceStatus :=
  {| ss_state := ss_state r; ss_state_since := ss_state_since r; ss_last_attempt := ss_last_attempt r; ss_last_success := v; ss_next_deadline := ss_next_deadline r; ss_repository_display_name := ss_repository_display_name r; ss_repository_mode := ss_repository_mode r; ss_managed_revision := ss_managed_revision r; ss_progress := ss_progress r |}.
Definition set_ss_next_deadline (v : option DateTime) (r : ServiceStatus) : ServiceStatus :=
  {| ss_state := ss_state r; ss_state_since := ss_state_since r; ss_last_attempt := ss_last_attempt r; ss_last_success := ss_last_success r; ss_next_deadline := v; ss_repository_display_name := ss_repository_display_name r; ss_repository_mode := ss_repository_mode r; ss_managed_revision := ss_managed_revision r; ss_progress := ss_progress r |}.
Definition set_ss_repository_display_name (v : option rstr) (r : ServiceStatus) : ServiceStatus :=
  {| ss_state := ss_state r; ss_state_since := ss_state_since r; ss_last_attempt := ss_last_attempt r; ss_last_success := ss_last_success r; ss_next_deadline := ss_next_deadline r; ss_repository_display_name := v; ss_repository_mode := ss_repository_mode r; ss_managed_revision := ss_managed_revision r; ss_progress := ss_progress r |}.
Definition set_ss_repository_mode (v : RepositoryMode) (r : ServiceStatus) : ServiceStatus :=
  {| ss_state := ss_state r; ss_state_since := ss_state_since r; ss_last_attempt := ss_last_attempt r; ss_last_success := ss_last_success r; ss_next_deadline := ss_next_deadline r; ss_repository_display_name := ss_repository_display_name r; ss_repository_mode := v; ss_managed_revision := ss_managed_revision r; ss_progress := ss_progress r |}.
Definition set_ss_managed_revision (v : option rstr) (r : ServiceStatus) : ServiceStatus :=
  {| ss_state := ss_state r; ss_state_since := ss_state_since r; ss_last_attempt := ss_last_attempt r; ss_last_success := ss_last_success r; ss_next_deadline := ss_next_deadline r; ss_repository_display_name := ss_repository_display_name r; ss_repository_mode := ss_repository_mode r; ss_managed_revision := v; ss_progress := ss_progress r |}.
Definition set_ss_progress (v : option BackupProgress) (r : ServiceStatus) : ServiceStatus :=
  {| ss_state := ss_state r; ss_state_since := ss_state_since r; ss_last_attempt := ss_last_attempt r; ss_last_success := ss_last_success r; ss_next_deadline := ss_next_deadline r; ss_repository_display_name := ss_repository_display_name r; ss_repository_mode := ss_repository_mode r; ss_managed_revision := ss_managed_revision r; ss_progress := v |}.
