(* ===== verification/Schedule.v ===== *)
(** * The backup schedule ([crates/resticpal-core/src/schedule.rs])

    The pure decision the service takes on every wake-up: run now, wait for a
    blocker to clear, or sleep until the next deadline. *)
From stdpp Require Import base option list.
From S2P Require Import Prelude RustStd Chrono Config.

Record SchedulerSnapshot : Type := {
  sn_now : DateTime;
  sn_last_success : option DateTime;
  sn_resumed_at : option DateTime;
  sn_not_before : option DateTime;
  sn_manual_requested : bool;
  sn_backup_running : bool;
  sn_network_required : bool;
  sn_network_available : bool;
  sn_on_battery : bool;
  sn_metered_network : bool
}.

Inductive BackupTrigger : Type := Manual | Scheduled | ResumeCatchUp.

Inductive ScheduleBlocker : Type :=
| WakeGrace | NetworkUnavailable | BatteryDisallowed | MeteredNetworkDisallowed.

Inductive ScheduleDecision : Type :=
| AlreadyRunning
| Idle (next_deadline : DateTime)
| Waiting (trigger : BackupTrigger) (blockers : list ScheduleBlocker) (retry_at : option DateTime)
| Start (trigger : BackupTrigger).

#[global] Instance BackupTrigger_eq_dec : EqDecision BackupTrigger.
Proof. solve_decision. Defined.
#[global] Instance ScheduleBlocker_eq_dec : EqDecision ScheduleBlocker.
Proof. solve_decision. Defined.

Section schedule.
Context `{Chrono}.

(** [completion_deadline]; [None] is a panic of [Duration::hours]. *)
Definition completion_deadline (last_success : option DateTime) (now : DateTime) (interval_hours : Z) :
    option DateTime :=
  match last_success with
  | Some completed =>
      interval ← duration_hours interval_hours;
      Some (default now (checked_add_signed (Z.min completed now) interval))
  | None => Some now
  end.

(** [i64::try_from(seconds).unwrap_or(i64::MAX)] on a [u64] *)
Definition clamp_i64 (n : Z) : Z := if n <=? i64_max then n else i64_max.

(** The end of the grace period after a resume. *)
Definition grace_end (config : ScheduleConfig) (s : SchedulerSnapshot) (resumed_at : DateTime) : option DateTime :=
  grace ← duration_seconds (clamp_i64 (sc_wake_grace_seconds config));
  Some (default (sn_now s) (checked_add_signed resumed_at grace)).

(** The wake-grace step of [decide]: the blocker it pushes and [retry_at]. *)
Definition grace_step (config : ScheduleConfig) (s : SchedulerSnapshot) :
    option (list ScheduleBlocker * option DateTime) :=
  match sn_resumed_at s with
  | Some resumed_at =>
      if sn_manual_requested s then Some ([], None)
      else
        grace_end ← grace_end config s resumed_at;
        Some (if sn_now s <? grace_end then ([WakeGrace], Some grace_end) else ([], None))
  | None => Some ([], None)
  end.

(** [decide]; [None] is a panic. *)
Definition decide_schedule (config : ScheduleConfig) (s : SchedulerSnapshot) : option ScheduleDecision :=
  if sn_backup_running s then Some AlreadyRunning
  else
    scheduled_deadline ← completion_deadline (sn_last_success s) (sn_now s) (sc_interval_hours config);
    let next_deadline :=
      if sn_manual_requested s then scheduled_deadline
      else match sn_not_before s with
           | Some not_before => Z.max scheduled_deadline not_before
           | None => scheduled_deadline
           end in
    let due := sn_manual_requested s || (next_deadline <=? sn_now s) in
    if negb due then Some (Idle next_deadline)
    else
      let trigger :=
        if sn_manual_requested s then Manual
        else match sn_resumed_at s with Some _ => ResumeCatchUp | None => Scheduled end in
      '(grace, retry_at) ← grace_step config s;
      let blockers :=
        grace
        ++ (if sn_network_required s && negb (sn_network_available s) then [NetworkUnavailable] else [])
        ++ (if negb (sn_manual_requested s) && sn_on_battery s && negb (sc_allow_on_battery config)
            then [BatteryDisallowed] else [])
        ++ (if sn_metered_network s && negb (sc_allow_metered_network config)
            then [MeteredNetworkDisallowed] else []) in
      match blockers with
      | [] => Some (Start trigger)
      | _ => Some (Waiting trigger blockers retry_at)
      end.
End schedule.

(** ** Specification *)
Section spec.
Context `{ChronoLaws}.

(** A snapshot of representable instants. *)
Record valid_snapshot (s : SchedulerSnapshot) : Prop := {
  vs_now : valid_datetime (sn_now s);
  vs_last_success : forall t, sn_last_success s = Some t -> valid_datetime t;
  vs_resumed_at : forall t, sn_resumed_at s = Some t -> valid_datetime t
}.

(** The numbers a validated configuration can carry. *)
Definition valid_schedule (c : ScheduleConfig) : Prop :=
  1 <= sc_interval_hours c <= MAX_SCHEDULE_INTERVAL_HOURS /\ 0 <= sc_wake_grace_seconds c <= 86400.

(** The instant from which an unattended backup is owed. *)
Definition scheduled_deadline (c : ScheduleConfig) (s : SchedulerSnapshot) : DateTime :=
  match sn_last_success s with
  | Some t =>
      let d := Z.min t (sn_now s) + hours (sc_interval_hours c) in
      if in_range datetime_min datetime_max d then d else sn_now s
  | None => sn_now s
  end.

Definition owed_from (c : ScheduleConfig) (s : SchedulerSnapshot) : DateTime :=
  Z.max (scheduled_deadline c s) (default (scheduled_deadline c s) (sn_not_before s)).

Definition is_due (c : ScheduleConfig) (s : SchedulerSnapshot) : Prop :=
  sn_manual_requested s = true \/ owed_from c s <= sn_now s.

(** Why a due backup may not start now.  A manual request ignores the wake
    grace and the battery rule, never the network rules. *)
Definition blocked_by (c : ScheduleConfig) (s : SchedulerSnapshot) (b : ScheduleBlocker) : Prop :=
  match b with
  | WakeGrace =>
      sn_manual_requested s = false /\ exists r, sn_resumed_at s = Some r
      /\ valid_datetime (r + seconds (sc_wake_grace_seconds c))
      /\ sn_now s < r + seconds (sc_wake_grace_seconds c)
  | NetworkUnavailable => sn_network_required s = true /\ sn_network_available s = false
  | BatteryDisallowed =>
      sn_manual_requested s = false /\ sn_on_battery s = true /\ sc_allow_on_battery c = false
  | MeteredNetworkDisallowed => sn_metered_network s = true /\ sc_allow_metered_network c = false
  end.

Definition trigger_of (s : SchedulerSnapshot) : BackupTrigger :=
  if sn_manual_requested s then Manual
  else match sn_resumed_at s with Some _ => ResumeCatchUp | None => Scheduled end.

(** What each decision means. *)
Definition decision_spec (c : ScheduleConfig) (s : SchedulerSnapshot) (d : ScheduleDecision) : Prop :=
  match d with
  | AlreadyRunning => sn_backup_running s = true
  | Idle next =>
      sn_backup_running s = false /\ ~ is_due c s /\ next = owed_from c s /\ sn_now s < next
  | Waiting t blockers retry_at =>
      sn_backup_running s = false /\ is_due c s /\ t = trigger_of s
      /\ blockers <> [] /\ (forall b, b ∈ blockers <-> blocked_by c s b)
      /\ match retry_at with
         | Some r => sn_now s < r /\ head blockers = Some WakeGrace
         | None => ~ blocked_by c s WakeGrace
         end
  | Start t =>
      sn_backup_running s = false /\ is_due c s /\ t = trigger_of s /\ (forall b, ~ blocked_by c s b)
  end.

Lemma duration_hours_schedule n :
  0 <= n <= u32_max -> duration_hours n = Some (hours n).
Proof.
  intros Hn. unfold duration_hours, hours. apply duration_seconds_small.
  unfold u32_max, i64_max in *. split; [lia|]. apply Z.div_le_lower_bound; lia.
Qed.

Lemma completion_deadline_eq last now n :
  0 <= n <= u32_max -> valid_datetime now -> (forall t, last = Some t -> valid_datetime t) ->
  completion_deadline last now n =
  Some (match last with
        | Some t =>
            let d := Z.min t now + hours n in
            if in_range datetime_min datetime_max d then d else now
        | None => now
        end).
Proof.
  intros Hn Hnow Hl. unfold completion_deadline. destruct last as [t|]; [|done].
  rewrite duration_hours_schedule by done. cbn.
  rewrite checked_add_spec by (specialize (Hl t eq_refl); unfold valid_datetime in *; lia).
  by destruct (in_range _ _ _).
Qed.

Lemma hours_pos n : 1 <= n -> 3600000000000 <= hours n.
Proof. unfold hours, seconds, ns_per_second. lia. Qed.

(** The deadline of the next unattended backup never panics and never
    lies further ahead than one interval, whatever the recorded success
    time: a success stamped in the future counts as "now". *)
Theorem completion_deadline_bounded last now n :
  1 <= n <= u32_max -> valid_datetime now -> (forall t, last = Some t -> valid_datetime t) ->
  exists d, completion_deadline last now n = Some d
    /\ d <= now + hours n
    /\ (last = None -> d = now)
    /\ (forall t, last = Some t -> t <= now -> valid_datetime (t + hours n) -> d = t + hours n).
Proof.
  intros Hn Hnow Hl. eexists. rewrite completion_deadline_eq by (auto; lia). split; [done|].
  pose proof (hours_pos n ltac:(lia)).
  destruct last as [t|]; cbn; [|split_and!; [lia|done|done]].
  split; [destruct (in_range _ _ _); lia|]. split; [done|]. intros t' [= <-] Ht Hv. rewrite Z.min_l by done.
  by apply in_range_true in Hv as ->.
Qed.

Lemma grace_end_eq c s r :
  valid_schedule c -> valid_datetime r ->
  grace_end c s r =
  Some (let e := r + seconds (sc_wake_grace_seconds c) in
        if in_range datetime_min datetime_max e then e else sn_now s).
Proof.
  intros [_ Hg] Hr. unfold grace_end, clamp_i64.
  assert (sc_wake_grace_seconds c <=? i64_max = true) as ->
    by (apply Z.leb_le; unfold i64_max; lia).
  rewrite duration_seconds_small by (unfold i64_max; split; [lia|apply Z.div_le_lower_bound; lia]).
  cbn. rewrite checked_add_spec by done. by destruct (in_range _ _ _).
Qed.

Lemma grace_step_spec c s :
  valid_schedule c -> valid_snapshot s ->
  exists l r, grace_step c s = Some (l, r) /\
    ((l = [WakeGrace] /\ blocked_by c s WakeGrace /\ exists e, r = Some e /\ sn_now s < e)
     \/ (l = [] /\ ~ blocked_by c s WakeGrace /\ r = None)).
Proof.
  intros Hc Hs. unfold grace_step, blocked_by. destruct (sn_resumed_at s) as [t|] eqn:Ht; [|naive_solver].
  destruct (sn_manual_requested s); [naive_solver|].
  rewrite grace_end_eq by (eauto using vs_resumed_at). cbn.
  destruct (in_range _ _ (t + _)) eqn:Er.
  - apply in_range_true in Er. destruct (Z.ltb_spec (sn_now s) (t + seconds (sc_wake_grace_seconds c))).
    + eexists _, _. split; [done|]. left. split_and!; eauto.
    + eexists _, _. split; [done|]. right. split_and!; auto. intros (_ & ? & [= <-] & _ & ?). lia.
  - apply in_range_false in Er. rewrite Z.ltb_irrefl. eexists _, _. split; [done|]. right.
    split_and!; auto. by intros (_ & ? & [= <-] & ? & ?).
Qed.

Lemma elem_of_guard {A} (b : bool) (x y : A) : y ∈ (if b then [x] else []) <-> b = true /\ y = x.
Proof. destruct b; set_solver. Qed.

Lemma owed_from_eq c s :
  owed_from c s =
  match sn_not_before s with
  | Some nb => Z.max (scheduled_deadline c s) nb
  | None => scheduled_deadline c s
  end.
Proof. unfold owed_from. destruct (sn_not_before s); cbn; lia. Qed.

Lemma completion_deadline_scheduled c s :
  valid_schedule c -> valid_snapshot s ->
  completion_deadline (sn_last_success s) (sn_now s) (sc_interval_hours c) = Some (scheduled_deadline c s).
Proof.
  intros [? _] []. apply completion_deadline_eq; auto.
  unfold MAX_SCHEDULE_INTERVAL_HOURS, u32_max in *; lia.
Qed.

Lemma decide_correct_aux c s :
  valid_schedule c -> valid_snapshot s ->
  exists d, decide_schedule c s = Some d /\ decision_spec c s d.
Proof.
  intros Hc Hs. unfold decide_schedule.
  destruct (sn_backup_running s) eqn:Hrun; [by eexists|].
  rewrite (completion_deadline_scheduled c s) by done. cbn [mbind option_bind]. cbv zeta.
  destruct (sn_manual_requested s) eqn:Hm; cbn [orb negb].
  2: rewrite <- owed_from_eq; destruct (Z.leb_spec (owed_from c s) (sn_now s)); cbn [negb].
  3: { eexists; split; [done|]; cbn; unfold is_due; rewrite Hm; split_and!; auto. intros [|]; [done|lia]. }
  all: destruct (grace_step_spec c s Hc Hs) as (l & r & -> & Hg); cbn [mbind option_bind].
  all: match goal with |- context [match ?bl with [] => _ | _ => _ end] => set (bs := bl) end.
  all: assert (forall b, b ∈ bs <-> blocked_by c s b) as Hbs.
  1, 3: intros b; unfold bs; rewrite !elem_of_app, !elem_of_guard, !andb_true_iff, ?negb_true_iff;
    destruct Hg as [(-> & Hgb & _)|(-> & Hgb & _)]; destruct b; cbn [blocked_by] in *;
    rewrite ?Hm in *; set_unfold; naive_solver.
  all: assert (is_due c s) as Hdue by (unfold is_due; rewrite ?Hm; auto).
  all: assert (trigger_of s = if sn_manual_requested s then Manual
         else match sn_resumed_at s with Some _ => ResumeCatchUp | None => Scheduled end) as Ht by done.
  all: rewrite Hm in Ht; rewrite <- ?Ht.
  all: destruct bs as [|b0 bs'] eqn:Hbs0; eexists; (split; [done|]); cbn.
  1, 3: split_and!; auto; intros b Hb%Hbs; set_solver.
  all: split_and!; auto; destruct Hg as [(-> & ? & e & -> & ?)|(-> & ? & ->)]; auto.
  all: subst bs; cbn in Hbs0; injection Hbs0; intros; subst; auto.
Qed.

(** C3: on a validated schedule and representable instants [decide] never
    panics, and its answer is the specified one: it is idle exactly while
    no backup is owed, waits exactly on the conditions that block one, and
    starts exactly when a backup is owed and nothing blocks it. *)
Theorem decide_correct c s :
  valid_schedule c -> valid_snapshot s ->
  exists d, decide_schedule c s = Some d /\ decision_spec c s d.
Proof. apply decide_correct_aux. Qed.

(** Any decision that satisfies the specification is the one taken. *)
Lemma decision_unique c s d :
  valid_schedule c -> valid_snapshot s -> sn_backup_running s = false ->
  decision_spec c s d -> (forall t bl r, d <> Waiting t bl r) -> decide_schedule c s = Some d.
Proof.
  intros Hc Hs Hrun Hd Hnw. destruct (decide_correct_aux c s Hc Hs) as (d' & -> & Hd'). f_equal.
  destruct d, d'; cbn in Hd, Hd'; try (exfalso; by eapply Hnw); try congruence; destruct_and!; try done; subst; try done.
  exfalso. destruct blockers as [|b bs]; [done|].
  match goal with Hn : forall b, ~ blocked_by c s b, Hb : forall b, b ∈ _ <-> blocked_by c s b |- _ =>
    apply (Hn b), Hb; constructor end.
Qed.

(** An unattended backup that is overdue is started: once the interval
    since the last success, any deferral and the wake grace have passed,
    and power and network policy allow it, the decision is [Start]. *)
Theorem overdue_backup_starts c s t :
  valid_schedule c -> valid_snapshot s -> sn_backup_running s = false ->
  sn_manual_requested s = false ->
  sn_last_success s = Some t -> t + hours (sc_interval_hours c) <= sn_now s ->
  (forall nb, sn_not_before s = Some nb -> nb <= sn_now s) ->
  (forall r, sn_resumed_at s = Some r -> r + seconds (sc_wake_grace_seconds c) <= sn_now s) ->
  (sn_network_required s = true -> sn_network_available s = true) ->
  (sn_on_battery s = true -> sc_allow_on_battery c = true) ->
  (sn_metered_network s = true -> sc_allow_metered_network c = true) ->
  decide_schedule c s = Some (Start (trigger_of s)).
Proof.
  intros Hc Hs Hrun Hm Ht Hdue Hnb Hgr Hnet Hbat Hmet.
  apply decision_unique; auto. split_and!; auto.
  - right. rewrite owed_from_eq. unfold scheduled_deadline. rewrite Ht.
    pose proof (hours_pos (sc_interval_hours c) ltac:(destruct Hc; lia)).
    rewrite Z.min_l by lia.
    destruct (in_range _ _ _), (sn_not_before s); try specialize (Hnb _ eq_refl); lia.
  - intros [] Hb; cbn in Hb; [|intuition congruence..].
    destruct Hb as (_ & r & Hr & _ & ?). specialize (Hgr r Hr). lia.
Qed.

(** A manual request starts at once whatever the wake grace and the
    battery say, and is held back only by a missing or a disallowed
    metered network. *)
Theorem manual_request_starts_iff c s :
  valid_schedule c -> valid_snapshot s -> sn_backup_running s = false ->
  sn_manual_requested s = true ->
  decide_schedule c s = Some (Start Manual) <->
  (sn_network_required s = true -> sn_network_available s = true)
  /\ (sn_metered_network s = true -> sc_allow_metered_network c = true).
Proof.
  intros Hc Hs Hrun Hm. split.
  - destruct (decide_correct_aux c s Hc Hs) as (d & -> & Hd). intros [= ->]. cbn in Hd.
    destruct Hd as (_ & _ & _ & Hb). split.
    + specialize (Hb NetworkUnavailable). cbn in Hb. destruct (sn_network_available s); tauto.
    + specialize (Hb MeteredNetworkDisallowed). cbn in Hb. destruct (sc_allow_metered_network c); tauto.
  - intros [Hnet Hmet]. replace Manual with (trigger_of s) by (unfold trigger_of; by rewrite Hm).
    apply decision_unique; auto. split_and!; auto; [by left|].
    intros [] Hb; cbn in Hb; intuition congruence.
Qed.

(** While the clock is before a recorded success, no unattended backup
    is ever due: the deadline is recomputed one interval ahead of every
    evaluation, so it recedes with the clock instead of arriving one
    interval after the mistake is noticed. *)
Theorem future_success_never_due c s t :
  valid_schedule c -> valid_snapshot s -> sn_backup_running s = false ->
  sn_manual_requested s = false -> sn_not_before s = None ->
  sn_last_success s = Some t -> sn_now s <= t ->
  valid_datetime (sn_now s + hours (sc_interval_hours c)) ->
  decide_schedule c s = Some (Idle (sn_now s + hours (sc_interval_hours c))).
Proof.
  intros Hc Hs Hrun Hm Hnb Ht Hf Hv.
  pose proof (hours_pos (sc_interval_hours c) ltac:(destruct Hc; lia)).
  assert (owed_from c s = sn_now s + hours (sc_interval_hours c)) as Ho.
  { rewrite owed_from_eq, Hnb. unfold scheduled_deadline. rewrite Ht, Z.min_r by done.
    by apply in_range_true in Hv as ->. }
  apply decision_unique; auto. cbn. rewrite Ho. split_and!; auto; [|lia].
  unfold is_due. rewrite Hm, Ho. intros [|]; [done|lia].
Qed.
End spec.

(** ** Evaluated examples *)
Module ScheduleWitness.
Import ChronoExample.
Definition at_hour (h m : Z) : DateTime := seconds (1786147200 + h * 3600 + m * 60).
Definition example (now : DateTime) (last : option DateTime) : SchedulerSnapshot :=
  {| sn_now := now; sn_last_success := last; sn_resumed_at := None; sn_not_before := None;
     sn_manual_requested := false; sn_backup_running := false; sn_network_required := true;
     sn_network_available := true; sn_on_battery := false; sn_metered_network := false |}.
Definition manual_example : SchedulerSnapshot :=
  {| sn_now := at_hour 9 1; sn_last_success := Some (at_hour 8 0); sn_resumed_at := Some (at_hour 9 0);
     sn_not_before := None; sn_manual_requested := true; sn_backup_running := false;
     sn_network_required := true; sn_network_available := true; sn_on_battery := true;
     sn_metered_network := false |}.

Lemma example_valid now last :
  valid_datetime now -> (forall t, last = Some t -> valid_datetime t) -> valid_snapshot (example now last).
Proof. by constructor. Qed.
Lemma default_schedule_valid : valid_schedule ScheduleConfig_default.
Proof. split; split; vm_compute; discriminate. Qed.

Example waits_until_the_daily_deadline :
  decide_schedule ScheduleConfig_default (example (at_hour 12 0) (Some (at_hour 8 0)))
  = Some (Idle (at_hour 32 0)).
Proof. reflexivity. Qed.

(** The fallback to [i64::MAX] seconds is not a saturation: [Duration::seconds]
    panics on it, so only validation keeps such a grace period away. *)
Example huge_grace_panics :
  decide_schedule
    {| sc_interval_hours := 24; sc_wake_grace_seconds := u64_max; sc_wake_lock_timeout_seconds := 7200;
       sc_allow_on_battery := true; sc_allow_metered_network := true |}
    {| sn_now := at_hour 9 0; sn_last_success := None; sn_resumed_at := Some (at_hour 9 0);
       sn_not_before := None; sn_manual_requested := false; sn_backup_running := false;
       sn_network_required := true; sn_network_available := true; sn_on_battery := false;
       sn_metered_network := false |} = None.
Proof. reflexivity. Qed.

Ltac instants := split; vm_compute; discriminate.

Lemma completion_deadline_witness :
  exists d, completion_deadline (Some (at_hour 30 0)) (at_hour 12 0) 24 = Some d
    /\ d <= at_hour 12 0 + hours 24.
Proof.
  destruct (completion_deadline_bounded (Some (at_hour 30 0)) (at_hour 12 0) 24) as (d & ? & ? & _);
    [split; vm_compute; discriminate|instants|intros t [= <-]; instants|]. by exists d.
Defined.

Lemma decide_correct_witness :
  exists d, decide_schedule ScheduleConfig_default (example (at_hour 12 0) (Some (at_hour 8 0))) = Some d
    /\ decision_spec ScheduleConfig_default (example (at_hour 12 0) (Some (at_hour 8 0))) d.
Proof.
  apply (decide_correct ScheduleConfig_default (example (at_hour 12 0) (Some (at_hour 8 0)))).
  - apply default_schedule_valid.
  - apply example_valid; [instants|intros t [= <-]; instants].
Defined.

Lemma overdue_backup_witness :
  decide_schedule ScheduleConfig_default (example (at_hour 40 0) (Some (at_hour 8 0))) = Some (Start Scheduled).
Proof.
  apply (overdue_backup_starts ScheduleConfig_default (example (at_hour 40 0) (Some (at_hour 8 0))) (at_hour 8 0));
    try done.
  apply example_valid; [instants|intros t [= <-]; instants].
Defined.

Lemma manual_request_witness : decide_schedule ScheduleConfig_default manual_example = Some (Start Manual).
Proof.
  apply (manual_request_starts_iff ScheduleConfig_default manual_example); try done.
  constructor; [instants|intros t [= <-]; instants..].
Defined.

Lemma future_success_witness :
  decide_schedule ScheduleConfig_default (example (at_hour 12 0) (Some (at_hour 9000 0)))
  = Some (Idle (at_hour 36 0)).
Proof.
  apply (future_success_never_due ScheduleConfig_default
           (example (at_hour 12 0) (Some (at_hour 9000 0))) (at_hour 9000 0)); try done.
  apply example_valid; [instants|intros t [= <-]; instants].
Defined.
End ScheduleWitness.
