(* ===== verification/Policy.v ===== *)
(** * Managed policy ([crates/resticpal-core/src/policy.rs])

    The managed layer, the resolution of the three configuration layers into
    the effective configuration, and the record of where each field's value
    came from. *)
From stdpp Require Import base option list gmap countable strings.
From S2P Require Import Prelude RustStd Config.

Definition MAX_POLICY_REVISION_CHARACTERS : Z := 256.
Definition MANAGED_POLICY_SCHEMA_VERSION : Z := 2.
Definition LEGACY_MANAGED_POLICY_SCHEMA_VERSION : Z := 1.

(** ** The managed layer *)
Record Managed (T : Type) : Type := { m_value : T; m_locked : bool }.
Arguments m_value {T} _.
Arguments m_locked {T} _.
Arguments Build_Managed {T} _ _.
#[global] Instance Managed_eq_dec {T} `{EqDecision T} : EqDecision (Managed T).
Proof. solve_decision. Defined.

Record ManagedBackupPolicy : Type := {
  mb_paths : option (Managed (list rstr));
  mb_exclusions : option (Managed (list rstr))
}.
#[global] Instance ManagedBackupPolicy_eq_dec : EqDecision ManagedBackupPolicy.
Proof. solve_decision. Defined.
Record ManagedRepositoryPolicy : Type := {
  mr_display_name : option (Managed (option rstr));
  mr_url : option (Managed (option rstr));
  mr_mode : option (Managed RepositoryMode);
  mr_options : option (Managed Options);
  mr_secret_refs : option (Managed SecretRefs)
}.
#[global] Instance ManagedRepositoryPolicy_eq_dec : EqDecision ManagedRepositoryPolicy.
Proof. solve_decision. Defined.
Record ManagedSchedulePolicy : Type := {
  ms_interval_hours : option (Managed Z);
  ms_wake_grace_seconds : option (Managed Z);
  ms_wake_lock_timeout_seconds : option (Managed Z);
  ms_allow_on_battery : option (Managed bool);
  ms_allow_metered_network : option (Managed bool)
}.
#[global] Instance ManagedSchedulePolicy_eq_dec : EqDecision ManagedSchedulePolicy.
Proof. solve_decision. Defined.
Record ManagedRetentionPolicy : Type := {
  mt_daily : option (Managed Z);
  mt_weekly : option (Managed Z);
  mt_monthly : option (Managed Z);
  mt_yearly : option (Managed Z);
  mt_prune_interval_days : option (Managed Z)
}.
#[global] Instance ManagedRetentionPolicy_eq_dec : EqDecision ManagedRetentionPolicy.
Proof. solve_decision. Defined.
Record ManagedUpdatePolicy : Type := {
  mu_automatic_install : option (Managed bool)
}.
#[global] Instance ManagedUpdatePolicy_eq_dec : EqDecision ManagedUpdatePolicy.
Proof. solve_decision. Defined.
Record ManagedPolicy : Type := {
  mp_schema_version : Z;
  mp_revision : rstr;
  mp_backup : ManagedBackupPolicy;
  mp_repository : ManagedRepositoryPolicy;
  mp_schedule : ManagedSchedulePolicy;
  mp_retention : ManagedRetentionPolicy;
  mp_updates : option ManagedUpdatePolicy
}.
#[global] Instance ManagedPolicy_eq_dec : EqDecision ManagedPolicy.
Proof. solve_decision. Defined.

Definition no_backup : ManagedBackupPolicy := {| mb_paths := None; mb_exclusions := None |}.
Definition no_repository : ManagedRepositoryPolicy :=
  {| mr_display_name := None; mr_url := None; mr_mode := None; mr_options := None; mr_secret_refs := None |}.
Definition no_schedule : ManagedSchedulePolicy :=
  {| ms_interval_hours := None; ms_wake_grace_seconds := None; ms_wake_lock_timeout_seconds := None;
     ms_allow_on_battery := None; ms_allow_metered_network := None |}.
Definition no_retention : ManagedRetentionPolicy :=
  {| mt_daily := None; mt_weekly := None; mt_monthly := None; mt_yearly := None; mt_prune_interval_days := None |}.
Definition no_updates : ManagedUpdatePolicy := {| mu_automatic_install := None |}.

Definition ManagedPolicy_default : ManagedPolicy :=
  {| mp_schema_version := MANAGED_POLICY_SCHEMA_VERSION; mp_revision := []; mp_backup := no_backup;
     mp_repository := no_repository; mp_schedule := no_schedule; mp_retention := no_retention; mp_updates := None |}.

(** ** Fields and where their values come from

    The constructors carry a prefix because [RepositoryMode] is also a type. *)
Inductive PolicyField : Type :=
| F_BackupPaths
| F_BackupExclusions
| F_RepositoryDisplayName
| F_RepositoryUrl
| F_RepositoryMode
| F_RepositoryOptions
| F_RepositorySecretRefs
| F_ScheduleIntervalHours
| F_ScheduleWakeGraceSeconds
| F_ScheduleWakeLockTimeoutSeconds
| F_ScheduleAllowOnBattery
| F_ScheduleAllowMeteredNetwork
| F_RetentionDaily
| F_RetentionWeekly
| F_RetentionMonthly
| F_RetentionYearly
| F_RetentionPruneIntervalDays
| F_UpdateAutomaticInstall.
#[global] Instance PolicyField_eq_dec : EqDecision PolicyField.
Proof. solve_decision. Defined.

(** The derived [Ord]: declaration order. *)
Definition field_index (f : PolicyField) : Z :=
  match f with
  | F_BackupPaths => 0
  | F_BackupExclusions => 1
  | F_RepositoryDisplayName => 2
  | F_RepositoryUrl => 3
  | F_RepositoryMode => 4
  | F_RepositoryOptions => 5
  | F_RepositorySecretRefs => 6
  | F_ScheduleIntervalHours => 7
  | F_ScheduleWakeGraceSeconds => 8
  | F_ScheduleWakeLockTimeoutSeconds => 9
  | F_ScheduleAllowOnBattery => 10
  | F_ScheduleAllowMeteredNetwork => 11
  | F_RetentionDaily => 12
  | F_RetentionWeekly => 13
  | F_RetentionMonthly => 14
  | F_RetentionYearly => 15
  | F_RetentionPruneIntervalDays => 16
  | F_UpdateAutomaticInstall => 17
  end.
Lemma field_index_inj a b : field_index a = field_index b -> a = b.
Proof. by destruct a, b. Qed.
#[global] Instance field_index_stdpp_inj : Inj (=) (=) field_index := field_index_inj.
#[global] Instance PolicyField_countable : Countable PolicyField :=
  inj_countable field_index
    (fun n => find (fun f => Z.eqb (field_index f) n)
       [F_BackupPaths; F_BackupExclusions; F_RepositoryDisplayName; F_RepositoryUrl; F_RepositoryMode; F_RepositoryOptions; F_RepositorySecretRefs; F_ScheduleIntervalHours; F_ScheduleWakeGraceSeconds; F_ScheduleWakeLockTimeoutSeconds; F_ScheduleAllowOnBattery; F_ScheduleAllowMeteredNetwork; F_RetentionDaily; F_RetentionWeekly; F_RetentionMonthly; F_RetentionYearly; F_RetentionPruneIntervalDays; F_UpdateAutomaticInstall])
    ltac:(by intros []).

Inductive ValueSource : Type := ProductDefault | LocalAdministrator | ManagedRecommendation | ManagedLocked.
#[global] Instance ValueSource_eq_dec : EqDecision ValueSource.
Proof. solve_decision. Defined.

Record FieldResolution : Type := {
  fr_source : ValueSource;
  fr_locked : bool
}.
#[global] Instance FieldResolution_eq_dec : EqDecision FieldResolution.
Proof. solve_decision. Defined.
Abbreviation Fields := (gmap PolicyField FieldResolution).
Record ResolvedConfig : Type := {
  rv_effective : EffectiveConfig;
  rv_managed_revision : option rstr;
  rv_fields : Fields
}.
#[global] Instance ResolvedConfig_eq_dec : EqDecision ResolvedConfig.
Proof. solve_decision. Defined.

Definition locked_fields (r : ResolvedConfig) : gset PolicyField :=
  dom (filter (fun kv => fr_locked kv.2 = true) (rv_fields r)).

Inductive PolicyError : Type :=
| UnsupportedLocalSchema (actual : Z)
| UnsupportedManagedSchema (actual : Z)
| UpdatesRequireManagedSchemaV2
| InvalidManagedRevision
| InvalidEffectiveConfig (e : ConfigValidationError).
#[global] Instance PolicyError_eq_dec : EqDecision PolicyError.
Proof. solve_decision. Defined.

(** ** Resolution *)
Definition choose {T} (field : PolicyField) (dflt : T) (local : option T) (managed : option (Managed T))
    (resolutions : Fields) : T * Fields :=
  let '(value, source, locked) :=
    match managed with
    | Some managed =>
        if m_locked managed then (m_value managed, ManagedLocked, true)
        else match local with
             | Some local => (local, LocalAdministrator, false)
             | None => (m_value managed, ManagedRecommendation, false)
             end
    | None =>
        match local with
        | Some local => (local, LocalAdministrator, false)
        | None => (dflt, ProductDefault, false)
        end
    end in
  (value, <[field := {| fr_source := source; fr_locked := locked |}]> resolutions).

(** The layers of a policy, [managed.map_or(&no_backup, |policy| &policy.backup)] and so on. *)
Definition managed_backup (m : option ManagedPolicy) := from_option mp_backup no_backup m.
Definition managed_repository (m : option ManagedPolicy) := from_option mp_repository no_repository m.
Definition managed_schedule (m : option ManagedPolicy) := from_option mp_schedule no_schedule m.
Definition managed_retention (m : option ManagedPolicy) := from_option mp_retention no_retention m.
Definition managed_updates (m : option ManagedPolicy) := default no_updates (m ≫= mp_updates).

(** The [EffectiveConfig { ... }] expression of [resolve_config], with the
    [fields] map threaded through the eighteen calls in source order. *)
Definition resolve_fields (defaults : EffectiveConfig) (local : LocalConfig) (managed : option ManagedPolicy)
    : EffectiveConfig * Fields :=
  let fields := ∅ in
  let '(paths, fields) := choose F_BackupPaths (bc_paths (ec_backup defaults)) (lb_paths (lc_backup local)) (mb_paths (managed_backup managed)) fields in
  let '(exclusions, fields) := choose F_BackupExclusions (bc_exclusions (ec_backup defaults)) (lb_exclusions (lc_backup local)) (mb_exclusions (managed_backup managed)) fields in
  let '(display_name, fields) := choose F_RepositoryDisplayName (rc_display_name (ec_repository defaults)) (Some <$> lr_display_name (lc_repository local)) (mr_display_name (managed_repository managed)) fields in
  let '(url, fields) := choose F_RepositoryUrl (rc_url (ec_repository defaults)) (Some <$> lr_url (lc_repository local)) (mr_url (managed_repository managed)) fields in
  let '(mode, fields) := choose F_RepositoryMode (rc_mode (ec_repository defaults)) (lr_mode (lc_repository local)) (mr_mode (managed_repository managed)) fields in
  let '(options, fields) := choose F_RepositoryOptions (rc_options (ec_repository defaults)) (lr_options (lc_repository local)) (mr_options (managed_repository managed)) fields in
  let '(secret_refs, fields) := choose F_RepositorySecretRefs (rc_secret_refs (ec_repository defaults)) (lr_secret_refs (lc_repository local)) (mr_secret_refs (managed_repository managed)) fields in
  let '(interval_hours, fields) := choose F_ScheduleIntervalHours (sc_interval_hours (ec_schedule defaults)) (ls_interval_hours (lc_schedule local)) (ms_interval_hours (managed_schedule managed)) fields in
  let '(wake_grace_seconds, fields) := choose F_ScheduleWakeGraceSeconds (sc_wake_grace_seconds (ec_schedule defaults)) (ls_wake_grace_seconds (lc_schedule local)) (ms_wake_grace_seconds (managed_schedule managed)) fields in
  let '(wake_lock_timeout_seconds, fields) := choose F_ScheduleWakeLockTimeoutSeconds (sc_wake_lock_timeout_seconds (ec_schedule defaults)) (ls_wake_lock_timeout_seconds (lc_schedule local)) (ms_wake_lock_timeout_seconds (managed_schedule managed)) fields in
  let '(allow_on_battery, fields) := choose F_ScheduleAllowOnBattery (sc_allow_on_battery (ec_schedule defaults)) (ls_allow_on_battery (lc_schedule local)) (ms_allow_on_battery (managed_schedule managed)) fields in
  let '(allow_metered_network, fields) := choose F_ScheduleAllowMeteredNetwork (sc_allow_metered_network (ec_schedule defaults)) (ls_allow_metered_network (lc_schedule local)) (ms_allow_metered_network (managed_schedule managed)) fields in
  let '(daily, fields) := choose F_RetentionDaily (tc_daily (ec_retention defaults)) (lt_daily (lc_retention local)) (mt_daily (managed_retention managed)) fields in
  let '(weekly, fields) := choose F_RetentionWeekly (tc_weekly (ec_retention defaults)) (lt_weekly (lc_retention local)) (mt_weekly (managed_retention managed)) fields in
  let '(monthly, fields) := choose F_RetentionMonthly (tc_monthly (ec_retention defaults)) (lt_monthly (lc_retention local)) (mt_monthly (managed_retention managed)) fields in
  let '(yearly, fields) := choose F_RetentionYearly (tc_yearly (ec_retention defaults)) (lt_yearly (lc_retention local)) (mt_yearly (managed_retention managed)) fields in
  let '(prune_interval_days, fields) := choose F_RetentionPruneIntervalDays (tc_prune_interval_days (ec_retention defaults)) (lt_prune_interval_days (lc_retention local)) (mt_prune_interval_days (managed_retention managed)) fields in
  let '(automatic_install, fields) := choose F_UpdateAutomaticInstall (uc_automatic_install (ec_updates defaults)) (lu_automatic_install (lc_updates local)) (mu_automatic_install (managed_updates managed)) fields in
  ({| ec_backup := {| bc_paths := paths; bc_exclusions := exclusions |};
      ec_repository := {| rc_display_name := display_name; rc_url := url; rc_mode := mode; rc_options := options; rc_secret_refs := secret_refs |};
      ec_schedule := {| sc_interval_hours := interval_hours; sc_wake_grace_seconds := wake_grace_seconds; sc_wake_lock_timeout_seconds := wake_lock_timeout_seconds; sc_allow_on_battery := allow_on_battery; sc_allow_metered_network := allow_metered_network |};
      ec_retention := {| tc_daily := daily; tc_weekly := weekly; tc_monthly := monthly; tc_yearly := yearly; tc_prune_interval_days := prune_interval_days |};
      ec_updates := {| uc_automatic_install := automatic_install |} |}, fields).

Definition unsupported_managed_schema (policy : ManagedPolicy) : bool :=
  negb ((mp_schema_version policy =? LEGACY_MANAGED_POLICY_SCHEMA_VERSION)
        || (mp_schema_version policy =? MANAGED_POLICY_SCHEMA_VERSION)).

Definition check_managed (managed : option ManagedPolicy) : result PolicyError unit :=
  match managed with
  | None => Ok ()
  | Some policy =>
      reject_if (unsupported_managed_schema policy) (UnsupportedManagedSchema (mp_schema_version policy)) ;;
      reject_if ((mp_schema_version policy =? LEGACY_MANAGED_POLICY_SCHEMA_VERSION) && is_some (mp_updates policy))
        UpdatesRequireManagedSchemaV2 ;;
      reject_if (str_is_empty (trim (mp_revision policy))
                 || (MAX_POLICY_REVISION_CHARACTERS <? chars_count (mp_revision policy))
                 || contains_line_break (mp_revision policy)) InvalidManagedRevision
  end.

Definition resolve_config (defaults : EffectiveConfig) (local : LocalConfig) (managed : option ManagedPolicy)
    : result PolicyError ResolvedConfig :=
  reject_if (negb (lc_schema_version local =? CONFIG_SCHEMA_VERSION)) (UnsupportedLocalSchema (lc_schema_version local)) ;;
  check_managed managed ;;
  let '(effective, fields) := resolve_fields defaults local managed in
  map_err InvalidEffectiveConfig (validate effective) ;;
  Ok {| rv_effective := effective; rv_managed_revision := mp_revision <$> managed; rv_fields := fields |}.

(** ** Specification: one view of the layers per field *)
Definition field_type (f : PolicyField) : Type :=
  match f with
  | F_BackupPaths | F_BackupExclusions => list rstr
  | F_RepositoryDisplayName | F_RepositoryUrl => option rstr
  | F_RepositoryMode => RepositoryMode
  | F_RepositoryOptions => Options
  | F_RepositorySecretRefs => SecretRefs
  | F_ScheduleAllowOnBattery | F_ScheduleAllowMeteredNetwork | F_UpdateAutomaticInstall => bool
  | _ => Z
  end.

Definition effective_value (f : PolicyField) (c : EffectiveConfig) : field_type f :=
  match f return field_type f with
  | F_BackupPaths => bc_paths (ec_backup c)
  | F_BackupExclusions => bc_exclusions (ec_backup c)
  | F_RepositoryDisplayName => rc_display_name (ec_repository c)
  | F_RepositoryUrl => rc_url (ec_repository c)
  | F_RepositoryMode => rc_mode (ec_repository c)
  | F_RepositoryOptions => rc_options (ec_repository c)
  | F_RepositorySecretRefs => rc_secret_refs (ec_repository c)
  | F_ScheduleIntervalHours => sc_interval_hours (ec_schedule c)
  | F_ScheduleWakeGraceSeconds => sc_wake_grace_seconds (ec_schedule c)
  | F_ScheduleWakeLockTimeoutSeconds => sc_wake_lock_timeout_seconds (ec_schedule c)
  | F_ScheduleAllowOnBattery => sc_allow_on_battery (ec_schedule c)
  | F_ScheduleAllowMeteredNetwork => sc_allow_metered_network (ec_schedule c)
  | F_RetentionDaily => tc_daily (ec_retention c)
  | F_RetentionWeekly => tc_weekly (ec_retention c)
  | F_RetentionMonthly => tc_monthly (ec_retention c)
  | F_RetentionYearly => tc_yearly (ec_retention c)
  | F_RetentionPruneIntervalDays => tc_prune_interval_days (ec_retention c)
  | F_UpdateAutomaticInstall => uc_automatic_install (ec_updates c)
  end.

Definition local_value (f : PolicyField) (c : LocalConfig) : option (field_type f) :=
  match f return option (field_type f) with
  | F_BackupPaths => lb_paths (lc_backup c)
  | F_BackupExclusions => lb_exclusions (lc_backup c)
  | F_RepositoryDisplayName => Some <$> lr_display_name (lc_repository c)
  | F_RepositoryUrl => Some <$> lr_url (lc_repository c)
  | F_RepositoryMode => lr_mode (lc_repository c)
  | F_RepositoryOptions => lr_options (lc_repository c)
  | F_RepositorySecretRefs => lr_secret_refs (lc_repository c)
  | F_ScheduleIntervalHours => ls_interval_hours (lc_schedule c)
  | F_ScheduleWakeGraceSeconds => ls_wake_grace_seconds (lc_schedule c)
  | F_ScheduleWakeLockTimeoutSeconds => ls_wake_lock_timeout_seconds (lc_schedule c)
  | F_ScheduleAllowOnBattery => ls_allow_on_battery (lc_schedule c)
  | F_ScheduleAllowMeteredNetwork => ls_allow_metered_network (lc_schedule c)
  | F_RetentionDaily => lt_daily (lc_retention c)
  | F_RetentionWeekly => lt_weekly (lc_retention c)
  | F_RetentionMonthly => lt_monthly (lc_retention c)
  | F_RetentionYearly => lt_yearly (lc_retention c)
  | F_RetentionPruneIntervalDays => lt_prune_interval_days (lc_retention c)
  | F_UpdateAutomaticInstall => lu_automatic_install (lc_updates c)
  end.

Definition managed_value (f : PolicyField) (p : option ManagedPolicy) : option (Managed (field_type f)) :=
  match f return option (Managed (field_type f)) with
  | F_BackupPaths => mb_paths (managed_backup p)
  | F_BackupExclusions => mb_exclusions (managed_backup p)
  | F_RepositoryDisplayName => mr_display_name (managed_repository p)
  | F_RepositoryUrl => mr_url (managed_repository p)
  | F_RepositoryMode => mr_mode (managed_repository p)
  | F_RepositoryOptions => mr_options (managed_repository p)
  | F_RepositorySecretRefs => mr_secret_refs (managed_repository p)
  | F_ScheduleIntervalHours => ms_interval_hours (managed_schedule p)
  | F_ScheduleWakeGraceSeconds => ms_wake_grace_seconds (managed_schedule p)
  | F_ScheduleWakeLockTimeoutSeconds => ms_wake_lock_timeout_seconds (managed_schedule p)
  | F_ScheduleAllowOnBattery => ms_allow_on_battery (managed_schedule p)
  | F_ScheduleAllowMeteredNetwork => ms_allow_metered_network (managed_schedule p)
  | F_RetentionDaily => mt_daily (managed_retention p)
  | F_RetentionWeekly => mt_weekly (managed_retention p)
  | F_RetentionMonthly => mt_monthly (managed_retention p)
  | F_RetentionYearly => mt_yearly (managed_retention p)
  | F_RetentionPruneIntervalDays => mt_prune_interval_days (managed_retention p)
  | F_UpdateAutomaticInstall => mu_automatic_install (managed_updates p)
  end.

(** The precedence rule: a locked managed value, else the administrator's
    local value, else the managed recommendation, else the product default. *)
Inductive picks {T} (dflt : T) (local : option T) (managed : option (Managed T)) : T -> FieldResolution -> Prop :=
| picks_locked v :
    managed = Some {| m_value := v; m_locked := true |} ->
    picks dflt local managed v {| fr_source := ManagedLocked; fr_locked := true |}
| picks_local v :
    (forall m, managed = Some m -> m_locked m = false) -> local = Some v ->
    picks dflt local managed v {| fr_source := LocalAdministrator; fr_locked := false |}
| picks_recommendation v :
    managed = Some {| m_value := v; m_locked := false |} -> local = None ->
    picks dflt local managed v {| fr_source := ManagedRecommendation; fr_locked := false |}
| picks_default :
    managed = None -> local = None ->
    picks dflt local managed dflt {| fr_source := ProductDefault; fr_locked := false |}.

Definition locks (f : PolicyField) (p : option ManagedPolicy) : Prop :=
  exists m, managed_value f p = Some m /\ m_locked m = true.

(** [resolved_by] says field by field what a resolution must be. *)
Record resolved_by (defaults : EffectiveConfig) (local : LocalConfig) (managed : option ManagedPolicy)
    (r : ResolvedConfig) : Prop := {
  rb_revision : rv_managed_revision r = mp_revision <$> managed;
  rb_fields : forall f, exists res, rv_fields r !! f = Some res
      /\ picks (effective_value f defaults) (local_value f local) (managed_value f managed)
           (effective_value f (rv_effective r)) res
}.

(** What a policy document must satisfy to be considered at all. *)
Definition policy_accepted (p : ManagedPolicy) : Prop :=
  (mp_schema_version p = 2 \/ (mp_schema_version p = 1 /\ mp_updates p = None))
  /\ trim (mp_revision p) <> []
  /\ chars_count (mp_revision p) <= MAX_POLICY_REVISION_CHARACTERS
  /\ contains_line_break (mp_revision p) = false.

Section picks_facts.
Context {T : Type} (dflt : T) (local : option T) (managed : option (Managed T)).

Lemma choose_picks field fields :
  exists res, (choose field dflt local managed fields).2 = <[field := res]> fields
    /\ picks dflt local managed (choose field dflt local managed fields).1 res.
Proof.
  unfold choose. destruct managed as [[v []]|], local; cbn; eexists; (split; [reflexivity|]).
  all: constructor; try done. all: intros ? [= <-]; done.
Qed.

Lemma picks_functional v1 r1 v2 r2 :
  picks dflt local managed v1 r1 -> picks dflt local managed v2 r2 -> v1 = v2 /\ r1 = r2.
Proof.
  intros H1 H2; destruct H1; destruct H2; simplify_eq; try done;
    repeat match goal with
    | H : forall m, Some _ = Some m -> _ |- _ => specialize (H _ eq_refl); cbn in H
    end; done.
Qed.

Lemma picks_locked_iff v r :
  picks dflt local managed v r ->
  fr_locked r = true <-> exists m, managed = Some m /\ m_locked m = true.
Proof.
  intros []; cbn; split; try done; try eauto.
  - intros (m & Hm & ?). by rewrite (H _ Hm) in *.
  - intros (m & Hm & ?). by simplify_eq.
  - intros (m & Hm & ?). by simplify_eq.
Qed.
End picks_facts.

Lemma effective_ext c1 c2 :
  (forall f, effective_value f c1 = effective_value f c2) -> c1 = c2.
Proof.
  intros H. destruct c1 as [[] [] [] [] []], c2 as [[] [] [] [] []].
  repeat f_equal.
  all: match goal with |- ?x = ?y =>
         first [ exact (H F_BackupPaths) | exact (H F_BackupExclusions) | exact (H F_RepositoryDisplayName)
               | exact (H F_RepositoryUrl) | exact (H F_RepositoryMode) | exact (H F_RepositoryOptions)
               | exact (H F_RepositorySecretRefs) | exact (H F_ScheduleIntervalHours)
               | exact (H F_ScheduleWakeGraceSeconds) | exact (H F_ScheduleWakeLockTimeoutSeconds)
               | exact (H F_ScheduleAllowOnBattery) | exact (H F_ScheduleAllowMeteredNetwork)
               | exact (H F_RetentionDaily) | exact (H F_RetentionWeekly) | exact (H F_RetentionMonthly)
               | exact (H F_RetentionYearly) | exact (H F_RetentionPruneIntervalDays)
               | exact (H F_UpdateAutomaticInstall) ] end.
Qed.

(** [resolve_fields] satisfies the field-by-field specification. *)
Lemma resolve_fields_spec defaults local managed rev :
  rev = mp_revision <$> managed ->
  let '(e, fields) := resolve_fields defaults local managed in
  resolved_by defaults local managed {| rv_effective := e; rv_managed_revision := rev; rv_fields := fields |}.
Proof.
  intros ->. unfold resolve_fields.
  repeat match goal with
  | |- context [ choose ?f ?d ?l ?m ?s ] =>
      let Hf := fresh "Hf" in let Hp := fresh "Hp" in
      let res := fresh "res" in
      destruct (choose_picks d l m f s) as (res & Hf & Hp);
      destruct (choose f d l m s) as [? ?]; cbn [fst snd] in Hf, Hp; rewrite Hf; clear Hf
  end.
  split; cbn; [done|].
  intros []; cbn; eexists; (split; [by repeat (rewrite lookup_insert_ne by done); rewrite lookup_insert_eq|done]).
Qed.

(** The specification determines the resolution. *)
Lemma resolved_by_unique defaults local managed r1 r2 :
  resolved_by defaults local managed r1 -> resolved_by defaults local managed r2 -> r1 = r2.
Proof.
  intros [Hr1 H1] [Hr2 H2].
  assert (forall f, effective_value f (rv_effective r1) = effective_value f (rv_effective r2)
                    /\ rv_fields r1 !! f = rv_fields r2 !! f) as Hall.
  { intros f. destruct (H1 f) as (res1 & Hl1 & Hp1), (H2 f) as (res2 & Hl2 & Hp2).
    destruct (picks_functional _ _ _ _ _ _ _ Hp1 Hp2) as [? ->]. by rewrite Hl1, Hl2. }
  destruct r1 as [e1 v1 f1], r2 as [e2 v2 f2]; cbn in *; subst. f_equal.
  - apply effective_ext. intros f. apply Hall.
  - apply map_eq. intros f. apply Hall.
Qed.

Lemma check_managed_Ok managed u :
  check_managed managed = Ok u <-> forall p, managed = Some p -> policy_accepted p.
Proof.
  destruct u. destruct managed as [p|]; cbn; [|by rewrite forall_None].
  rewrite forall_Some. unfold policy_accepted.
  rewrite !seq_Ok, !reject_if_Ok. unfold unsupported_managed_schema, LEGACY_MANAGED_POLICY_SCHEMA_VERSION, MANAGED_POLICY_SCHEMA_VERSION.
  rewrite negb_false_iff, !orb_false_iff, orb_true_iff, !Z.eqb_eq, Z.ltb_ge, andb_false_iff, Z.eqb_neq.
  unfold str_is_empty. destruct (trim (mp_revision p)), (mp_updates p); cbn; intuition (try congruence; try lia).
Qed.

Lemma resolve_config_iff_aux defaults local managed r :
  resolve_config defaults local managed = Ok r <->
    lc_schema_version local = CONFIG_SCHEMA_VERSION
    /\ (forall p, managed = Some p -> policy_accepted p)
    /\ validate (rv_effective r) = Ok ()
    /\ resolved_by defaults local managed r.
Proof.
  unfold resolve_config. rewrite !seq_Ok, reject_if_Ok, negb_false_iff, Z.eqb_eq, check_managed_Ok.
  pose proof (resolve_fields_spec defaults local managed _ eq_refl) as Hspec.
  destruct (resolve_fields defaults local managed) as [e fields].
  rewrite seq_Ok, map_err_Ok. split.
  - intros (? & ? & ? & [= <-]). done.
  - intros (? & ? & Hv & Hr). split_and!; [done|done| |].
    + by rewrite (resolved_by_unique _ _ _ _ _ Hr Hspec) in Hv.
    + by rewrite (resolved_by_unique _ _ _ _ _ Hr Hspec).
Qed.

(** C2: [resolve_config] accepts exactly the layers whose local schema is
    supported, whose policy document (if any) is acceptable and whose merge
    passes validation, and then each of the eighteen fields takes the locked
    managed value, else the local value, else the recommendation, else the
    product default, with its source recorded; this determines the result. *)
Theorem resolve_config_correct (defaults : EffectiveConfig) (local : LocalConfig)
    (managed : option ManagedPolicy) (r : ResolvedConfig) :
  resolve_config defaults local managed = Ok r <->
    lc_schema_version local = CONFIG_SCHEMA_VERSION
    /\ (forall p, managed = Some p -> policy_accepted p)
    /\ validate (rv_effective r) = Ok ()
    /\ resolved_by defaults local managed r.
Proof. apply resolve_config_iff_aux. Qed.

Lemma locked_fields_elem r f :
  f ∈ locked_fields r <-> exists res, rv_fields r !! f = Some res /\ fr_locked res = true.
Proof.
  unfold locked_fields. rewrite elem_of_dom. unfold is_Some.
  setoid_rewrite map_lookup_filter_Some. done.
Qed.

Lemma locked_fields_iff_aux defaults local managed r f :
  resolved_by defaults local managed r -> f ∈ locked_fields r <-> locks f managed.
Proof.
  intros [_ Hf]. rewrite locked_fields_elem. destruct (Hf f) as (res & Hl & Hp).
  unfold locks. rewrite <- (picks_locked_iff _ _ _ _ _ Hp), Hl. split; [|eauto].
  by intros (? & [= ->] & ?).
Qed.

(** A policy's locks bind the administrator: after two resolutions of the
    same policy against any two local configurations, the reported locked
    fields are exactly the fields the policy locks, and on each of them the
    two effective configurations hold the policy's value. *)
Theorem locked_fields_enforced (defaults : EffectiveConfig) (local1 local2 : LocalConfig)
    (managed : option ManagedPolicy) (r1 r2 : ResolvedConfig)
    (H1 : resolve_config defaults local1 managed = Ok r1)
    (H2 : resolve_config defaults local2 managed = Ok r2) :
  locked_fields r1 = locked_fields r2
  /\ (forall f, f ∈ locked_fields r1 <-> locks f managed)
  /\ (forall f, f ∈ locked_fields r1 ->
        m_value <$> managed_value f managed = Some (effective_value f (rv_effective r1))
        /\ effective_value f (rv_effective r1) = effective_value f (rv_effective r2)).
Proof.
  apply resolve_config_iff_aux in H1 as (_ & _ & _ & R1), H2 as (_ & _ & _ & R2).
  split_and!.
  - apply set_eq. intros f. by rewrite (locked_fields_iff_aux _ _ _ _ _ R1), (locked_fields_iff_aux _ _ _ _ _ R2).
  - intros f. apply (locked_fields_iff_aux _ _ _ _ _ R1).
  - intros f (m & Hm & Hl)%(locked_fields_iff_aux _ _ _ _ _ R1). rewrite Hm. cbn.
    assert (forall r local, resolved_by defaults local managed r -> effective_value f (rv_effective r) = m_value m) as Hval.
    { intros r local [_ Hf]. destruct (Hf f) as (res & _ & Hp). rewrite Hm in Hp.
      inversion Hp; simplify_eq; try done. by rewrite H in Hl. }
    by rewrite (Hval _ _ R1), (Hval _ _ R2).
Qed.

(** ** Rejections *)

(** The order of the checks: an unsupported local schema wins over every
    policy problem, an unsupported policy schema over the schema-1 update
    field, that over the revision, and only an acceptable pair of layers can
    fail validation, with the validator's own error. *)
Theorem resolve_config_errors (defaults : EffectiveConfig) (local : LocalConfig)
    (managed : option ManagedPolicy) (e : PolicyError) :
  resolve_config defaults local managed = Err e <->
    match e with
    | UnsupportedLocalSchema v => v = lc_schema_version local /\ v <> CONFIG_SCHEMA_VERSION
    | UnsupportedManagedSchema v =>
        lc_schema_version local = CONFIG_SCHEMA_VERSION
        /\ exists p, managed = Some p /\ v = mp_schema_version p /\ v <> 1 /\ v <> 2
    | UpdatesRequireManagedSchemaV2 =>
        lc_schema_version local = CONFIG_SCHEMA_VERSION
        /\ exists p, managed = Some p /\ mp_schema_version p = 1 /\ mp_updates p <> None
    | InvalidManagedRevision =>
        lc_schema_version local = CONFIG_SCHEMA_VERSION
        /\ exists p, managed = Some p /\ ~ policy_accepted p
             /\ (mp_schema_version p = 2 \/ (mp_schema_version p = 1 /\ mp_updates p = None))
    | InvalidEffectiveConfig ve =>
        lc_schema_version local = CONFIG_SCHEMA_VERSION
        /\ (forall p, managed = Some p -> policy_accepted p)
        /\ validate (resolve_fields defaults local managed).1 = Err ve
    end.
Proof.
  pose proof (check_managed_Ok managed ()) as Hok.
  unfold resolve_config.
  destruct (Z.eqb_spec (lc_schema_version local) CONFIG_SCHEMA_VERSION) as [Hs|Hs]; cbn;
    [|split; [intros [= <-]; done|destruct e; naive_solver]].
  destruct (check_managed managed) as [[]|e'] eqn:Hm; cbn.
  - assert (forall p, managed = Some p -> policy_accepted p) as Hacc by by apply Hok.
    destruct (resolve_fields defaults local managed) as [ef fields]; cbn.
    destruct (validate ef) as [[]|ve]; cbn; split; try done.
    + destruct e; try naive_solver.
      all: intros [_ (p & Hp & ?)]; destruct (Hacc p Hp) as [[?|[? ?]] _]; destruct_and?; first [lia|congruence|tauto].
    + intros [= <-]. done.
    + destruct e; try naive_solver.
      all: intros [_ (p & Hp & ?)]; destruct (Hacc p Hp) as [[?|[? ?]] ?] eqn:?; destruct_and?; first [lia|congruence|tauto].
  - assert (~ forall p, managed = Some p -> policy_accepted p) as Hacc by (intros H; by apply Hok in H).
    destruct managed as [p|]; [|by contradict Hacc; rewrite forall_None].
    rewrite forall_Some in *. clear Hok. cbn in Hm.
    unfold unsupported_managed_schema, LEGACY_MANAGED_POLICY_SCHEMA_VERSION, MANAGED_POLICY_SCHEMA_VERSION in Hm.
    destruct (Z.eqb_spec (mp_schema_version p) 1) as [H1|H1], (Z.eqb_spec (mp_schema_version p) 2) as [H2|H2];
      cbn in Hm; try lia; destruct (mp_updates p) eqn:Hu; cbn in Hm;
      repeat match type of Hm with context [reject_if ?b _] => destruct b; cbn in Hm end;
      simplify_eq; (split; [intros [= <-]; eauto 10 with congruence|]); destruct e; cbn;
      intros; destruct_and?; repeat match goal with H : exists _, _ |- _ => destruct H as (? & ?) end; destruct_and?;
      simplify_eq; try done; try tauto; try lia; exfalso; solve [eauto | intuition congruence].
Qed.

Module PolicyWitness.
(** A policy that locks the repository mode and recommends an interval. *)
Definition policy : ManagedPolicy :=
  {| mp_schema_version := 2; mp_revision := lit "r1"; mp_backup := no_backup;
     mp_repository :=
       {| mr_display_name := None; mr_url := None;
          mr_mode := Some {| m_value := AppendOnly; m_locked := true |};
          mr_options := None; mr_secret_refs := None |};
     mp_schedule :=
       {| ms_interval_hours := Some {| m_value := 6; m_locked := false |}; ms_wake_grace_seconds := None;
          ms_wake_lock_timeout_seconds := None; ms_allow_on_battery := None; ms_allow_metered_network := None |};
     mp_retention := no_retention; mp_updates := None |}.

(** An administrator who wants the standard mode and a 12-hour interval. *)
Definition local : LocalConfig :=
  set_lc_schedule
    {| ls_interval_hours := Some 12; ls_wake_grace_seconds := None; ls_wake_lock_timeout_seconds := None;
       ls_allow_on_battery := None; ls_allow_metered_network := None |}
    (set_lc_repository
      {| lr_display_name := None; lr_url := None; lr_mode := Some Standard; lr_options := None; lr_secret_refs := None |}
      LocalConfig_default).

Definition resolved (l : LocalConfig) : ResolvedConfig :=
  match resolve_config EffectiveConfig_default l (Some policy) with
  | Ok r => r
  | Err _ => {| rv_effective := EffectiveConfig_default; rv_managed_revision := None; rv_fields := ∅ |}
  end.

Example locked_mode_wins :
  let e := rv_effective (resolved local) in
  rc_mode (ec_repository e) = AppendOnly /\ sc_interval_hours (ec_schedule e) = 12
  /\ sc_interval_hours (ec_schedule (rv_effective (resolved LocalConfig_default))) = 6.
Proof. vm_compute. done. Qed.

Lemma locked_fields_witness :
  locked_fields (resolved local) = locked_fields (resolved LocalConfig_default)
  /\ rc_mode (ec_repository (rv_effective (resolved local))) = AppendOnly.
Proof.
  split; [|by vm_compute].
  apply (locked_fields_enforced EffectiveConfig_default local LocalConfig_default (Some policy));
    by vm_compute.
Defined.
End PolicyWitness.
