(* ===== verification/Restic.v ===== *)
(** * Restic invocations ([crates/resticpal-core/src/restic.rs])

    The command lines the service may hand to the bundled restic, the
    repository-mode gate in front of them, and the lexical path containment
    that keeps service-owned directories out of a backup. *)
From stdpp Require Import base option list gmap strings.
From S2P Require Import Prelude RustStd WinPath Config.

(** ** Operations and their authorization *)
Inductive ResticOperation : Type :=
| Backup | Unlock | Probe | Snapshots | Check | Initialize | Forget | Prune
| Rewrite | Migrate | Repair | RemoveKey.
#[global] Instance ResticOperation_eq_dec : EqDecision ResticOperation.
Proof. solve_decision. Defined.

Definition allowed_in (operation : ResticOperation) (mode : RepositoryMode) : bool :=
  match mode with
  | Standard => true
  | AppendOnly =>
      match operation with
      | Backup | Unlock | Probe | Snapshots | Check => true
      | _ => false
      end
  end.

Record ResticInvocation : Type := {
  inv_operation : ResticOperation;
  inv_executable : rstr;
  inv_arguments : list rstr;
  inv_environment : list (rstr * rstr);
  inv_secret_environment : SecretRefs
}.
#[global] Instance ResticInvocation_eq_dec : EqDecision ResticInvocation.
Proof. solve_decision. Defined.

Inductive InvocationError : Type :=
| InvalidConfiguration (e : ConfigValidationError)
| MissingRepository
| NoBackupPaths
| IE_SnapshotDisablingRepositoryOption (option : rstr)
| ProtectedBackupSource
| UnsupportedBackupSourceNamespace
| UnsupportedNetworkBackupSource
| ForbiddenByRepositoryMode (mode : RepositoryMode) (operation : ResticOperation)
| NotInspectionOperation (operation : ResticOperation)
| NotRepositorySetupOperation (operation : ResticOperation)
| NotRetentionOperation (operation : ResticOperation).
#[global] Instance InvocationError_eq_dec : EqDecision InvocationError.
Proof. solve_decision. Defined.

Definition authorize_operation (mode : RepositoryMode) (operation : ResticOperation)
    : result InvocationError unit :=
  if allowed_in operation mode then Ok () else Err (ForbiddenByRepositoryMode mode operation).

Definition repository_options (config : EffectiveConfig) : list rstr :=
  flat_map (fun '(key, value) => [lit "--option"; key ++ lit "=" ++ value]) (rc_options (ec_repository config)).

Definition reject_snapshot_disabling_options (config : EffectiveConfig) : result InvocationError unit :=
  match find repository_option_disables_source_snapshots (btree_keys (rc_options (ec_repository config))) with
  | Some option => Err (IE_SnapshotDisablingRepositoryOption option)
  | None => Ok ()
  end.

(** ** Lexical path containment *)
Section paths.
Context `{UnicodeData}.

Definition lossy_lower (s : rstr) : rstr := str_to_lowercase (to_string_lossy s).

Definition normalized_windows_prefix (prefix : Prefix) : rstr :=
  match prefix with
  | Disk drive | VerbatimDisk drive => lit "disk:" ++ [to_ascii_lowercase drive]
  | UNC server share | VerbatimUNC server share =>
      lit "unc:" ++ lossy_lower server ++ lit "/" ++ lossy_lower share
  | DeviceNS device => lit "device:" ++ lossy_lower device
  | Verbatim value => lit "verbatim:" ++ lossy_lower value
  end.

Definition normalized_name (value : rstr) : rstr := lit "name:" ++ lossy_lower value.

(** One iteration of the loop: the vector [normalized] and [floor]. *)
Definition normalize_component (st : list rstr * nat) (component : Component) : option (list rstr * nat) :=
  let '(normalized, floor) := st in
  match component with
  | CPrefix prefix =>
      let normalized := normalized ++ [normalized_windows_prefix prefix] in
      Some (normalized, length normalized)
  | RootDir => let normalized := normalized ++ [lit "root"] in Some (normalized, length normalized)
  | CurDir => Some (normalized, floor)
  | ParentDir =>
      if (length normalized <=? floor)%nat then None else Some (removelast normalized, floor)
  | Normal value => Some (normalized ++ [normalized_name value], floor)
  end.

Fixpoint normalize_components (st : list rstr * nat) (cs : list Component) : option (list rstr * nat) :=
  match cs with
  | [] => Some st
  | c :: cs => st ← normalize_component st c; normalize_components st cs
  end.

Definition normalized_windows_path (path : rstr) : option (list rstr) :=
  if negb (is_absolute path) then None
  else fst <$> normalize_components ([], 0%nat) (components path).

Definition windows_path_is_same_or_descendant (path directory : rstr) : bool :=
  match normalized_windows_path path with
  | None => false
  | Some path =>
      match normalized_windows_path directory with
      | None => false
      | Some directory =>
          (length directory <=? length path)%nat
          && forallb (fun '(path, directory) => str_eqb path directory) (zip path directory)
      end
  end.

(** ** Command builders *)
Definition repository_environment (repository : rstr) : list (rstr * rstr) :=
  [(lit "RESTIC_REPOSITORY", repository)].

Definition exclude_arguments (flag : rstr) (exclusions : list rstr) : list rstr :=
  flat_map (fun exclusion => [flag; exclusion]) exclusions.

Definition backup_with_required_exclusions (executable : rstr) (config : EffectiveConfig)
    (exclusions : list rstr) : result InvocationError ResticInvocation :=
  authorize_operation (rc_mode (ec_repository config)) Backup ;;
  reject_snapshot_disabling_options config ;;
  map_err InvalidConfiguration (validate config) ;;
  repository ← ok_or (rc_url (ec_repository config)) MissingRepository;
  reject_if (match bc_paths (ec_backup config) with [] => true | _ => false end) NoBackupPaths ;;
  reject_if (existsb (fun source => existsb (windows_path_is_same_or_descendant source) exclusions)
               (bc_paths (ec_backup config))) ProtectedBackupSource ;;
  Ok {| inv_operation := Backup;
        inv_executable := executable;
        inv_arguments :=
          repository_options config
          ++ [lit "--cleanup-cache"; lit "backup"; lit "--json"; lit "--use-fs-snapshot"]
          ++ exclude_arguments (lit "--exclude") (bc_exclusions (ec_backup config))
          ++ exclude_arguments (lit "--iexclude") exclusions
          ++ bc_paths (ec_backup config);
        inv_environment := repository_environment repository;
        inv_secret_environment := rc_secret_refs (ec_repository config) |}.

Definition backup (executable : rstr) (config : EffectiveConfig) : result InvocationError ResticInvocation :=
  backup_with_required_exclusions executable config [].

Definition unlock (executable : rstr) (config : EffectiveConfig) : result InvocationError ResticInvocation :=
  authorize_operation (rc_mode (ec_repository config)) Unlock ;;
  map_err InvalidConfiguration (validate config) ;;
  repository ← ok_or (rc_url (ec_repository config)) MissingRepository;
  Ok {| inv_operation := Unlock;
        inv_executable := executable;
        inv_arguments := repository_options config ++ [lit "unlock"];
        inv_environment := repository_environment repository;
        inv_secret_environment := rc_secret_refs (ec_repository config) |}.

Definition is_inspection (operation : ResticOperation) : bool :=
  match operation with Snapshots | Check => true | _ => false end.

(** The last arm of the inner [match] is the source's [unreachable!]. *)
Definition inspection (executable : rstr) (config : EffectiveConfig) (operation : ResticOperation)
    : result InvocationError ResticInvocation :=
  reject_if (negb (is_inspection operation)) (NotInspectionOperation operation) ;;
  authorize_operation (rc_mode (ec_repository config)) operation ;;
  map_err InvalidConfiguration (validate config) ;;
  repository ← ok_or (rc_url (ec_repository config)) MissingRepository;
  Ok {| inv_operation := operation;
        inv_executable := executable;
        inv_arguments :=
          repository_options config
          ++ match operation with
             | Snapshots => [lit "snapshots"; lit "--json"]
             | Check => [lit "check"; lit "--json"]
             | _ => []
             end;
        inv_environment := repository_environment repository;
        inv_secret_environment := rc_secret_refs (ec_repository config) |}.

Definition is_repository_setup (operation : ResticOperation) : bool :=
  match operation with Probe | Initialize => true | _ => false end.

Definition repository_setup (executable : rstr) (config : EffectiveConfig) (operation : ResticOperation)
    : result InvocationError ResticInvocation :=
  reject_if (negb (is_repository_setup operation)) (NotRepositorySetupOperation operation) ;;
  authorize_operation (rc_mode (ec_repository config)) operation ;;
  map_err InvalidConfiguration (validate config) ;;
  repository ← ok_or (rc_url (ec_repository config)) MissingRepository;
  Ok {| inv_operation := operation;
        inv_executable := executable;
        inv_arguments :=
          repository_options config
          ++ match operation with
             | Probe => [lit "cat"; lit "config"]
             | Initialize => [lit "init"]
             | _ => []
             end;
        inv_environment := repository_environment repository;
        inv_secret_environment := rc_secret_refs (ec_repository config) |}.

Definition is_retention (operation : ResticOperation) : bool :=
  match operation with Forget | Prune => true | _ => false end.

Definition retention (executable : rstr) (config : EffectiveConfig) (operation : ResticOperation)
    : result InvocationError ResticInvocation :=
  reject_if (negb (is_retention operation)) (NotRetentionOperation operation) ;;
  authorize_operation (rc_mode (ec_repository config)) operation ;;
  map_err InvalidConfiguration (validate config) ;;
  repository ← ok_or (rc_url (ec_repository config)) MissingRepository;
  Ok {| inv_operation := operation;
        inv_executable := executable;
        inv_arguments :=
          repository_options config
          ++ match operation with
             | Forget =>
                 [lit "forget";
                  lit "--keep-daily"; to_string (tc_daily (ec_retention config));
                  lit "--keep-weekly"; to_string (tc_weekly (ec_retention config));
                  lit "--keep-monthly"; to_string (tc_monthly (ec_retention config));
                  lit "--keep-yearly"; to_string (tc_yearly (ec_retention config))]
             | Prune => [lit "prune"]
             | _ => []
             end;
        inv_environment := repository_environment repository;
        inv_secret_environment := rc_secret_refs (ec_repository config) |}.
End paths.

(** ** Specification: how an argument vector reads

    [parse_cli] reads an argument vector the way a getopt-style program
    does: a flag that takes a value consumes the next word whatever it is, a
    word that starts with a dash is a switch, every other word is positional. *)
Record Cli : Type := {
  cli_values : list (rstr * rstr);
  cli_switches : list rstr;
  cli_positional : list rstr
}.
#[global] Instance Cli_eq_dec : EqDecision Cli.
Proof. solve_decision. Defined.

Definition value_flags : list rstr :=
  [lit "--option"; lit "--exclude"; lit "--iexclude"; lit "--keep-daily"; lit "--keep-weekly";
   lit "--keep-monthly"; lit "--keep-yearly"].
Definition takes_value (a : rstr) : bool := existsb (str_eqb a) value_flags.

Fixpoint parse_cli (args : list rstr) : option Cli :=
  match args with
  | [] => Some {| cli_values := []; cli_switches := []; cli_positional := [] |}
  | a :: rest =>
      if takes_value a then
        match rest with
        | [] => None
        | v :: rest =>
            c ← parse_cli rest;
            Some {| cli_values := (a, v) :: cli_values c; cli_switches := cli_switches c;
                    cli_positional := cli_positional c |}
        end
      else
        c ← parse_cli rest;
        Some (if starts_with (lit "-") a
              then {| cli_values := cli_values c; cli_switches := a :: cli_switches c;
                      cli_positional := cli_positional c |}
              else {| cli_values := cli_values c; cli_switches := cli_switches c;
                      cli_positional := a :: cli_positional c |})
  end.

Definition with_flag (flag : rstr) (values : list rstr) : list (rstr * rstr) := (fun v => (flag, v)) <$> values.

Definition option_values (config : EffectiveConfig) : list (rstr * rstr) :=
  (fun '(key, value) => (lit "--option", key ++ lit "=" ++ value)) <$> rc_options (ec_repository config).

(** The command line an operation stands for. *)
Definition cli_of (config : EffectiveConfig) (exclusions : list rstr) (operation : ResticOperation) : Cli :=
  let t := ec_retention config in
  match operation with
  | Backup =>
      {| cli_values := option_values config
           ++ with_flag (lit "--exclude") (bc_exclusions (ec_backup config))
           ++ with_flag (lit "--iexclude") exclusions;
         cli_switches := [lit "--cleanup-cache"; lit "--json"; lit "--use-fs-snapshot"];
         cli_positional := lit "backup" :: bc_paths (ec_backup config) |}
  | Unlock => {| cli_values := option_values config; cli_switches := []; cli_positional := [lit "unlock"] |}
  | Probe => {| cli_values := option_values config; cli_switches := []; cli_positional := [lit "cat"; lit "config"] |}
  | Initialize => {| cli_values := option_values config; cli_switches := []; cli_positional := [lit "init"] |}
  | Snapshots => {| cli_values := option_values config; cli_switches := [lit "--json"]; cli_positional := [lit "snapshots"] |}
  | Check => {| cli_values := option_values config; cli_switches := [lit "--json"]; cli_positional := [lit "check"] |}
  | Forget =>
      {| cli_values := option_values config
           ++ [(lit "--keep-daily", to_string (tc_daily t)); (lit "--keep-weekly", to_string (tc_weekly t));
               (lit "--keep-monthly", to_string (tc_monthly t)); (lit "--keep-yearly", to_string (tc_yearly t))];
         cli_switches := []; cli_positional := [lit "forget"] |}
  | Prune => {| cli_values := option_values config; cli_switches := []; cli_positional := [lit "prune"] |}
  | _ => {| cli_values := []; cli_switches := []; cli_positional := [] |}
  end.

Lemma parse_cli_flag flag (values rest : list rstr) c :
  takes_value flag = true -> parse_cli rest = Some c ->
  parse_cli (flat_map (fun v => [flag; v]) values ++ rest) =
  Some {| cli_values := with_flag flag values ++ cli_values c; cli_switches := cli_switches c;
          cli_positional := cli_positional c |}.
Proof.
  intros Hf Hc. induction values as [|v values IH]; [cbn; rewrite Hc; by destruct c|].
  cbn [flat_map app]. cbn [parse_cli app]. by rewrite Hf, IH.
Qed.

Lemma parse_cli_options config rest c :
  parse_cli rest = Some c ->
  parse_cli (repository_options config ++ rest) =
  Some {| cli_values := option_values config ++ cli_values c; cli_switches := cli_switches c;
          cli_positional := cli_positional c |}.
Proof.
  intros Hc. pose proof (parse_cli_flag (lit "--option")
    ((fun '(key, value) => key ++ lit "=" ++ value) <$> rc_options (ec_repository config)) rest c eq_refl Hc) as Hp.
  unfold repository_options, option_values, with_flag in *.
  rewrite <- list_fmap_compose in Hp.
  assert (forall l : Options, flat_map (λ v : rstr, [lit "--option"; v]) ((λ '(key, value), key ++ lit "=" ++ value) <$> l)
          = flat_map (λ '(key, value), [lit "--option"; key ++ lit "=" ++ value]) l) as <-.
  { intros l. induction l as [|[k v] l IH]; cbn; [done|]. by rewrite IH. }
  rewrite Hp. do 2 f_equal. f_equal. apply list_fmap_ext. intros ? [k v] ?. done.
Qed.

Lemma parse_cli_positional words :
  Forall (fun w => starts_with (lit "-") w = false) words ->
  parse_cli words = Some {| cli_values := []; cli_switches := []; cli_positional := words |}.
Proof.
  induction 1 as [|w words Hw _ IH]; [done|]. cbn [parse_cli].
  assert (takes_value w = false) as ->.
  { destruct (takes_value w) eqn:E; [|done]. unfold takes_value, value_flags in E.
    apply existsb_exists in E as (x & Hx & ->%str_eqb_true).
    cbn in Hx. repeat destruct Hx as [<-|Hx]; done. }
  by rewrite IH, Hw.
Qed.

(** An absolute Windows path starts with a separator or a drive letter, so
    no source can be read as a flag. *)
Lemma absolute_not_flag path : is_absolute path = true -> starts_with (lit "-") path = false.
Proof.
  unfold is_absolute. rewrite andb_true_iff. intros [_ Hp].
  destruct path as [|c path]; [done|].
  destruct (starts_with (lit "-") (c :: path)) eqn:E; [|done]. exfalso.
  apply starts_with_true in E as [r [= -> ->]]. destruct r as [|d r]; [done|].
  assert (parse_prefix (45 :: d :: r) = None) as E.
  { change (Disk <$> parse_drive (45 :: d :: r) = None). cbn. repeat case_match; done. }
  change (match parse_prefix (45 :: d :: r) with Some _ => true | None => false end = true) in Hp.
  by rewrite E in Hp.
Qed.

Section builder_lemmas.
Context `{UnicodeData}.

Lemma valid_sources_not_flags config :
  validate config = Ok () ->
  Forall (fun w => starts_with (lit "-") w = false) (bc_paths (ec_backup config)).
Proof.
  intros [? ? ? ? ? [_ Hp]]%validate_iff. eapply Forall_impl; [exact Hp|].
  intros p (? & ? & _). by apply absolute_not_flag.
Qed.

(** Everything the builders can produce. *)
Inductive builds (executable : rstr) (config : EffectiveConfig) : list rstr -> ResticInvocation -> Prop :=
| builds_backup exclusions inv :
    backup_with_required_exclusions executable config exclusions = Ok inv -> builds executable config exclusions inv
| builds_unlock inv : unlock executable config = Ok inv -> builds executable config [] inv
| builds_inspection op inv : inspection executable config op = Ok inv -> builds executable config [] inv
| builds_setup op inv : repository_setup executable config op = Ok inv -> builds executable config [] inv
| builds_retention op inv : retention executable config op = Ok inv -> builds executable config [] inv.

Lemma authorize_Ok mode op u : authorize_operation mode op = Ok u <-> allowed_in op mode = true.
Proof. destruct u. unfold authorize_operation. by destruct (allowed_in op mode). Qed.

(** The steps every builder shares after its operation check. *)
Lemma builder_steps {T} config op (k : rstr -> result InvocationError T) x :
  (authorize_operation (rc_mode (ec_repository config)) op ;;
   map_err InvalidConfiguration (validate config) ;;
   repository ← ok_or (rc_url (ec_repository config)) MissingRepository; k repository) = Ok x <->
  allowed_in op (rc_mode (ec_repository config)) = true /\ validate config = Ok ()
  /\ exists url, rc_url (ec_repository config) = Some url /\ k url = Ok x.
Proof.
  rewrite !seq_Ok, authorize_Ok, map_err_Ok, bind_Ok. setoid_rewrite ok_or_Ok. done.
Qed.
End builder_lemmas.

(** ** Invocations *)
#[local] Opaque validate.
Section invocations.
Context `{UnicodeData}.

Lemma parse_backup_args config exclusions :
  validate config = Ok () ->
  parse_cli (repository_options config
    ++ [lit "--cleanup-cache"; lit "backup"; lit "--json"; lit "--use-fs-snapshot"]
    ++ exclude_arguments (lit "--exclude") (bc_exclusions (ec_backup config))
    ++ exclude_arguments (lit "--iexclude") exclusions
    ++ bc_paths (ec_backup config)) = Some (cli_of config exclusions Backup).
Proof.
  intros Hv. pose proof (parse_cli_positional _ (valid_sources_not_flags _ Hv)) as Hsrc.
  pose proof (parse_cli_flag (lit "--iexclude") exclusions _ _ eq_refl Hsrc) as Hi.
  pose proof (parse_cli_flag (lit "--exclude") (bc_exclusions (ec_backup config)) _ _ eq_refl Hi) as He.
  cbn [cli_values cli_switches cli_positional] in He. unfold exclude_arguments.
  rewrite app_nil_r in He. match type of He with parse_cli ?l = _ => set (rest := l) in * end.
  apply (parse_cli_options config _ {|
    cli_values := with_flag (lit "--exclude") (bc_exclusions (ec_backup config)) ++ with_flag (lit "--iexclude") exclusions;
    cli_switches := [lit "--cleanup-cache"; lit "--json"; lit "--use-fs-snapshot"];
    cli_positional := lit "backup" :: bc_paths (ec_backup config) |}).
  change (parse_cli ([lit "--cleanup-cache"; lit "backup"; lit "--json"; lit "--use-fs-snapshot"] ++ rest))
    with (c ← (c ← (c ← (c ← parse_cli rest;
      Some {| cli_values := cli_values c; cli_switches := lit "--use-fs-snapshot" :: cli_switches c; cli_positional := cli_positional c |});
      Some {| cli_values := cli_values c; cli_switches := lit "--json" :: cli_switches c; cli_positional := cli_positional c |});
      Some {| cli_values := cli_values c; cli_switches := cli_switches c; cli_positional := lit "backup" :: cli_positional c |});
      Some {| cli_values := cli_values c; cli_switches := lit "--cleanup-cache" :: cli_switches c; cli_positional := cli_positional c |}).
  by rewrite He.
Qed.

Lemma parse_decimal_words op config words c :
  parse_cli words = Some c ->
  cli_of config [] op = {| cli_values := option_values config ++ cli_values c;
                           cli_switches := cli_switches c; cli_positional := cli_positional c |} ->
  parse_cli (repository_options config ++ words) = Some (cli_of config [] op).
Proof. intros Hw ->. by apply parse_cli_options. Qed.

(** Decides a closed proposition by evaluation. *)
Ltac decide_closed := apply (bool_decide_eq_true_1 _); vm_compute; reflexivity.
Ltac read_words op :=
  eapply (parse_decimal_words op); [reflexivity|];
  cbn [cli_of cli_values cli_switches cli_positional]; rewrite ?app_nil_r; reflexivity.

Lemma backup_accepts_iff_aux executable config exclusions inv :
  backup_with_required_exclusions executable config exclusions = Ok inv <->
  validate config = Ok () /\ bc_paths (ec_backup config) <> []
  /\ (forall source protected, source ∈ bc_paths (ec_backup config) -> protected ∈ exclusions ->
        windows_path_is_same_or_descendant source protected = false)
  /\ exists url, rc_url (ec_repository config) = Some url
     /\ inv = {| inv_operation := Backup; inv_executable := executable;
                 inv_arguments := inv_arguments inv; inv_environment := repository_environment url;
                 inv_secret_environment := rc_secret_refs (ec_repository config) |}
     /\ inv_arguments inv =
          repository_options config
          ++ [lit "--cleanup-cache"; lit "backup"; lit "--json"; lit "--use-fs-snapshot"]
          ++ exclude_arguments (lit "--exclude") (bc_exclusions (ec_backup config))
          ++ exclude_arguments (lit "--iexclude") exclusions
          ++ bc_paths (ec_backup config).
Proof.
  unfold backup_with_required_exclusions. rewrite !seq_Ok, authorize_Ok, map_err_Ok, bind_Ok.
  setoid_rewrite ok_or_Ok. setoid_rewrite seq_Ok. setoid_rewrite seq_Ok. setoid_rewrite reject_if_Ok.
  assert (validate config = Ok () -> reject_snapshot_disabling_options config = Ok ()) as Hsnap.
  { intros [? ? ? ? ? ? ? [_ Ho]]%validate_iff. unfold reject_snapshot_disabling_options.
    destruct (find _ _) as [k|] eqn:E; [|done]. exfalso.
    apply find_some in E as [Hin Hk]. unfold btree_keys in Hin.
    apply list_elem_of_In, list_elem_of_fmap in Hin as ([k' v] & -> & Hin).
    rewrite Forall_forall in Ho. destruct (Ho _ Hin) as [Hf _]. cbn in *. congruence. }
  assert (existsb (fun source => existsb (windows_path_is_same_or_descendant source) exclusions)
            (bc_paths (ec_backup config)) = false <->
          forall source protected, source ∈ bc_paths (ec_backup config) -> protected ∈ exclusions ->
            windows_path_is_same_or_descendant source protected = false) as Hprot.
  { rewrite existsb_false_Forall, Forall_forall. setoid_rewrite existsb_false_Forall.
    setoid_rewrite Forall_forall. naive_solver. }
  assert (match bc_paths (ec_backup config) with [] => true | _ => false end = false
          <-> bc_paths (ec_backup config) <> []) as Hne by by destruct (bc_paths _).
  setoid_rewrite Hprot. setoid_rewrite Hne.
  split.
  - intros (_ & _ & ? & url & ? & ? & ? & [= <-]). split; [assumption|]. split; [assumption|]. split; [assumption|].
    exists url. split; [assumption|]. split; reflexivity.
  - intros (? & ? & ? & url & ? & Hinv & Hargs).
    split; [by destruct (rc_mode _)|]. split; [auto|]. split; [assumption|].
    exists url. split; [assumption|]. split; [assumption|]. split; [assumption|].
    rewrite Hinv, Hargs. reflexivity.
Qed.

Lemma retention_words executable config op inv :
  retention executable config op = Ok inv -> parse_cli (inv_arguments inv) = Some (cli_of config [] op).
Proof.
  intros Hb. apply seq_Ok in Hb as [Hop Hb]. apply reject_if_Ok, negb_false_iff in Hop.
  apply builder_steps in Hb as (_ & Hv & url & ? & [= <-]). cbn -[parse_cli cli_of].
  destruct op; try discriminate Hop; first [read_words Forget | read_words Prune].
Qed.

(** C32: every command line the builders produce reads back as exactly the
    operation and configuration it was built from: the options, exclusions
    and retention counts reach restic as flag values, the backup sources as
    positional words, nothing configured can smuggle in a switch, the
    repository travels in the environment and secrets only by reference. *)
Theorem invocation_reads_back (executable : rstr) (config : EffectiveConfig) (exclusions : list rstr)
    (inv : ResticInvocation) (Hb : builds executable config exclusions inv) :
  parse_cli (inv_arguments inv) = Some (cli_of config exclusions (inv_operation inv))
  /\ inv_executable inv = executable
  /\ (exists url, rc_url (ec_repository config) = Some url
                  /\ inv_environment inv = [(lit "RESTIC_REPOSITORY", url)])
  /\ inv_secret_environment inv = rc_secret_refs (ec_repository config)
  /\ validate config = Ok ().
Proof.
  destruct Hb as [exclusions inv Hb|inv Hb|op inv Hb|op inv Hb|op inv Hb].
  { apply backup_accepts_iff_aux in Hb as (Hv & _ & _ & url & ? & Hinv & Hargs).
    rewrite Hinv. cbn [inv_arguments inv_operation inv_environment inv_executable inv_secret_environment].
    rewrite Hargs, parse_backup_args by done. split_and!; eauto. }
  { apply builder_steps in Hb as (_ & Hv & url & ? & [= <-]). cbn -[parse_cli cli_of].
    split_and!; eauto. read_words Unlock. }
  all: apply seq_Ok in Hb as [Hop Hb]; apply reject_if_Ok, negb_false_iff in Hop;
    apply builder_steps in Hb as (_ & Hv & url & ? & [= <-]); cbn -[parse_cli cli_of];
    split_and!; eauto; destruct op; try discriminate Hop;
    first [read_words Snapshots | read_words Check | read_words Probe | read_words Initialize
          | read_words Forget | read_words Prune].
Qed.

(** C6: with the repository in append-only mode no builder yields a command
    that can remove or rewrite data: the subcommand is one of backup,
    unlock, cat, snapshots and check, and unlock never asks to remove
    locks that are not stale. *)
Theorem append_only_never_destructive (executable : rstr) (config : EffectiveConfig) (exclusions : list rstr)
    (inv : ResticInvocation) (Hmode : rc_mode (ec_repository config) = AppendOnly)
    (Hb : builds executable config exclusions inv) :
  inv_operation inv ∈ [Backup; Unlock; Probe; Snapshots; Check]
  /\ exists cli command, parse_cli (inv_arguments inv) = Some cli
     /\ head (cli_positional cli) = Some command
     /\ command ∈ [lit "backup"; lit "unlock"; lit "cat"; lit "snapshots"; lit "check"]
     /\ lit "--remove-all" ∉ cli_switches cli.
Proof.
  destruct Hb as [exclusions inv Hb|inv Hb|op inv Hb|op inv Hb|op inv Hb].
  { apply backup_accepts_iff_aux in Hb as (Hv & _ & _ & url & ? & Hinv & Hargs).
    rewrite Hinv. cbn [inv_arguments inv_operation]. split; [by apply list_elem_of_here|].
    do 2 eexists. rewrite Hargs, parse_backup_args by done. split; [done|]. cbn [cli_of cli_positional cli_switches].
    split_and!; [done|decide_closed|decide_closed]. }
  { apply builder_steps in Hb as (_ & Hv & url & ? & [= <-]). cbn -[parse_cli cli_of].
    split; [set_solver|]. do 2 eexists.
    split; [read_words Unlock|]. cbn [cli_of cli_positional cli_switches].
    split_and!; [done|decide_closed|decide_closed]. }
  all: apply seq_Ok in Hb as [Hop Hb]; apply reject_if_Ok, negb_false_iff in Hop;
    apply builder_steps in Hb as (Ha & Hv & url & ? & [= <-]); rewrite Hmode in Ha;
    destruct op; try discriminate Hop; try discriminate Ha; cbn -[parse_cli cli_of];
    (split; [set_solver|]); do 2 eexists; split; first
      [ read_words Snapshots | read_words Check | read_words Probe | idtac ].
  all: cbn [cli_of cli_positional cli_switches]; split_and!; [done|decide_closed|decide_closed].
Qed.

(** A backup command is built exactly for a valid configuration with a
    repository, at least one source and no source inside a protected
    directory; it then always snapshots the filesystem, no configured
    option can switch that off, and every protected directory is excluded
    case-insensitively whatever the configured exclusions are. *)
Theorem backup_accepts_iff (executable : rstr) (config : EffectiveConfig) (exclusions : list rstr) :
  (is_ok (backup_with_required_exclusions executable config exclusions) = true <->
     validate config = Ok () /\ is_configured config = true
     /\ forall source protected, source ∈ bc_paths (ec_backup config) -> protected ∈ exclusions ->
          windows_path_is_same_or_descendant source protected = false)
  /\ (forall inv, backup_with_required_exclusions executable config exclusions = Ok inv ->
       exists cli, parse_cli (inv_arguments inv) = Some cli
         /\ lit "--use-fs-snapshot" ∈ cli_switches cli
         /\ (forall p, p ∈ exclusions -> (lit "--iexclude", p) ∈ cli_values cli)
         /\ Forall (fun kv => repository_option_disables_source_snapshots kv.1 = false)
              (rc_options (ec_repository config))).
Proof.
  split.
  - unfold is_ok. destruct (backup_with_required_exclusions _ _ _) as [inv|e] eqn:E.
    + apply backup_accepts_iff_aux in E as (? & ? & ? & url & Hu & _). split; [|done]. intros _.
      split_and!; auto. unfold is_configured. rewrite Hu. by destruct (bc_paths _).
    + split; [done|]. intros (Hv & Hc & Hp). unfold is_configured in Hc.
      destruct (rc_url (ec_repository config)) as [url|] eqn:Hu; [|done].
      assert (Err e = Ok {| inv_operation := Backup; inv_executable := executable;
        inv_arguments := repository_options config
          ++ [lit "--cleanup-cache"; lit "backup"; lit "--json"; lit "--use-fs-snapshot"]
          ++ exclude_arguments (lit "--exclude") (bc_exclusions (ec_backup config))
          ++ exclude_arguments (lit "--iexclude") exclusions
          ++ bc_paths (ec_backup config);
        inv_environment := repository_environment url;
        inv_secret_environment := rc_secret_refs (ec_repository config) |}) as Hbad; [|done].
      rewrite <- E. apply backup_accepts_iff_aux. split_and!; auto.
      * by destruct (bc_paths _).
      * by exists url.
  - intros inv (Hv & _ & _ & url & _ & _ & Hargs)%backup_accepts_iff_aux.
    eexists. rewrite Hargs, parse_backup_args by done. split; [done|]. cbn. split_and!.
    + rewrite !elem_of_cons. auto.
    + intros p Hp. rewrite !elem_of_app. right; right. unfold with_flag. by apply (list_elem_of_fmap_2 (fun v => (_, v))).
    + apply validate_iff in Hv as [? ? ? ? ? ? ? [_ Ho]]. eapply Forall_impl; [exact Ho|]. by intros ? [? _].
Qed.
End invocations.

(** ** What lexical containment means *)
Section containment.
Context `{UnicodeData}.

(** The part of a path [..] can never remove: its drive, share or device
    and, when it is there, the root. *)
Definition anchor (path : rstr) : list rstr :=
  match components path with
  | CPrefix p :: RootDir :: _ => [normalized_windows_prefix p; lit "root"]
  | CPrefix p :: _ => [normalized_windows_prefix p]
  | _ => []
  end.

Definition below_anchor (path : rstr) : list Component :=
  match components path with
  | CPrefix _ :: RootDir :: cs => cs
  | CPrefix _ :: cs => cs
  | cs => cs
  end.

(** The reference resolver: the names below the anchor, [..] removing the
    last one and failing when there is none. *)
Fixpoint resolve_names (names : list rstr) (cs : list Component) : option (list rstr) :=
  match cs with
  | [] => Some names
  | CurDir :: cs => resolve_names names cs
  | ParentDir :: cs => match names with [] => None | _ => resolve_names (removelast names) cs end
  | Normal value :: cs => resolve_names (names ++ [normalized_name value]) cs
  | (CPrefix _ | RootDir) :: _ => None
  end.

Definition plain_component (c : Component) : Prop :=
  match c with CPrefix _ | RootDir => False | _ => True end.

Lemma body_components_plain verbatim body : Forall plain_component (body_components verbatim body).
Proof.
  apply Forall_forall. intros c Hc. unfold body_components in Hc.
  apply list_elem_of_omap in Hc as (s & _ & Hs). unfold parse_single in Hs. repeat case_match; naive_solver.
Qed.

Lemma components_absolute path :
  is_absolute path = true ->
  exists p cs, parse_prefix path = Some p /\ Forall plain_component cs
    /\ (components path = CPrefix p :: cs \/ components path = CPrefix p :: RootDir :: cs).
Proof.
  unfold is_absolute, components. rewrite andb_true_iff. intros [_ Hp].
  destruct (parse_prefix path) as [p|]; [|done]. exists p. cbn.
  repeat case_match; eexists; (split; [done|]);
    (split; [|first [right; reflexivity|left; reflexivity]]); apply body_components_plain.
Qed.

Lemma normalize_plain a names cs :
  Forall plain_component cs ->
  fst <$> normalize_components (a ++ names, length a) cs = app a <$> resolve_names names cs.
Proof.
  intros Hcs. revert names. induction Hcs as [|c cs Hc _ IH]; intros names; cbn; [done|].
  destruct c as [| | | |value]; try done; cbn.
  - apply IH.
  - destruct names as [|n names] using rev_ind.
    + rewrite app_nil_r, (proj2 (Nat.leb_le _ _)) by lia. done.
    + rewrite app_assoc, !removelast_last.
      rewrite (proj2 (Nat.leb_gt _ _)) by (rewrite !length_app; cbn; lia). cbn.
      rewrite IH. by destruct names.
  - rewrite <- app_assoc. apply IH.
Qed.

Lemma normalized_windows_path_spec path :
  is_absolute path = true ->
  normalized_windows_path path = app (anchor path) <$> resolve_names [] (below_anchor path).
Proof.
  intros Ha. unfold normalized_windows_path. rewrite Ha. cbn [negb].
  destruct (components_absolute _ Ha) as (p & cs & _ & Hcs & Hc).
  unfold anchor, below_anchor. destruct Hc as [->| ->]; cbn -[lit].
  - assert (match cs with RootDir :: cs => cs | _ => cs end = cs) as E by (by destruct Hcs as [|[] ? []]).
    assert (match cs with RootDir :: _ => [normalized_windows_prefix p; lit "root"] | _ => [normalized_windows_prefix p] end
            = [normalized_windows_prefix p]) as E' by (by destruct Hcs as [|[] ? []]).
    rewrite E, E'. exact (normalize_plain [normalized_windows_prefix p] [] cs Hcs).
  - exact (normalize_plain [normalized_windows_prefix p; lit "root"] [] cs Hcs).
Qed.

Lemma zip_prefix (l d : list rstr) :
  ((length d <=? length l)%nat && forallb (fun '(a, b) => str_eqb a b) (zip l d) = true) <->
  exists rest, l = d ++ rest.
Proof.
  rewrite andb_true_iff, Nat.leb_le. revert l. induction d as [|x d IH]; intros l; cbn.
  { split; [eauto|]. intros _. destruct l; cbn; (split; [lia|done]). }
  destruct l as [|y l]; cbn; [split; [lia|naive_solver]|].
  rewrite andb_true_iff, str_eqb_true. split.
  - intros (Hl & -> & Hd). destruct (proj1 (IH l)) as [r ->]; [split; [lia|done]|]. by exists r.
  - intros [r [= -> ->]]. destruct (proj2 (IH (d ++ r))) as [? ?]; [by eexists|]. split_and!; [lia|done|done].
Qed.

Lemma contained_iff path directory :
  windows_path_is_same_or_descendant path directory = true <->
  exists d rest, normalized_windows_path directory = Some d /\ normalized_windows_path path = Some (d ++ rest).
Proof.
  unfold windows_path_is_same_or_descendant.
  destruct (normalized_windows_path path) as [l|]; [|naive_solver].
  destruct (normalized_windows_path directory) as [d|]; [|naive_solver].
  rewrite zip_prefix. naive_solver.
Qed.

(** For absolute paths, lexical containment is the prefix order on
    resolved locations: both paths resolve, with [..] never climbing above
    the drive, share or root, they have comparable anchors, and the
    directory's resolved names start the path's. *)
Theorem containment_spec (path directory : rstr) (Hp : is_absolute path = true) (Hd : is_absolute directory = true) :
  windows_path_is_same_or_descendant path directory = true <->
  exists names dnames rest,
    resolve_names [] (below_anchor path) = Some names
    /\ resolve_names [] (below_anchor directory) = Some dnames
    /\ anchor path ++ names = (anchor directory ++ dnames) ++ rest.
Proof.
  rewrite contained_iff, !normalized_windows_path_spec by done. split.
  - intros (d & rest & H1 & H2).
    apply fmap_Some in H1 as (dnames & ? & ->), H2 as (names & ? & ?). eauto 10.
  - intros (names & dnames & rest & -> & -> & Hn). exists (anchor directory ++ dnames), rest. cbn. by rewrite Hn.
Qed.

Lemma resolve_names_app names cs1 cs2 :
  resolve_names names (cs1 ++ cs2) = resolve_names names cs1 ≫= fun names => resolve_names names cs2.
Proof.
  revert names. induction cs1 as [|[| | | |] cs1 IH]; intros names; cbn; try done.
  destruct names; [done|apply IH].
Qed.

Lemma resolve_plain_names names (suffix : list rstr) :
  resolve_names names (Normal <$> suffix) = Some (names ++ (normalized_name <$> suffix)).
Proof.
  revert names. induction suffix as [|s suffix IH]; intros names; cbn; [by rewrite app_nil_r|].
  rewrite IH, <- app_assoc. done.
Qed.

(** Appending names to a path's components. *)
Lemma extended_location path path' (suffix : list rstr) :
  is_absolute path = true -> is_absolute path' = true ->
  components path' = components path ++ (Normal <$> suffix) ->
  normalized_windows_path path' = (fun l => l ++ (normalized_name <$> suffix)) <$> normalized_windows_path path.
Proof.
  intros Ha Ha' Hc. rewrite !normalized_windows_path_spec by done.
  destruct (components_absolute _ Ha) as (p & cs & _ & Hcs & Hp).
  assert (anchor path' = anchor path /\ below_anchor path' = below_anchor path ++ (Normal <$> suffix)) as [-> ->].
  { unfold anchor, below_anchor. rewrite Hc. destruct Hp as [-> | ->]; cbn; [|done].
    destruct Hcs as [|[] ? []]; cbn; try done. by destruct suffix. }
  rewrite resolve_names_app. destruct (resolve_names [] (below_anchor path)) as [names|]; cbn; [|done].
  rewrite resolve_plain_names. cbn. by rewrite <- app_assoc.
Qed.

(** Containment closes over the directory tree: everything obtained by
    descending from a contained path stays contained, containment is
    transitive, and a path that resolves contains itself, so a protected
    directory is refused as a source together with its whole subtree. *)
Theorem containment_closed (path path' directory outer : rstr) (suffix : list rstr)
    (Hp : is_absolute path = true) (Hp' : is_absolute path' = true)
    (Hin : windows_path_is_same_or_descendant path directory = true)
    (Hout : windows_path_is_same_or_descendant directory outer = true)
    (Hc : components path' = components path ++ (Normal <$> suffix)) :
  windows_path_is_same_or_descendant path' directory = true
  /\ windows_path_is_same_or_descendant path' outer = true
  /\ windows_path_is_same_or_descendant path path = true.
Proof.
  apply contained_iff in Hin as (d & rest & Hd & Hl), Hout as (o & rest' & Ho & Hd').
  rewrite Hd in Hd'. simplify_eq.
  assert (normalized_windows_path path' = Some ((o ++ rest') ++ rest ++ (normalized_name <$> suffix))) as Hn.
  { rewrite (extended_location _ _ _ Hp Hp' Hc), Hl. cbn. by rewrite <- app_assoc. }
  split_and!; apply contained_iff.
  - by eexists _, _.
  - eexists o, _. split; [done|]. rewrite Hn, <- app_assoc. done.
  - eexists _, []. by rewrite app_nil_r.
Qed.
End containment.

Module ResticWitness.
(** ASCII lower-casing stands in for the Unicode tables. *)
Definition ascii_unicode : UnicodeData := {| str_to_lowercase := str_to_ascii_lowercase |}.
Lemma ascii_unicode_laws : @UnicodeLaws ascii_unicode.
Proof. by split. Qed.
#[local] Existing Instance ascii_unicode.

Definition config : EffectiveConfig :=
  {| ec_backup := {| bc_paths := [lit "C:\Users"; lit "D:\-odd"]; bc_exclusions := [lit "--remove-all"] |};
     ec_repository :=
       {| rc_display_name := None; rc_url := Some (lit "s3:backup/host"); rc_mode := AppendOnly;
          rc_options := [(lit "s3.region", lit "eu")]; rc_secret_refs := [(ResticPassword, lit "restic-password-1")] |};
     ec_schedule := ScheduleConfig_default; ec_retention := RetentionConfig_default;
     ec_updates := {| uc_automatic_install := false |} |}.
Definition protected : list rstr := [lit "C:\ProgramData\resticpal"].
Definition built : ResticInvocation :=
  match backup_with_required_exclusions (lit "restic.exe") config protected with
  | Ok inv => inv
  | Err _ => {| inv_operation := RemoveKey; inv_executable := []; inv_arguments := []; inv_environment := [];
                inv_secret_environment := [] |}
  end.

Lemma invocation_reads_back_witness :
  parse_cli (inv_arguments built) = Some (cli_of config protected Backup).
Proof.
  apply (invocation_reads_back (lit "restic.exe") config protected built).
  apply builds_backup. vm_compute. reflexivity.
Defined.

Lemma append_only_witness : inv_operation built ∈ [Backup; Unlock; Probe; Snapshots; Check].
Proof.
  apply (append_only_never_destructive (lit "restic.exe") config protected built).
  - reflexivity.
  - apply builds_backup. vm_compute. reflexivity.
Defined.

Example append_only_refuses :
  retention (lit "restic.exe") config Forget = Err (ForbiddenByRepositoryMode AppendOnly Forget)
  /\ is_ok (unlock (lit "restic.exe") config) = true.
Proof. split; vm_compute; reflexivity. Qed.

Lemma containment_spec_witness :
  windows_path_is_same_or_descendant (lit "c:/programdata/x/../ResticPal\key") (lit "C:\ProgramData\resticpal") = true.
Proof.
  apply (containment_spec (lit "c:/programdata/x/../ResticPal\key") (lit "C:\ProgramData\resticpal")).
  - vm_compute. reflexivity.
  - vm_compute. reflexivity.
  - exists [lit "name:programdata"; lit "name:resticpal"; lit "name:key"],
      [lit "name:programdata"; lit "name:resticpal"], [lit "name:key"].
    vm_compute. split_and!; reflexivity.
Defined.

Lemma containment_closed_witness :
  windows_path_is_same_or_descendant (lit "C:\a\b\c\d") (lit "c:\A") = true.
Proof.
  edestruct (containment_closed (lit "C:\a\b\c") (lit "C:\a\b\c\d") (lit "C:\a\b") (lit "c:\A") [lit "d"])
    as (_ & Hd & _); [vm_compute; reflexivity..|exact Hd].
Defined.
End ResticWitness.
