(* ===== verification/Protocol.v ===== *)
(** * The local IPC protocol ([crates/resticpal-protocol/src/lib.rs])

    The messages between the service and its clients and the bounded
    length-prefixed framing they travel in. *)
From stdpp Require Import base option list strings.
From S2P Require Import Prelude RustStd Chrono Crates Config Status.

Definition PROTOCOL_VERSION : Z := 4.
Definition MAX_FRAME_BYTES : Z := 1024 * 1024.

(** A string whose [Debug] output is redacted and whose storage is wiped. *)
Inductive SecretValue : Type := Secret (value : rstr).
#[global] Instance SecretValue_eq_dec : EqDecision SecretValue.
Proof. solve_decision. Defined.
Definition secret_as_bytes (s : SecretValue) : list Z := let 'Secret value := s in utf8 value.

Inductive RepositorySecretUpdate : Type :=
| SecretSet (variable : SecretEnvironmentVariable) (value : SecretValue)
| SecretRemove (variable : SecretEnvironmentVariable).

Record UpdatePackage : Type := {
  up_version : rstr;
  up_url : rstr;
  up_signature : rstr;
  up_length : Z
}.
#[global] Instance UpdatePackage_eq_dec : EqDecision UpdatePackage.
Proof. solve_decision. Defined.

Inductive RequestCommand : Type :=
| GetStatus
| GetManagement
| Enroll (bootstrap_url : SecretValue)
| Unenroll
| GetRunHistory (limit : Z)
| GetRunFailureDetails (run_id : Z)
| GetDiagnostics (limit : Z)
| GetBackupSources
| DiscoverBackupSources
| UpdateBackupSources (paths exclusions : option (list rstr))
| GetRepository
| UpdateRepository (display_name url : option rstr) (mode : option RepositoryMode)
    (options : option Options) (secret_updates : list RepositorySecretUpdate)
| ValidateRepository
| InitializeRepository
| GetSchedule
| UpdateSchedule (interval_hours wake_grace_seconds wake_lock_timeout_seconds : option Z)
    (allow_on_battery allow_metered_network : option bool)
| GetRetention
| UpdateRetention (daily weekly monthly yearly prune_interval_days : option Z)
| RunBackupNow
| CancelBackup
| DeferBackup (minutes : Z)
| PrepareForUpdate (hold_seconds : Z)
| GetUpdateSettings
| UpdateUpdateSettings (automatic_install : bool)
| InstallUpdate (package : UpdatePackage).

Record Request : Type := {
  rq_protocol_version : Z;
  rq_request_id : Z;
  rq_command : RequestCommand
}.
Definition Request_new (request_id : Z) (command : RequestCommand) : Request :=
  {| rq_protocol_version := PROTOCOL_VERSION; rq_request_id := request_id; rq_command := command |}.

(** ** Views *)
Inductive RepositoryOperationKind : Type := Kind_Validate | Kind_Initialize.
#[global] Instance RepositoryOperationKind_eq_dec : EqDecision RepositoryOperationKind.
Proof. solve_decision. Defined.

Inductive RepositoryOperationStatus : Type :=
| RO_NotRun
| RO_ValidationRequired
| RO_Running (operation : RepositoryOperationKind)
| RO_Succeeded (operation : RepositoryOperationKind) (completed_at : DateTime)
| RO_Failed (operation : RepositoryOperationKind) (completed_at : DateTime) (code : rstr).
#[global] Instance RepositoryOperationStatus_eq_dec : EqDecision RepositoryOperationStatus.
Proof. solve_decision. Defined.

Inductive DiscoveredSourceKind : Type := Desktop | Documents | Pictures | Videos | Music.
#[global] Instance DiscoveredSourceKind_eq_dec : EqDecision DiscoveredSourceKind.
Proof. solve_decision. Defined.

Inductive DiagnosticLevel : Type := Level_Information | Level_Warning | Level_Error.
#[global] Instance DiagnosticLevel_eq_dec : EqDecision DiagnosticLevel.
Proof. solve_decision. Defined.

Record ManagementView : Type := {
  mv_mode : ManagementMode;
  mv_enrolled : bool;
  mv_device_id : option rstr;
  mv_manifest_url : option rstr
}.
#[global] Instance ManagementView_eq_dec : EqDecision ManagementView.
Proof. solve_decision. Defined.
Record BackupRunFailureDetails : Type := {
  fd_run_id : Z;
  fd_items : list rstr;
  fd_omitted : Z
}.
#[global] Instance BackupRunFailureDetails_eq_dec : EqDecision BackupRunFailureDetails.
Proof. solve_decision. Defined.
Record BackupSourcesView : Type := {
  bv_paths : list rstr;
  bv_exclusions : list rstr;
  bv_paths_locked : bool;
  bv_exclusions_locked : bool
}.
#[global] Instance BackupSourcesView_eq_dec : EqDecision BackupSourcesView.
Proof. solve_decision. Defined.
Record DiscoveredBackupSource : Type := {
  ds_profile_name : rstr;
  ds_kind : DiscoveredSourceKind;
  ds_path : rstr
}.
#[global] Instance DiscoveredBackupSource_eq_dec : EqDecision DiscoveredBackupSource.
Proof. solve_decision. Defined.
Record RepositoryView : Type := {
  rpv_display_name : option rstr;
  rpv_url : option rstr;
  rpv_mode : RepositoryMode;
  rpv_options : Options;
  rpv_configured_secrets : list SecretEnvironmentVariable;
  rpv_operation_status : RepositoryOperationStatus;
  rpv_display_name_locked : bool;
  rpv_url_locked : bool;
  rpv_mode_locked : bool;
  rpv_options_locked : bool;
  rpv_secrets_locked : bool
}.
#[global] Instance RepositoryView_eq_dec : EqDecision RepositoryView.
Proof. solve_decision. Defined.
Record ScheduleView : Type := {
  sv_interval_hours : Z;
  sv_wake_grace_seconds : Z;
  sv_wake_lock_timeout_seconds : Z;
  sv_allow_on_battery : bool;
  sv_allow_metered_network : bool;
  sv_interval_hours_locked : bool;
  sv_wake_grace_seconds_locked : bool;
  sv_wake_lock_timeout_seconds_locked : bool;
  sv_allow_on_battery_locked : bool;
  sv_allow_metered_network_locked : bool
}.
#[global] Instance ScheduleView_eq_dec : EqDecision ScheduleView.
Proof. solve_decision. Defined.
Record RetentionView : Type := {
  tv_repository_mode : RepositoryMode;
  tv_daily : Z;
  tv_weekly : Z;
  tv_monthly : Z;
  tv_yearly : Z;
  tv_prune_interval_days : Z;
  tv_daily_locked : bool;
  tv_weekly_locked : bool;
  tv_monthly_locked : bool;
  tv_yearly_locked : bool;
  tv_prune_interval_days_locked : bool;
  tv_last_retention : option DateTime;
  tv_last_prune : option DateTime;
  tv_last_error : option rstr
}.
#[global] Instance RetentionView_eq_dec : EqDecision RetentionView.
Proof. solve_decision. Defined.
Record UpdateSettingsView : Type := {
  uv_automatic_install : bool;
  uv_automatic_install_locked : bool
}.
#[global] Instance UpdateSettingsView_eq_dec : EqDecision UpdateSettingsView.
Proof. solve_decision. Defined.
Record DiagnosticEntry : Type := {
  de_timestamp : DateTime;
  de_level : DiagnosticLevel;
  de_event_id : rstr;
  de_message : rstr;
  de_code : option rstr
}.
#[global] Instance DiagnosticEntry_eq_dec : EqDecision DiagnosticEntry.
Proof. solve_decision. Defined.

Inductive ResponsePayload : Type :=
| Resp_Status (status : ServiceStatus)
| Resp_Management (configuration : ManagementView)
| Resp_RunHistory (runs : list BackupRunRecord)
| Resp_RunFailureDetails (details : BackupRunFailureDetails)
| Resp_BackupSources (configuration : BackupSourcesView)
| Resp_DiscoveredBackupSources (sources : list DiscoveredBackupSource)
| Resp_Repository (configuration : RepositoryView)
| Resp_Schedule (configuration : ScheduleView)
| Resp_Retention (configuration : RetentionView)
| Resp_UpdateSettings (configuration : UpdateSettingsView)
| Resp_Diagnostics (entries : list DiagnosticEntry)
| Resp_Accepted (message : rstr)
| Resp_Rejected (code message : rstr).
#[global] Instance ResponsePayload_eq_dec : EqDecision ResponsePayload.
Proof. solve_decision. Defined.

Record Response : Type := {
  rs_protocol_version : Z;
  rs_request_id : Z;
  rs_payload : ResponsePayload
}.
#[global] Instance Response_eq_dec : EqDecision Response.
Proof. solve_decision. Defined.

Definition Response_new (request_id : Z) (payload : ResponsePayload) : Response :=
  {| rs_protocol_version := PROTOCOL_VERSION; rs_request_id := request_id; rs_payload := payload |}.

Definition Response_incompatible (request_id received_version : Z) : Response :=
  Response_new request_id
    (Resp_Rejected (lit "incompatible_protocol")
       (lit "client protocol " ++ to_string received_version
        ++ lit " is incompatible with service protocol " ++ to_string PROTOCOL_VERSION)).

(** ** Framing *)
Inductive FrameError : Type := FE_Io | FE_Json | TooLarge (bytes : Z) | InvalidLength (bytes : Z).

(** [u32::to_le_bytes] and [u32::from_le_bytes] *)
Definition to_le_bytes (n : Z) : list Z :=
  [Z.land n 255; Z.land (Z.shiftr n 8) 255; Z.land (Z.shiftr n 16) 255; Z.land (Z.shiftr n 24) 255].
Definition from_le_bytes (b : list Z) : Z :=
  foldr (fun byte n => Z.lor byte (Z.shiftl n 8)) 0 b.

(** [std::io::Write]: [None] is an [io::Error]. *)
Class Writer (W : Type) := {
  write_all : W -> list Z -> option W;
  flush : W -> option W;
  written : W -> list Z
}.
Class WriterLaws (W : Type) `{Writer W} : Prop := {
  write_all_written w b w' : write_all w b = Some w' -> written w' = written w ++ b;
  flush_written w w' : flush w = Some w' -> written w' = written w
}.

(** [std::io::Read::read] into a buffer of [n] bytes: [None] is an
    [io::Error], an empty read the end of the stream. *)
Class Source (R : Type) := { read : nat -> R -> option (list Z * R) }.

(** What a source promises to those who read from it: [delivers r s] when the
    next reads hand out [s], in pieces of any size, before anything fails. *)
Class Delivery (R : Type) `{Source R} := {
  delivers : R -> list Z -> Prop;
  read_delivers n r s :
    delivers r s -> (0 < n <= length s)%nat ->
    exists b r', read n r = Some (b, r') /\ b <> [] /\ (length b <= n)%nat
                 /\ exists s', s = b ++ s' /\ delivers r' s'
}.

(** The simplest source is what its next [read] calls will deliver, chunk by
    chunk. *)
Abbreviation Reader := (list (list Z)) (only parsing).

Definition read_chunk (n : nat) (r : Reader) : list Z * Reader :=
  match r with
  | [] => ([], [])
  | chunk :: r =>
      if (length chunk <=? n)%nat then (chunk, r) else (take n chunk, drop n chunk :: r)
  end.
#[global] Instance chunks : Source Reader := {| read := fun n r => Some (read_chunk n r) |}.

(** [Read::read_exact]: reads until the buffer is full; an empty read is the
    end of the stream.  Each turn but the last delivers at least one byte, so
    [n + 1] turns are enough. *)
Fixpoint read_exact_loop {R} `{Source R} (fuel n : nat) (r : R) : option (list Z * R) :=
  match n, fuel with
  | O, _ => Some ([], r)
  | _, O => None
  | _, S fuel =>
      '(b, r) ← read n r;
      match b with
      | [] => None
      | _ => '(b', r) ← read_exact_loop fuel (n - length b) r; Some (b ++ b', r)
      end
  end.
Definition read_exact {R} `{Source R} (n : nat) (r : R) : option (list Z * R) := read_exact_loop (S n) n r.

Section frames.
Context {T : Type} `{Serde T}.

Definition write_frame {W} `{Writer W} (writer : W) (value : T) : result FrameError W :=
  payload ← ok_or (serialize value) FE_Json;
  let length := Z.of_nat (length payload) in
  reject_if (MAX_FRAME_BYTES <? length) (TooLarge length) ;;
  writer ← ok_or (write_all writer (to_le_bytes length)) FE_Io;
  writer ← ok_or (write_all writer payload) FE_Io;
  ok_or (flush writer) FE_Io.

Definition read_frame {R} `{Source R} (reader : R) : result FrameError (T * R) :=
  '(length, reader) ← ok_or (read_exact 4 reader) FE_Io;
  let length := from_le_bytes length in
  reject_if ((length =? 0) || (MAX_FRAME_BYTES <? length)) (InvalidLength length) ;;
  '(payload, reader) ← ok_or (read_exact (Z.to_nat length) reader) FE_Io;
  value ← ok_or (deserialize payload) FE_Json;
  Ok (value, reader).
End frames.

(** *** Bytes *)
Lemma land_255 n : Z.land n 255 = n mod 256.
Proof. change 255 with (Z.ones 8). by rewrite Z.land_ones by lia. Qed.

Lemma byte_disjoint byte n : 0 <= byte < 256 -> Z.land (Z.shiftl n 8) byte = 0.
Proof.
  intros Hb. apply Z.bits_inj'. intros k Hk. rewrite Z.land_spec, Z.bits_0, Z.shiftl_spec by lia.
  destruct (Z.ltb_spec k 8); [by rewrite (Z.testbit_neg_r n) by lia|].
  rewrite <- (Z.mod_small byte (2 ^ 8)) by lia. by rewrite Z.mod_pow2_bits_high, andb_false_r by lia.
Qed.

Lemma lor_shift byte n : 0 <= byte < 256 -> Z.lor byte (Z.shiftl n 8) = byte + 256 * n.
Proof.
  intros Hb. pose proof (byte_disjoint byte n Hb) as Hd.
  rewrite Z.lor_comm, <- Z.lxor_lor, <- Z.add_nocarry_lxor by done.
  rewrite Z.shiftl_mul_pow2 by lia. change (2 ^ 8) with 256. lia.
Qed.

Lemma le_bytes_roundtrip n : 0 <= n <= u32_max -> from_le_bytes (to_le_bytes n) = n.
Proof.
  unfold u32_max, to_le_bytes. intros Hn. cbn [from_le_bytes foldr].
  rewrite !land_255, !Z.shiftr_div_pow2 by lia.
  change (2 ^ 8) with 256. change (2 ^ 16) with (256 * 256). change (2 ^ 24) with (256 * 256 * 256).
  rewrite <- !Z.div_div by lia.
  pose proof (Z.mod_pos_bound n 256 ltac:(lia)).
  pose proof (Z.mod_pos_bound (n / 256) 256 ltac:(lia)).
  pose proof (Z.mod_pos_bound (n / 256 / 256) 256 ltac:(lia)).
  pose proof (Z.mod_pos_bound (n / 256 / 256 / 256) 256 ltac:(lia)).
  change (Z.shiftl 0 8) with 0. rewrite Z.lor_0_r, !lor_shift by lia.
  pose proof (Z.div_mod n 256). pose proof (Z.div_mod (n / 256) 256).
  pose proof (Z.div_mod (n / 256 / 256) 256). pose proof (Z.div_mod (n / 256 / 256 / 256) 256).
  assert (0 <= n / 256 / 256 / 256 / 256 < 1); [|lia].
  rewrite !Z.div_div by lia. split; [apply Z.div_pos; lia|apply Z.div_lt_upper_bound; lia].
Qed.

(** *** Reading is independent of the chunking *)
Definition nonempty_chunks (r : Reader) : Prop := Forall (fun c => c <> []) r.

Lemma read_spec n r :
  nonempty_chunks r -> (0 < n)%nat ->
  let '(b, r') := read_chunk n r in
  concat r = b ++ concat r' /\ nonempty_chunks r' /\ (length b <= n)%nat
  /\ (b = [] -> concat r = []).
Proof.
  intros Hr Hn. unfold read_chunk. destruct r as [|chunk r]; cbn; [split_and!; (done || lia)|].
  apply Forall_cons in Hr as [Hc Hr]. destruct (Nat.leb_spec (length chunk) n) as [Hle|Hle].
  - by split_and!.
  - split_and!; cbn.
    + by rewrite app_assoc, take_drop.
    + constructor; [|done]. intros Hd. apply (f_equal length) in Hd. rewrite length_drop in Hd. cbn in Hd. lia.
    + rewrite length_take. lia.
    + intros Ht. apply (f_equal length) in Ht. rewrite length_take in Ht. cbn in Ht. lia.
Qed.

Lemma read_exact_loop_spec fuel n r :
  nonempty_chunks r -> (n < fuel)%nat ->
  match read_exact_loop fuel n r with
  | Some (b, r') => length b = n /\ concat r = b ++ concat r' /\ nonempty_chunks r'
  | None => (length (concat r) < n)%nat
  end.
Proof.
  revert n r. induction fuel as [|fuel IH]; intros n r Hr Hf; [lia|].
  destruct n as [|n]; [by cbn|]. cbn -[read_chunk].
  pose proof (read_spec (S n) r Hr ltac:(lia)) as Hread.
  destruct (read_chunk (S n) r) as [b r']. destruct Hread as (Hcat & Hr' & Hlen & Hnil).
  destruct b as [|x b]; [rewrite Hnil by done; cbn; lia|]. cbn -[Nat.sub] in *.
  specialize (IH (S n - S (length b))%nat r' Hr' ltac:(lia)).
  destruct (read_exact_loop fuel (S n - S (length b)) r') as [[b' r'']|]; cbn -[Nat.sub].
  - destruct IH as (Hl & Hc & ?). split_and!; [rewrite length_app; lia| |done].
    rewrite Hcat, Hc. by rewrite app_assoc.
  - rewrite Hcat. cbn. rewrite length_app. lia.
Qed.

#[global] Program Instance chunk_delivery : Delivery Reader :=
  {| delivers := fun r s => nonempty_chunks r /\ concat r = s |}.
Next Obligation.
  intros n r s [Hr Hs] [Hn Hle]. pose proof (read_spec n r Hr Hn) as Hread. cbn.
  destruct (read_chunk n r) as [b r']. destruct Hread as (Hcat & Hr' & Hlen & Hnil). subst s.
  exists b, r'. split_and!; [done|intros ->; rewrite Hnil in Hle by done; cbn in Hle; lia|done|]. by exists (concat r').
Qed.

Lemma read_exact_loop_delivers {R} `{Delivery R} fuel (r : R) b rest :
  delivers r (b ++ rest) -> (length b < fuel)%nat ->
  exists r', read_exact_loop fuel (length b) r = Some (b, r') /\ delivers r' rest.
Proof.
  revert r b. induction fuel as [|fuel IH]; intros r b Hd Hf; [lia|].
  destruct b as [|x b]; [by exists r|]. cbn [length read_exact_loop].
  destruct (read_delivers (S (length b)) r _ Hd) as (c & r1 & Hread & Hc & Hl & s' & Hs & Hd'); [cbn; rewrite length_app; lia|].
  rewrite Hread. cbn [mbind option_bind]. destruct c as [|y c]; [done|].
  assert (exists b', x :: b = (y :: c) ++ b' /\ s' = b' ++ rest) as (b' & Hb & ->).
  { exists (drop (length (y :: c)) (x :: b)). apply (f_equal (take (length (y :: c)))) in Hs as Ht.
    apply (f_equal (drop (length (y :: c)))) in Hs as Hr.
    rewrite take_app_le in Ht by (cbn in *; lia). rewrite drop_app_le in Hr by (cbn in *; lia).
    rewrite take_app_length in Ht. rewrite drop_app_length in Hr. split; [|done].
    transitivity (take (length (y :: c)) (x :: b) ++ drop (length (y :: c)) (x :: b)); [symmetry; apply take_drop|].
    by rewrite Ht. }
  rewrite Hb. assert (S (length b) - length (y :: c) = length b')%nat as ->.
  { change (S (length b)) with (length (x :: b)). rewrite Hb, length_app. lia. }
  destruct (IH r1 b' Hd') as (r2 & Hr2 & Hd2); [apply (f_equal length) in Hb; rewrite length_app in Hb; cbn in *; lia|].
  exists r2. by rewrite Hr2.
Qed.

Lemma read_exact_app {R} `{Delivery R} n (r : R) b rest :
  delivers r (b ++ rest) -> length b = n -> exists r', read_exact n r = Some (b, r') /\ delivers r' rest.
Proof. intros Hd <-. apply read_exact_loop_delivers; [done|lia]. Qed.

Section frame_properties.
Context {T : Type} `{Serde T}.

Lemma write_frame_Ok {W} `{WriterLaws W} (w w' : W) (value : T) :
  write_frame w value = Ok w' ->
  exists payload, serialize value = Some payload /\ Z.of_nat (length payload) <= MAX_FRAME_BYTES
    /\ written w' = written w ++ to_le_bytes (Z.of_nat (length payload)) ++ payload.
Proof.
  unfold write_frame. intros Hw. apply bind_Ok in Hw as (payload & Hp%ok_or_Ok & Hw).
  apply seq_Ok in Hw as [Hlen Hw]. apply reject_if_Ok, Z.ltb_ge in Hlen.
  apply bind_Ok in Hw as (w1 & Hw1%ok_or_Ok & Hw). apply bind_Ok in Hw as (w2 & Hw2%ok_or_Ok & Hw).
  apply ok_or_Ok in Hw. exists payload. split_and!; [done|done|].
  rewrite (flush_written _ _ Hw), (write_all_written _ _ _ Hw2), (write_all_written _ _ _ Hw1).
  by rewrite app_assoc.
Qed.

Lemma read_written_frame {W} `{WriterLaws W} {R} `{Delivery R} `{!SerdeLaws T} (w w' : W) (value : T) (reader : R)
    (rest : list Z) :
  write_frame w value = Ok w' -> written w = [] -> delivers reader (written w' ++ rest) ->
  exists reader', read_frame reader = Ok (value, reader') /\ delivers reader' rest.
Proof.
  intros (payload & Hp & Hlen & Hw')%write_frame_Ok Hempty Hsent. rewrite Hw', Hempty in Hsent. cbn [app] in Hsent.
  assert (0 < Z.of_nat (length payload)) as Hpos.
  { pose proof (serde_nonempty _ _ Hp). destruct payload; [done|cbn; lia]. }
  unfold MAX_FRAME_BYTES in Hlen. rewrite <- app_assoc in Hsent.
  destruct (read_exact_app 4 _ _ _ Hsent eq_refl) as (r1 & Hr1 & Hd1).
  destruct (read_exact_app (length payload) _ _ _ Hd1 eq_refl) as (r2 & Hr2 & Hd2).
  exists r2. split; [|done]. unfold read_frame. rewrite Hr1. cbn -[read_exact from_le_bytes to_le_bytes Z.of_nat Z.to_nat].
  rewrite le_bytes_roundtrip by (unfold u32_max; lia).
  assert (reject_if ((Z.of_nat (length payload) =? 0) || (MAX_FRAME_BYTES <? Z.of_nat (length payload)))
            (InvalidLength (Z.of_nat (length payload))) = Ok ()) as ->.
  { apply reject_if_Ok, orb_false_iff. rewrite Z.eqb_neq, Z.ltb_ge. unfold MAX_FRAME_BYTES. lia. }
  cbn -[read_exact Z.of_nat Z.to_nat]. rewrite Nat2Z.id, Hr2. cbn. by rewrite (serde_roundtrip _ _ Hp).
Qed.

(** A frame survives the pipe: whatever one side manages to write, the
    other reads back as the same value, however the stream cuts the bytes
    into chunks, and what follows the frame is left for the next read. *)
Theorem frame_roundtrip {W} `{WriterLaws W} {R} `{Delivery R} `{!SerdeLaws T} (w w' : W) (value : T) (reader : R)
    (rest : list Z) (Hw : write_frame w value = Ok w') (Hempty : written w = [])
    (Hsent : delivers reader (written w' ++ rest)) :
  exists reader', read_frame reader = Ok (value, reader') /\ delivers reader' rest.
Proof. by eapply read_written_frame. Qed.

(** Framing is bounded on both sides: a writer emits a four-byte length
    and at most one MiB of payload or nothing it calls a success, and a
    reader that announces an empty or larger frame is refused after those
    four bytes, before any payload is read. *)
Theorem frame_bounds {W} `{WriterLaws W} :
  (forall (w w' : W) (value : T), write_frame w value = Ok w' ->
     Z.of_nat (length (written w')) <= Z.of_nat (length (written w)) + 4 + MAX_FRAME_BYTES)
  /\ (forall (w : W) (value : T) payload, serialize value = Some payload ->
        MAX_FRAME_BYTES < Z.of_nat (length payload) ->
        write_frame w value = Err (TooLarge (Z.of_nat (length payload))))
  /\ (forall header r (reader : Reader), read_exact 4 reader = Some (header, r) ->
        from_le_bytes header = 0 \/ MAX_FRAME_BYTES < from_le_bytes header ->
        @read_frame T _ _ _ reader = Err (InvalidLength (from_le_bytes header)))
  /\ (forall (reader reader' : Reader) (value : T), nonempty_chunks reader ->
        read_frame reader = Ok (value, reader') ->
        Z.of_nat (length (concat reader)) - Z.of_nat (length (concat reader')) <= 4 + MAX_FRAME_BYTES).
Proof.
  split_and!.
  - intros w w' value (payload & _ & Hl & ->)%write_frame_Ok. rewrite !length_app. cbn. lia.
  - intros w value payload Hp Hl. unfold write_frame. rewrite Hp. cbn [ok_or mbind result_bind].
    apply Z.ltb_lt in Hl. by rewrite Hl.
  - intros header r reader Hr Hl. unfold read_frame. rewrite Hr. cbn -[from_le_bytes].
    assert ((from_le_bytes header =? 0) || (MAX_FRAME_BYTES <? from_le_bytes header) = true) as ->; [|done].
    apply orb_true_iff. by rewrite Z.eqb_eq, Z.ltb_lt.
  - intros reader reader' value Hn Hr. unfold read_frame in Hr.
    apply bind_Ok in Hr as ([header r1] & Hx1%ok_or_Ok & Hr). cbn -[read_exact from_le_bytes] in Hr.
    apply seq_Ok in Hr as [Hlen Hr]. apply reject_if_Ok in Hlen. bool_steps.
    apply bind_Ok in Hr as ([payload r2] & Hx2%ok_or_Ok & Hr). apply bind_Ok in Hr as (v & _ & [= <- <-]).
    pose proof (read_exact_loop_spec 5 4 reader Hn ltac:(lia)) as S1. unfold read_exact in Hx1. rewrite Hx1 in S1.
    destruct S1 as (L1 & C1 & N1).
    pose proof (read_exact_loop_spec _ (Z.to_nat (from_le_bytes header)) r1 N1 (Nat.lt_succ_diag_r _)) as S2.
    unfold read_exact in Hx2. rewrite Hx2 in S2. destruct S2 as (L2 & C2 & _).
    rewrite C1, C2, !length_app, L1, L2. unfold MAX_FRAME_BYTES in *. lia.
Qed.
End frame_properties.

Module ProtocolWitness.
(** [Vec<u8>] as a writer, and a one-byte encoding of a flag. *)
Definition vec_writer : Writer (list Z) :=
  {| write_all := fun (w b : list Z) => Some (w ++ b); flush := fun (w : list Z) => Some w; written := fun (w : list Z) => w |}.
Lemma vec_writer_laws : @WriterLaws (list Z) vec_writer.
Proof. split; cbn; naive_solver. Qed.
Definition flag_serde : Serde bool :=
  {| serialize := fun b : bool => Some [if b then 116 else 102];
     deserialize := fun b : list Z => match b with [116] => Some true | [102] => Some false | _ => None end |}.
Lemma flag_serde_laws : @SerdeLaws bool flag_serde.
Proof. split; intros [] b [= <-]; done. Qed.

Lemma frame_roundtrip_witness :
  exists reader', @read_frame bool flag_serde _ chunks [[1]; [0; 0]; [0; 116; 9]] = Ok (true, reader')
    /\ delivers reader' [9].
Proof.
  apply (@frame_roundtrip bool flag_serde (list Z) vec_writer vec_writer_laws Reader chunks chunk_delivery
           flag_serde_laws [] [1; 0; 0; 0; 116] true [[1]; [0; 0]; [0; 116; 9]] [9]).
  - reflexivity.
  - reflexivity.
  - split; [repeat constructor; done|reflexivity].
Defined.
Lemma frame_bounds_witness :
  @write_frame bool flag_serde (list Z) vec_writer [] true = Ok [1; 0; 0; 0; 116]
  /\ Z.of_nat (length [1; 0; 0; 0; 116]) <= 0 + 4 + MAX_FRAME_BYTES.
Proof.
  split; [reflexivity|].
  destruct (@frame_bounds bool flag_serde (list Z) vec_writer vec_writer_laws) as [Hb _].
  exact (Hb [] [1; 0; 0; 0; 116] true eq_refl).
Defined.
End ProtocolWitness.
