(* ===== verification/Management.v ===== *)
(** * Management documents ([crates/resticpal-core/src/management.rs])

    Plain and signed policy manifests, the bootstrap URL, and the signed and
    sealed enrollment response. *)
From stdpp Require Import base option list strings.
From S2P Require Import Prelude RustStd RustNet Chrono Crates Config Policy Status.

Definition MANAGEMENT_SCHEMA_VERSION : Z := 1.
Definition MAX_MANIFEST_BYTES : Z := 1024 * 1024.
Definition MAX_ENROLLMENT_BYTES : Z := 1024 * 1024.
Definition MAX_SIGNED_MANIFEST_LIFETIME_DAYS : Z := 30.
Definition MAX_CLOCK_SKEW_MINUTES : Z := 5.

(** ** Documents *)
Record ManifestPayload : Type := {
  pl_schema_version : Z;
  pl_sequence : Z;
  pl_issued_at : DateTime;
  pl_expires_at : option DateTime;
  pl_policy : ManagedPolicy
}.
#[global] Instance ManifestPayload_eq_dec : EqDecision ManifestPayload.
Proof. solve_decision. Defined.
Record SignedManifestEnvelope : Type := {
  en_schema_version : Z;
  en_algorithm : rstr;
  en_key_id : rstr;
  en_payload : rstr;
  en_signature : rstr
}.
#[global] Instance SignedManifestEnvelope_eq_dec : EqDecision SignedManifestEnvelope.
Proof. solve_decision. Defined.
Record VerifiedManifest : Type := {
  vm_payload : ManifestPayload;
  vm_signed : bool
}.
#[global] Instance VerifiedManifest_eq_dec : EqDecision VerifiedManifest.
Proof. solve_decision. Defined.
Record DeviceStatusReport : Type := {
  dr_schema_version : Z;
  dr_device_id : rstr;
  dr_hostname : rstr;
  dr_app_version : rstr;
  dr_architecture : rstr;
  dr_reported_at : DateTime;
  dr_status : ServiceStatus
}.
#[global] Instance DeviceStatusReport_eq_dec : EqDecision DeviceStatusReport.
Proof. solve_decision. Defined.
Record BootstrapDescriptor : Type := {
  bd_endpoint_url : rstr;
  bd_token : rstr;
  bd_public_key : rstr;
  bd_key_id : rstr
}.
#[global] Instance BootstrapDescriptor_eq_dec : EqDecision BootstrapDescriptor.
Proof. solve_decision. Defined.
Record EnrollmentRequest : Type := {
  er_schema_version : Z;
  er_device_public_key : rstr;
  er_request_nonce : rstr;
  er_hostname : rstr;
  er_app_version : rstr;
  er_architecture : rstr
}.
#[global] Instance EnrollmentRequest_eq_dec : EqDecision EnrollmentRequest.
Proof. solve_decision. Defined.
Record EnrollmentSecretBundle : Type := {
  sb_schema_version : Z;
  sb_status_token : rstr;
  sb_repository_secrets : list (SecretEnvironmentVariable * rstr)
}.
#[global] Instance EnrollmentSecretBundle_eq_dec : EqDecision EnrollmentSecretBundle.
Proof. solve_decision. Defined.
Record SealedSecretBundle : Type := {
  se_algorithm : rstr;
  se_ephemeral_public_key : rstr;
  se_salt : rstr;
  se_nonce : rstr;
  se_ciphertext : rstr
}.
#[global] Instance SealedSecretBundle_eq_dec : EqDecision SealedSecretBundle.
Proof. solve_decision. Defined.
Record EnrollmentPayload : Type := {
  ep_schema_version : Z;
  ep_device_id : rstr;
  ep_request_nonce : rstr;
  ep_issued_at : DateTime;
  ep_expires_at : DateTime;
  ep_manifest_url : rstr;
  ep_status_url : rstr;
  ep_refresh_interval_minutes : Z;
  ep_initial_manifest : SignedManifestEnvelope;
  ep_secrets : SealedSecretBundle
}.
#[global] Instance EnrollmentPayload_eq_dec : EqDecision EnrollmentPayload.
Proof. solve_decision. Defined.
Record SignedEnrollmentEnvelope : Type := {
  ee_schema_version : Z;
  ee_algorithm : rstr;
  ee_key_id : rstr;
  ee_payload : rstr;
  ee_signature : rstr
}.
#[global] Instance SignedEnrollmentEnvelope_eq_dec : EqDecision SignedEnrollmentEnvelope.
Proof. solve_decision. Defined.
Record EnrollmentMaterial : Type := {
  em_device_id : rstr;
  em_manifest_url : rstr;
  em_status_url : rstr;
  em_refresh_interval_minutes : Z;
  em_initial_manifest_document : list Z;
  em_initial_manifest : VerifiedManifest;
  em_status_token : rstr;
  em_repository_secrets : list (SecretEnvironmentVariable * rstr)
}.
#[global] Instance EnrollmentMaterial_eq_dec : EqDecision EnrollmentMaterial.
Proof. solve_decision. Defined.
Record EnrollmentRequestContext : Type := {
  cx_request : EnrollmentRequest;
  cx_private_key : list Z;
  cx_request_nonce : list Z
}.
#[global] Instance EnrollmentRequestContext_eq_dec : EqDecision EnrollmentRequestContext.
Proof. solve_decision. Defined.

(** ** Errors; the text of a JSON error is not modelled *)
Inductive ManifestError : Type :=
| ME_InvalidDocumentSize | ME_InvalidJson
| UnsupportedEnvelopeSchema (actual : Z) | UnsupportedPayloadSchema (actual : Z)
| UnsupportedAlgorithm | InvalidKeyId | InvalidPayloadEncoding | InvalidPublicKey | InvalidSignature
| ME_SignatureVerificationFailed | RollbackAttempt | InvalidSequence | IssuedInFuture | MissingExpiry
| InvalidLifetime | Expired.
#[global] Instance ManifestError_eq_dec : EqDecision ManifestError.
Proof. solve_decision. Defined.

Inductive EnrollmentError : Type :=
| InvalidBootstrapUrl | MissingBootstrapFields | InvalidRequestMetadata | EE_InvalidDocumentSize
| InvalidEnvelope | EE_SignatureVerificationFailed | InvalidPayload | InvalidEncryption
| DecryptionFailed | InvalidSecrets | EE_InvalidJson | EE_Random | EE_Manifest (e : ManifestError).
#[global] Instance EnrollmentError_eq_dec : EqDecision EnrollmentError.
Proof. solve_decision. Defined.

(** A call that returns an error, or panics inside [chrono]. *)
Inductive failure (E : Type) : Type := Fails (e : E) | Panics.
Arguments Fails {E} e.
Arguments Panics {E}.

(** ** The cryptography and encoding crates

    [base64] (URL-safe, unpadded), [ed25519_dalek], [x25519_dalek], [hkdf]
    and [chacha20poly1305]; keys, nonces and signatures are their bytes. *)
Class CryptoCrates := {
  base64url_encode : list Z -> rstr;
  base64url_decode : rstr -> option (list Z);
  VerifyingKey : Type;
  verifying_key_from_bytes : list Z -> option VerifyingKey;
  verify_strict : VerifyingKey -> list Z -> list Z -> bool;
  x25519_public_key : list Z -> list Z;
  diffie_hellman : list Z -> list Z -> list Z;
  was_contributory : list Z -> bool;
  hkdf_sha256_expand : list Z -> list Z -> rstr -> option (list Z);  (* salt, input key, info *)
  chacha20poly1305_decrypt : list Z -> list Z -> list Z -> list Z -> option (list Z)  (* key, nonce, msg, aad *)
}.

Definition valid_text (value : rstr) (limit : Z) : bool :=
  negb (str_is_empty value) && (str_len value <=? limit) && negb (contains_line_break value).

Definition valid_id (value : rstr) : bool :=
  negb (str_is_empty value) && (str_len value <=? 256)
  && forallb (fun byte => is_ascii_alphanumeric byte || (byte =? 45) || (byte =? 95)) (utf8 value).

Definition validate_document_size (document : list Z) : result ManifestError unit :=
  reject_if (bool_decide (document = []) || (MAX_MANIFEST_BYTES <? Z.of_nat (length document)))
    ME_InvalidDocumentSize.

Section management.
Context `{Chrono} `{UrlCrate} `{CryptoCrates}.

(** [<[u8; N]>::try_from(Vec<u8>)] after decoding. *)
Definition decode_raw_array (n : nat) (value : rstr) : option (list Z) :=
  decoded ← base64url_decode value;
  if bool_decide (length decoded = n) then Some decoded else None.

Definition decode_array (n : nat) (value : rstr) (error : ManifestError) : result ManifestError (list Z) :=
  decoded ← ok_or (base64url_decode value) error;
  if bool_decide (length decoded = n) then Ok decoded else Err error.

Definition signed_transport_allowed (url : Url) : bool :=
  str_eqb (url_scheme url) (lit "https")
  || match url_host_str url with
     | Some host =>
         eq_ignore_ascii_case host (lit "localhost")
         || match parse_ip_addr host with Some address => is_loopback address | None => false end
     | None => false
     end.

Definition is_http (url : Url) : bool :=
  str_eqb (url_scheme url) (lit "http") || str_eqb (url_scheme url) (lit "https").

(** *** Manifests *)
Definition validate_payload (payload : ManifestPayload) (now : DateTime) (minimum_sequence : option Z)
    (require_expiry : bool) : result (failure ManifestError) unit :=
  reject_if (negb (pl_schema_version payload =? MANAGEMENT_SCHEMA_VERSION))
    (Fails (UnsupportedPayloadSchema (pl_schema_version payload))) ;;
  reject_if (pl_sequence payload =? 0) (Fails InvalidSequence) ;;
  reject_if (match minimum_sequence with Some minimum => pl_sequence payload <? minimum | None => false end)
    (Fails RollbackAttempt) ;;
  skew ← ok_or (duration_minutes MAX_CLOCK_SKEW_MINUTES) Panics;
  latest ← ok_or (datetime_add now skew) Panics;
  reject_if (latest <? pl_issued_at payload) (Fails IssuedInFuture) ;;
  match pl_expires_at payload with
  | None => reject_if require_expiry (Fails MissingExpiry)
  | Some expires_at =>
      lifetime ← ok_or (duration_days MAX_SIGNED_MANIFEST_LIFETIME_DAYS) Panics;
      reject_if ((expires_at <=? pl_issued_at payload) || (lifetime <? expires_at - pl_issued_at payload))
        (Fails InvalidLifetime) ;;
      reject_if (expires_at <? now) (Fails Expired)
  end.

Definition parse_plain_manifest `{Serde ManifestPayload} (document : list Z) (now : DateTime)
    (minimum_sequence : option Z) : result (failure ManifestError) VerifiedManifest :=
  map_err Fails (validate_document_size document) ;;
  payload ← ok_or (deserialize document) (Fails ME_InvalidJson);
  validate_payload payload now minimum_sequence false ;;
  Ok {| vm_payload := payload; vm_signed := false |}.

Definition verify_signed_manifest `{Serde ManifestPayload} `{Serde SignedManifestEnvelope}
    (document : list Z) (public_key : rstr) (validation_time : DateTime) (minimum_sequence : option Z)
    : result (failure ManifestError) VerifiedManifest :=
  map_err Fails (validate_document_size document) ;;
  envelope ← ok_or (deserialize document) (Fails ME_InvalidJson);
  reject_if (negb (en_schema_version envelope =? MANAGEMENT_SCHEMA_VERSION))
    (Fails (UnsupportedEnvelopeSchema (en_schema_version envelope))) ;;
  reject_if (negb (str_eqb (en_algorithm envelope) (lit "ed25519"))) (Fails UnsupportedAlgorithm) ;;
  reject_if (str_is_empty (en_key_id envelope) || (256 <? str_len (en_key_id envelope))
             || contains_line_break (en_key_id envelope)) (Fails InvalidKeyId) ;;
  payload_bytes ← ok_or (base64url_decode (en_payload envelope)) (Fails InvalidPayloadEncoding);
  map_err Fails (validate_document_size payload_bytes) ;;
  public_key ← map_err Fails (decode_array 32 public_key InvalidPublicKey);
  signature ← map_err Fails (decode_array 64 (en_signature envelope) InvalidSignature);
  verifying_key ← ok_or (verifying_key_from_bytes public_key) (Fails InvalidPublicKey);
  reject_if (negb (verify_strict verifying_key payload_bytes signature)) (Fails ME_SignatureVerificationFailed) ;;
  payload ← ok_or (deserialize payload_bytes) (Fails ME_InvalidJson);
  validate_payload payload validation_time minimum_sequence true ;;
  Ok {| vm_payload := payload; vm_signed := true |}.

(** *** The bootstrap URL *)
Record BootstrapFields : Type := { bf_token : option rstr; bf_key : option rstr; bf_key_id : option rstr }.

(** One iteration over the fragment's fields: [target.replace(value)]. *)
Definition bootstrap_field (f : BootstrapFields) (field : rstr * rstr) : result EnrollmentError BootstrapFields :=
  let '(name, value) := field in
  if str_eqb name (lit "token") then
    if is_some (bf_token f) then Err InvalidBootstrapUrl
    else Ok {| bf_token := Some value; bf_key := bf_key f; bf_key_id := bf_key_id f |}
  else if str_eqb name (lit "key") then
    if is_some (bf_key f) then Err InvalidBootstrapUrl
    else Ok {| bf_token := bf_token f; bf_key := Some value; bf_key_id := bf_key_id f |}
  else if str_eqb name (lit "key_id") then
    if is_some (bf_key_id f) then Err InvalidBootstrapUrl
    else Ok {| bf_token := bf_token f; bf_key := bf_key f; bf_key_id := Some value |}
  else Err InvalidBootstrapUrl.

Fixpoint bootstrap_fields (f : BootstrapFields) (fields : list (rstr * rstr)) : result EnrollmentError BootstrapFields :=
  match fields with
  | [] => Ok f
  | field :: fields => f ← bootstrap_field f field; bootstrap_fields f fields
  end.

Definition option_filter {A} (f : A -> bool) (o : option A) : option A :=
  match o with Some x => if f x then Some x else None | None => None end.

(** [BootstrapDescriptor::parse] *)
Definition bootstrap_parse (value : rstr) : result EnrollmentError BootstrapDescriptor :=
  reject_if (str_is_empty value || (16 * 1024 <? str_len value) || contains_line_break value) InvalidBootstrapUrl ;;
  url ← ok_or (url_parse value) InvalidBootstrapUrl;
  reject_if (negb (is_http url) || negb (is_some (url_host_str url)) || negb (str_is_empty (url_username url))
             || is_some (url_password url) || negb (signed_transport_allowed url)) InvalidBootstrapUrl ;;
  fragment ← ok_or (url_fragment url) MissingBootstrapFields;
  fields ← bootstrap_fields {| bf_token := None; bf_key := None; bf_key_id := None |} (form_urlencoded_parse fragment);
  let token := option_filter (fun value => valid_text value 4096) (bf_token fields) in
  let public_key := option_filter (fun value => is_some (decode_raw_array 32 value)) (bf_key fields) in
  let key_id := option_filter (fun value => valid_text value 256) (bf_key_id fields) in
  match token, public_key, key_id with
  | Some token, Some public_key, Some key_id =>
      Ok {| bd_endpoint_url := url_to_string (url_clear_fragment url); bd_token := token;
            bd_public_key := public_key; bd_key_id := key_id |}
  | _, _, _ => Err MissingBootstrapFields
  end.

(** *** Enrollment *)

(** [private_key] is [StaticSecret::random()] and [nonce] what
    [getrandom::fill] delivers, [None] if it fails. *)
Definition new_enrollment_request (private_key : list Z) (nonce : option (list Z))
    (hostname app_version architecture : rstr) : result EnrollmentError EnrollmentRequestContext :=
  reject_if (negb (valid_text hostname 256) || negb (valid_text app_version 64)
             || negb (valid_text architecture 32)) InvalidRequestMetadata ;;
  let public_key := x25519_public_key private_key in
  request_nonce ← ok_or nonce EE_Random;
  Ok {| cx_request :=
          {| er_schema_version := MANAGEMENT_SCHEMA_VERSION;
             er_device_public_key := base64url_encode public_key;
             er_request_nonce := base64url_encode request_nonce;
             er_hostname := hostname; er_app_version := app_version; er_architecture := architecture |};
        cx_private_key := private_key;
        cx_request_nonce := request_nonce |}.

Definition check_enrollment_url (value : rstr) : result EnrollmentError unit :=
  url ← ok_or (url_parse value) InvalidPayload;
  reject_if (negb (is_http url) || negb (is_some (url_host_str url)) || negb (str_is_empty (url_username url))
             || is_some (url_password url) || is_some (url_fragment url)
             || negb (signed_transport_allowed url)) InvalidPayload.

Definition secrets_malformed (secrets : EnrollmentSecretBundle) : bool :=
  negb (sb_schema_version secrets =? MANAGEMENT_SCHEMA_VERSION)
  || str_is_empty (sb_status_token secrets)
  || (4096 <? str_len (sb_status_token secrets))
  || contains_line_break (sb_status_token secrets)
  || existsb (fun secret => str_is_empty secret || (32 * 1024 <? str_len secret) || contains_char 0 secret)
       (btree_values (sb_repository_secrets secrets)).

(** The key agreement and the sealed bundle. *)
Definition open_secrets (sealed : SealedSecretBundle) (device_id : rstr) (private_key : list Z)
    : result EnrollmentError (list Z) :=
  reject_if (negb (str_eqb (se_algorithm sealed) (lit "x25519-hkdf-sha256-chacha20poly1305"))) InvalidEncryption ;;
  ephemeral ← ok_or (decode_raw_array 32 (se_ephemeral_public_key sealed)) InvalidEncryption;
  salt ← ok_or (decode_raw_array 32 (se_salt sealed)) InvalidEncryption;
  nonce_bytes ← ok_or (decode_raw_array 12 (se_nonce sealed)) InvalidEncryption;
  ciphertext ← ok_or (base64url_decode (se_ciphertext sealed)) InvalidEncryption;
  let shared_secret := diffie_hellman private_key ephemeral in
  reject_if (negb (was_contributory shared_secret)) InvalidEncryption ;;
  encryption_key ← ok_or (hkdf_sha256_expand salt shared_secret (lit "resticpal enrollment secret bundle v1"))
    InvalidEncryption;
  ok_or (chacha20poly1305_decrypt encryption_key nonce_bytes ciphertext (utf8 device_id)) DecryptionFailed.

Section enrollment.
Context `{Serde ManifestPayload} `{Serde SignedManifestEnvelope} `{Serde SignedEnrollmentEnvelope}
  `{Serde EnrollmentPayload} `{Serde EnrollmentSecretBundle}.

(** The [if] after the payload is parsed; its operands run in order and
    the third one adds to the clock, which can panic. *)
Definition check_enrollment_payload (payload : EnrollmentPayload) (descriptor : BootstrapDescriptor)
    (expected_nonce : list Z) (now : DateTime) : result (failure EnrollmentError) unit :=
  reject_if (negb (ep_schema_version payload =? MANAGEMENT_SCHEMA_VERSION)
             || negb (str_eqb (ep_request_nonce payload) (base64url_encode expected_nonce))
             || negb (valid_id (ep_device_id payload))) (Fails InvalidPayload) ;;
  skew ← ok_or (duration_minutes MAX_CLOCK_SKEW_MINUTES) Panics;
  latest ← ok_or (datetime_add now skew) Panics;
  lifetime ← ok_or (duration_minutes 15) Panics;
  reject_if ((latest <? ep_issued_at payload)
             || (ep_expires_at payload <? now)
             || (ep_expires_at payload <=? ep_issued_at payload)
             || (lifetime <? ep_expires_at payload - ep_issued_at payload)
             || negb (in_range 5 (24 * 60) (ep_refresh_interval_minutes payload))
             || negb (str_eqb (en_key_id (ep_initial_manifest payload)) (bd_key_id descriptor)))
    (Fails InvalidPayload).

Definition verify_and_decrypt_enrollment (document : list Z) (descriptor : BootstrapDescriptor)
    (private_key expected_nonce : list Z) (now : DateTime)
    : result (failure EnrollmentError) EnrollmentMaterial :=
  reject_if (bool_decide (document = []) || (MAX_ENROLLMENT_BYTES <? Z.of_nat (length document)))
    (Fails EE_InvalidDocumentSize) ;;
  envelope ← ok_or (deserialize document) (Fails EE_InvalidJson);
  reject_if (negb (ee_schema_version envelope =? MANAGEMENT_SCHEMA_VERSION)
             || negb (str_eqb (ee_algorithm envelope) (lit "ed25519"))
             || negb (str_eqb (ee_key_id envelope) (bd_key_id descriptor))) (Fails InvalidEnvelope) ;;
  payload_bytes ← ok_or (base64url_decode (ee_payload envelope)) (Fails InvalidEnvelope);
  public_key ← ok_or (decode_raw_array 32 (bd_public_key descriptor)) (Fails InvalidEnvelope);
  signature ← ok_or (decode_raw_array 64 (ee_signature envelope)) (Fails InvalidEnvelope);
  verifying_key ← ok_or (verifying_key_from_bytes public_key) (Fails InvalidEnvelope);
  reject_if (negb (verify_strict verifying_key payload_bytes signature)) (Fails EE_SignatureVerificationFailed) ;;
  payload ← ok_or (deserialize payload_bytes) (Fails EE_InvalidJson);
  check_enrollment_payload payload descriptor expected_nonce now ;;
  map_err Fails (for_each check_enrollment_url [ep_manifest_url payload; ep_status_url payload]) ;;
  initial_manifest_document ← ok_or (serialize (ep_initial_manifest payload)) (Fails EE_InvalidJson);
  initial_manifest ←
    map_err (fun e => match e with Fails e => Fails (EE_Manifest e) | Panics => Panics end)
      (verify_signed_manifest initial_manifest_document (bd_public_key descriptor) now None);
  plaintext ← map_err Fails (open_secrets (ep_secrets payload) (ep_device_id payload) private_key);
  secrets ← ok_or (deserialize plaintext) (Fails EE_InvalidJson);
  reject_if (secrets_malformed secrets) (Fails InvalidSecrets) ;;
  Ok {| em_device_id := ep_device_id payload;
        em_manifest_url := ep_manifest_url payload;
        em_status_url := ep_status_url payload;
        em_refresh_interval_minutes := ep_refresh_interval_minutes payload;
        em_initial_manifest_document := initial_manifest_document;
        em_initial_manifest := initial_manifest;
        em_status_token := sb_status_token secrets;
        em_repository_secrets := sb_repository_secrets secrets |}.
End enrollment.
End management.

(** ** Panic freedom

    The closure rules [auto with resticpal] uses. *)
Definition no_panic {E T} (r : result (failure E) T) : Prop := r <> Err Panics.

Section no_panic.
Context {E T U : Type}.
Lemma no_panic_bind (r : result (failure E) T) (k : T -> result (failure E) U) :
  no_panic r -> (forall x, no_panic (k x)) -> no_panic (r ≫= k).
Proof. unfold no_panic. destruct r; cbn; [auto|]. intros Hr _ [= ->]. done. Qed.
Lemma no_panic_Ok (x : T) : no_panic (Ok x : result (failure E) T).
Proof. done. Qed.
Lemma no_panic_reject_if b (e : E) : no_panic (reject_if b (Fails e)).
Proof. by destruct b. Qed.
Lemma no_panic_ok_or (o : option T) (e : E) : no_panic (ok_or o (Fails e)).
Proof. by destruct o. Qed.
Lemma no_panic_map_err {F} (r : result F T) : no_panic (map_err Fails r).
Proof. by destruct r. Qed.
End no_panic.
#[export] Hint Resolve no_panic_bind no_panic_Ok no_panic_reject_if no_panic_ok_or no_panic_map_err : resticpal.

(** ** Specification *)
Section spec.
Context `{ChronoLaws} `{UrlCrate} `{CryptoCrates}.

(** A payload the service may act on: not rolled back, not issued ahead of
    the clock by more than the skew, short-lived and not expired. *)
Record fresh_payload (p : ManifestPayload) (now : DateTime) (minimum : option Z) (require_expiry : bool) : Prop := {
  fp_schema : pl_schema_version p = MANAGEMENT_SCHEMA_VERSION;
  fp_sequence : pl_sequence p <> 0;
  fp_rollback : forall m, minimum = Some m -> m <= pl_sequence p;
  fp_issued : pl_issued_at p <= now + minutes 5;
  fp_expires : match pl_expires_at p with
               | None => require_expiry = false
               | Some e => pl_issued_at p < e <= pl_issued_at p + days 30 /\ now <= e
               end
}.

Lemma duration_minutes_small n : 0 <= n <= 1000 -> duration_minutes n = Some (minutes n).
Proof. intros Hn. unfold duration_minutes. rewrite duration_seconds_small; [done|]. change (i64_max / 1000) with 9223372036854775. lia. Qed.
Lemma duration_days_small n : 0 <= n <= 1000 -> duration_days n = Some (days n).
Proof. intros Hn. unfold duration_days. rewrite duration_seconds_small; [done|]. change (i64_max / 1000) with 9223372036854775. lia. Qed.

(** The clock is far enough from the end of the calendar. *)
Definition clock_ok (now : DateTime) : Prop := valid_datetime now /\ valid_datetime (now + minutes 5).

Lemma skewed_clock now : clock_ok now -> datetime_add now (minutes 5) = Some (now + minutes 5).
Proof. intros [? ?]. by apply datetime_add_in. Qed.

Lemma minimum_check minimum s :
  match minimum with Some m => s <? m | None => false end = false <-> forall m, minimum = Some m -> m <= s.
Proof. destruct minimum; [by rewrite forall_Some, Z.ltb_ge|by rewrite forall_None]. Qed.

Lemma validate_payload_Ok p now minimum require_expiry :
  clock_ok now ->
  validate_payload p now minimum require_expiry = Ok () <-> fresh_payload p now minimum require_expiry.
Proof.
  intros Hnow. unfold validate_payload, MAX_CLOCK_SKEW_MINUTES, MAX_SIGNED_MANIFEST_LIFETIME_DAYS.
  rewrite duration_minutes_small, duration_days_small by lia. cbn [ok_or mbind result_bind].
  rewrite (skewed_clock _ Hnow). cbn [ok_or mbind result_bind].
  rewrite !seq_Ok, !reject_if_Ok, negb_false_iff, Z.eqb_eq, Z.eqb_neq, minimum_check, Z.ltb_ge.
  assert (match pl_expires_at p with
          | Some expires_at =>
              reject_if ((expires_at <=? pl_issued_at p) || (days 30 <? expires_at - pl_issued_at p)) (Fails InvalidLifetime)
              ;; reject_if (expires_at <? now) (Fails Expired)
          | None => reject_if require_expiry (Fails MissingExpiry)
          end = Ok () <->
          match pl_expires_at p with
          | None => require_expiry = false
          | Some e => pl_issued_at p < e <= pl_issued_at p + days 30 /\ now <= e
          end) as ->.
  { destruct (pl_expires_at p) as [e|]; [|by rewrite reject_if_Ok].
    rewrite seq_Ok, !reject_if_Ok, orb_false_iff, Z.leb_gt, !Z.ltb_ge. lia. }
  split; [intros (? & ? & ? & ? & ?); by constructor|intros []; by split_and!].
Qed.

Lemma validate_payload_no_panic p now minimum require_expiry :
  clock_ok now -> no_panic (validate_payload p now minimum require_expiry).
Proof.
  intros Hnow. unfold validate_payload, MAX_CLOCK_SKEW_MINUTES, MAX_SIGNED_MANIFEST_LIFETIME_DAYS.
  rewrite duration_minutes_small, duration_days_small by lia. cbn [ok_or mbind result_bind].
  rewrite (skewed_clock _ Hnow). cbn [ok_or mbind result_bind].
  destruct (pl_expires_at p); auto 10 with resticpal.
Qed.

Definition document_size_ok (document : list Z) : Prop :=
  1 <= Z.of_nat (length document) <= MAX_MANIFEST_BYTES.

Lemma validate_document_size_Ok d u : validate_document_size d = Ok u <-> document_size_ok d.
Proof.
  unfold validate_document_size, document_size_ok. rewrite reject_if_Ok, orb_false_iff, bool_decide_eq_false, Z.ltb_ge.
  destruct d; cbn; [naive_solver lia|]. split; [lia|]. split; [done|lia].
Qed.

Lemma decode_array_Ok n value e b :
  decode_array n value e = Ok b <-> base64url_decode value = Some b /\ length b = n.
Proof.
  unfold decode_array. rewrite bind_Ok. setoid_rewrite ok_or_Ok. split.
  - intros (b' & ? & Hb). case_bool_decide; [|done]. by injection Hb as ->.
  - intros [? ?]. exists b. split; [done|]. by rewrite bool_decide_true.
Qed.
Lemma decode_raw_array_Some n value b :
  decode_raw_array n value = Some b <-> base64url_decode value = Some b /\ length b = n.
Proof.
  unfold decode_raw_array. destruct (base64url_decode value) as [d|]; cbn; [|naive_solver].
  case_bool_decide; naive_solver.
Qed.

(** The pinned key signed exactly these bytes. *)
Definition signed_bytes (public_key signature : rstr) (bytes : list Z) : Prop :=
  exists key s vk, base64url_decode public_key = Some key /\ length key = 32%nat
    /\ base64url_decode signature = Some s /\ length s = 64%nat
    /\ verifying_key_from_bytes key = Some vk /\ verify_strict vk bytes s = true.

Context `{Serde ManifestPayload} `{Serde SignedManifestEnvelope}.

Definition authentic_manifest (document : list Z) (public_key : rstr) (payload : ManifestPayload) : Prop :=
  document_size_ok document /\ exists envelope bytes,
    deserialize document = Some envelope
    /\ en_schema_version envelope = MANAGEMENT_SCHEMA_VERSION /\ en_algorithm envelope = lit "ed25519"
    /\ valid_text (en_key_id envelope) 256 = true
    /\ base64url_decode (en_payload envelope) = Some bytes /\ document_size_ok bytes
    /\ signed_bytes public_key (en_signature envelope) bytes
    /\ deserialize bytes = Some payload.

Lemma key_id_check k :
  str_is_empty k || (256 <? str_len k) || contains_line_break k = false <-> valid_text k 256 = true.
Proof.
  unfold valid_text. rewrite !orb_false_iff, !andb_true_iff, !negb_true_iff, Z.ltb_ge, Z.leb_le. done.
Qed.

Lemma verify_signed_manifest_iff document public_key now minimum m :
  clock_ok now ->
  verify_signed_manifest document public_key now minimum = Ok m <->
  vm_signed m = true /\ authentic_manifest document public_key (vm_payload m)
  /\ fresh_payload (vm_payload m) now minimum true.
Proof.
  intros Hnow. unfold verify_signed_manifest, authentic_manifest, signed_bytes. split.
  - intros Hv. apply seq_Ok in Hv as [Hs Hv]. apply map_err_Ok, validate_document_size_Ok in Hs.
    apply bind_Ok in Hv as (env & He%ok_or_Ok & Hv). rewrite !seq_Ok, !reject_if_Ok in Hv.
    destruct Hv as (Hsch & Halg & Hkid & Hv). rewrite negb_false_iff, Z.eqb_eq in Hsch.
    rewrite negb_false_iff, str_eqb_true in Halg. apply key_id_check in Hkid.
    apply bind_Ok in Hv as (bytes & Hb%ok_or_Ok & Hv). apply seq_Ok in Hv as [Hsz Hv].
    apply map_err_Ok, validate_document_size_Ok in Hsz.
    apply bind_Ok in Hv as (key & Hk & Hv). apply map_err_Ok, decode_array_Ok in Hk as [? ?].
    apply bind_Ok in Hv as (s & Hsig & Hv). apply map_err_Ok, decode_array_Ok in Hsig as [? ?].
    apply bind_Ok in Hv as (vk & Hvk%ok_or_Ok & Hv). apply seq_Ok in Hv as [Hver Hv].
    apply reject_if_Ok, negb_false_iff in Hver.
    apply bind_Ok in Hv as (p & Hp%ok_or_Ok & Hv). apply seq_Ok in Hv as [Hf [= <-]].
    apply (validate_payload_Ok _ _ _ _ Hnow) in Hf. cbn. split; [done|]. split; [|done].
    split; [done|]. exists env, bytes. split_and!; try assumption. exists key, s, vk. by split_and!.
  - intros (Hm & (Hs & env & bytes & He & Hsch & Halg & Hkid & Hb & Hsz & (key & s & vk & Hk & Hkl & Hsig & Hsl & Hvk & Hver) & Hp) & Hf).
    apply (validate_document_size_Ok _ ()) in Hs, Hsz. rewrite Hs, He. cbn. rewrite Hsch, Halg, str_eqb_refl. cbn.
    apply key_id_check in Hkid. rewrite Hkid, Hb. cbn. rewrite Hsz. cbn.
    unfold decode_array. rewrite Hk, Hsig. cbn. rewrite !bool_decide_true by done. cbn. rewrite Hvk. cbn.
    rewrite Hver. cbn. rewrite Hp. cbn.
    apply (validate_payload_Ok _ _ _ _ Hnow) in Hf. rewrite Hf. cbn. by destruct m; cbn in *; subst.
Qed.

Lemma verify_signed_manifest_no_panic document public_key now minimum :
  clock_ok now -> no_panic (verify_signed_manifest document public_key now minimum).
Proof.
  intros Hnow. pose proof (fun p => validate_payload_no_panic p now minimum true Hnow).
  unfold verify_signed_manifest. auto 20 with resticpal.
Qed.
Lemma parse_plain_manifest_no_panic document now minimum :
  clock_ok now -> no_panic (parse_plain_manifest document now minimum).
Proof.
  intros Hnow. pose proof (fun p => validate_payload_no_panic p now minimum false Hnow).
  unfold parse_plain_manifest. auto 20 with resticpal.
Qed.

Lemma parse_plain_manifest_iff document now minimum m :
  clock_ok now ->
  parse_plain_manifest document now minimum = Ok m <->
  vm_signed m = false /\ document_size_ok document /\ deserialize document = Some (vm_payload m)
  /\ fresh_payload (vm_payload m) now minimum false.
Proof.
  intros Hnow. unfold parse_plain_manifest. rewrite seq_Ok, map_err_Ok, validate_document_size_Ok, bind_Ok.
  setoid_rewrite ok_or_Ok. setoid_rewrite seq_Ok. setoid_rewrite (validate_payload_Ok _ _ _ _ Hnow). split.
  + intros (? & p & ? & ? & [= <-]). done.
  + intros (Hm & ? & ? & ?). split; [done|]. eexists. split_and!; [done..|]. by destruct m; cbn in *; subst.
Qed.

(** C5: a signed manifest is accepted exactly when its payload is the
    document the pinned Ed25519 key signed, byte for byte, within the size
    limits, and that payload is fresh: no sequence below the last accepted
    one, no issue time beyond the clock skew, a lifetime of at most thirty
    days that has not ended. *)
Theorem signed_manifest_accepted_iff (document : list Z) (public_key : rstr) (now : DateTime)
    (minimum : option Z) (m : VerifiedManifest) (Hnow : clock_ok now) :
  verify_signed_manifest document public_key now minimum = Ok m <->
  vm_signed m = true /\ authentic_manifest document public_key (vm_payload m)
  /\ fresh_payload (vm_payload m) now minimum true.
Proof. by apply verify_signed_manifest_iff. Qed.

(** Neither manifest check panics while the clock is five minutes short
    of the end of the calendar, and an unsigned manifest faces the same
    freshness rules, except that it may omit its expiry. *)
Theorem manifest_checks_total (document : list Z) (public_key : rstr) (now : DateTime)
    (minimum : option Z) (Hnow : clock_ok now) :
  verify_signed_manifest document public_key now minimum <> Err Panics
  /\ parse_plain_manifest document now minimum <> Err Panics
  /\ (forall m, parse_plain_manifest document now minimum = Ok m <->
        vm_signed m = false /\ document_size_ok document /\ deserialize document = Some (vm_payload m)
        /\ fresh_payload (vm_payload m) now minimum false).
Proof.
  split_and!.
  - apply verify_signed_manifest_no_panic, Hnow.
  - apply parse_plain_manifest_no_panic, Hnow.
  - intros m. by apply parse_plain_manifest_iff.
Qed.
End spec.

(** ** The bootstrap URL *)
Definition values_of (name : rstr) (fields : list (rstr * rstr)) : list rstr :=
  omap (fun '(n, v) => if str_eqb n name then Some v else None) fields.

(** A fragment's fields with only the three known names. *)
Definition known_name (name : rstr) : bool :=
  str_eqb name (lit "token") || str_eqb name (lit "key") || str_eqb name (lit "key_id").

Lemma option_list_inj (a b : option rstr) : option_list a = option_list b -> a = b.
Proof. destruct a, b; cbn; congruence. Qed.

Lemma bootstrap_fields_Ok fields f f' :
  bootstrap_fields f fields = Ok f' <->
  forallb (fun field => known_name field.1) fields = true
  /\ option_list (bf_token f) ++ values_of (lit "token") fields = option_list (bf_token f')
  /\ option_list (bf_key f) ++ values_of (lit "key") fields = option_list (bf_key f')
  /\ option_list (bf_key_id f) ++ values_of (lit "key_id") fields = option_list (bf_key_id f').
Proof.
  revert f. induction fields as [|[n v] fields IH]; intros f.
  { cbn [bootstrap_fields forallb values_of omap list_omap]. rewrite !app_nil_r. split.
    - intros [= ->]. done.
    - intros (_ & Ht%option_list_inj & Hk%option_list_inj & Hi%option_list_inj).
      destruct f, f'; cbn in *; by subst. }
  cbn [bootstrap_fields forallb fst]. unfold bootstrap_field, known_name.
  unfold values_of. cbn [omap list_omap]. fold (values_of (lit "token") fields)
    (values_of (lit "key") fields) (values_of (lit "key_id") fields).
  destruct (str_eqb n (lit "token")) eqn:E1; [apply str_eqb_true in E1 as ->
  |destruct (str_eqb n (lit "key")) eqn:E2; [apply str_eqb_true in E2 as ->
  |destruct (str_eqb n (lit "key_id")) eqn:E3; [apply str_eqb_true in E3 as ->
  |cbn; split; [done|]; by intros [? _]]]].
  - change (str_eqb (lit "token") (lit "key")) with false. change (str_eqb (lit "token") (lit "key_id")) with false.
    destruct (bf_token f) as [t|] eqn:Et; cbn -[lit values_of].
    + split; [done|]. intros (_ & Ht & _). by destruct (bf_token f').
    + rewrite IH. cbn -[lit values_of]. done.
  - change (str_eqb (lit "key") (lit "key_id")) with false.
    destruct (bf_key f) as [t|] eqn:Et; cbn -[lit values_of].
    + split; [done|]. intros (_ & _ & Ht & _). by destruct (bf_key f').
    + rewrite IH. cbn -[lit values_of]. done.
  - destruct (bf_key_id f) as [t|] eqn:Et; cbn -[lit values_of].
    + split; [done|]. intros (_ & _ & _ & Ht). by destruct (bf_key_id f').
    + rewrite IH. cbn -[lit values_of]. done.
Qed.

Section bootstrap.
Context `{UrlCrate} `{CryptoCrates}.

(** A management endpoint: HTTP(S) without embedded credentials, encrypted
    unless it stays on this host. *)
Definition safe_endpoint (url : Url) : Prop :=
  is_http url = true /\ url_host_str url <> None /\ url_username url = [] /\ url_password url = None
  /\ (url_scheme url = lit "https"
      \/ exists host, url_host_str url = Some host /\ host_is_loopback host = true).

Lemma signed_transport_spec url :
  signed_transport_allowed url = true <->
  url_scheme url = lit "https" \/ exists host, url_host_str url = Some host /\ host_is_loopback host = true.
Proof.
  unfold signed_transport_allowed, host_is_loopback. rewrite orb_true_iff, str_eqb_true.
  destruct (url_host_str url) as [host|]; split; intros [|Hx]; eauto; try done.
  - destruct Hx as (h & [= <-] & ?). auto.
  - by destruct Hx as (h & ? & ?).
Qed.

Lemma endpoint_check url :
  negb (is_http url) || negb (is_some (url_host_str url)) || negb (str_is_empty (url_username url))
    || is_some (url_password url) || negb (signed_transport_allowed url) = false <-> safe_endpoint url.
Proof.
  unfold safe_endpoint. rewrite !orb_false_iff, !negb_false_iff, signed_transport_spec, is_some_false, is_some_true.
  assert (str_is_empty (url_username url) = true <-> url_username url = []) as -> by by destruct (url_username url).
  assert ((exists x, url_host_str url = Some x) <-> url_host_str url <> None) as ->.
  { destruct (url_host_str url); naive_solver. }
  tauto.
Qed.

Lemma option_filter_Some {A} (f : A -> bool) o x : option_filter f o = Some x <-> o = Some x /\ f x = true.
Proof. unfold option_filter. destruct o as [y|]; [|split; [done|by intros [? _]]].
  destruct (f y) eqn:E; (split; [intros [= ->]; done|intros [[= ->] ?]; congruence]).
Qed.

(** A bootstrap URL is accepted exactly when it is a bounded single-line
    URL of a safe endpoint whose fragment holds the token, the 32-byte
    pinned key and the key id once each and nothing else; the endpoint that
    will be contacted is the URL without that fragment. *)
Theorem bootstrap_accepted_iff (value : rstr) (d : BootstrapDescriptor) :
  bootstrap_parse value = Ok d <->
  (value <> [] /\ str_len value <= 16 * 1024 /\ contains_line_break value = false)
  /\ exists url fragment fields,
       url_parse value = Some url /\ safe_endpoint url
       /\ url_fragment url = Some fragment /\ form_urlencoded_parse fragment = fields
       /\ Forall (fun field => field.1 = lit "token" \/ field.1 = lit "key" \/ field.1 = lit "key_id") fields
       /\ values_of (lit "token") fields = [bd_token d] /\ valid_text (bd_token d) 4096 = true
       /\ values_of (lit "key") fields = [bd_public_key d]
       /\ (exists key, base64url_decode (bd_public_key d) = Some key /\ length key = 32%nat)
       /\ values_of (lit "key_id") fields = [bd_key_id d] /\ valid_text (bd_key_id d) 256 = true
       /\ bd_endpoint_url d = url_to_string (url_clear_fragment url).
Proof.
  assert (forall fields, Forall (fun field => field.1 = lit "token" \/ field.1 = lit "key" \/ field.1 = lit "key_id") fields
            <-> forallb (fun field : rstr * rstr => known_name field.1) fields = true) as Hknown.
  { intros fields. rewrite forallb_true_Forall. apply Forall_iff. intros field. unfold known_name.
    rewrite !orb_true_iff, !str_eqb_true. tauto. }
  unfold bootstrap_parse. rewrite seq_Ok, reject_if_Ok, bind_Ok, !orb_false_iff, str_is_empty_false, Z.ltb_ge.
  setoid_rewrite ok_or_Ok. setoid_rewrite seq_Ok. setoid_rewrite reject_if_Ok. setoid_rewrite endpoint_check.
  setoid_rewrite bind_Ok. setoid_rewrite ok_or_Ok. setoid_rewrite bind_Ok. setoid_rewrite bootstrap_fields_Ok.
  cbn [bf_token bf_key bf_key_id option_list app]. split.
  - intros ([[? ?] ?] & url & Hu & Hs & fragment & Hf & f & (Hk & Ht & Hkey & Hid) & Hd). split; [done|].
    exists url, fragment, (form_urlencoded_parse fragment).
    destruct (option_filter _ (bf_token f)) as [t|] eqn:E1; [|done].
    destruct (option_filter _ (bf_key f)) as [k|] eqn:E2; [|done].
    destruct (option_filter _ (bf_key_id f)) as [i|] eqn:E3; [|done].
    apply option_filter_Some in E1 as [E1 ?], E2 as [E2 Hk2], E3 as [E3 ?].
    apply is_some_true in Hk2 as (key & Hk2%decode_raw_array_Some).
    rewrite E1 in Ht. rewrite E2 in Hkey. rewrite E3 in Hid. injection Hd as <-. cbn.
    rewrite Hknown. split_and!; eauto.
  - intros ((? & ? & ?) & url & fragment & fields & ? & ? & Hf & <- & Hk & Ht & Hvt & Hkey & (key & Hdk & Hlen) & Hid & Hvi & He).
    split; [done|]. exists url. split; [done|]. split; [done|]. exists fragment. split; [done|].
    exists {| bf_token := Some (bd_token d); bf_key := Some (bd_public_key d); bf_key_id := Some (bd_key_id d) |}.
    rewrite Hknown in Hk. split; [by split_and!|]. cbn. rewrite Hvt, Hvi.
    rewrite (proj2 (decode_raw_array_Some 32 (bd_public_key d) key)) by done. cbn.
    destruct d; cbn in *; by subst.
Qed.
End bootstrap.

(** ** Enrollment *)
Section enrollment_spec.
Context `{ChronoLaws} `{UrlCrate} `{CryptoCrates}.
Context `{Serde ManifestPayload} `{Serde SignedManifestEnvelope} `{Serde SignedEnrollmentEnvelope}
  `{Serde EnrollmentPayload} `{Serde EnrollmentSecretBundle}.

(** A payload that answers this request, now. *)
Record answers_request (p : EnrollmentPayload) (d : BootstrapDescriptor) (nonce : list Z) (now : DateTime) : Prop := {
  ar_schema : ep_schema_version p = MANAGEMENT_SCHEMA_VERSION;
  ar_nonce : ep_request_nonce p = base64url_encode nonce;
  ar_device : valid_id (ep_device_id p) = true;
  ar_issued : ep_issued_at p <= now + minutes 5;
  ar_live : now <= ep_expires_at p;
  ar_lifetime : ep_issued_at p < ep_expires_at p <= ep_issued_at p + minutes 15;
  ar_refresh : 5 <= ep_refresh_interval_minutes p <= 24 * 60;
  ar_key_id : en_key_id (ep_initial_manifest p) = bd_key_id d
}.

Lemma check_enrollment_payload_Ok p d nonce now :
  clock_ok now -> check_enrollment_payload p d nonce now = Ok () <-> answers_request p d nonce now.
Proof.
  intros Hnow. unfold check_enrollment_payload, MAX_CLOCK_SKEW_MINUTES.
  rewrite !duration_minutes_small by lia. cbn [ok_or mbind result_bind]. rewrite (skewed_clock _ Hnow).
  cbn [ok_or mbind result_bind]. rewrite seq_Ok, !reject_if_Ok, !orb_false_iff, !negb_false_iff.
  rewrite Z.eqb_eq, !str_eqb_true, !Z.ltb_ge, Z.leb_gt, in_range_true. split.
  - intros; destruct_and!; constructor; try done; lia.
  - intros []. split_and!; try done; lia.
Qed.

Definition safe_url (value : rstr) : Prop :=
  exists url, url_parse value = Some url /\ safe_endpoint url /\ url_fragment url = None.

Lemma check_enrollment_url_Ok value : check_enrollment_url value = Ok () <-> safe_url value.
Proof.
  unfold check_enrollment_url, safe_url. rewrite bind_Ok. setoid_rewrite ok_or_Ok. setoid_rewrite reject_if_Ok.
  assert (forall url, negb (is_http url) || negb (is_some (url_host_str url)) || negb (str_is_empty (url_username url))
            || is_some (url_password url) || is_some (url_fragment url) || negb (signed_transport_allowed url) = false
          <-> safe_endpoint url /\ url_fragment url = None) as Hc; [|by setoid_rewrite Hc].
  intros url. rewrite <- endpoint_check, <- is_some_false, !orb_false_iff. tauto.
Qed.

(** Enrollment material is handed out only for a response that the
    bootstrap key signed, that answers this very request within its fifteen
    minutes, whose management URLs are safe, whose first policy verifies
    under the same key, and whose secrets open with the device's private
    key, bound to the device id. *)
Theorem enrollment_authenticated (document : list Z) (d : BootstrapDescriptor) (private_key nonce : list Z)
    (now : DateTime) (m : EnrollmentMaterial) (Hnow : clock_ok now)
    (Hm : verify_and_decrypt_enrollment document d private_key nonce now = Ok m) :
  exists envelope bytes payload secrets,
    deserialize document = Some envelope /\ ee_key_id envelope = bd_key_id d
    /\ base64url_decode (ee_payload envelope) = Some bytes
    /\ signed_bytes (bd_public_key d) (ee_signature envelope) bytes
    /\ deserialize bytes = Some payload /\ answers_request payload d nonce now
    /\ safe_url (em_manifest_url m) /\ safe_url (em_status_url m)
    /\ em_manifest_url m = ep_manifest_url payload /\ em_status_url m = ep_status_url payload
    /\ em_device_id m = ep_device_id payload
    /\ em_refresh_interval_minutes m = ep_refresh_interval_minutes payload
    /\ serialize (ep_initial_manifest payload) = Some (em_initial_manifest_document m)
    /\ authentic_manifest (em_initial_manifest_document m) (bd_public_key d) (vm_payload (em_initial_manifest m))
    /\ fresh_payload (vm_payload (em_initial_manifest m)) now None true
    /\ (exists plaintext, open_secrets (ep_secrets payload) (ep_device_id payload) private_key = Ok plaintext
          /\ deserialize plaintext = Some secrets)
    /\ em_status_token m = sb_status_token secrets /\ em_repository_secrets m = sb_repository_secrets secrets
    /\ valid_text (em_status_token m) 4096 = true
    /\ Forall (fun s => s <> [] /\ str_len s <= 32 * 1024) (btree_values (em_repository_secrets m)).
Proof.
  unfold verify_and_decrypt_enrollment in Hm. apply seq_Ok in Hm as [_ Hm].
  apply bind_Ok in Hm as (envelope & He%ok_or_Ok & Hm). apply seq_Ok in Hm as [Hck Hm].
  apply reject_if_Ok in Hck. rewrite !orb_false_iff, !negb_false_iff, !str_eqb_true in Hck.
  apply bind_Ok in Hm as (bytes & Hb%ok_or_Ok & Hm).
  apply bind_Ok in Hm as (key & Hkey%ok_or_Ok%decode_raw_array_Some & Hm).
  apply bind_Ok in Hm as (s & Hs%ok_or_Ok%decode_raw_array_Some & Hm).
  apply bind_Ok in Hm as (vk & Hvk%ok_or_Ok & Hm). apply seq_Ok in Hm as [Hver Hm].
  apply reject_if_Ok, negb_false_iff in Hver.
  apply bind_Ok in Hm as (payload & Hp%ok_or_Ok & Hm). apply seq_Ok in Hm as [Hans Hm].
  apply (check_enrollment_payload_Ok _ _ _ _ Hnow) in Hans.
  apply seq_Ok in Hm as [Hurls Hm]. apply map_err_Ok, for_each_Ok in Hurls.
  rewrite !Forall_cons, !check_enrollment_url_Ok in Hurls. destruct Hurls as (? & ? & _).
  apply bind_Ok in Hm as (doc & Hdoc%ok_or_Ok & Hm).
  apply bind_Ok in Hm as (vm & Hvm%map_err_Ok & Hm). apply (verify_signed_manifest_iff _ _ _ _ _ Hnow) in Hvm.
  apply bind_Ok in Hm as (plain & Hplain%map_err_Ok & Hm).
  apply bind_Ok in Hm as (secrets & Hsec%ok_or_Ok & Hm). apply seq_Ok in Hm as [Hmal [= <-]].
  apply reject_if_Ok in Hmal. unfold secrets_malformed in Hmal.
  rewrite !orb_false_iff, existsb_false_Forall in Hmal.
  exists envelope, bytes, payload, secrets. cbn [em_device_id em_manifest_url em_status_url em_refresh_interval_minutes
    em_initial_manifest_document em_initial_manifest em_status_token em_repository_secrets].
  destruct_and!. split_and!; try assumption; try reflexivity.
  - exists key, s, vk. by split_and!.
  - by exists plain.
  - unfold valid_text. rewrite !andb_true_iff, !negb_true_iff, Z.leb_le. bool_steps. split_and!; done.
  - eapply Forall_impl; [eassumption|]. intros x Hx. cbn beta in Hx.
    rewrite !orb_false_iff, str_is_empty_false, Z.ltb_ge in Hx. tauto.
Qed.
End enrollment_spec.

Module ManagementWitness.
Import ChronoExample UrlExample.

(** Texts encode as themselves; a signature is sixty-four copies of the
    message length; sealing adds the device id in front. *)
#[local] Instance toy_crypto : CryptoCrates := {|
  base64url_encode b := b;
  base64url_decode s := Some s;
  VerifyingKey := list Z;
  verifying_key_from_bytes b := Some b;
  verify_strict _ m s := bool_decide (s = replicate 64 (Z.of_nat (length m)));
  x25519_public_key k := k;
  diffie_hellman a b := a ++ b;
  was_contributory s := negb (bool_decide (s = []));
  hkdf_sha256_expand salt ikm _ := Some (take 32 (salt ++ ikm));
  chacha20poly1305_decrypt _ _ msg aad := if starts_with aad msg then Some (drop (length aad) msg) else None
|}.

Definition manifest : ManifestPayload :=
  {| pl_schema_version := 1; pl_sequence := 7; pl_issued_at := seconds 1000;
     pl_expires_at := Some (seconds 90000); pl_policy := ManagedPolicy_default |}.
Definition key32 : rstr := replicate 32 7.
Definition manifest_envelope : SignedManifestEnvelope :=
  {| en_schema_version := 1; en_algorithm := lit "ed25519"; en_key_id := lit "k1"; en_payload := [1];
     en_signature := replicate 64 1 |}.
Definition payload : EnrollmentPayload :=
  {| ep_schema_version := 1; ep_device_id := lit "dev"; ep_request_nonce := [9]; ep_issued_at := seconds 1000;
     ep_expires_at := seconds 1600; ep_manifest_url := lit "https://m.test/p"; ep_status_url := lit "https://m.test/s";
     ep_refresh_interval_minutes := 15; ep_initial_manifest := manifest_envelope;
     ep_secrets := {| se_algorithm := lit "x25519-hkdf-sha256-chacha20poly1305"; se_ephemeral_public_key := key32;
                      se_salt := key32; se_nonce := replicate 12 1; se_ciphertext := lit "dev" ++ [5] |} |}.
Definition envelope : SignedEnrollmentEnvelope :=
  {| ee_schema_version := 1; ee_algorithm := lit "ed25519"; ee_key_id := lit "k1"; ee_payload := [3];
     ee_signature := replicate 64 1 |}.
Definition bundle : EnrollmentSecretBundle :=
  {| sb_schema_version := 1; sb_status_token := lit "token"; sb_repository_secrets := [(ResticPassword, lit "pw")] |}.
Definition descriptor : BootstrapDescriptor :=
  {| bd_endpoint_url := lit "https://m.test/enroll"; bd_token := lit "t"; bd_public_key := key32; bd_key_id := lit "k1" |}.

(** One document per type, each a single byte. *)
Definition one_document {T} (x : T) (b : Z) : Serde T :=
  {| serialize := fun _ : T => Some [b]; deserialize := fun d : list Z => if bool_decide (d = [b]) then Some x else None |}.
#[local] Instance manifest_serde : Serde ManifestPayload := one_document manifest 1.
#[local] Instance manifest_envelope_serde : Serde SignedManifestEnvelope := one_document manifest_envelope 2.
#[local] Instance payload_serde : Serde EnrollmentPayload := one_document payload 3.
#[local] Instance envelope_serde : Serde SignedEnrollmentEnvelope := one_document envelope 4.
#[local] Instance bundle_serde : Serde EnrollmentSecretBundle := one_document bundle 5.

Lemma clock_example : clock_ok (seconds 1200).
Proof. split; split; vm_compute; discriminate. Qed.

Lemma signed_manifest_witness :
  verify_signed_manifest [2] key32 (seconds 1200) (Some 7) = Ok {| vm_payload := manifest; vm_signed := true |}.
Proof.
  apply (signed_manifest_accepted_iff [2] key32 (seconds 1200) (Some 7) {| vm_payload := manifest; vm_signed := true |} clock_example).
  split; [reflexivity|]. split.
  - split; [split; vm_compute; discriminate|]. exists manifest_envelope, [1].
    split_and!; try reflexivity; [split; vm_compute; discriminate|].
    exists key32, (replicate 64 1), key32. split_and!; reflexivity.
  - split; cbn.
    + reflexivity.
    + discriminate.
    + intros m [= <-]. lia.
    + vm_compute. discriminate.
    + vm_compute. split; [split; [reflexivity|discriminate]|discriminate].
Defined.

Lemma manifest_checks_witness :
  parse_plain_manifest [1] (seconds 1200) None <> Err Panics.
Proof. apply (manifest_checks_total [1] key32 (seconds 1200) None clock_example). Defined.

(** A replayed manifest, and one past its expiry. *)
Example manifest_refused :
  verify_signed_manifest [2] key32 (seconds 1200) (Some 8) = Err (Fails RollbackAttempt)
  /\ verify_signed_manifest [2] key32 (seconds 90001) (Some 7) = Err (Fails Expired).
Proof. split; vm_compute; reflexivity. Qed.

Lemma enrollment_witness :
  exists m, verify_and_decrypt_enrollment [4] descriptor key32 [9] (seconds 1200) = Ok m
    /\ valid_text (em_status_token m) 4096 = true.
Proof.
  destruct (verify_and_decrypt_enrollment [4] descriptor key32 [9] (seconds 1200)) as [m|] eqn:E;
    [|vm_compute in E; discriminate E].
  exists m. split; [reflexivity|].
  destruct (enrollment_authenticated [4] descriptor key32 [9] (seconds 1200) m clock_example E)
    as (e & b & p & s & Hall). destruct_and! Hall. assumption.
Defined.

Example bootstrap_example :
  bootstrap_parse (lit "https://m.test/enroll#key_id=k1&token=secret&key=01234567890123456789012345678901") =
  Ok {| bd_endpoint_url := lit "https://m.test/enroll"; bd_token := lit "secret";
        bd_public_key := lit "01234567890123456789012345678901"; bd_key_id := lit "k1" |}
  /\ bootstrap_parse (lit "https://m.test/enroll#token=a&token=b&key=01234567890123456789012345678901&key_id=k")
     = Err InvalidBootstrapUrl.
Proof. split; vm_compute; reflexivity. Qed.
End ManagementWitness.
