(* ===== verification/Outcome.v ===== *)
(** * Outcomes of service operations

    What the workers report back: backup, repository and retention outcomes
    ([apps/resticpal-service/src/executor.rs]) and the installer outcome
    ([updater.rs]). *)
From stdpp Require Import base option list strings.
From S2P Require Import Prelude RustStd Chrono Config Status.

Record BackupSummary : Type := {
  bs_files_processed : Z;
  bs_bytes_processed : Z;
  bs_data_added : Z;
  bs_snapshot_id : option rstr
}.
#[global] Instance BackupSummary_eq_dec : EqDecision BackupSummary.
Proof. solve_decision. Defined.

Inductive BackupOutcomeKind : Type :=
| OK_Succeeded | OK_SucceededWithWarnings | OK_Failed (code : rstr) | OK_Cancelled.
#[global] Instance BackupOutcomeKind_eq_dec : EqDecision BackupOutcomeKind.
Proof. solve_decision. Defined.

(** Sensitive source names collected from restic's per-item errors. *)
Record BackupFailureDetails : Type := {
  bfd_items : list rstr;
  bfd_omitted : Z
}.
#[global] Instance BackupFailureDetails_eq_dec : EqDecision BackupFailureDetails.
Proof. solve_decision. Defined.

Definition failure_details_default : BackupFailureDetails := {| bfd_items := []; bfd_omitted := 0 |}.

Definition failure_push (d : BackupFailureDetails) (item : rstr) : BackupFailureDetails :=
  if existsb (fun existing => str_eqb existing item) (bfd_items d) then d
  else if negb (is_safe_backup_failed_item item)
          || (MAX_BACKUP_FAILED_ITEMS <=? Z.of_nat (length (bfd_items d)))
  then {| bfd_items := bfd_items d; bfd_omitted := u64_saturating_add (bfd_omitted d) 1 |}
  else {| bfd_items := bfd_items d ++ [item]; bfd_omitted := bfd_omitted d |}.

Definition failure_merge (d other : BackupFailureDetails) : BackupFailureDetails :=
  let d := fold_left failure_push (bfd_items other) d in
  {| bfd_items := bfd_items d; bfd_omitted := u64_saturating_add (bfd_omitted d) (bfd_omitted other) |}.

Record BackupOutcome : Type := {
  bo_kind : BackupOutcomeKind;
  bo_summary : option BackupSummary;
  bo_warning_code : option rstr;
  bo_failure_details : BackupFailureDetails
}.
#[global] Instance BackupOutcome_eq_dec : EqDecision BackupOutcome.
Proof. solve_decision. Defined.

Definition outcome_succeeded (summary : BackupSummary) : BackupOutcome :=
  {| bo_kind := OK_Succeeded; bo_summary := Some summary; bo_warning_code := None;
     bo_failure_details := failure_details_default |}.
Definition outcome_warnings (summary : BackupSummary) (code : rstr) (details : BackupFailureDetails) : BackupOutcome :=
  {| bo_kind := OK_SucceededWithWarnings; bo_summary := Some summary; bo_warning_code := Some code;
     bo_failure_details := details |}.
Definition outcome_failed (code : rstr) : BackupOutcome :=
  {| bo_kind := OK_Failed code; bo_summary := None; bo_warning_code := None;
     bo_failure_details := failure_details_default |}.
Definition outcome_cancelled : BackupOutcome :=
  {| bo_kind := OK_Cancelled; bo_summary := None; bo_warning_code := None;
     bo_failure_details := failure_details_default |}.

(** [BackupOutcome::with_warning]: an earlier warning is kept. *)
Definition with_warning (o : BackupOutcome) (code : rstr) : BackupOutcome :=
  match bo_kind o with
  | OK_Succeeded | OK_SucceededWithWarnings =>
      {| bo_kind := OK_SucceededWithWarnings; bo_summary := bo_summary o;
         bo_warning_code := match bo_warning_code o with None => Some code | w => w end;
         bo_failure_details := bo_failure_details o |}
  | _ => o
  end.

(** [matches!(outcome.kind, Succeeded | SucceededWithWarnings)] *)
Definition outcome_is_success (o : BackupOutcome) : bool :=
  match bo_kind o with OK_Succeeded | OK_SucceededWithWarnings => true | _ => false end.

Inductive RepositoryOutcome : Type := Repo_Succeeded | Repo_Failed (code : rstr) | Repo_Cancelled.
Inductive RetentionOutcome : Type := Ret_Succeeded (pruned : bool) | Ret_Failed (code : rstr) | Ret_Cancelled.
Inductive UpdateInstallOutcome : Type :=
| Upd_Completed (version : rstr) | Upd_Failed (code : rstr) | Upd_Indeterminate (code : rstr).
#[global] Instance RepositoryOutcome_eq_dec : EqDecision RepositoryOutcome.
Proof. solve_decision. Defined.
#[global] Instance RetentionOutcome_eq_dec : EqDecision RetentionOutcome.
Proof. solve_decision. Defined.
#[global] Instance UpdateInstallOutcome_eq_dec : EqDecision UpdateInstallOutcome.
Proof. solve_decision. Defined.

(** ** Failure details stay bounded *)

(** What a run may retain: safe, distinct names within the limit. *)
Record details_ok (d : BackupFailureDetails) : Prop := {
  do_bound : Z.of_nat (length (bfd_items d)) <= MAX_BACKUP_FAILED_ITEMS;
  do_safe : Forall (fun i => is_safe_backup_failed_item i = true) (bfd_items d);
  do_distinct : NoDup (bfd_items d)
}.

Lemma details_ok_default : details_ok failure_details_default.
Proof. split; cbn; [unfold MAX_BACKUP_FAILED_ITEMS; lia|constructor|constructor]. Qed.

Lemma existsb_str_eqb l x : existsb (fun e => str_eqb e x) l = true <-> x ∈ l.
Proof.
  rewrite existsb_exists. setoid_rewrite str_eqb_true. setoid_rewrite list_elem_of_In.
  split; [intros (y & ? & ->); done|eauto].
Qed.

Lemma failure_push_ok d item : details_ok d -> details_ok (failure_push d item).
Proof.
  intros [Hb Hs Hd]. unfold failure_push.
  destruct (existsb _ _) eqn:Hin; [by constructor|].
  assert (item ∉ bfd_items d) as Hni by (intros H%existsb_str_eqb; congruence).
  destruct (_ || _) eqn:Hc; [by constructor|]. apply orb_false_iff in Hc as [Hsafe Hlen].
  apply negb_false_iff in Hsafe. apply Z.leb_gt in Hlen. split; cbn.
  - rewrite length_app. cbn. lia.
  - apply Forall_app. auto.
  - apply NoDup_app. split_and!; [done| |apply NoDup_singleton].
    intros x Hx ->%list_elem_of_singleton. done.
Qed.

Lemma failure_push_all_ok items d : details_ok d -> details_ok (fold_left failure_push items d).
Proof. revert d. induction items as [|i items IH]; cbn; intros d Hd; [done|]. auto using failure_push_ok. Qed.

Lemma failure_merge_ok d other : details_ok d -> details_ok (failure_merge d other).
Proof. intros Hd. destruct (failure_push_all_ok (bfd_items other) d Hd). by constructor. Qed.

#[export] Hint Resolve details_ok_default failure_push_ok failure_push_all_ok failure_merge_ok : resticpal.

(** Every name pushed is retained, already there, or counted as omitted. *)
Lemma failure_push_accounts d item :
  bfd_omitted d < u64_max ->
  Z.of_nat (length (bfd_items (failure_push d item))) + bfd_omitted (failure_push d item) =
  Z.of_nat (length (bfd_items d)) + bfd_omitted d + (if bool_decide (item ∈ bfd_items d) then 0 else 1).
Proof.
  intros Ho. unfold failure_push. destruct (existsb _ _) eqn:Hin.
  - rewrite bool_decide_true by by apply existsb_str_eqb. lia.
  - rewrite bool_decide_false by (rewrite <- existsb_str_eqb; congruence).
    destruct (_ || _); cbn; [unfold u64_saturating_add; lia|]. rewrite length_app. cbn. lia.
Qed.
