(* ===== verification/Output.v ===== *)
(** * What restic prints ([apps/resticpal-service/src/executor.rs], output half)

    Bounded reading of restic's JSON lines, their meaning, the
    classification of its error text and the outcome of a backup run. *)
From stdpp Require Import base option list strings.
From Stdlib Require Import SpecFloat.
From S2P Require Import Prelude RustStd Chrono Config Status Outcome.

Definition MAX_JSON_LINE_BYTES : Z := 1024 * 1024.
Definition MAX_STDERR_BYTES : Z := 64 * 1024.

(** ** Streams

    A pipe delivers pieces; an empty piece and the end of the list are the
    end of the stream, [IoError] a failed read. *)
Inductive Piece : Type := Bytes (b : list Z) | IoError.
Abbreviation Stream := (list Piece) (only parsing).

(** All that arrives before the end or a failure. *)
Fixpoint received (r : Stream) : list Z :=
  match r with
  | Bytes (x :: b) :: r => x :: b ++ received r
  | _ => []
  end.

(** [available.iter().position(|byte| *byte == b'\n').map_or(len, |i| i + 1)]
    and the split there: the consumed bytes, whether they end a line, the rest. *)
Fixpoint consume_line (available : list Z) : list Z * bool * list Z :=
  match available with
  | [] => ([], false, [])
  | x :: available =>
      if x =? 10 then ([x], true, available)
      else let '(consumed, ended, rest) := consume_line available in (x :: consumed, ended, rest)
  end.

(** What stays in the buffer after [consume]. *)
Definition buffered (rest : list Z) (r : Stream) : Stream := match rest with [] => r | _ => Bytes rest :: r end.

(** [read_bounded_line]: [None] at the end, else whether the line fits; [Err]
    is an I/O error. *)
Fixpoint read_bounded_line_loop (r : Stream) (line : list Z) (oversized read_any : bool)
    : result unit (option bool * list Z * Stream) :=
  match r with
  | [] | Bytes [] :: _ => Ok (if read_any then Some (negb oversized) else None, line, [])
  | IoError :: _ => Err ()
  | Bytes available :: r =>
      let '(consumed, ended, rest) := consume_line available in
      let '(line, oversized) :=
        if negb oversized && (Z.of_nat (length line) + Z.of_nat (length consumed) <=? MAX_JSON_LINE_BYTES)
        then (line ++ consumed, oversized) else (line, true) in
      if ended then Ok (Some (negb oversized), line, buffered rest r)
      else read_bounded_line_loop r line oversized true
  end.
Definition read_bounded_line (r : Stream) : result unit (option bool * list Z * Stream) :=
  read_bounded_line_loop r [] false false.

(** ** Messages *)

(** [f64] as its IEEE 754 value; [serde_json] reads decimal numbers. *)
Abbreviation f64 := spec_float (only parsing).

Record WireError : Type := { we_message : rstr }.
Record WireMessage : Type := {
  wm_message_type : rstr;
  wm_percent_done : option f64;
  wm_total_files : option Z;
  wm_files_done : Z;
  wm_total_bytes : option Z;
  wm_bytes_done : Z;
  wm_error_count : Z;
  wm_total_files_processed : Z;
  wm_total_bytes_processed : Z;
  wm_data_added : Z;
  wm_snapshot_id : option rstr;
  wm_item : option rstr;
  wm_error : option WireError
}.

(** [serde_json::from_slice] for [WireMessage] *)
Class WireJson := { wire_from_slice : list Z -> option WireMessage }.

Inductive OutputEvent : Type :=
| OE_Progress (progress : BackupProgress)
| OE_Summary (summary : BackupSummary)
| OE_FailureItem (item : rstr)
| OE_FailureItemOmitted
| OE_VssFallback
| OE_VssCleanupFailed.

Record ParsedOutput : Type := {
  po_summary : option BackupSummary;
  po_invalid_message : bool;
  po_failure_details : BackupFailureDetails;
  po_vss_fallback : bool;
  po_vss_cleanup_failed : bool
}.
Definition ParsedOutput_default : ParsedOutput :=
  {| po_summary := None; po_invalid_message := false; po_failure_details := failure_details_default;
     po_vss_fallback := false; po_vss_cleanup_failed := false |}.

(** *** The percentage: [(percent.clamp(0.0, 1.0) * 100.0).round() as u8] *)
Definition f64_zero : f64 := S754_zero false.
Definition f64_one : f64 := S754_finite false 4503599627370496 (-52).
Definition f64_hundred : f64 := S754_finite false 7036874417766400 (-46).

Definition is_finite (x : f64) : bool := match x with S754_zero _ | S754_finite _ _ _ => true | _ => false end.
(** [f64::clamp]: a NaN stays one. *)
Definition f64_clamp (x lo hi : f64) : f64 := if SFltb x lo then lo else if SFltb hi x then hi else x.
(** [f64::round] (half away from zero) of a magnitude, then [as u8] (saturating). *)
Definition round_to_u8 (x : f64) : Z :=
  match x with
  | S754_finite false m e =>
      Z.min 255 (if 0 <=? e then Z.pos m * 2 ^ e else (2 * Z.pos m + 2 ^ (- e)) / 2 ^ (1 - e))
  | S754_infinity false => 255
  | _ => 0
  end.
Definition percent_of (percent : f64) : Z :=
  round_to_u8 (SFmul 53 1024 (f64_clamp percent f64_zero f64_one) f64_hundred).

Definition is_vss_fallback_error (message : rstr) : bool :=
  let message := str_to_ascii_lowercase message in
  str_contains (lit "failed to create snapshot for [") message
  || (starts_with (lit "vss error: getsnapshotproperties()") message && str_contains (lit "mount point") message).

Definition is_vss_cleanup_error (message : rstr) : bool :=
  str_contains (lit "failed to delete vss snapshot") (str_to_ascii_lowercase message).

Definition parse_plain_missing_item (line : list Z) : option rstr :=
  line ← from_utf8 line;
  let line := trim_end_matches (fun c => (c =? 13) || (c =? 10)) line in
  item ← strip_suffix (lit " does not exist, skipping") line;
  if str_is_empty item then None else Some item.

Section output.
Context `{WireJson}.

(** [Err] is a line that is not a message. *)
Definition parse_output_event (line : list Z) : result unit (option OutputEvent) :=
  match parse_plain_missing_item line with
  | Some item => Ok (Some (OE_FailureItem item))
  | None =>
      message ← ok_or (wire_from_slice line) ();
      let type := wm_message_type message in
      if str_eqb type (lit "status") then
        Ok (Some (OE_Progress
          {| bp_percent_done := percent_of <$> (p ← wm_percent_done message; if is_finite p then Some p else None);
             bp_files_done := wm_files_done message; bp_total_files := wm_total_files message;
             bp_bytes_done := wm_bytes_done message; bp_total_bytes := wm_total_bytes message;
             bp_error_count := wm_error_count message |}))
      else if str_eqb type (lit "summary") then
        Ok (Some (OE_Summary
          {| bs_files_processed := wm_total_files_processed message;
             bs_bytes_processed := wm_total_bytes_processed message;
             bs_data_added := wm_data_added message; bs_snapshot_id := wm_snapshot_id message |}))
      else if str_eqb type (lit "error") then
        let error_message := match wm_error message with Some error => we_message error | None => [] end in
        Ok (Some (if is_vss_fallback_error error_message then OE_VssFallback
                  else if is_vss_cleanup_error error_message then OE_VssCleanupFailed
                  else match wm_item message with
                       | Some item => OE_FailureItem item
                       | None => OE_FailureItemOmitted
                       end))
      else Ok None
  end.

(** The body of [read_json_output]'s loop on one line: what is kept and what
    is offered to the progress channel ([try_send] may drop it). *)
Definition with_invalid (p : ParsedOutput) : ParsedOutput :=
  {| po_summary := po_summary p; po_invalid_message := true; po_failure_details := po_failure_details p;
     po_vss_fallback := po_vss_fallback p; po_vss_cleanup_failed := po_vss_cleanup_failed p |}.
Definition with_details (d : BackupFailureDetails) (p : ParsedOutput) : ParsedOutput :=
  {| po_summary := po_summary p; po_invalid_message := po_invalid_message p; po_failure_details := d;
     po_vss_fallback := po_vss_fallback p; po_vss_cleanup_failed := po_vss_cleanup_failed p |}.
Definition absorb_line (valid : bool) (line : list Z) (p : ParsedOutput) : ParsedOutput * list BackupProgress :=
  if negb valid then (with_invalid p, [])
  else match parse_output_event line with
  | Ok (Some (OE_Progress update)) => (p, [update])
  | Ok (Some (OE_Summary summary)) =>
      ({| po_summary := Some summary; po_invalid_message := po_invalid_message p;
          po_failure_details := po_failure_details p; po_vss_fallback := po_vss_fallback p;
          po_vss_cleanup_failed := po_vss_cleanup_failed p |}, [])
  | Ok (Some (OE_FailureItem item)) => (with_details (failure_push (po_failure_details p) item) p, [])
  | Ok (Some OE_FailureItemOmitted) =>
      (with_details {| bfd_items := bfd_items (po_failure_details p);
                       bfd_omitted := u64_saturating_add (bfd_omitted (po_failure_details p)) 1 |} p, [])
  | Ok (Some OE_VssFallback) =>
      ({| po_summary := po_summary p; po_invalid_message := po_invalid_message p;
          po_failure_details := po_failure_details p; po_vss_fallback := true;
          po_vss_cleanup_failed := po_vss_cleanup_failed p |}, [])
  | Ok (Some OE_VssCleanupFailed) =>
      ({| po_summary := po_summary p; po_invalid_message := po_invalid_message p;
          po_failure_details := po_failure_details p; po_vss_fallback := po_vss_fallback p;
          po_vss_cleanup_failed := true |}, [])
  | Ok None => (p, [])
  | Err _ => (with_invalid p, [])
  end.

(** [read_json_output]; [None] when the fuel is too small.  Every turn that
    goes on takes at least one byte, so a turn more than there are bytes is enough. *)
Fixpoint read_json_loop (fuel : nat) (r : Stream) (p : ParsedOutput) (sent : list BackupProgress)
    : option (result unit ParsedOutput * list BackupProgress) :=
  match fuel with
  | O => None
  | S fuel =>
      match read_bounded_line r with
      | Err _ => Some (Err (), sent)
      | Ok (None, _, _) => Some (Ok p, sent)
      | Ok (Some valid, line, r) =>
          let '(p, updates) := absorb_line valid line p in
          read_json_loop fuel r p (sent ++ updates)
      end
  end.
Definition read_json_output (r : Stream) : option (result unit ParsedOutput * list BackupProgress) :=
  read_json_loop (S (length (received r))) r ParsedOutput_default [].

(** [read_stderr_output]: the parsed stream and its captured prefix. *)
Definition read_stderr_output (r : Stream)
    : option (result unit ParsedOutput * list BackupProgress * list Z) :=
  '(parsed, sent) ← read_json_output r;
  Some (parsed, sent, read_up_to MAX_STDERR_BYTES (received r)).
End output.

(** [read_bounded] *)
Definition read_bounded (r : Stream) (limit : Z) : list Z := read_up_to limit (received r).

(** ** Exit *)
Definition classify_stderr (stderr : list Z) : option rstr :=
  let message := str_to_ascii_lowercase (from_utf8_lossy stderr) in
  let any texts := existsb (fun text => str_contains (lit text) message) texts in
  if any ["vss error:"; "failed to create snapshot for ["; "failed to delete vss snapshot";
          "volume shadow copy service"; "shadow copy provider"]%string
  then Some (lit "restic_vss_unavailable")
  else if any ["access denied"; "permission denied"; "insufficient privilege"]%string
  then Some (lit "restic_permission_denied")
  else if any ["already locked"; "repository is locked"; "unable to create lock"]%string
  then Some (lit "restic_repository_locked")
  else if any ["unauthorized"; "authentication failed"; "invalid access key"; "wrong password"]%string
  then Some (lit "restic_authentication_failed")
  else if any ["connection refused"; "connection reset"; "timed out"; "timeout"; "no such host"; "name resolution"]%string
  then Some (lit "restic_repository_unreachable")
  else if any ["no such file or directory"; "cannot find the path"; "path does not exist"]%string
  then Some (lit "restic_source_unavailable")
  else None.

(** [classify_stderr(stderr).map(str::to_owned).unwrap_or_else(|| format!("restic_exit_{code}"))] *)
Definition exit_failure (stderr : list Z) (code : Z) : BackupOutcome :=
  outcome_failed (default (lit "restic_exit_" ++ i32_to_string code) (classify_stderr stderr)).

(** [status] is [ExitStatus::code]. *)
Definition finish_outcome (status : option Z) (output_result stderr_output_result : result unit ParsedOutput)
    (stderr : list Z) (known_vss_fallback : bool) : BackupOutcome :=
  if bool_decide (status = Some 130) then outcome_cancelled
  else match output_result with
  | Err _ => outcome_failed (lit "restic_output_invalid")
  | Ok parsed =>
      match po_summary parsed with
      | None =>
          match status with
          | Some code =>
              if code =? 0 then
                if po_invalid_message parsed then outcome_failed (lit "restic_output_invalid")
                else outcome_failed (lit "restic_summary_missing")
              else exit_failure stderr code
          | None => outcome_failed (lit "restic_terminated")
          end
      | Some summary =>
          let vss_fallback := po_vss_fallback parsed || known_vss_fallback in
          let '(failure_details, vss_fallback, vss_cleanup_failed) :=
            match stderr_output_result with
            | Ok stderr_output =>
                (failure_merge (po_failure_details parsed) (po_failure_details stderr_output),
                 vss_fallback || po_vss_fallback stderr_output,
                 po_vss_cleanup_failed parsed || po_vss_cleanup_failed stderr_output)
            | Err _ => (po_failure_details parsed, vss_fallback, po_vss_cleanup_failed parsed)
            end in
          let warnings code := outcome_warnings summary (lit code) failure_details in
          match status with
          | Some code =>
              if code =? 0 then
                if vss_fallback && vss_cleanup_failed then warnings "restic_vss_fallback_and_cleanup_failed"%string
                else if vss_fallback then warnings "restic_vss_fallback"%string
                else if vss_cleanup_failed then warnings "restic_vss_cleanup_failed"%string
                else outcome_succeeded summary
              else if code =? 3 then
                if vss_fallback && vss_cleanup_failed
                then warnings "restic_vss_fallback_partial_source_and_cleanup_failed"%string
                else if vss_fallback then warnings "restic_vss_fallback_and_partial_source"%string
                else if vss_cleanup_failed then warnings "restic_partial_source_and_vss_cleanup_failed"%string
                else warnings "restic_partial_source"%string
              else exit_failure stderr code
          | None => outcome_failed (lit "restic_terminated")
          end
      end
  end.

(** ** Reading does not depend on how the bytes arrive *)

(** The lines of a text, each with its line feed if it has one. *)
Fixpoint text_lines (b : list Z) : list (list Z) :=
  match b with
  | [] => []
  | x :: b =>
      if x =? 10 then [x] :: text_lines b
      else match text_lines b with
           | [] => [[x]]
           | l :: ls => (x :: l) :: ls
           end
  end.

(** A pipe that ends without an error and never delivers an empty piece. *)
Definition whole (r : Stream) : Prop := Forall (fun p => exists x b, p = Bytes (x :: b)) r.

Lemma consume_line_app available consumed ended rest :
  consume_line available = (consumed, ended, rest) ->
  available = consumed ++ rest
  /\ (if ended then exists l, consumed = l ++ [10] /\ 10 ∉ l else rest = [] /\ 10 ∉ consumed).
Proof.
  revert consumed ended rest. induction available as [|x available IH]; intros consumed ended rest; cbn.
  { intros [= <- <- <-]. split; [done|]. split; [done|]. apply not_elem_of_nil. }
  destruct (Z.eqb_spec x 10) as [->|Hx].
  { intros [= <- <- <-]. split; [done|]. exists []. split; [done|]. apply not_elem_of_nil. }
  destruct (consume_line available) as [[c e] r']. intros [= <- <- <-].
  destruct (IH _ _ _ eq_refl) as [-> He]. split; [done|]. destruct e.
  - destruct He as (l & -> & Hl). exists (x :: l). split; [done|]. apply not_elem_of_cons. by split.
  - destruct He as [-> Hc]. split; [done|]. apply not_elem_of_cons. by split.
Qed.

Lemma text_lines_line l b : 10 ∉ l -> text_lines (l ++ 10 :: b) = (l ++ [10]) :: text_lines b.
Proof.
  induction l as [|x l IH]; cbn; intros Hl; [done|]. apply not_elem_of_cons in Hl as [Hx Hl].
  destruct (Z.eqb_spec x 10); [congruence|]. by rewrite IH.
Qed.
Lemma text_lines_last l : 10 ∉ l -> l <> [] -> text_lines l = [l].
Proof.
  induction l as [|x l IH]; cbn; intros Hl Hne; [done|]. apply not_elem_of_cons in Hl as [Hx Hl].
  destruct (Z.eqb_spec x 10); [congruence|]. destruct l as [|y l]; [done|]. by rewrite IH.
Qed.

Definition fits (line : list Z) : bool := Z.of_nat (length line) <=? MAX_JSON_LINE_BYTES.

Lemma received_buffered rest r : received (buffered rest r) = rest ++ received r.
Proof. by destruct rest. Qed.
Lemma whole_buffered rest r : whole r -> whole (buffered rest r).
Proof. intros Hr. destruct rest; [done|]. constructor; [eauto|done]. Qed.

(** One call of [read_bounded_line], with what it has read before. *)
Lemma read_bounded_line_spec r line so_far oversized read_any :
  whole r -> 10 ∉ so_far ->
  (oversized = negb (fits so_far)) -> (oversized = false -> line = so_far) -> (read_any = false -> so_far = []) ->
  (read_any = true -> so_far <> []) ->
  exists line' r', whole r' /\
    match text_lines (so_far ++ received r) with
    | [] => read_bounded_line_loop r line oversized read_any = Ok (None, line', r')
    | l :: ls =>
        read_bounded_line_loop r line oversized read_any = Ok (Some (fits l), line', r')
        /\ (fits l = true -> line' = l) /\ text_lines (received r') = ls
        /\ length (received r) = (length l - length so_far + length (received r'))%nat
        /\ (length so_far <= length l)%nat /\ l <> []
    end.
Proof.
  revert line so_far oversized read_any.
  induction r as [|p r IH]; intros line so_far oversized read_any Hr Hs Ho Hl Hn Ha.
  - cbn [received read_bounded_line_loop]. rewrite app_nil_r. exists line, []. split; [constructor|].
    destruct so_far as [|x s] eqn:Es.
    { cbn. destruct read_any; [exfalso; by apply Ha|done]. }
    rewrite <- Es in *. rewrite text_lines_last by (subst; done).
    assert (read_any = true) as -> by (destruct read_any; [done|]; specialize (Hn eq_refl); congruence).
    cbn. split_and!; try done; try lia; [by rewrite Ho, negb_involutive| |by subst].
    intros Hf. apply Hl. by rewrite Ho, Hf.
  - apply Forall_cons in Hr as [(x & b & ->) Hr]. cbn [received]. rewrite (app_comm_cons b _ x).
    cbn [read_bounded_line_loop].
    destruct (consume_line (x :: b)) as [[consumed ended] rest] eqn:Ec.
    pose proof (consume_line_app _ _ _ _ Ec) as [Hb He].
    assert (consumed <> []) as Hne.
    { intros ->. cbn in Ec. destruct (x =? 10); [done|]. by destruct (consume_line b) as [[]]. }
    set (keep := negb oversized && _).
    assert (keep = fits (so_far ++ consumed)) as Hkeep.
    { subst keep oversized. rewrite negb_involutive. unfold fits in *. rewrite length_app.
      destruct (Z.leb_spec (Z.of_nat (length so_far)) MAX_JSON_LINE_BYTES); cbn.
      - rewrite Hl by done. f_equal. lia.
      - symmetry. apply Z.leb_gt. lia. }
    destruct ended.
    + destruct He as (l & -> & Hln). rewrite Hb, <- !app_assoc. cbn [app].
      rewrite (app_assoc so_far), text_lines_line by (rewrite elem_of_app; tauto).
      exists (if keep then line ++ l ++ [10] else line), (buffered rest r).
      split; [by apply whole_buffered|].
      assert (oversized = false \/ keep = false) as Hk by (subst keep; destruct oversized; auto).
      rewrite Hkeep in *. rewrite app_assoc in *.
      split; [|split; [|split; [|split; [|split]]]].
      * destruct (fits ((so_far ++ l) ++ [10])); [|reflexivity]. by destruct Hk as [->|].
      * intros Hf. rewrite Hf in *. destruct Hk as [Hk|Hk]; [|done]. rewrite Hl by done. by rewrite app_assoc.
      * by rewrite received_buffered.
      * rewrite received_buffered, !length_app. cbn. rewrite !length_app. lia.
      * rewrite !length_app. lia.
      * by destruct so_far, l.
    + destruct He as [-> Hc]. rewrite app_nil_r in Hb. subst consumed. rewrite app_assoc.
      destruct (IH (if keep then line ++ x :: b else line) (so_far ++ x :: b) (if keep then oversized else true) true)
        as (line' & r' & Hr' & Hread); try done.
      * rewrite elem_of_app. tauto.
      * rewrite <- Hkeep. subst keep. by destruct oversized, (_ <=? _).
      * rewrite Hkeep. destruct (fits (so_far ++ x :: b)); [intros Hov; by rewrite Hl|discriminate].
      * by destruct so_far.
      * exists line', r'. split; [done|].
        replace (if keep then (line ++ x :: b, oversized) else (line, true))
          with (if keep then line ++ x :: b else line, if keep then oversized else true) by (by destruct keep).
        destruct (text_lines _) as [|l ls]; [done|]. destruct Hread as (? & ? & ? & Hlen & Hle & ?).
        split_and!; try done; rewrite ?length_app in *; cbn [length] in *; lia.
Qed.

(** Every line that is read takes bytes off the stream. *)
Lemma read_bounded_line_shrinks r line oversized read_any v line' r' :
  read_bounded_line_loop r line oversized read_any = Ok (Some v, line', r') ->
  (length (received r') < length (received r) \/ (read_any = true /\ length (received r') <= length (received r)))%nat.
Proof.
  revert line oversized read_any. induction r as [|[[|x b]|] r IH]; intros line oversized read_any;
    cbn [read_bounded_line_loop]; [| | |done].
  1, 2: destruct read_any; [|done]; intros [= <- <- <-]; cbn; lia.
  destruct (consume_line (x :: b)) as [[consumed ended] rest] eqn:Ec.
  pose proof (consume_line_app _ _ _ _ Ec) as [Hb He]. apply (f_equal length) in Hb.
  rewrite length_app in Hb. cbn [received length] in *. rewrite length_app.
  destruct (if negb oversized && _ then _ else _) as [line1 oversized1]. destruct ended.
  - destruct He as (l & -> & _). intros [= <- <- <-]. rewrite received_buffered, ?length_app in *. cbn in Hb. left. lia.
  - intros E. apply IH in E. left. lia.
Qed.

Section reading.
Context `{WireJson}.

Lemma read_json_loop_total fuel r p sent :
  (length (received r) < fuel)%nat -> is_Some (read_json_loop fuel r p sent).
Proof.
  revert r p sent. induction fuel as [|fuel IH]; intros r p sent Hf; [lia|]. cbn [read_json_loop].
  destruct (read_bounded_line r) as [[[[v|] line] r']|] eqn:E; [|by eexists..].
  destruct (absorb_line v line p) as [p' updates]. apply IH.
  apply read_bounded_line_shrinks in E as [?|[? ?]]; [lia|done].
Qed.

(** The specification: the lines of the text, one after the other. *)
Definition absorb_text (text : list Z) (s : ParsedOutput * list BackupProgress) : ParsedOutput * list BackupProgress :=
  fold_left (fun '(p, sent) l => let '(p, updates) := absorb_line (fits l) l p in (p, sent ++ updates))
    (text_lines text) s.

Lemma read_json_loop_whole fuel r p sent :
  whole r -> (length (received r) < fuel)%nat ->
  read_json_loop fuel r p sent = Some (let '(p, sent) := absorb_text (received r) (p, sent) in (Ok p, sent)).
Proof.
  revert r p sent. induction fuel as [|fuel IH]; intros r p sent Hr Hf; [lia|]. cbn [read_json_loop].
  destruct (read_bounded_line_spec r [] [] false false Hr) as (line & r' & Hr' & Hread);
    [apply not_elem_of_nil|done..|]. cbn [app] in Hread. unfold absorb_text, read_bounded_line.
  destruct (text_lines (received r)) as [|l ls]; [by rewrite Hread|].
  destruct Hread as (-> & Hline & Hls & Hlen & _ & Hne). cbn [fold_left].
  replace (absorb_line (fits l) line p) with (absorb_line (fits l) l p).
  2: { destruct (fits l); [by rewrite Hline|done]. }
  destruct (absorb_line (fits l) l p) as [p' updates]. rewrite IH; [|done|].
  - unfold absorb_text. by rewrite Hls.
  - destruct l; [done|]. cbn in Hlen. lia.
Qed.

(** Reading restic's output always ends, and its result does not depend on
    how the pipe cut the bytes: it is the result of taking the text line by
    line, where a line longer than a mebibyte counts as invalid and is
    otherwise skipped. *)
Theorem output_read_line_by_line (r : Stream) :
  is_Some (read_json_output r)
  /\ (whole r ->
      read_json_output r
      = Some (let '(p, sent) := absorb_text (received r) (ParsedOutput_default, []) in (Ok p, sent))).
Proof.
  split; [apply read_json_loop_total; lia|]. intros Hr. apply read_json_loop_whole; [done|lia].
Qed.

(** ** What a run's outcome means *)

(** The failure details that are kept are safe to show and bounded. *)
Lemma absorb_line_details valid line p :
  details_ok (po_failure_details p) -> details_ok (po_failure_details (absorb_line valid line p).1).
Proof.
  intros Hd. unfold absorb_line. destruct valid; cbn [negb]; [|done].
  destruct (parse_output_event line) as [[[]|]|]; try done; cbn; [by apply failure_push_ok|]. by destruct Hd.
Qed.

Lemma read_json_loop_details fuel r p sent q sent' :
  details_ok (po_failure_details p) -> read_json_loop fuel r p sent = Some (Ok q, sent') ->
  details_ok (po_failure_details q).
Proof.
  revert r p sent. induction fuel as [|fuel IH]; intros r p sent Hp; [done|]. cbn [read_json_loop].
  destruct (read_bounded_line r) as [[[[v|] line] r']|]; [| |done]; [|by intros [= <- _]].
  destruct (absorb_line v line p) as [p' updates] eqn:Ea. apply IH.
  pose proof (absorb_line_details v line p Hp) as Hd. by rewrite Ea in Hd.
Qed.

(** A line that is not a message, or too long, changes nothing but the flag. *)
Lemma invalid_line_only_flags valid line p :
  valid = false \/ parse_output_event line = Err () ->
  absorb_line valid line p = (with_invalid p, []).
Proof.
  intros Hv. unfold absorb_line. destruct valid; cbn [negb]; [|done]. by destruct Hv as [Hv|Hv]; rewrite ?Hv.
Qed.
End reading.

(** Whether anything went wrong with the snapshots of the sources. *)
Definition snapshot_trouble (parsed : ParsedOutput) (stderr_output : result unit ParsedOutput) (known : bool) : bool :=
  let flags p := po_vss_fallback p || po_vss_cleanup_failed p in
  known || flags parsed || match stderr_output with Ok p => flags p | Err _ => false end.

(** When each outcome is reported. *)
Definition outcome_meaning (status : option Z) (output stderr_output : result unit ParsedOutput) (known : bool)
    (o : BackupOutcome) : Prop :=
  (bo_kind o = OK_Cancelled <-> status = Some 130)
  /\ (bo_kind o = OK_Succeeded <->
      status = Some 0 /\ exists p s, output = Ok p /\ po_summary p = Some s /\ bo_summary o = Some s
                                   /\ snapshot_trouble p stderr_output known = false)
  /\ (bo_kind o = OK_SucceededWithWarnings <->
      exists p s, output = Ok p /\ po_summary p = Some s /\ bo_summary o = Some s
        /\ (status = Some 3 \/ status = Some 0 /\ snapshot_trouble p stderr_output known = true)).

(** The three flags decide between success and its warnings. *)
Lemma outcome_failed_meaning status output stderr_output known code :
  status <> Some 130 ->
  (forall p s, output = Ok p -> po_summary p = Some s -> status <> Some 0 /\ status <> Some 3) ->
  outcome_meaning status output stderr_output known (outcome_failed code).
Proof.
  intros H130 Hno. unfold outcome_meaning. cbn. split_and!; (split; [done|]).
  - done.
  - intros (-> & p & s & Ho & Hs & _). by destruct (Hno p s Ho Hs).
  - intros (p & s & Ho & Hs & _ & Hst). destruct (Hno p s Ho Hs). naive_solver.
Qed.

Lemma outcome_success_meaning status parsed stderr_output known s :
  po_summary parsed = Some s -> status = Some 0 -> snapshot_trouble parsed stderr_output known = false ->
  outcome_meaning status (Ok parsed) stderr_output known (outcome_succeeded s).
Proof.
  intros Hs -> Ht. unfold outcome_meaning. cbn. split_and!.
  - by split.
  - split; [|done]. intros _. split; [done|]. by exists parsed, s.
  - split; [done|]. intros (p & s' & [= <-] & _ & _ & [Hst|[_ Ht']]); congruence.
Qed.

Lemma outcome_warning_meaning status parsed stderr_output known s code details :
  po_summary parsed = Some s ->
  (status = Some 3 \/ status = Some 0 /\ snapshot_trouble parsed stderr_output known = true) ->
  outcome_meaning status (Ok parsed) stderr_output known (outcome_warnings s code details).
Proof.
  intros Hs Hst. unfold outcome_meaning. cbn. split_and!.
  - split; [done|]. destruct Hst as [Hst|[Hst _]]; congruence.
  - split; [done|]. intros (H0 & p & s' & [= <-] & _ & _ & Ht). destruct Hst as [Hst|[_ Ht']]; congruence.
  - split; [|done]. intros _. by exists parsed, s.
Qed.

Lemma finish_outcome_meaning status output stderr_output stderr known :
  outcome_meaning status output stderr_output known (finish_outcome status output stderr_output stderr known).
Proof.
  unfold finish_outcome. case_bool_decide as H130.
  { subst. unfold outcome_meaning. cbn. split_and!; (split; [done|]); [done|by intros (? & _)|].
    intros (p & s & _ & _ & _ & [Hst|[Hst _]]); done. }
  destruct output as [parsed|]; [|by apply outcome_failed_meaning].
  destruct (po_summary parsed) as [s|] eqn:Hs.
  2: { destruct status as [code|]; [destruct (code =? 0); [destruct (po_invalid_message parsed)|]|];
         apply outcome_failed_meaning; try done; intros p s' [= <-]; congruence. }
  destruct status as [code|]; [|destruct stderr_output; by apply outcome_failed_meaning].
  set (flags := match stderr_output with Ok _ => _ | Err _ => _ end).
  assert (exists d f c, flags = (d, f, c) /\ f || c = snapshot_trouble parsed stderr_output known) as (d & f & c & -> & Ht).
  { subst flags. unfold snapshot_trouble. destruct stderr_output as [q|]; do 3 eexists; (split; [done|]);
      destruct known, (po_vss_fallback parsed), (po_vss_cleanup_failed parsed); try done;
      by destruct (po_vss_fallback q), (po_vss_cleanup_failed q). }
  destruct (Z.eqb_spec code 0) as [->|H0]; [|destruct (Z.eqb_spec code 3) as [->|H3]].
  - destruct f, c; cbn in Ht |- *; first [by apply outcome_success_meaning | by apply outcome_warning_meaning; auto].
  - destruct f, c; cbn; by apply outcome_warning_meaning; auto.
  - apply outcome_failed_meaning; [done|]. intros p s' _ _. split; congruence.
Qed.

(** C37: a run counts as a plain success exactly when restic exited with 0,
    printed a summary and reported no trouble with the snapshots on either
    stream; as a success with warnings exactly when it printed a summary and
    exited with 3, or with 0 after such trouble; as cancelled exactly on exit
    code 130; everything else is a failure, and malformed output lines alone
    never fail a run that has its summary. *)
Theorem finish_outcome_correct (status : option Z) (output stderr_output : result unit ParsedOutput)
    (stderr : list Z) (known : bool) :
  outcome_meaning status output stderr_output known (finish_outcome status output stderr_output stderr known)
  /\ forall p, output = Ok p ->
     finish_outcome status (Ok (with_invalid p)) stderr_output stderr known
     = finish_outcome status (Ok p) stderr_output stderr known \/ po_summary p = None.
Proof.
  split; [apply finish_outcome_meaning|].
  intros p ->. destruct (po_summary p) as [s|] eqn:Hs; [left|by right]. unfold finish_outcome. cbn. by rewrite Hs.
Qed.

Module OutputWitness.
(** A reader of the one message the examples print. *)
#[local] Instance one_message : WireJson :=
  {| wire_from_slice := fun b =>
       if bool_decide (b = utf8 (lit "{summary}") ++ [10]) then
         Some {| wm_message_type := lit "summary"; wm_percent_done := None; wm_total_files := None; wm_files_done := 0;
                 wm_total_bytes := None; wm_bytes_done := 0; wm_error_count := 0; wm_total_files_processed := 7;
                 wm_total_bytes_processed := 70; wm_data_added := 5; wm_snapshot_id := None; wm_item := None;
                 wm_error := None |}
       else None |}.

(** The summary arrives in two pieces, after a line that is no message. *)
Example pieces_of_a_summary :
  read_json_output [Bytes (utf8 (lit "noise") ++ [10; 123; 115]); Bytes (utf8 (lit "ummary}") ++ [10])]
  = Some (Ok {| po_summary := Some {| bs_files_processed := 7; bs_bytes_processed := 70; bs_data_added := 5;
                                      bs_snapshot_id := None |};
                po_invalid_message := true; po_failure_details := failure_details_default;
                po_vss_fallback := false; po_vss_cleanup_failed := false |}, []).
Proof. vm_compute. reflexivity. Qed.

Example missing_source :
  parse_output_event (utf8 (lit "C:\gone does not exist, skipping") ++ [13; 10])
  = Ok (Some (OE_FailureItem (lit "C:\gone"))).
Proof. vm_compute. reflexivity. Qed.

(** 0.005 rounds to one percent, like in the source's arithmetic; 7.0 and -1.0 are clamped. *)
Example percentages :
  percent_of (S754_finite false 5764607523034235 (-60)) = 1
  /\ percent_of (S754_finite false 7881299347898368 (-50)) = 100
  /\ percent_of (S754_finite true 4503599627370496 (-52)) = 0
  /\ percent_of (S754_finite false 4503599627370496 (-53)) = 50.
Proof. vm_compute. repeat split; reflexivity. Qed.

Example locked_repository :
  classify_stderr (utf8 (lit "Fatal: unable to create lock in backend: repository is ALREADY locked"))
  = Some (lit "restic_repository_locked").
Proof. vm_compute. reflexivity. Qed.
End OutputWitness.
