(* ===== verification/ServiceState.v ===== *)
(** * Persistent service state ([apps/resticpal-service/src/state.rs],
    [config_store.rs])

    The snapshot kept next to the configuration, which repository it was
    verified against, and the two stores' load and save. *)
From stdpp Require Import base option list strings.
From S2P Require Import Prelude RustStd Chrono Crates Config.

Definition STATE_SCHEMA_VERSION : Z := 2.
Definition MAX_STATE_BYTES : Z := 2 * 1024 * 1024.
Definition MAX_CONFIG_BYTES : Z := 1024 * 1024.

(** What opening and reading a file gives. *)
Inductive FileRead : Type := NotFound | ReadFails | Contents (bytes : list Z).

(** ** The snapshot *)
Record RepositoryIdentity : Type := {
  ri_url : option rstr;
  ri_options : Options;
  ri_secret_refs : SecretRefs
}.
#[global] Instance RepositoryIdentity_eq_dec : EqDecision RepositoryIdentity.
Proof. solve_decision. Defined.
Record ServiceStateSnapshot : Type := {
  st_last_success : option DateTime;
  st_last_retention : option DateTime;
  st_last_prune : option DateTime;
  st_last_retention_error : option rstr;
  st_repository_validation_required : bool;
  st_verified_repository : option RepositoryIdentity;
  st_repository_verified_at : option DateTime
}.
#[global] Instance ServiceStateSnapshot_eq_dec : EqDecision ServiceStateSnapshot.
Proof. solve_decision. Defined.
Record PersistedScheduleState : Type := {
  ps_schema_version : Z;
  ps_last_success : option DateTime;
  ps_last_retention : option DateTime;
  ps_last_prune : option DateTime;
  ps_last_retention_error : option rstr;
  ps_repository_validation_required : bool;
  ps_verified_repository : option RepositoryIdentity;
  ps_repository_verified_at : option DateTime
}.
#[global] Instance PersistedScheduleState_eq_dec : EqDecision PersistedScheduleState.
Proof. solve_decision. Defined.
Definition set_st_last_success (v : option DateTime) (r : ServiceStateSnapshot) : ServiceStateSnapshot :=
  {| st_last_success := v; st_last_retention := st_last_retention r; st_last_prune := st_last_prune r; st_last_retention_error := st_last_retention_error r; st_repository_validation_required := st_repository_validation_required r; st_verified_repository := st_verified_repository r; st_repository_verified_at := st_repository_verified_at r |}.
Definition set_st_last_retention (v : option DateTime) (r : ServiceStateSnapshot) : ServiceStateSnapshot :=
  {| st_last_success := st_last_success r; st_last_retention := v; st_last_prune := st_last_prune r; st_last_retention_error := st_last_retention_error r; st_repository_validation_required := st_repository_validation_required r; st_verified_repository := st_verified_repository r; st_repository_verified_at := st_repository_verified_at r |}.
Definition set_st_last_prune (v : option DateTime) (r : ServiceStateSnapshot) : ServiceStateSnapshot :=
  {| st_last_success := st_last_success r; st_last_retention := st_last_retention r; st_last_prune := v; st_last_retention_error := st_last_retention_error r; st_repository_validation_required := st_repository_validation_required r; st_verified_repository := st_verified_repository r; st_repository_verified_at := st_repository_verified_at r |}.
Definition set_st_last_retention_error (v : option rstr) (r : ServiceStateSnapshot) : ServiceStateSnapshot :=
  {| st_last_success := st_last_success r; st_last_retention := st_last_retention r; st_last_prune := st_last_prune r; st_last_retention_error := v; st_repository_validation_required := st_repository_validation_required r; st_verified_repository := st_verified_repository r; st_repository_verified_at := st_repository_verified_at r |}.

Definition ServiceStateSnapshot_default : ServiceStateSnapshot :=
  {| st_last_success := None; st_last_retention := None; st_last_prune := None; st_last_retention_error := None;
     st_repository_validation_required := false; st_verified_repository := None; st_repository_verified_at := None |}.

(** [RepositoryIdentity::from_config] *)
Definition identity_of (config : EffectiveConfig) : RepositoryIdentity :=
  {| ri_url := rc_url (ec_repository config); ri_options := rc_options (ec_repository config);
     ri_secret_refs := rc_secret_refs (ec_repository config) |}.

Definition repository_requires_validation (s : ServiceStateSnapshot) (config : EffectiveConfig) : bool :=
  is_some (rc_url (ec_repository config))
  && (st_repository_validation_required s
      || match st_verified_repository s with
         | None => true
         | Some verified => negb (bool_decide (verified = identity_of config))
         end).

Definition require_repository_validation (s : ServiceStateSnapshot) : ServiceStateSnapshot :=
  {| st_last_success := st_last_success s; st_last_retention := st_last_retention s; st_last_prune := st_last_prune s;
     st_last_retention_error := st_last_retention_error s;
     st_repository_validation_required := true; st_verified_repository := None; st_repository_verified_at := None |}.

Definition mark_repository_verified (s : ServiceStateSnapshot) (config : EffectiveConfig) (completed_at : DateTime)
    : ServiceStateSnapshot :=
  {| st_last_success := st_last_success s; st_last_retention := st_last_retention s; st_last_prune := st_last_prune s;
     st_last_retention_error := st_last_retention_error s;
     st_repository_validation_required := false; st_verified_repository := Some (identity_of config);
     st_repository_verified_at := Some completed_at |}.

Definition repository_verified_at (s : ServiceStateSnapshot) (config : EffectiveConfig) : option DateTime :=
  if negb (repository_requires_validation s config) then st_repository_verified_at s else None.

Inductive StateStoreError : Type :=
| SS_TooLarge | SS_UnsupportedSchema (actual : Z) | SS_Io | SS_Json | SS_AtomicFile.
Inductive ConfigStoreError : Type :=
| CS_TooLarge | CS_Io | CS_LocalConfig (e : LocalConfigError) | CS_AtomicFile.

(** ** The stores

    [save] gives the bytes that [atomic_file::replace] puts in place of the
    old contents when it succeeds, and leaves the file alone when it fails. *)
Section stores.
Context `{Serde PersistedScheduleState} `{UrlCrate} `{Serde LocalConfig}.

Definition state_load (file : FileRead) : result StateStoreError ServiceStateSnapshot :=
  match file with
  | NotFound => Ok ServiceStateSnapshot_default
  | ReadFails => Err SS_Io
  | Contents bytes =>
      let contents := read_up_to (MAX_STATE_BYTES + 1) bytes in
      reject_if (MAX_STATE_BYTES <? Z.of_nat (length contents)) SS_TooLarge ;;
      state ← ok_or (deserialize contents) SS_Json;
      reject_if (negb ((ps_schema_version state =? 1) || (ps_schema_version state =? STATE_SCHEMA_VERSION)))
        (SS_UnsupportedSchema (ps_schema_version state)) ;;
      Ok {| st_last_success := ps_last_success state; st_last_retention := ps_last_retention state;
            st_last_prune := ps_last_prune state; st_last_retention_error := ps_last_retention_error state;
            st_repository_validation_required := ps_repository_validation_required state;
            st_verified_repository := ps_verified_repository state;
            st_repository_verified_at := ps_repository_verified_at state |}
  end.

Definition state_contents (state : ServiceStateSnapshot) : result StateStoreError (list Z) :=
  contents ← ok_or (serialize
    {| ps_schema_version := STATE_SCHEMA_VERSION; ps_last_success := st_last_success state;
       ps_last_retention := st_last_retention state; ps_last_prune := st_last_prune state;
       ps_last_retention_error := st_last_retention_error state;
       ps_repository_validation_required := st_repository_validation_required state;
       ps_verified_repository := st_verified_repository state;
       ps_repository_verified_at := st_repository_verified_at state |}) SS_Json;
  let contents := contents ++ [10] in
  reject_if (MAX_STATE_BYTES <? Z.of_nat (length contents)) SS_TooLarge ;;
  Ok contents.

(** [replaced] is whether [atomic_file::replace] succeeds. *)
Definition state_save (replaced : bool) (state : ServiceStateSnapshot) (file : FileRead)
    : result StateStoreError unit * FileRead :=
  match state_contents state with
  | Err e => (Err e, file)
  | Ok contents => if replaced then (Ok (), Contents contents) else (Err SS_AtomicFile, file)
  end.

Definition config_load (file : FileRead) : result ConfigStoreError LocalConfig :=
  match file with
  | NotFound => Ok LocalConfig_default
  | ReadFails => Err CS_Io
  | Contents bytes =>
      contents ← ok_or (from_utf8 (read_up_to (MAX_CONFIG_BYTES + 1) bytes)) CS_Io;
      reject_if (MAX_CONFIG_BYTES <? str_len contents) CS_TooLarge ;;
      map_err CS_LocalConfig (from_toml contents)
  end.

Definition config_contents (config : LocalConfig) : result ConfigStoreError (list Z) :=
  text ← map_err CS_LocalConfig (to_toml_pretty config);
  let contents := utf8 text ++ [10] in
  reject_if (MAX_CONFIG_BYTES <? Z.of_nat (length contents)) CS_TooLarge ;;
  Ok contents.

Definition config_save (replaced : bool) (config : LocalConfig) (file : FileRead)
    : result ConfigStoreError unit * FileRead :=
  match config_contents config with
  | Err e => (Err e, file)
  | Ok contents => if replaced then (Ok (), Contents contents) else (Err CS_AtomicFile, file)
  end.
End stores.

(** Documented behaviour of the text formats: a trailing newline does not
    change what is read, and the text is made of Unicode scalar values. *)
Class TextFormat (T : Type) `{Serde T} : Prop := {
  format_newline (x : T) b : serialize x = Some b -> deserialize (b ++ [10]) = Some x;
  format_scalars (x : T) b : serialize x = Some b -> forallb is_scalar b = true
}.

(** ** Properties *)
Lemma requires_validation_spec s config :
  repository_requires_validation s config = false <->
  rc_url (ec_repository config) = None
  \/ (st_repository_validation_required s = false /\ st_verified_repository s = Some (identity_of config)).
Proof.
  unfold repository_requires_validation.
  destruct (rc_url (ec_repository config)) as [url|]; cbn; [|tauto].
  rewrite orb_false_iff. destruct (st_verified_repository s) as [v|]; [|split; [intros [_ ?]; done|intros [?|[_ ?]]; done]].
  rewrite negb_false_iff, bool_decide_eq_true. split; [intros [? ->]; by right|intros [?|[? Hv]]; [done|split; congruence]].
Qed.

(** A verification covers exactly the connection it was made for: right
    after it the repository needs none, and it needs one again as soon as the
    URL, an option or a credential reference differs or a validation is
    required; display name, mode and schedule do not matter. *)
Theorem verification_covers_identity (s : ServiceStateSnapshot) (c c' : EffectiveConfig) (t : DateTime) (url : rstr)
    (Hurl : rc_url (ec_repository c') = Some url) :
  (repository_requires_validation (mark_repository_verified s c t) c' = false <-> identity_of c = identity_of c')
  /\ repository_requires_validation (require_repository_validation s) c' = true
  /\ (identity_of c = identity_of c' -> repository_verified_at (mark_repository_verified s c t) c' = Some t).
Proof.
  assert (repository_requires_validation (mark_repository_verified s c t) c' = false <-> identity_of c = identity_of c') as Hiff.
  { rewrite requires_validation_spec, Hurl. cbn. split; [intros [?|[_ Hv]]; congruence|intros ->; by right]. }
  split_and!; [done| |].
  - unfold repository_requires_validation. by rewrite Hurl.
  - intros Hid%Hiff. unfold repository_verified_at. by rewrite Hid.
Qed.

Section store_properties.
Context `{UrlCrate} `{Serde PersistedScheduleState} `{!TextFormat PersistedScheduleState}
  `{Serde LocalConfig} `{!TextFormat LocalConfig}.

(** What loads has the current schema and an acceptable management section. *)
Lemma config_load_contract file local :
  config_load file = Ok local ->
  lc_schema_version local = CONFIG_SCHEMA_VERSION /\ management_contract (lc_management local).
Proof.
  destruct file as [| |bytes]; cbn; [intros [= <-]; split; [done|by apply validate_management_iff]|done|].
  intros (contents & _ & (_ & Hl%map_err_Ok)%seq_Ok)%bind_Ok.
  unfold from_toml in Hl. apply bind_Ok in Hl as (config & _ & (Hs & (Hv%map_err_Ok & [= <-])%seq_Ok)%seq_Ok).
  apply reject_if_Ok, negb_false_iff, Z.eqb_eq in Hs. split; [done|]. by apply validate_management_iff.
Qed.

(** What a store reports as saved is what it loads next, and a save
    that fails for any reason leaves the previous contents in place. *)
Theorem stores_roundtrip (state : ServiceStateSnapshot) (config : LocalConfig) (replaced : bool) (file : FileRead) :
  match state_save replaced state file with
  | (Ok _, file') => state_load file' = Ok state
  | (Err _, file') => file' = file
  end
  /\ (lc_schema_version config = CONFIG_SCHEMA_VERSION -> management_contract (lc_management config) ->
      match config_save replaced config file with
      | (Ok _, file') => config_load file' = Ok config
      | (Err _, file') => file' = file
      end).
Proof.
  split.
  - unfold state_save. destruct (state_contents state) as [contents|] eqn:E; [|done]. destruct replaced; [|done].
    unfold state_contents in E. apply bind_Ok in E as (b & Hb%ok_or_Ok & E).
    apply seq_Ok in E as [Hlen [= <-]]. apply reject_if_Ok, Z.ltb_ge in Hlen.
    unfold state_load. rewrite read_up_to_within by done.
    rewrite (proj2 (reject_if_Ok _ SS_TooLarge ())) by by apply Z.ltb_ge. cbn -[deserialize].
    rewrite (format_newline _ _ Hb). cbn. by destruct state.
  - intros Hv Hm. unfold config_save. destruct (config_contents config) as [contents|] eqn:E; [|done].
    destruct replaced; [|done].
    unfold config_contents in E. apply bind_Ok in E as (text & Ht%map_err_Ok & E).
    apply seq_Ok in E as [Hlen [= <-]]. apply reject_if_Ok, Z.ltb_ge in Hlen.
    unfold to_toml_pretty in Ht. apply ok_or_Ok in Ht.
    unfold config_load. rewrite read_up_to_within by done.
    assert (utf8 text ++ [10] = utf8 (text ++ [10])) as Hnl by (symmetry; apply flat_map_app). rewrite Hnl in *.
    rewrite (from_utf8_utf8 (text ++ [10])).
    2: { rewrite forallb_app, (format_scalars _ _ Ht). done. }
    cbn [ok_or mbind result_bind].
    rewrite (proj2 (reject_if_Ok _ CS_TooLarge ())).
    2: { apply Z.ltb_ge. exact Hlen. }
    cbn [mbind result_bind]. apply map_err_Ok. unfold from_toml. rewrite (format_newline _ _ Ht). cbn.
    rewrite Hv, Z.eqb_refl. cbn. rewrite <- validate_management_iff in Hm. by rewrite Hm.
Qed.
End store_properties.

Module StateWitness.
Import UrlExample.
Definition verified : EffectiveConfig :=
  set_ec_repository
    {| rc_display_name := None; rc_url := Some (lit "s3:host/bucket"); rc_mode := Standard; rc_options := [];
       rc_secret_refs := [] |} EffectiveConfig_default.

Lemma verification_witness :
  repository_requires_validation (mark_repository_verified ServiceStateSnapshot_default verified 5) verified = false.
Proof.
  apply (verification_covers_identity ServiceStateSnapshot_default verified verified 5 (lit "s3:host/bucket"));
    reflexivity.
Defined.

(** One-document formats. *)
Definition one_text {T} `{EqDecision T} (x : T) : Serde T :=
  {| serialize := fun y : T => if decide (y = x) then Some [35] else None;
     deserialize := fun b : list Z => if bool_decide (take 1 b = [35]) then Some x else None |}.
Lemma one_text_format {T} `{EqDecision T} (x : T) : @TextFormat T (one_text x).
Proof. split; cbn; intros y b; case_decide; intros [= <-]; subst; done. Qed.
Definition saved : PersistedScheduleState :=
  {| ps_schema_version := 2; ps_last_success := None; ps_last_retention := None; ps_last_prune := None;
     ps_last_retention_error := None; ps_repository_validation_required := false; ps_verified_repository := None;
     ps_repository_verified_at := None |}.

Lemma stores_witness :
  @config_load toy_url (one_text LocalConfig_default)
    (@config_save (one_text LocalConfig_default) true LocalConfig_default NotFound).2 = Ok LocalConfig_default.
Proof.
  exact (proj2 (@stores_roundtrip toy_url (one_text saved) (one_text_format saved) (one_text LocalConfig_default)
           (one_text_format LocalConfig_default) ServiceStateSnapshot_default LocalConfig_default true NotFound)
           eq_refl (proj1 (validate_management_iff LocalManagementConfig_default) eq_refl)).
Defined.
End StateWitness.
