(* ===== verification/Diagnostics.v ===== *)
(** * Operational diagnostics ([apps/resticpal-service/src/diagnostics.rs])

    A JSON-lines log with three rotated archives, bounded in size and with
    redacted codes.  A write may stop in the middle of a line. *)
From stdpp Require Import base option list strings.
From S2P Require Import Prelude RustStd Chrono Crates Config Status Protocol.

Definition MAX_LOG_BYTES : Z := 1024 * 1024.
Definition MAX_ARCHIVES : Z := 3.
Definition MAX_DIAGNOSTIC_RESULTS : Z := 200.
Definition MAX_CODE_CHARACTERS : Z := 96.

(** [service.jsonl] and its archives [service.jsonl.1] to [.3]. *)
Record LogFiles : Type := {
  log_current : option (list Z);
  log_archive1 : option (list Z);
  log_archive2 : option (list Z);
  log_archive3 : option (list Z)
}.
Definition no_log : LogFiles :=
  {| log_current := None; log_archive1 := None; log_archive2 := None; log_archive3 := None |}.

Definition sanitize_code (value : rstr) : option rstr :=
  if str_is_empty value || (MAX_CODE_CHARACTERS <? str_len value)
     || negb (forallb (fun byte => is_ascii_lowercase byte || is_ascii_digit byte
                                   || (byte =? 95) || (byte =? 45) || (byte =? 46)) (utf8 value))
  then Some (lit "unclassified_error")
  else Some value.

(** [fs::rename] of a file that may be missing. *)
Definition rename_onto (source target : option (list Z)) : option (list Z) :=
  match source with Some _ => source | None => target end.

(** [io k] says whether the [k]-th filesystem call succeeds; a missing file is
    not a failure. *)
Definition rotate (io : nat -> bool) (f : LogFiles) : result unit unit * LogFiles :=
  if negb (io 0%nat) then (Err tt, f) else
  let f := {| log_current := log_current f; log_archive1 := log_archive1 f;
              log_archive2 := log_archive2 f; log_archive3 := None |} in
  if negb (io 1%nat) then (Err tt, f) else
  let f := {| log_current := log_current f; log_archive1 := log_archive1 f; log_archive2 := None;
              log_archive3 := rename_onto (log_archive2 f) (log_archive3 f) |} in
  if negb (io 2%nat) then (Err tt, f) else
  let f := {| log_current := log_current f; log_archive1 := None;
              log_archive2 := rename_onto (log_archive1 f) (log_archive2 f); log_archive3 := log_archive3 f |} in
  if negb (io 3%nat) then (Err tt, f) else
  (Ok tt, {| log_current := None; log_archive1 := rename_onto (log_current f) (log_archive1 f);
             log_archive2 := log_archive2 f; log_archive3 := log_archive3 f |}).

Definition append_current (encoded : list Z) (f : LogFiles) : LogFiles :=
  {| log_current := Some (default [] (log_current f) ++ encoded); log_archive1 := log_archive1 f;
     log_archive2 := log_archive2 f; log_archive3 := log_archive3 f |}.

(** [BufRead::lines]: split at newlines, a carriage return before one goes
    with it, and a last line without a newline counts when it is not empty. *)
Definition strip_cr (line : list Z) : list Z :=
  match reverse line with 13 :: r => reverse r | _ => line end.
Fixpoint lines_of (acc b : list Z) : list (list Z) :=
  match b with
  | [] => match acc with [] => [] | _ => [reverse acc] end
  | c :: b => if c =? 10 then strip_cr (reverse acc) :: lines_of [] b else lines_of (c :: acc) b
  end.

Section log.
Context `{Serde DiagnosticEntry}.

Definition diagnostic_entry (now : DateTime) (level : DiagnosticLevel) (event_id message : rstr) (code : option rstr)
    : DiagnosticEntry :=
  {| de_timestamp := now; de_level := level; de_event_id := event_id; de_message := message;
     de_code := code ≫= sanitize_code |}.

(** [DiagnosticLog::record]: call 6 is [open], call 7 [write_all], which leaves
    the first [torn] bytes of the line behind when it fails. *)
Definition record (io : nat -> bool) (torn : nat) (entry : DiagnosticEntry) (f : LogFiles) : result unit unit * LogFiles :=
  match serialize entry with
  | None => (Err tt, f)
  | Some encoded =>
      let encoded := encoded ++ [10] in
      if negb (io 0%nat) then (Err tt, f) else
      let current_size :=
        if io 1%nat then match log_current f with Some b => Z.of_nat (length b) | None => 0 end else 0 in
      let '(rotated, f) :=
        if MAX_LOG_BYTES <? u64_saturating_add current_size (Z.of_nat (length encoded))
        then rotate (fun k => io (2 + k)%nat) f
        else (Ok tt, f) in
      match rotated with
      | Err e => (Err e, f)
      | Ok _ =>
          if negb (io 6%nat) then (Err tt, f)
          else if io 7%nat then (Ok tt, append_current encoded f)
          else (Err tt, append_current (take torn encoded) f)
      end
  end.

Definition read_lines (lines : list (list Z)) : option (list DiagnosticEntry) :=
  foldr (fun line rest =>
           rest ← rest; _ ← from_utf8 line;
           Some (match deserialize line with Some entry => entry :: rest | None => rest end))
    (Some []) lines.

Definition read_entries (ok : bool) (file : option (list Z)) : option (list DiagnosticEntry) :=
  match file with
  | None => Some []
  | Some b => if ok then read_lines (lines_of [] b) else None
  end.

(** [DiagnosticLog::recent] *)
Definition recent (io : nat -> bool) (limit : Z) (f : LogFiles) : option (list DiagnosticEntry) :=
  e3 ← read_entries (io 0%nat) (log_archive3 f);
  e2 ← read_entries (io 1%nat) (log_archive2 f);
  e1 ← read_entries (io 2%nat) (log_archive1 f);
  e0 ← read_entries (io 3%nat) (log_current f);
  let entries := e3 ++ e2 ++ e1 ++ e0 in
  Some (drop (length entries - Z.to_nat limit) entries).
End log.

(** ** Properties *)

(** The lines of JSON Lines: no raw newline, never ending in a carriage
    return, valid UTF-8. *)
Class JsonLines (T : Type) `{Serde T} : Prop := {
  json_no_newline (x : T) b : serialize x = Some b -> 10 ∉ b;
  json_no_return (x : T) b : serialize x = Some b -> strip_cr b = b;
  json_utf8 (x : T) b : serialize x = Some b -> from_utf8 b <> None
}.

(** What the service itself puts into an entry is ASCII, and JSON keeps it so. *)
Definition ascii_entry (entry : DiagnosticEntry) : bool :=
  is_ascii (de_event_id entry) && is_ascii (de_message entry)
  && match de_code entry with Some code => is_ascii code | None => true end.
Class AsciiLines `{Serde DiagnosticEntry} : Prop := {
  json_ascii (entry : DiagnosticEntry) b : serialize entry = Some b -> ascii_entry entry = true -> is_ascii b = true
}.

Lemma sanitized_ascii code stored : sanitize_code code = Some stored -> is_ascii stored = true.
Proof.
  unfold sanitize_code. destruct (_ || _) eqn:E; intros [= <-]; [reflexivity|].
  apply orb_false_iff in E as [_ E%negb_false_iff]. eapply ascii_bytes; [|exact E].
  intros b Hb. apply in_range_true. unfold is_ascii_lowercase, is_ascii_digit in Hb.
  rewrite !orb_true_iff, !in_range_true, !Z.eqb_eq in Hb. lia.
Qed.
Lemma diagnostic_entry_ascii now level event_id message code :
  is_ascii event_id = true -> is_ascii message = true ->
  ascii_entry (diagnostic_entry now level event_id message code) = true.
Proof.
  intros He Hm. unfold ascii_entry, diagnostic_entry. cbn [de_event_id de_message de_code]. rewrite He, Hm. cbn [andb].
  destruct code as [code|]; [|done]. cbn. destruct (sanitize_code code) as [stored|] eqn:E; [|done]. by eapply sanitized_ascii.
Qed.

(** A file ends at a line end. *)
Definition whole_lines (file : option (list Z)) : Prop :=
  match file with None => True | Some b => b = [] \/ exists b', b = b' ++ [10] end.

Section log_properties.
Context `{Serde DiagnosticEntry} `{!SerdeLaws DiagnosticEntry} `{!JsonLines DiagnosticEntry}.

Lemma lines_of_line acc b rest :
  10 ∉ b -> lines_of acc (b ++ 10 :: rest) = strip_cr (reverse acc ++ b) :: lines_of [] rest.
Proof.
  revert acc. induction b as [|c b IH]; intros acc Hb; cbn.
  - by rewrite app_nil_r.
  - apply not_elem_of_cons in Hb as [Hc Hb].
    destruct (Z.eqb_spec c 10); [congruence|]. rewrite IH by done. rewrite reverse_cons, <- app_assoc. done.
Qed.

Lemma lines_of_app acc b b' : lines_of acc ((b ++ [10]) ++ b') = lines_of acc (b ++ [10]) ++ lines_of [] b'.
Proof.
  revert acc. induction b as [|c b IH]; intros acc; cbn; [done|].
  destruct (c =? 10); cbn; by rewrite IH.
Qed.

Lemma read_lines_app l l' :
  read_lines (l ++ l') = (a ← read_lines l; b ← read_lines l'; Some (a ++ b)).
Proof.
  assert (forall line l, read_lines (line :: l) =
    (rest ← read_lines l; _ ← from_utf8 line;
     Some (match deserialize line with Some entry => entry :: rest | None => rest end))) as Hcons by done.
  induction l as [|line l IH].
  { change (read_lines []) with (Some (@nil DiagnosticEntry)). cbn [app mbind option_bind]. by destruct (read_lines l'). }
  rewrite <- app_comm_cons, !Hcons, IH.
  destruct (read_lines l) as [a|], (read_lines l') as [b|]; cbn; try done.
  - destruct (from_utf8 line); cbn; [|done]. by destruct (deserialize line).
  - by destruct (from_utf8 line).
Qed.

Lemma read_encoded entry encoded :
  serialize entry = Some encoded -> read_lines (lines_of [] (encoded ++ [10])) = Some [entry].
Proof.
  intros He. rewrite lines_of_line by exact (json_no_newline _ _ He). cbn.
  rewrite (json_no_return _ _ He). pose proof (json_utf8 _ _ He).
  destruct (from_utf8 encoded); [|done]. cbn. by rewrite (serde_roundtrip _ _ He).
Qed.

(** All entries of a file, given that it reads. *)
Lemma read_entries_append file entry encoded entries :
  whole_lines file -> serialize entry = Some encoded ->
  read_entries true file = Some entries ->
  read_entries true (Some (default [] file ++ encoded ++ [10])) = Some (entries ++ [entry]).
Proof.
  intros Hw He Hr. destruct file as [b|]; cbn [read_entries default from_option] in *; unfold id.
  - destruct Hw as [->|[b' ->]].
    + cbn in Hr. injection Hr as <-. by apply read_encoded.
    + rewrite lines_of_app, read_lines_app, Hr. rewrite (read_encoded _ _ He). done.
  - injection Hr as <-. by apply read_encoded.
Qed.

Definition log_ok (f : LogFiles) : Prop :=
  whole_lines (log_current f)
  /\ Forall (fun file => match file with Some b => Z.of_nat (length b) <= MAX_LOG_BYTES | None => True end)
       [log_current f; log_archive1 f; log_archive2 f; log_archive3 f].

Definition all_ok : nat -> bool := fun _ => true.

(** Whether this entry makes the log rotate. *)
Definition rotates (encoded : list Z) (f : LogFiles) : bool :=
  MAX_LOG_BYTES <? Z.of_nat (length (default [] (log_current f))) + Z.of_nat (length encoded) + 1.

Lemma record_all_ok torn entry f encoded :
  log_ok f -> serialize entry = Some encoded -> Z.of_nat (length encoded) < MAX_LOG_BYTES ->
  record all_ok torn entry f =
    (Ok tt, if rotates encoded f
            then {| log_current := Some (encoded ++ [10]); log_archive1 := log_current f;
                    log_archive2 := log_archive1 f; log_archive3 := log_archive2 f |}
            else append_current (encoded ++ [10]) f).
Proof.
  intros [_ Hsz] He Hs. apply Forall_cons in Hsz as [Hsz _].
  unfold record, rotates. rewrite He. cbn [all_ok negb]. unfold MAX_LOG_BYTES, u64_saturating_add, u64_max in *.
  rewrite length_app. cbn [length].
  assert (match log_current f with Some b => Z.of_nat (length b) | None => 0 end
          = Z.of_nat (length (default [] (log_current f)))) as -> by by destruct (log_current f).
  assert (Z.of_nat (length (default [] (log_current f))) <= 1024 * 1024) as Hc.
  { destruct (log_current f); cbn in *; lia. }
  rewrite Z.min_r by lia. replace (Z.of_nat (length encoded + 1)) with (Z.of_nat (length encoded) + 1) by lia.
  rewrite Z.add_assoc. destruct (_ <? _); [|done].
  destruct f as [c a1 a2 a3]; cbn. by destruct c, a1, a2.
Qed.

(** With working storage, recording keeps the log bounded and loses
    nothing recent: every file stays within a MiB and whole lines, and a
    reader then gets the entries there were, without the oldest archive if
    the log had to rotate, followed by the new one. *)
Theorem record_bounded (torn : nat) (entry : DiagnosticEntry) (f : LogFiles) (encoded : list Z)
    (e0 e1 e2 e3 : list DiagnosticEntry) (limit : Z)
    (Hok : log_ok f) (He : serialize entry = Some encoded) (Hsmall : Z.of_nat (length encoded) < MAX_LOG_BYTES)
    (H0 : read_entries true (log_current f) = Some e0) (H1 : read_entries true (log_archive1 f) = Some e1)
    (H2 : read_entries true (log_archive2 f) = Some e2) (H3 : read_entries true (log_archive3 f) = Some e3) :
  let kept := (if rotates encoded f then [] else e3) ++ e2 ++ e1 ++ e0 in
  exists f', record all_ok torn entry f = (Ok tt, f') /\ log_ok f'
    /\ recent all_ok limit f' = Some (drop (length (kept ++ [entry]) - Z.to_nat limit) (kept ++ [entry])).
Proof.
  intros kept. eexists. split; [by apply record_all_ok|].
  destruct Hok as [Hw Hsz]. rewrite !Forall_cons in Hsz. destruct Hsz as (S0 & S1 & S2 & S3 & _).
  unfold kept, rotates. destruct (_ <? _) eqn:Hrot.
  - split.
    + split; [by right; eexists|]. cbn. repeat constructor; try done.
      rewrite length_app. cbn. lia.
    + unfold recent, all_ok. cbn [log_current log_archive1 log_archive2 log_archive3].
      rewrite H2, H1, H0. cbn [mbind option_bind]. cbn [read_entries]. rewrite (read_encoded _ _ He).
      cbn [mbind option_bind app]. by rewrite <- !app_assoc.
  - apply Z.ltb_ge in Hrot. split.
    + split.
      * cbn. right. eexists. by rewrite app_assoc.
      * cbn. repeat constructor; try done. rewrite !length_app. cbn. lia.
    + unfold recent, all_ok. cbn [append_current log_current log_archive1 log_archive2 log_archive3].
      rewrite H3, H2, H1. cbn [mbind option_bind].
      rewrite (read_entries_append _ _ _ _ Hw He H0). cbn [mbind option_bind app].
      by rewrite <- !app_assoc.
Qed.

(** *** A log of text reads, whatever its lines are *)
Definition text_file (file : option (list Z)) : Prop := match file with Some b => is_Some (from_utf8 b) | None => True end.

Lemma strip_cr_text line : is_Some (from_utf8 line) -> is_Some (from_utf8 (strip_cr line)).
Proof.
  intros [s Hs]. unfold strip_cr. destruct (reverse line) as [|c r] eqn:E; [by eexists|].
  assert (line = reverse r ++ [c]) as Hl by (by rewrite <- (reverse_involutive line), E, reverse_cons).
  destruct (decide (c = 13)) as [->|Hc].
  - rewrite Hl in Hs. by apply from_utf8_split in Hs as [? _].
  - assert (match c with 13 => reverse r | _ => line end = line) as ->; [|by eexists].
    destruct c as [|c|c]; try done. do 4 (destruct c as [c|c|]; try done).
Qed.
Lemma lines_of_text acc b : is_Some (from_utf8 (reverse acc ++ b)) -> Forall (fun line => is_Some (from_utf8 line)) (lines_of acc b).
Proof.
  revert acc. induction b as [|c b IH]; intros acc Hb; cbn [lines_of].
  - rewrite app_nil_r in Hb. destruct acc; [constructor|]. by repeat constructor.
  - destruct (Z.eqb_spec c 10) as [->|Hc].
    + destruct Hb as [s Hs]. apply from_utf8_split in Hs as [Ha Hb]; [|done]. constructor; [by apply strip_cr_text|]. by apply IH.
    + apply IH. by rewrite reverse_cons, <- app_assoc.
Qed.
Lemma read_lines_text lines : Forall (fun line => is_Some (from_utf8 line)) lines -> is_Some (read_lines lines).
Proof.
  induction 1 as [|line lines [s Hs] _ [entries Hr]]; [by eexists|]. cbn [read_lines foldr].
  change (foldr _ (Some []) lines) with (read_lines lines). rewrite Hr. cbn. rewrite Hs. by eexists.
Qed.
Lemma text_file_reads file : text_file file -> is_Some (read_entries true file).
Proof. destruct file as [b|]; [|by eexists]. intros Hb. by apply read_lines_text, lines_of_text. Qed.

Lemma append_text file b : text_file file -> is_ascii b = true -> text_file (Some (default [] file ++ b)).
Proof.
  intros Hf Hb%from_utf8_ascii. destruct file as [c|]; cbn; [|by eexists]. destruct Hf as [s Hs].
  rewrite (from_utf8_app _ _ _ Hs). unfold id. rewrite Hb. by eexists.
Qed.

(** What a successful write leaves: the new entry's own line at the end. *)
Lemma record_Ok_current io torn entry f f' :
  record io torn entry f = (Ok tt, f') ->
  exists encoded before, serialize entry = Some encoded /\ log_current f' = Some (before ++ encoded ++ [10]).
Proof.
  unfold record. destruct (serialize entry) as [encoded|]; [|done]. destruct (negb (io 0%nat)); [done|].
  destruct (if _ <? _ then _ else _) as [[[]|] f1]; [|done]. destruct (negb (io 6%nat)); [done|]. destruct (io 7%nat); [|done].
  intros [= <-]. exists encoded. eexists. split; [done|]. reflexivity.
Qed.
Lemma read_last_entry entry encoded before :
  serialize entry = Some encoded -> whole_lines (Some before) -> text_file (Some before) ->
  exists entries, read_entries true (Some (before ++ encoded ++ [10])) = Some (entries ++ [entry]).
Proof.
  intros He Hw Ht. destruct (text_file_reads _ Ht) as [entries Hr]. exists entries.
  by apply (read_entries_append (Some before)).
Qed.

(** Whatever code a caller passes, what is stored is a short plain token. *)
Definition plain_code (code : rstr) : Prop :=
  code <> [] /\ str_len code <= MAX_CODE_CHARACTERS
  /\ Forall (fun b => is_ascii_lowercase b || is_ascii_digit b || (b =? 95) || (b =? 45) || (b =? 46) = true) (utf8 code).

(** A diagnostic entry never carries free text: whatever code a caller
    passes, the stored one is a short token of lower-case letters, digits
    and [_-.], the code itself when it has that form and a fixed one else. *)
Theorem codes_redacted (now : DateTime) (level : DiagnosticLevel) (event_id message code : rstr) :
  exists stored, de_code (diagnostic_entry now level event_id message (Some code)) = Some stored
    /\ plain_code stored /\ (plain_code code -> stored = code).
Proof.
  cbn. unfold sanitize_code.
  destruct (str_is_empty code || (MAX_CODE_CHARACTERS <? str_len code) || negb _) eqn:E.
  - eexists. split; [done|]. split.
    + split; [done|]. split; [by vm_compute|]. apply (bool_decide_unpack _). by vm_compute.
    + intros (Hne & Hl & Hf). exfalso. rewrite <- not_false_iff_true in E. apply E.
      rewrite !orb_false_iff, str_is_empty_false, Z.ltb_ge, negb_false_iff, forallb_true_Forall. done.
  - eexists. split; [done|]. split; [|done].
    rewrite !orb_false_iff, str_is_empty_false, Z.ltb_ge, negb_false_iff, forallb_true_Forall in E.
    unfold plain_code. tauto.
Qed.
End log_properties.

Module DiagnosticsWitness.
Definition example_entry : DiagnosticEntry :=
  {| de_timestamp := 0; de_level := Level_Information; de_event_id := lit "backup.succeeded"; de_message := lit "ok";
     de_code := None |}.
#[local] Instance one_entry : Serde DiagnosticEntry :=
  {| serialize := fun e : DiagnosticEntry => if decide (e = example_entry) then Some [123; 125] else None;
     deserialize := fun b : list Z => if bool_decide (b = [123; 125]) then Some example_entry else None |}.
Lemma one_entry_laws : SerdeLaws DiagnosticEntry.
Proof. split; cbn; intros x b; case_decide; intros [= <-]; subst; done. Qed.
Lemma one_entry_lines : JsonLines DiagnosticEntry.
Proof. split; cbn; intros x b; case_decide; intros [= <-]; subst; try done. set_solver. Qed.

Lemma one_entry_ascii : AsciiLines.
Proof. split. intros x b. cbn. case_decide; intros [= <-] _. reflexivity. Qed.

Lemma record_bounded_witness :
  exists f', record all_ok 0 example_entry (append_current [123; 125; 10] no_log) = (Ok tt, f') /\ log_ok f'
    /\ recent all_ok 1 f' = Some [example_entry].
Proof.
  apply (@record_bounded one_entry one_entry_laws one_entry_lines 0%nat example_entry (append_current [123; 125; 10] no_log)
           [123; 125] [example_entry] [] [] [] 1); try reflexivity.
  split; [right; by exists [123; 125]|]. repeat constructor. vm_compute. discriminate.
Defined.

(** When the disk fills up after the first byte of a line, that entry is lost
    with an error; but so is the next one, which is recorded without any. *)
Definition torn_log : LogFiles := (record (fun k => negb (k =? 7)%nat) 1 example_entry no_log).2.
Theorem torn_line_swallows_the_next :
  (record (fun k => negb (k =? 7)%nat) 1 example_entry no_log).1 = Err tt
  /\ (record all_ok 0 example_entry torn_log).1 = Ok tt
  /\ recent all_ok 10 (record all_ok 0 example_entry torn_log).2 = Some [].
Proof. split_and!; vm_compute; reflexivity. Qed.
End DiagnosticsWitness.
