(* ===== verification/History.v ===== *)
(** * Backup history ([apps/resticpal-service/src/history.rs])

    The bounded run history and the sensitive failed-item names kept with
    each run.  The SQLite database is the rows of its two tables, joined by
    run; a call whose SQL or file protection fails has no effect, because the
    writes are one transaction. *)
From stdpp Require Import base option list sorting strings.
From S2P Require Import Prelude RustStd Chrono Config Status Outcome.

Definition HISTORY_SCHEMA_VERSION : Z := 2.
Definition MAX_STORED_RUNS : Z := 200.
Definition MAX_HISTORY_RESULTS : Z := 100.
Definition MAX_IDENTIFIER_BYTES : Z := 128.

Record CompletedBackupRun : Type := {
  cr_started_at : DateTime;
  cr_completed_at : DateTime;
  cr_outcome : BackupRunOutcome;
  cr_error_code : option rstr;
  cr_files_processed : option Z;
  cr_bytes_processed : option Z;
  cr_data_added : option Z;
  cr_snapshot_id : option rstr;
  cr_failed_items : list rstr;
  cr_failed_items_omitted : Z
}.
#[global] Instance CompletedBackupRun_eq_dec : EqDecision CompletedBackupRun.
Proof. solve_decision. Defined.
Record StoredRunFailureDetails : Type := {
  sf_items : list rstr;
  sf_omitted : Z
}.
#[global] Instance StoredRunFailureDetails_eq_dec : EqDecision StoredRunFailureDetails.
Proof. solve_decision. Defined.

(** A row of [backup_runs] with its rows of [backup_run_failed_items], the
    latter by ordinal and deleted with the run. *)
Record RawRunRecord : Type := {
  hr_id : Z;
  hr_started_at_ms : Z;
  hr_completed_at_ms : Z;
  hr_outcome : rstr;
  hr_error_code : option rstr;
  hr_files_processed : option Z;
  hr_bytes_processed : option Z;
  hr_data_added : option Z;
  hr_snapshot_id : option rstr;
  hr_failed_items_omitted : Z;
  hr_failed_items : list rstr
}.
#[global] Instance RawRunRecord_eq_dec : EqDecision RawRunRecord.
Proof. solve_decision. Defined.

(** [db_last_id] is SQLite's [AUTOINCREMENT] counter. *)
Record HistoryDb : Type := { db_version : Z; db_last_id : Z; db_rows : list RawRunRecord }.

Inductive HistoryError : Type :=
| HE_Database | HE_Protection | UnsafeStorageEntry | HE_FileSystem | UnsupportedHistorySchema (version : Z)
| InvalidTimestamp (ms : Z) | InvalidUnsignedValue | InvalidOutcome (value : rstr).

Definition outcome_name (outcome : BackupRunOutcome) : rstr :=
  match outcome with
  | Run_Succeeded => lit "succeeded"
  | Run_SucceededWithWarnings => lit "succeeded_with_warnings"
  | Run_Failed => lit "failed"
  | Run_Cancelled => lit "cancelled"
  end.

Definition parse_outcome (value : rstr) : result HistoryError BackupRunOutcome :=
  if str_eqb value (lit "succeeded") then Ok Run_Succeeded
  else if str_eqb value (lit "succeeded_with_warnings") then Ok Run_SucceededWithWarnings
  else if str_eqb value (lit "failed") then Ok Run_Failed
  else if str_eqb value (lit "cancelled") then Ok Run_Cancelled
  else Err (InvalidOutcome value).

Definition sanitize_identifier (value : rstr) : option rstr :=
  if str_is_empty value || (MAX_IDENTIFIER_BYTES <? str_len value)
     || negb (forallb (fun byte => is_ascii_alphanumeric byte || (byte =? 95) || (byte =? 45)) (utf8 value))
  then None else Some value.

(** One iteration of the loop of [normalize_failure_details]. *)
Definition normalize_item (st : list rstr * Z) (item : rstr) : list rstr * Z :=
  let '(normalized, omitted) := st in
  if existsb (fun existing => str_eqb existing item) normalized then st
  else if (MAX_BACKUP_FAILED_ITEMS <=? Z.of_nat (length normalized)) || negb (is_safe_backup_failed_item item)
  then (normalized, u64_saturating_add omitted 1)
  else (normalized ++ [item], omitted).

Definition normalize_failure_details (items : list rstr) (omitted : Z) : StoredRunFailureDetails :=
  let '(normalized, omitted) := fold_left normalize_item items ([], omitted) in
  let retained := Z.of_nat (length normalized) in
  {| sf_items := normalized; sf_omitted := Z.min omitted (saturating_sub i64_max retained) |}.

Definition to_sql_integer (value : Z) : Z := if value <=? i64_max then value else i64_max.
Definition normalize_sql_unsigned (value : Z) : Z := Z.min value i64_max.
Definition from_sql_integer (value : Z) : result HistoryError Z :=
  if 0 <=? value then Ok value else Err InvalidUnsignedValue.

(** [initialize_schema]: a missing database is created, an older one migrated
    in place (its runs have no omitted items), a newer one refused. *)
Definition initialize_schema (db : option HistoryDb) : result HistoryError HistoryDb :=
  match db with
  | None => Ok {| db_version := HISTORY_SCHEMA_VERSION; db_last_id := 0; db_rows := [] |}
  | Some db =>
      reject_if (HISTORY_SCHEMA_VERSION <? db_version db) (UnsupportedHistorySchema (db_version db)) ;;
      reject_if (negb (in_range 0 HISTORY_SCHEMA_VERSION (db_version db))) (UnsupportedHistorySchema (db_version db)) ;;
      Ok {| db_version := HISTORY_SCHEMA_VERSION; db_last_id := db_last_id db; db_rows := db_rows db |}
  end.

(** The tables' [CHECK] constraints. *)
Definition item_check (item : rstr) : bool :=
  in_range 1 4096 (str_len item) && negb (contains_line_break item).
Definition row_check (row : RawRunRecord) : bool :=
  existsb (fun o => str_eqb (hr_outcome row) (outcome_name o))
    [Run_Succeeded; Run_SucceededWithWarnings; Run_Failed; Run_Cancelled]
  && match hr_error_code row with Some c => chars_count c <=? 128 | None => true end
  && match hr_snapshot_id row with Some c => chars_count c <=? 128 | None => true end
  && (0 <=? hr_failed_items_omitted row)
  && (Z.of_nat (length (hr_failed_items row)) <=? 100)
  && forallb item_check (hr_failed_items row).

(** [ORDER BY completed_at_ms DESC, id DESC] *)
Definition newer (a b : RawRunRecord) : Prop :=
  hr_completed_at_ms b < hr_completed_at_ms a
  \/ (hr_completed_at_ms b = hr_completed_at_ms a /\ hr_id b <= hr_id a).
#[global] Instance newer_dec : RelDecision newer.
Proof. intros a b. unfold newer. apply _. Defined.

Definition newest_first (rows : list RawRunRecord) : list RawRunRecord := merge_sort newer rows.

(** [DELETE ... WHERE id NOT IN (SELECT id ... LIMIT 200)] *)
Definition prune (rows : list RawRunRecord) : list RawRunRecord :=
  let keep := hr_id <$> take (Z.to_nat MAX_STORED_RUNS) (newest_first rows) in
  filter (fun row => hr_id row ∈ keep) rows.

Section history.
Context `{Chrono}.

Definition timestamp (milliseconds : Z) : result HistoryError DateTime :=
  ok_or (timestamp_millis_opt milliseconds) (InvalidTimestamp milliseconds).

(** [db_ok] is whether the database and its file protection work. *)
Definition append (db_ok : bool) (run : CompletedBackupRun) (db : option HistoryDb)
    : result HistoryError BackupRunRecord * option HistoryDb :=
  if negb db_ok then (Err HE_Database, db) else
  match initialize_schema db with
  | Err e => (Err e, db)
  | Ok init =>
      let error_code := cr_error_code run ≫= sanitize_identifier in
      let snapshot_id := cr_snapshot_id run ≫= sanitize_identifier in
      let details := normalize_failure_details (cr_failed_items run) (cr_failed_items_omitted run) in
      let files_processed := normalize_sql_unsigned <$> cr_files_processed run in
      let bytes_processed := normalize_sql_unsigned <$> cr_bytes_processed run in
      let data_added := normalize_sql_unsigned <$> cr_data_added run in
      let id := db_last_id init + 1 in
      let row :=
        {| hr_id := id;
           hr_started_at_ms := timestamp_millis (cr_started_at run);
           hr_completed_at_ms := timestamp_millis (cr_completed_at run);
           hr_outcome := outcome_name (cr_outcome run);
           hr_error_code := error_code;
           hr_files_processed := to_sql_integer <$> files_processed;
           hr_bytes_processed := to_sql_integer <$> bytes_processed;
           hr_data_added := to_sql_integer <$> data_added;
           hr_snapshot_id := snapshot_id;
           hr_failed_items_omitted := to_sql_integer (sf_omitted details);
           hr_failed_items := sf_items details |} in
      if negb (row_check row) then (Err HE_Database, Some init) else
      let db' := {| db_version := db_version init; db_last_id := id; db_rows := prune (db_rows init ++ [row]) |} in
      (started_at ← timestamp (timestamp_millis (cr_started_at run));
       completed_at ← timestamp (timestamp_millis (cr_completed_at run));
       Ok {| br_id := id; br_started_at := started_at; br_completed_at := completed_at;
             br_outcome := cr_outcome run; br_error_code := error_code;
             br_files_processed := files_processed; br_bytes_processed := bytes_processed;
             br_data_added := data_added; br_snapshot_id := snapshot_id;
             br_failed_item_count :=
               u64_saturating_add (Z.of_nat (length (sf_items details))) (sf_omitted details) |},
       Some db')
  end.

Definition optional_unsigned (o : option Z) : result HistoryError (option Z) :=
  match o with None => Ok None | Some v => v ← from_sql_integer v; Ok (Some v) end.

(** [CASE WHEN length(error_code) <= 128 THEN error_code END] *)
Definition short_text (o : option rstr) : option rstr :=
  match o with Some c => if chars_count c <=? 128 then Some c else None | None => None end.

(** The query's columns and [BackupRunRecord::try_from]. *)
Definition record_of_row (row : RawRunRecord) : result HistoryError BackupRunRecord :=
  id ← from_sql_integer (hr_id row);
  started_at ← timestamp (hr_started_at_ms row);
  completed_at ← timestamp (hr_completed_at_ms row);
  outcome ← parse_outcome (hr_outcome row);
  files_processed ← optional_unsigned (hr_files_processed row);
  bytes_processed ← optional_unsigned (hr_bytes_processed row);
  data_added ← optional_unsigned (hr_data_added row);
  failed_item_count ← from_sql_integer (hr_failed_items_omitted row + Z.of_nat (length (hr_failed_items row)));
  Ok {| br_id := id; br_started_at := started_at; br_completed_at := completed_at; br_outcome := outcome;
        br_error_code := short_text (hr_error_code row) ≫= sanitize_identifier;
        br_files_processed := files_processed; br_bytes_processed := bytes_processed; br_data_added := data_added;
        br_snapshot_id := short_text (hr_snapshot_id row) ≫= sanitize_identifier;
        br_failed_item_count := failed_item_count |}.

Fixpoint collect (rows : list RawRunRecord) : result HistoryError (list BackupRunRecord) :=
  match rows with
  | [] => Ok []
  | row :: rows => r ← record_of_row row; rs ← collect rows; Ok (r :: rs)
  end.

Definition recent_runs (db_ok : bool) (limit : Z) (db : option HistoryDb)
    : result HistoryError (list BackupRunRecord) :=
  let limit := Z.max 1 (Z.min limit MAX_HISTORY_RESULTS) in
  match db with
  | None => Ok []
  | Some _ =>
      if negb db_ok then Err HE_Database else
      init ← initialize_schema db;
      collect (take (Z.to_nat limit) (newest_first (db_rows init)))
  end.

Definition failure_details (db_ok : bool) (run_id : Z) (db : option HistoryDb)
    : result HistoryError (option StoredRunFailureDetails) :=
  match db with
  | None => Ok None
  | Some _ =>
      if i64_max <? run_id then Ok None else
      if negb db_ok then Err HE_Database else
      init ← initialize_schema db;
      match find (fun row => hr_id row =? run_id) (db_rows init) with
      | None => Ok None
      | Some row =>
          omitted ← from_sql_integer (hr_failed_items_omitted row);
          stored_count ← from_sql_integer (Z.of_nat (length (hr_failed_items row)));
          let items :=
            fold_left (fun items item =>
                         if is_safe_backup_failed_item item && negb (existsb (fun e => str_eqb e item) items)
                         then items ++ [item] else items)
              (take (Z.to_nat MAX_BACKUP_FAILED_ITEMS) (hr_failed_items row)) [] in
          let retained := Z.of_nat (length items) in
          Ok (Some {| sf_items := items;
                      sf_omitted := u64_saturating_add omitted (saturating_sub stored_count retained) |})
      end
  end.
End history.

(** ** Ordering and pruning *)
#[global] Instance newer_total : Total newer.
Proof. intros a b. unfold newer. lia. Qed.
#[global] Instance newer_trans : Transitive newer.
Proof. intros a b c. unfold newer. lia. Qed.

Lemma newest_first_perm rows : newest_first rows ≡ₚ rows.
Proof. apply merge_sort_Permutation. Qed.
Lemma newest_first_sorted rows : StronglySorted newer (newest_first rows).
Proof. apply (StronglySorted_merge_sort _). Qed.

Lemma sorted_take_before {A} (R : A -> A -> Prop) n (l : list A) a b :
  StronglySorted R l -> a ∈ take n l -> b ∈ drop n l -> R a b.
Proof.
  revert n. induction l as [|x l IH]; intros n Hs Ha Hb.
  { rewrite take_nil in Ha. by apply elem_of_nil in Ha. }
  inversion_clear Hs as [|? ? Hs' Hf]. destruct n as [|n]; cbn in *; [by apply elem_of_nil in Ha|].
  apply elem_of_cons in Ha as [->|Ha]; [|by eapply IH].
  rewrite Forall_forall in Hf. apply Hf. apply list_elem_of_In, (list_elem_of_In _ _).
  eapply subseteq_drop; exact Hb.
Qed.

Section distinct.
Context (rows : list RawRunRecord) (Hnd : NoDup (hr_id <$> rows)).

Lemma id_determines a b : a ∈ rows -> b ∈ rows -> hr_id a = hr_id b -> a = b.
Proof.
  intros Ha Hb Hid. apply list_elem_of_lookup in Ha as [i Hi], Hb as [j Hj].
  assert (i = j) as ->; [|congruence].
  eapply (NoDup_lookup (hr_id <$> rows)); [exact Hnd| |]; rewrite list_lookup_fmap.
  - rewrite Hi. reflexivity.
  - rewrite Hj. cbn. by rewrite Hid.
Qed.

Lemma elem_of_prune row :
  row ∈ prune rows <-> row ∈ take (Z.to_nat MAX_STORED_RUNS) (newest_first rows).
Proof.
  unfold prune. rewrite list_elem_of_filter, list_elem_of_fmap. split.
  - intros [(r & Hid & Hr) Hin]. rewrite (id_determines row r); [done|done| |done].
    rewrite <- (newest_first_perm rows). by eapply elem_of_take in Hr as (i & Hi & _); eapply list_elem_of_lookup_2.
  - intros Hr. split; [by eexists|]. rewrite <- (newest_first_perm rows).
    apply elem_of_take in Hr as (i & Hi & _). by eapply list_elem_of_lookup_2.
Qed.

Lemma prune_perm : prune rows ≡ₚ take (Z.to_nat MAX_STORED_RUNS) (newest_first rows).
Proof.
  assert (NoDup rows) as Hr by by eapply NoDup_fmap_1.
  apply NoDup_Permutation.
  - by apply NoDup_filter.
  - eapply sublist_NoDup; [|apply sublist_take]. by rewrite newest_first_perm.
  - intros row. apply elem_of_prune.
Qed.

Lemma prune_length : (length (prune rows) <= Z.to_nat MAX_STORED_RUNS)%nat.
Proof. rewrite prune_perm, length_take. lia. Qed.
End distinct.

Lemma NoDup_ids_filter {A} (f : A -> Z) (P : A -> Prop) `{forall x, Decision (P x)} (l : list A) :
  NoDup (f <$> l) -> NoDup (f <$> filter P l).
Proof.
  induction l as [|x l IH]; [done|]. rewrite fmap_cons, NoDup_cons, filter_cons. intros [Hx Hl].
  destruct (decide (P x)); [|auto]. rewrite fmap_cons, NoDup_cons. split; [|auto].
  intros (y & Heq & [_ Hy]%list_elem_of_filter)%list_elem_of_fmap. apply Hx. rewrite Heq. by apply list_elem_of_fmap_2.
Qed.

(** ** Failed items *)
Lemma normalize_item_push st item d :
  d = {| bfd_items := st.1; bfd_omitted := st.2 |} ->
  normalize_item st item = (bfd_items (failure_push d item), bfd_omitted (failure_push d item)).
Proof.
  intros ->. destruct st as [l o]. unfold normalize_item, failure_push. cbn.
  destruct (existsb _ _); [done|]. rewrite orb_comm. by destruct (_ || _).
Qed.

Lemma normalize_items_push items st d :
  d = {| bfd_items := st.1; bfd_omitted := st.2 |} ->
  fold_left normalize_item items st =
  (bfd_items (fold_left failure_push items d), bfd_omitted (fold_left failure_push items d)).
Proof.
  revert st d. induction items as [|i items IH]; intros st d Hd; cbn; [by subst; destruct st|].
  apply IH. rewrite (normalize_item_push _ _ _ Hd). by destruct (failure_push d i).
Qed.

Lemma normalize_details_ok items omitted :
  details_ok {| bfd_items := sf_items (normalize_failure_details items omitted); bfd_omitted := 0 |}.
Proof.
  unfold normalize_failure_details.
  rewrite (normalize_items_push items ([], omitted) {| bfd_items := []; bfd_omitted := omitted |} eq_refl). cbn.
  assert (details_ok {| bfd_items := []; bfd_omitted := omitted |}) as H0 by (destruct details_ok_default; by constructor).
  destruct (failure_push_all_ok items _ H0). by constructor.
Qed.

Lemma normalize_omitted_bounds items omitted :
  0 <= omitted ->
  let d := normalize_failure_details items omitted in
  0 <= sf_omitted d /\ sf_omitted d + Z.of_nat (length (sf_items d)) <= i64_max.
Proof.
  intros Ho d. unfold d. pose proof (do_bound _ (normalize_details_ok items omitted)) as Hb. cbn in Hb.
  revert Hb. unfold normalize_failure_details.
  assert (forall items st, 0 <= st.2 -> 0 <= (fold_left normalize_item items st).2) as Hpos.
  { clear. induction items as [|i items IH]; intros st Hs; cbn; [done|]. apply IH.
    destruct st as [l o]; unfold normalize_item, u64_saturating_add, u64_max in *.
    destruct (existsb _ _); [done|]. destruct (_ || _); cbn in *; lia. }
  specialize (Hpos items ([], omitted) Ho). destruct (fold_left normalize_item items ([], omitted)) as [l o]. cbn in *.
  unfold MAX_BACKUP_FAILED_ITEMS, saturating_sub, i64_max. lia.
Qed.

Lemma safe_item_check item : is_safe_backup_failed_item item = true -> item_check item = true.
Proof.
  unfold is_safe_backup_failed_item, item_check, MAX_BACKUP_FAILED_ITEM_BYTES.
  rewrite !andb_true_iff, !negb_true_iff, Z.leb_le. intros [[Hne Hlen] Hctl]. split.
  - apply in_range_true. split; [|lia].
    pose proof (chars_le_len item). unfold chars_count in *. destruct item; [done|cbn in *; lia].
  - rewrite contains_line_break_false. rewrite existsb_false_Forall, Forall_forall in Hctl.
    split_and!; intros Hin; by specialize (Hctl _ Hin).
Qed.

Lemma sanitize_identifier_short v c : sanitize_identifier v = Some c -> c = v /\ chars_count c <= 128 /\ sanitize_identifier c = Some c.
Proof.
  unfold sanitize_identifier. destruct (_ || _ || _) eqn:E; [done|]. intros [= <-]. rewrite E.
  split; [done|]. split; [|done]. rewrite !orb_false_iff, Z.ltb_ge in E.
  pose proof (chars_le_len v). unfold MAX_IDENTIFIER_BYTES in E. lia.
Qed.

Lemma option_sanitize_short o c : o ≫= sanitize_identifier = Some c -> chars_count c <= 128 /\ sanitize_identifier c = Some c.
Proof. destruct o as [v|]; cbn; [|done]. by intros (_ & ? & ?)%sanitize_identifier_short. Qed.

Lemma sanitized_stable (o : option rstr) :
  short_text (o ≫= sanitize_identifier) ≫= sanitize_identifier = o ≫= sanitize_identifier.
Proof.
  destruct (o ≫= sanitize_identifier) as [c|] eqn:E; [|done]. cbn.
  apply option_sanitize_short in E as [Hc Hs]. apply Z.leb_le in Hc. rewrite Hc. cbn. exact Hs.
Qed.

Lemma parse_outcome_name o : parse_outcome (outcome_name o) = Ok o.
Proof. by destruct o; vm_compute. Qed.

(** ** The store's invariant *)
Section store.
Context `{ChronoLaws}.

(** A row that the readers accept. *)
Definition row_ok (row : RawRunRecord) : Prop :=
  row_check row = true /\ exists r, record_of_row row = Ok r.

Record history_ok (db : HistoryDb) : Prop := {
  ho_version : 0 <= db_version db <= HISTORY_SCHEMA_VERSION;
  ho_ids : NoDup (hr_id <$> db_rows db);
  ho_last : 0 <= db_last_id db /\ Forall (fun row => hr_id row <= db_last_id db) (db_rows db);
  ho_rows : Forall row_ok (db_rows db);
  ho_bound : Z.of_nat (length (db_rows db)) <= MAX_STORED_RUNS
}.
Definition store_ok (db : option HistoryDb) : Prop :=
  match db with None => True | Some db => history_ok db end.

(** A run the service can hand over: unsigned counts and valid instants. *)
Record run_ok (run : CompletedBackupRun) : Prop := {
  ro_started : valid_datetime (cr_started_at run);
  ro_completed : valid_datetime (cr_completed_at run);
  ro_counts : Forall (fun o => match o with Some n => 0 <= n | None => True end)
                [cr_files_processed run; cr_bytes_processed run; cr_data_added run];
  ro_omitted : 0 <= cr_failed_items_omitted run
}.

(** The row [append] inserts. *)
Definition row_of_run (id : Z) (run : CompletedBackupRun) : RawRunRecord :=
  let details := normalize_failure_details (cr_failed_items run) (cr_failed_items_omitted run) in
  {| hr_id := id;
     hr_started_at_ms := timestamp_millis (cr_started_at run);
     hr_completed_at_ms := timestamp_millis (cr_completed_at run);
     hr_outcome := outcome_name (cr_outcome run);
     hr_error_code := cr_error_code run ≫= sanitize_identifier;
     hr_files_processed := to_sql_integer <$> (normalize_sql_unsigned <$> cr_files_processed run);
     hr_bytes_processed := to_sql_integer <$> (normalize_sql_unsigned <$> cr_bytes_processed run);
     hr_data_added := to_sql_integer <$> (normalize_sql_unsigned <$> cr_data_added run);
     hr_snapshot_id := cr_snapshot_id run ≫= sanitize_identifier;
     hr_failed_items_omitted := to_sql_integer (sf_omitted details);
     hr_failed_items := sf_items details |}.

Definition record_of_run (id : Z) (run : CompletedBackupRun) : BackupRunRecord :=
  let details := normalize_failure_details (cr_failed_items run) (cr_failed_items_omitted run) in
  {| br_id := id;
     br_started_at := timestamp_millis (cr_started_at run) * 1_000_000;
     br_completed_at := timestamp_millis (cr_completed_at run) * 1_000_000;
     br_outcome := cr_outcome run;
     br_error_code := cr_error_code run ≫= sanitize_identifier;
     br_files_processed := normalize_sql_unsigned <$> cr_files_processed run;
     br_bytes_processed := normalize_sql_unsigned <$> cr_bytes_processed run;
     br_data_added := normalize_sql_unsigned <$> cr_data_added run;
     br_snapshot_id := cr_snapshot_id run ≫= sanitize_identifier;
     br_failed_item_count := Z.of_nat (length (sf_items details)) + sf_omitted details |}.

Lemma timestamp_ok t : valid_datetime t -> timestamp (timestamp_millis t) = Ok (timestamp_millis t * 1_000_000).
Proof. intros Ht. unfold timestamp. by rewrite timestamp_millis_spec. Qed.

Lemma row_of_run_check id run : run_ok run -> row_check (row_of_run id run) = true.
Proof.
  intros [_ _ _ Ho]. pose proof (normalize_details_ok (cr_failed_items run) (cr_failed_items_omitted run)) as [Hb Hs _].
  destruct (normalize_omitted_bounds (cr_failed_items run) (cr_failed_items_omitted run) Ho) as [Hp Hle].
  unfold row_check, row_of_run. cbn [hr_outcome hr_error_code hr_snapshot_id hr_failed_items_omitted hr_failed_items].
  rewrite !andb_true_iff. cbn in Hb, Hs. unfold MAX_BACKUP_FAILED_ITEMS in Hb. split_and!.
  - destruct (cr_outcome run); by vm_compute.
  - destruct (cr_error_code run ≫= _) as [c|] eqn:E; [|done]. apply option_sanitize_short in E as [? _]. by apply Z.leb_le.
  - destruct (cr_snapshot_id run ≫= _) as [c|] eqn:E; [|done]. apply option_sanitize_short in E as [? _]. by apply Z.leb_le.
  - apply Z.leb_le. unfold to_sql_integer. destruct (Z.leb_spec (sf_omitted (normalize_failure_details (cr_failed_items run) (cr_failed_items_omitted run))) i64_max); [done|by vm_compute].
  - by apply Z.leb_le.
  - apply forallb_true_Forall. eapply Forall_impl; [exact Hs|]. apply safe_item_check.
Qed.

Lemma optional_unsigned_run o :
  match o with Some n => 0 <= n | None => True end ->
  optional_unsigned (to_sql_integer <$> (normalize_sql_unsigned <$> o)) = Ok (normalize_sql_unsigned <$> o).
Proof.
  destruct o as [n|]; [|done]. intros Hn. cbn. unfold to_sql_integer, normalize_sql_unsigned, from_sql_integer.
  destruct (Z.leb_spec (Z.min n i64_max) i64_max); [|lia].
  destruct (Z.leb_spec 0 (Z.min n i64_max)); [done|]. unfold i64_max in *. lia.
Qed.

(** What is stored reads back as the record that was returned. *)
Lemma record_of_row_of_run id run :
  run_ok run -> 0 <= id -> record_of_row (row_of_run id run) = Ok (record_of_run id run).
Proof.
  intros [Hs Hc Hn Ho] Hid. rewrite !Forall_cons in Hn. destruct Hn as (? & ? & ? & _).
  destruct (normalize_omitted_bounds (cr_failed_items run) (cr_failed_items_omitted run) Ho) as [Hp Hle].
  unfold record_of_row, row_of_run, record_of_run.
  cbn [hr_id hr_started_at_ms hr_completed_at_ms hr_outcome hr_error_code hr_files_processed hr_bytes_processed
       hr_data_added hr_snapshot_id hr_failed_items_omitted hr_failed_items].
  assert (from_sql_integer id = Ok id) as ->.
  { unfold from_sql_integer. by rewrite (proj2 (Z.leb_le 0 id)) by done. }
  cbn [mbind result_bind].
  rewrite !timestamp_ok by done. cbn [mbind result_bind]. rewrite parse_outcome_name. cbn [mbind result_bind].
  rewrite !optional_unsigned_run by done. cbn [mbind result_bind]. rewrite !sanitized_stable.
  assert (to_sql_integer (sf_omitted (normalize_failure_details (cr_failed_items run) (cr_failed_items_omitted run)))
          = sf_omitted (normalize_failure_details (cr_failed_items run) (cr_failed_items_omitted run))) as ->.
  { unfold to_sql_integer. destruct (Z.leb_spec (sf_omitted (normalize_failure_details (cr_failed_items run) (cr_failed_items_omitted run))) i64_max); [done|lia]. }
  unfold from_sql_integer. rewrite (proj2 (Z.leb_le 0 _)) by lia. cbn [mbind result_bind].
  do 2 f_equal. lia.
Qed.

Definition initialized (db : option HistoryDb) : HistoryDb :=
  match db with
  | None => {| db_version := HISTORY_SCHEMA_VERSION; db_last_id := 0; db_rows := [] |}
  | Some db => {| db_version := HISTORY_SCHEMA_VERSION; db_last_id := db_last_id db; db_rows := db_rows db |}
  end.

Lemma initialize_schema_ok db :
  store_ok db -> initialize_schema db = Ok (initialized db) /\ history_ok (initialized db).
Proof.
  destruct db as [db|]; cbn.
  - intros [[Hv1 Hv2] ? ? ? ?]. rewrite (proj2 (Z.ltb_ge _ _)) by done.
    rewrite (proj2 (in_range_true _ _ _)) by done. cbn. split; [done|].
    by constructor.
  - intros _. split; [done|]. by repeat constructor.
Qed.

Lemma append_ok run db :
  store_ok db -> run_ok run ->
  let init := initialized db in
  let id := db_last_id init + 1 in
  append true run db =
    (Ok (record_of_run id run),
     Some {| db_version := HISTORY_SCHEMA_VERSION; db_last_id := id;
             db_rows := prune (db_rows init ++ [row_of_run id run]) |}).
Proof.
  intros Hdb Hrun. cbn zeta. destruct (initialize_schema_ok db Hdb) as [Hi _].
  unfold append. rewrite Hi. cbn [negb].
  match goal with |- context [row_check ?r] => change r with (row_of_run (db_last_id (initialized db) + 1) run) end.
  rewrite (row_of_run_check _ _ Hrun). cbn [negb].
  destruct Hrun as [Hs Hc _ Ho]. rewrite !timestamp_ok by done. cbn [mbind result_bind].
  destruct (normalize_omitted_bounds (cr_failed_items run) (cr_failed_items_omitted run) Ho) as [Hp Hle].
  unfold record_of_run, u64_saturating_add, u64_max. unfold i64_max in Hle.
  rewrite Z.min_r by lia. by destruct db.
Qed.

Lemma fresh_id db run :
  history_ok db -> NoDup (hr_id <$> (db_rows db ++ [row_of_run (db_last_id db + 1) run])).
Proof.
  intros [_ Hn [_ Hl] _ _]. rewrite fmap_app. apply NoDup_app. split_and!; [done| |apply NoDup_singleton].
  intros i (row & -> & Hin)%list_elem_of_fmap Hi%list_elem_of_singleton. cbn in Hi.
  rewrite Forall_forall in Hl. specialize (Hl _ Hin). lia.
Qed.

Lemma prune_subset rows row : row ∈ prune rows -> row ∈ rows.
Proof. unfold prune. by intros [_ ?]%list_elem_of_filter. Qed.

Lemma append_preserves run db db' r :
  store_ok db -> run_ok run -> append true run db = (r, Some db') -> history_ok db'.
Proof.
  intros Hdb Hrun. rewrite append_ok by done. intros [= <- <-].
  destruct (initialize_schema_ok db Hdb) as [_ Hok]. pose proof (fresh_id _ run Hok) as Hnd.
  destruct Hok as [_ _ [Hl0 Hl] Hr _]. constructor; cbn.
  - unfold HISTORY_SCHEMA_VERSION. lia.
  - apply NoDup_ids_filter. exact Hnd.
  - split; [lia|]. apply Forall_forall. intros row [Hin|Hin]%prune_subset%elem_of_app.
    + rewrite Forall_forall in Hl. specialize (Hl _ Hin). lia.
    + apply list_elem_of_singleton in Hin as ->. done.
  - apply Forall_forall. intros row [Hin|Hin]%prune_subset%elem_of_app.
    + rewrite Forall_forall in Hr. by apply Hr.
    + apply list_elem_of_singleton in Hin as ->. split; [by apply row_of_run_check|].
      eexists. apply record_of_row_of_run; [done|lia].
  - pose proof (prune_length _ Hnd). unfold MAX_STORED_RUNS in *. lia.
Qed.

(** Appending a run never fails on a working database and keeps the
    history's invariant: at most two hundred runs with distinct increasing
    ids, each readable; the runs kept are the newest ones, and none that
    was dropped is newer than one that was kept. *)
Theorem append_keeps_newest (run : CompletedBackupRun) (db : option HistoryDb)
    (Hdb : store_ok db) (Hrun : run_ok run) :
  exists r db', append true run db = (Ok r, Some db') /\ history_ok db'
    /\ br_id r = db_last_id (initialized db) + 1
    /\ (forall kept dropped, kept ∈ db_rows db' ->
          dropped ∈ db_rows (initialized db) ++ [row_of_run (br_id r) run] -> dropped ∉ db_rows db' ->
          newer kept dropped).
Proof.
  pose proof (append_ok run db Hdb Hrun) as Happ. cbn zeta in Happ. eexists _, _. split; [exact Happ|].
  split; [by eapply append_preserves|]. split; [done|]. cbn [db_rows br_id record_of_run].
  destruct (initialize_schema_ok db Hdb) as [_ Hok]. pose proof (fresh_id _ run Hok) as Hnd.
  intros kept dropped Hk Hin Hd. rewrite elem_of_prune in Hk, Hd by done.
  eapply sorted_take_before; [apply newest_first_sorted|exact Hk|].
  rewrite <- newest_first_perm, <- (take_drop (Z.to_nat MAX_STORED_RUNS)), elem_of_app in Hin. tauto.
Qed.

Lemma newest_first_head rows row :
  NoDup (hr_id <$> rows) -> row ∈ rows -> (forall r, r ∈ rows -> newer row r) ->
  exists rest, newest_first rows = row :: rest.
Proof.
  intros Hnd Hin Hmax. pose proof (newest_first_sorted rows) as Hs.
  destruct (newest_first rows) as [|h rest] eqn:E.
  { rewrite <- (newest_first_perm rows), E in Hin. by apply elem_of_nil in Hin. }
  assert (h ∈ rows) as Hh by (rewrite <- (newest_first_perm rows), E; set_solver).
  rewrite <- (newest_first_perm rows), E in Hin. apply elem_of_cons in Hin as [->|Hin]; [by eexists|].
  inversion_clear Hs as [|? ? _ Hf]. rewrite Forall_forall in Hf. specialize (Hf _ Hin).
  assert (row ∈ rows) as Hr by (rewrite <- (newest_first_perm rows), E; set_solver).
  rewrite (id_determines rows Hnd row h Hr Hh); [by eexists|].
  specialize (Hmax _ Hh). unfold newer in *. lia.
Qed.

(** The record an append returns is the one a reader sees: when the run
    completed no earlier than those stored, asking for the most recent run
    gives exactly that record back. *)
Theorem append_then_recent (run : CompletedBackupRun) (db : option HistoryDb)
    (Hdb : store_ok db) (Hrun : run_ok run)
    (Hlatest : Forall (fun row => hr_completed_at_ms row <= timestamp_millis (cr_completed_at run))
                 (db_rows (initialized db))) :
  exists r db', append true run db = (Ok r, db') /\ recent_runs true 1 db' = Ok [r].
Proof.
  pose proof (append_ok run db Hdb Hrun) as Happ. cbn zeta in Happ. eexists _, _. split; [exact Happ|].
  pose proof (append_preserves _ _ _ _ Hdb Hrun Happ) as Hok'.
  destruct (initialize_schema_ok db Hdb) as [_ Hok]. pose proof (fresh_id _ run Hok) as Hnd.
  unfold recent_runs. cbn [negb].
  destruct (initialize_schema_ok _ (Hok' : store_ok (Some _))) as [-> _]. cbn [mbind result_bind initialized db_rows].
  set (init := initialized db) in *. set (row := row_of_run (db_last_id init + 1) run) in *.
  assert (forall r, r ∈ db_rows init ++ [row] -> newer row r) as Hmax.
  { intros r Hr'. apply elem_of_app in Hr' as [Hr|Hr']; [|apply list_elem_of_singleton in Hr' as ->; unfold newer; lia].
    rewrite Forall_forall in Hlatest. specialize (Hlatest _ Hr). destruct Hok as [_ _ [_ Hl] _ _].
    rewrite Forall_forall in Hl. specialize (Hl _ Hr). unfold newer. cbn. lia. }
  destruct (newest_first_head _ row Hnd ltac:(set_solver) Hmax) as [rest Hrest].
  assert (row ∈ prune (db_rows init ++ [row])) as Hin.
  { apply elem_of_prune; [done|]. rewrite Hrest. unfold MAX_STORED_RUNS. cbn. set_solver. }
  destruct (newest_first_head (prune (db_rows init ++ [row])) row) as [rest' ->]; try done.
  { apply NoDup_ids_filter, Hnd. }
  { intros r Hr. apply Hmax. by apply prune_subset. }
  cbn [take Z.to_nat Z.max Z.min MAX_HISTORY_RESULTS]. change (Z.to_nat (Z.max 1 (Z.min 1 MAX_HISTORY_RESULTS))) with 1%nat.
  cbn [take collect]. unfold row. rewrite record_of_row_of_run; [done|done|].
  destruct Hok as [_ _ [? _] _ _]. unfold init in *. lia.
Qed.

Definition retain (items : list rstr) (item : rstr) : list rstr :=
  if is_safe_backup_failed_item item && negb (existsb (fun e => str_eqb e item) items)
  then items ++ [item] else items.

Lemma retain_ok items acc :
  Forall (fun i => is_safe_backup_failed_item i = true) acc -> NoDup acc ->
  let out := fold_left retain items acc in
  Forall (fun i => is_safe_backup_failed_item i = true) out /\ NoDup out
  /\ (length out <= length acc + length items)%nat.
Proof.
  revert acc. induction items as [|i items IH]; intros acc Hs Hn; cbn; [split_and!; (done || lia)|].
  assert (Forall (fun i => is_safe_backup_failed_item i = true) (retain acc i) /\ NoDup (retain acc i)
          /\ (length (retain acc i) <= S (length acc))%nat) as (Hs' & Hn' & Hl').
  { unfold retain. destruct (_ && _) eqn:E; [|split_and!; (done || lia)].
    apply andb_true_iff in E as [Hi He]. apply negb_true_iff in He. split_and!.
    - apply Forall_app. auto.
    - apply NoDup_app. split_and!; [done| |apply NoDup_singleton].
      intros x Hx ->%list_elem_of_singleton. apply existsb_str_eqb in Hx. congruence.
    - rewrite length_app. cbn. lia. }
  destruct (IH (retain acc i) Hs' Hn') as (? & ? & ?). split_and!; (done || lia).
Qed.

Lemma collect_ok rows : Forall row_ok rows -> exists rs, collect rows = Ok rs /\ length rs = length rows.
Proof.
  induction 1 as [|row rows [_ [r Hr]] _ (rs & Hrs & Hl)]; cbn; [by eexists|].
  rewrite Hr, Hrs. cbn. eexists. split; [done|]. cbn. by rewrite Hl.
Qed.

(** Reading the history of a well-formed store never fails and never
    returns more than was asked for, a hundred at most; failure details are
    safe, distinct, bounded, and together with the omitted count account
    for every item the run stored. *)
Theorem history_reads_total (db : option HistoryDb) (limit run_id : Z) (Hdb : store_ok db) :
  (exists runs, recent_runs true limit db = Ok runs /\ Z.of_nat (length runs) <= Z.max 1 (Z.min limit 100))
  /\ exists d, failure_details true run_id db = Ok d
     /\ forall details, d = Some details ->
          details_ok {| bfd_items := sf_items details; bfd_omitted := 0 |}
          /\ exists row, row ∈ db_rows (initialized db) /\ hr_id row = run_id
               /\ (hr_failed_items_omitted row + Z.of_nat (length (hr_failed_items row)) <= u64_max ->
                   Z.of_nat (length (sf_items details)) + sf_omitted details
                   = hr_failed_items_omitted row + Z.of_nat (length (hr_failed_items row))).
Proof.
  destruct (initialize_schema_ok db Hdb) as [Hi Hok]. split.
  - unfold recent_runs. destruct db as [db|]; [|eexists; split; [done|cbn; lia]].
    rewrite Hi. cbn [negb mbind result_bind].
    destruct (collect_ok (take (Z.to_nat (Z.max 1 (Z.min limit MAX_HISTORY_RESULTS)))
                (newest_first (db_rows (initialized (Some db)))))) as (rs & -> & Hl).
    { apply Forall_take. rewrite newest_first_perm. apply Hok. }
    eexists. split; [done|]. rewrite Hl, length_take. unfold MAX_HISTORY_RESULTS. lia.
  - unfold failure_details. destruct db as [db|]; [|by eexists].
    destruct (i64_max <? run_id); [by eexists|]. rewrite Hi. cbn [negb mbind result_bind].
    destruct (find _ _) as [row|] eqn:Hf; [|by eexists].
    apply find_some in Hf as [Hin%list_elem_of_In Hid%Z.eqb_eq].
    pose proof (ho_rows _ Hok) as Hr. rewrite Forall_forall in Hr. destruct (Hr _ Hin) as [Hc _].
    unfold row_check in Hc. rewrite !andb_true_iff, !Z.leb_le in Hc. destruct Hc as [[[[_ _] Ho] Hlen] _].
    unfold from_sql_integer. rewrite !(proj2 (Z.leb_le 0 _)) by lia. cbn [mbind result_bind].
    eexists. split; [done|]. intros details [= <-]. cbn [sf_items sf_omitted].
    change (fold_left _ ?l []) with (fold_left retain l []).
    destruct (retain_ok (take (Z.to_nat MAX_BACKUP_FAILED_ITEMS) (hr_failed_items row)) [] ltac:(constructor) ltac:(constructor))
      as (Hs & Hn & Hl). cbn in Hl. rewrite length_take in Hl. unfold MAX_BACKUP_FAILED_ITEMS in Hl at 2.
    split.
    + constructor; cbn; [unfold MAX_BACKUP_FAILED_ITEMS at 2; lia|done|done].
    + exists row. split_and!; [done|done|]. intros Hfit. unfold u64_saturating_add, saturating_sub. lia.
Qed.
End store.

Module HistoryWitness.
Import ChronoExample.
Definition run : CompletedBackupRun :=
  {| cr_started_at := seconds 100; cr_completed_at := seconds 160; cr_outcome := Run_SucceededWithWarnings;
     cr_error_code := Some (lit "restic_partial_source"); cr_files_processed := Some 3; cr_bytes_processed := Some 9;
     cr_data_added := None; cr_snapshot_id := Some (lit "not an id!"); cr_failed_items := [lit "C:\\a"; lit "C:\\a"; []];
     cr_failed_items_omitted := 1 |}.
Lemma run_example : run_ok run.
Proof. split; [split; vm_compute; discriminate..| |vm_compute; discriminate]. repeat constructor; vm_compute; discriminate. Qed.

Lemma append_witness :
  exists r db', append true run None = (Ok r, Some db') /\ history_ok db'.
Proof. destruct (append_keeps_newest run None I run_example) as (r & db' & H1 & H2 & _). by exists r, db'. Defined.

Lemma append_then_recent_witness :
  exists r db', append true run None = (Ok r, db') /\ recent_runs true 1 db' = Ok [r].
Proof. apply (append_then_recent run None I run_example). constructor. Defined.

Lemma history_reads_witness :
  exists runs, recent_runs true 7 None = Ok runs /\ Z.of_nat (length runs) <= Z.max 1 (Z.min 7 100).
Proof. apply (history_reads_total None 7 1 I). Defined.

Example stored_run :
  exists r db, append true run None = (Ok r, db) /\ br_failed_item_count r = 3 /\ br_snapshot_id r = None
    /\ failure_details true 1 db = Ok (Some {| sf_items := [lit "C:\\a"]; sf_omitted := 2 |}).
Proof. eexists _, _. split; [vm_compute; reflexivity|]. vm_compute. done. Qed.
End HistoryWitness.
