(* ===== verification/Credentials.v ===== *)
(** * Protected credentials ([crates/resticpal-windows/src/credentials.rs])

    The DPAPI-backed store: one file per opaque reference.  DPAPI is a
    parameter; filesystem calls succeed or fail as the [io] arguments say.
    [AtomicFile] opens up the replacement of a file into its calls. *)
From stdpp Require Import base option list gmap strings.
From S2P Require Import Prelude RustStd Config.

Definition FILE_MAGIC : list Z := lit "RESTICPAL-CREDENTIAL" ++ [1].
Definition MAX_SECRET_BYTES : Z := 32 * 1024.
Definition MAX_PROTECTED_BYTES : Z := 128 * 1024.
Definition RANDOM_REFERENCE_BYTES : nat := 16.
Definition REFERENCE_GENERATION_ATTEMPTS : nat := 8.

Class Dpapi := {
  protect_data : list Z -> option (list Z);    (* [CryptProtectData] *)
  unprotect_data : list Z -> option (list Z)   (* [CryptUnprotectData] *)
}.
(** What was protected under this identity is recovered, and a protected
    blob is never empty. *)
Class DpapiLaws `{Dpapi} : Prop := {
  unprotect_protect s p : protect_data s = Some p -> unprotect_data p = Some s;
  protect_nonempty s p : protect_data s = Some p -> p <> []
}.

Inductive CredentialStoreError : Type :=
| InvalidReference | EmptySecret | SecretTooLarge | ProtectedDataTooLarge | ReferenceGenerationFailed
| CredentialNotFound | InvalidFormat | InvalidPlaintext | UnsafeStoreDirectory | UnexpectedStoreEntry
| InvalidSecurityDescriptor | InvalidTokenInformation | CE_Io | CE_Windows | CE_SidEncoding.

(** The contents of [<reference>.credential], by reference. *)
Abbreviation CredentialFiles := (gmap rstr (list Z)).

(** How [write_atomically] ends: before the replacement, after it with the
    new file left unprotected, or well. *)
Inductive WriteIo : Type := Write_Fails (error : CredentialStoreError) | Write_Unprotected | Write_Done.

(** What [get] meets: [symlink_metadata] fails (other than by not finding the
    file), the entry is a reparse point or no file, opening or reading fails, or all is well. *)
Inductive ReadIo : Type := Metadata_Fails | Metadata_Unexpected | Read_Fails | Read_Done.

(** [format!("{byte:02x}")] *)
Definition hex_digit (n : Z) : Z := if n <? 10 then 48 + n else 87 + n.
Definition hex_byte (b : Z) : rstr := [hex_digit (b / 16); hex_digit (b mod 16)].

Section store.
Context `{Dpapi}.

Definition validate_reference (reference : rstr) : result CredentialStoreError unit :=
  reject_if (negb (is_valid_secret_reference reference)) InvalidReference.

Definition write_atomically (io : WriteIo) (reference : rstr) (contents : list Z) (files : CredentialFiles)
    : result CredentialStoreError unit * CredentialFiles :=
  match io with
  | Write_Fails error => (Err error, files)
  | Write_Unprotected => (Err CE_Windows, <[reference := contents]> files)
  | Write_Done => (Ok tt, <[reference := contents]> files)
  end.

(** The contents of the file that is to hold the secret. *)
Definition sealed_contents (reference : rstr) (secret : list Z) : result CredentialStoreError (list Z) :=
  validate_reference reference ;;
  reject_if (match secret with [] => true | _ => false end) EmptySecret ;;
  reject_if (MAX_SECRET_BYTES <? Z.of_nat (length secret)) SecretTooLarge ;;
  protected ← ok_or (protect_data secret) CE_Windows;
  reject_if (MAX_PROTECTED_BYTES <? Z.of_nat (length protected)) ProtectedDataTooLarge ;;
  Ok (FILE_MAGIC ++ protected).

Definition put (io : WriteIo) (reference : rstr) (secret : list Z) (files : CredentialFiles)
    : result CredentialStoreError unit * CredentialFiles :=
  match sealed_contents reference secret with
  | Err error => (Err error, files)
  | Ok contents => write_atomically io reference contents files
  end.

(** [random k] is what the [k]-th [BCryptGenRandom] delivers; [io k] is how the
    attempt ends, [None] when already [try_exists] fails. *)
Fixpoint put_new_loop (attempts k : nat) (random : nat -> option (list Z)) (io : nat -> option WriteIo)
    (prefix : rstr) (secret : list Z) (files : CredentialFiles)
    : result CredentialStoreError rstr * CredentialFiles :=
  match attempts with
  | O => (Err ReferenceGenerationFailed, files)
  | S attempts =>
      match random k with
      | None => (Err CE_Windows, files)
      | Some bytes =>
          let suffix := flat_map hex_byte bytes in
          let reference := prefix ++ lit "-" ++ suffix in
          if negb (is_valid_secret_reference reference) then (Err InvalidReference, files)
          else match io k, files !! reference with
          | None, _ => (Err CE_Io, files)
          | Some _, Some _ => put_new_loop attempts (S k) random io prefix secret files
          | Some io, None => let '(stored, files) := put io reference secret files in ((_ ← stored; Ok reference), files)
          end
      end
  end.

Definition put_new (random : nat -> option (list Z)) (io : nat -> option WriteIo) (prefix : rstr) (secret : list Z)
    (files : CredentialFiles) : result CredentialStoreError rstr * CredentialFiles :=
  if negb (is_valid_secret_reference prefix) then (Err InvalidReference, files)
  else put_new_loop REFERENCE_GENERATION_ATTEMPTS 0 random io prefix secret files.

Definition get (io : ReadIo) (reference : rstr) (files : CredentialFiles) : result CredentialStoreError (list Z) :=
  validate_reference reference ;;
  reject_if (match io with Metadata_Fails => true | _ => false end) CE_Io ;;
  reject_if (match io with Metadata_Unexpected => true | _ => false end) UnexpectedStoreEntry ;;
  contents ← ok_or (files !! reference) CredentialNotFound;
  reject_if (match io with Read_Fails => true | _ => false end) CE_Io ;;
  reject_if (MAX_PROTECTED_BYTES + Z.of_nat (length FILE_MAGIC) <? Z.of_nat (length contents)) ProtectedDataTooLarge ;;
  protected ← ok_or (strip_prefix FILE_MAGIC contents) InvalidFormat;
  reject_if (match protected with [] => true | _ => false end) InvalidFormat ;;
  plaintext ← ok_or (unprotect_data protected) CE_Windows;
  reject_if (match plaintext with [] => true | _ => false end
             || (MAX_SECRET_BYTES <? Z.of_nat (length plaintext))) InvalidPlaintext ;;
  Ok plaintext.

Definition remove (io : bool) (reference : rstr) (files : CredentialFiles)
    : result CredentialStoreError CredentialFiles :=
  validate_reference reference ;;
  reject_if (negb io) CE_Io ;;
  Ok (base.delete reference files).
End store.

(** ** Properties *)
Lemma hex_digit_valid n : 0 <= n < 16 -> is_ascii_lowercase (hex_digit n) || is_ascii_digit (hex_digit n) = true.
Proof.
  intros Hn. unfold hex_digit, is_ascii_lowercase, is_ascii_digit. destruct (Z.ltb_spec n 10).
  - apply orb_true_iff. right. apply in_range_true. lia.
  - apply orb_true_iff. left. apply in_range_true. lia.
Qed.

Definition reference_char (b : Z) : bool := is_ascii_lowercase b || is_ascii_digit b || (b =? 45).

Lemma reference_char_ascii b : reference_char b = true -> utf8_char b = [b].
Proof.
  unfold reference_char, is_ascii_lowercase, is_ascii_digit, utf8_char.
  rewrite !orb_true_iff, !in_range_true, Z.eqb_eq. intros Hb. destruct (Z.ltb_spec b 0x80); [done|lia].
Qed.

Lemma reference_text s : forallb reference_char s = true -> utf8 s = s.
Proof.
  induction s as [|c s IH]; [done|]. cbn [forallb]. intros [Hc Hs]%andb_true_iff.
  change (utf8 (c :: s)) with (utf8_char c ++ utf8 s). by rewrite IH, reference_char_ascii.
Qed.

Lemma valid_reference_iff s :
  forallb reference_char s = true ->
  is_valid_secret_reference s = true <-> s <> [] /\ Z.of_nat (length s) <= MAX_SECRET_REFERENCE_BYTES.
Proof.
  intros Hs. unfold is_valid_secret_reference, str_len. rewrite (reference_text s Hs).
  fold reference_char. rewrite !andb_true_iff, negb_true_iff, str_is_empty_false, Z.leb_le.
  change (forallb (fun b => is_ascii_lowercase b || is_ascii_digit b || (b =? 45)) s) with (forallb reference_char s).
  tauto.
Qed.

(** Sixteen random bytes. *)
Definition random_ok (bytes : list Z) : Prop :=
  length bytes = RANDOM_REFERENCE_BYTES /\ Forall (fun b => 0 <= b < 256) bytes.

Lemma hex_suffix bytes :
  random_ok bytes -> forallb reference_char (flat_map hex_byte bytes) = true /\ length (flat_map hex_byte bytes) = 32%nat.
Proof.
  intros [Hl Hf]. split.
  - clear Hl. induction Hf as [|b bytes Hb _ IH]; [done|]. cbn [flat_map hex_byte app forallb].
    rewrite IH. unfold reference_char. rewrite !hex_digit_valid; [done| |].
    + apply Z.mod_pos_bound. lia.
    + split; [apply Z.div_pos; lia|apply Z.div_lt_upper_bound; lia].
  - assert (length (flat_map hex_byte bytes) = 2 * length bytes)%nat as ->.
    { clear. induction bytes as [|b bytes IH]; [done|]. cbn. rewrite IH. lia. }
    rewrite Hl. reflexivity.
Qed.

Lemma prefixed_reference_valid prefix bytes :
  forallb reference_char prefix = true -> Z.of_nat (length prefix) <= 31 -> random_ok bytes ->
  is_valid_secret_reference (prefix ++ lit "-" ++ flat_map hex_byte bytes) = true.
Proof.
  intros Hp Hl Hr. destruct (hex_suffix bytes Hr) as [Hh Hhl]. apply valid_reference_iff.
  - rewrite !forallb_app, Hp, Hh. done.
  - split; [by destruct prefix|]. rewrite !length_app, Hhl. unfold MAX_SECRET_REFERENCE_BYTES. change (length (lit "-")) with 1%nat. lia.
Qed.

(** Reading depends on the one file, and storing under a new reference
    leaves the others, also when it fails. *)
Section frame.
Context `{Dpapi}.

Lemma get_ext io reference files files' :
  files !! reference = files' !! reference -> get io reference files = get io reference files'.
Proof. unfold get. by intros ->. Qed.

Lemma put_files io reference secret files :
  (put io reference secret files).2 = files \/ exists contents, (put io reference secret files).2 = <[reference := contents]> files.
Proof. unfold put. destruct (sealed_contents _ _); [|by left]. destruct io; eauto. Qed.

Lemma put_new_loop_files attempts k random io prefix secret files r contents :
  files !! r = Some contents -> (put_new_loop attempts k random io prefix secret files).2 !! r = Some contents.
Proof.
  intros Hr. revert k. induction attempts as [|attempts IH]; intros k; cbn [put_new_loop]; [done|].
  destruct (random k) as [bytes|]; [|done]. cbv zeta. destruct (negb _); [done|].
  destruct (io k) as [w|]; [|done]. destruct (files !! (prefix ++ _)) eqn:Hf; [apply IH|].
  pose proof (put_files w (prefix ++ lit "-" ++ flat_map hex_byte bytes) secret files) as Hp.
  destruct (put _ _ _ _) as [stored files']. cbn [snd] in *. destruct Hp as [->|[c ->]]; [done|].
  rewrite lookup_insert_ne; [done|]. congruence.
Qed.

Lemma put_new_files random io prefix secret files r contents :
  files !! r = Some contents -> (put_new random io prefix secret files).2 !! r = Some contents.
Proof. unfold put_new. intros Hr. destruct (negb _); [done|]. by apply put_new_loop_files. Qed.
End frame.

Section properties.
Context `{DpapiLaws}.

Lemma put_Ok io reference secret files files' :
  put io reference secret files = (Ok tt, files') ->
  is_valid_secret_reference reference = true /\ secret <> [] /\ Z.of_nat (length secret) <= MAX_SECRET_BYTES
  /\ exists p, protect_data secret = Some p /\ Z.of_nat (length p) <= MAX_PROTECTED_BYTES
     /\ files' = <[reference := FILE_MAGIC ++ p]> files.
Proof.
  unfold put. destruct (sealed_contents reference secret) as [contents|] eqn:Hs; [|done]. intros Hw.
  unfold sealed_contents, validate_reference in Hs. rewrite !seq_Ok, !reject_if_Ok in Hs. destruct Hs as (Hv & Hne & Hl & Hp).
  apply bind_Ok in Hp as (p & Hpr%ok_or_Ok & Hp). rewrite !seq_Ok, !reject_if_Ok in Hp. destruct Hp as (Hpl & [= <-]).
  bool_steps. split_and!; try done; [by destruct secret|]. exists p. split_and!; [done..|]. destruct io; by injection Hw.
Qed.

Lemma get_stored reference secret p files :
  is_valid_secret_reference reference = true -> secret <> [] -> Z.of_nat (length secret) <= MAX_SECRET_BYTES ->
  protect_data secret = Some p -> Z.of_nat (length p) <= MAX_PROTECTED_BYTES ->
  files !! reference = Some (FILE_MAGIC ++ p) -> get Read_Done reference files = Ok secret.
Proof.
  intros Hv Hne Hl Hp Hpl Hf. unfold get, validate_reference. rewrite Hv, Hf. cbn [negb reject_if ok_or mbind result_bind].
  rewrite (proj2 (Z.ltb_ge _ _)) by (rewrite length_app; lia). cbn [reject_if mbind result_bind].
  rewrite (proj2 (strip_prefix_Some _ _ _) eq_refl). cbn [ok_or mbind result_bind].
  pose proof (protect_nonempty _ _ Hp). destruct p as [|c p]; [done|]. cbn [reject_if mbind result_bind].
  rewrite (unprotect_protect _ _ Hp). cbn [ok_or mbind result_bind].
  rewrite (proj2 (Z.ltb_ge _ _)) by done. by destruct secret.
Qed.

Lemma put_new_loop_Ok attempts k random io prefix secret files reference files' :
  put_new_loop attempts k random io prefix secret files = (Ok reference, files') ->
  files !! reference = None /\ is_valid_secret_reference reference = true
  /\ exists w, put w reference secret files = (Ok tt, files').
Proof.
  revert k. induction attempts as [|attempts IH]; intros k; cbn [put_new_loop]; [done|].
  destruct (random k) as [bytes|]; [|done]. cbv zeta.
  destruct (is_valid_secret_reference (prefix ++ _)) eqn:Hv; [cbn [negb]|done].
  destruct (io k) as [w|]; [|done]. destruct (files !! (prefix ++ _)) eqn:Hf; [apply IH|].
  destruct (put _ _ _ _) as [[[]|] files''] eqn:Hput; intros [= <- <-]; eauto.
Qed.

Lemma put_new_Ok random io prefix secret files reference files' :
  put_new random io prefix secret files = (Ok reference, files') ->
  files !! reference = None /\ is_valid_secret_reference reference = true
  /\ get Read_Done reference files' = Ok secret /\ exists contents, files' = <[reference := contents]> files.
Proof.
  unfold put_new. destruct (negb _); [done|].
  intros (Hfree & Hv & k & (_ & ? & ? & p & ? & ? & ->)%put_Ok)%put_new_loop_Ok. split_and!; try done; [|by eexists].
  eapply get_stored; eauto. by rewrite lookup_insert_eq.
Qed.

(** A stored secret is the one that comes back: after [put_new] under a
    reference that was free before, reading that reference returns the
    secret, every other credential is untouched, and removing the new
    reference restores the store. *)
Theorem credential_roundtrip (random : nat -> option (list Z)) (io : nat -> option WriteIo) (prefix reference : rstr)
    (secret : list Z) (files files' : CredentialFiles)
    (Hnew : put_new random io prefix secret files = (Ok reference, files')) :
  files !! reference = None /\ is_valid_secret_reference reference = true
  /\ get Read_Done reference files' = Ok secret
  /\ (forall r, r <> reference -> files' !! r = files !! r)
  /\ remove true reference files' = Ok files.
Proof.
  apply put_new_Ok in Hnew as (Hfree & Hv & Hget & contents & ->). split_and!; try done.
  - intros r Hr. by rewrite lookup_insert_ne.
  - unfold remove, validate_reference. rewrite Hv. cbn. f_equal. by apply delete_insert_id.
Qed.

(** The references the service creates for repository secrets are
    always well formed: with a working random source, working storage and
    a free name, storing a repository secret succeeds for every variable
    whose value DPAPI can protect within the limits. *)
Theorem put_new_succeeds (variable : SecretEnvironmentVariable) (bytes secret p : list Z) (files : CredentialFiles)
    (Hr : random_ok bytes) (Hne : secret <> []) (Hl : Z.of_nat (length secret) <= MAX_SECRET_BYTES)
    (Hp : protect_data secret = Some p) (Hpl : Z.of_nat (length p) <= MAX_PROTECTED_BYTES)
    (Hfree : files !! (reference_prefix variable ++ lit "-" ++ flat_map hex_byte bytes) = None) :
  exists reference files', put_new (fun _ => Some bytes) (fun _ => Some Write_Done) (reference_prefix variable) secret files
    = (Ok reference, files') /\ is_valid_secret_reference reference = true.
Proof.
  assert (forallb reference_char (reference_prefix variable) = true
          /\ Z.of_nat (length (reference_prefix variable)) <= 31
          /\ is_valid_secret_reference (reference_prefix variable) = true) as (Hc & Hlen & Hv).
  { destruct variable; vm_compute; split_and!; (reflexivity || discriminate). }
  pose proof (prefixed_reference_valid _ _ Hc Hlen Hr) as Href.
  eexists _, _. split; [|exact Href]. unfold put_new. rewrite Hv. cbn [negb REFERENCE_GENERATION_ATTEMPTS put_new_loop].
  rewrite Href. cbn [negb]. rewrite Hfree. unfold put, sealed_contents, validate_reference. rewrite Href.
  cbn [negb reject_if mbind result_bind]. destruct secret as [|c secret]; [done|]. cbn [reject_if mbind result_bind].
  rewrite (proj2 (Z.ltb_ge _ _)) by done. cbn [reject_if mbind result_bind]. rewrite Hp. cbn [ok_or mbind result_bind].
  rewrite (proj2 (Z.ltb_ge _ _)) by done. reflexivity.
Qed.
End properties.

Module CredentialsWitness.
(** A "protection" that prepends a byte. *)
#[local] Instance toy_dpapi : Dpapi :=
  {| protect_data := fun s : list Z => Some (7 :: s);
     unprotect_data := fun p : list Z => match p with 7 :: s => Some s | _ => None end |}.
Lemma toy_dpapi_laws : DpapiLaws.
Proof. split; intros s p [= <-]; done. Qed.
Definition sixteen : list Z := [0; 1; 2; 3; 4; 5; 6; 7; 8; 9; 10; 11; 12; 13; 14; 255].

Lemma put_new_witness :
  exists reference files', put_new (fun _ => Some sixteen) (fun _ => Some Write_Done) (reference_prefix AwsSecretAccessKey)
    [112; 119] ∅ = (Ok reference, files') /\ is_valid_secret_reference reference = true.
Proof.
  apply (put_new_succeeds AwsSecretAccessKey sixteen [112; 119] [7; 112; 119] ∅);
    try done; try (vm_compute; discriminate).
  split; [done|]. repeat constructor; lia.
Defined.

Lemma credential_roundtrip_witness :
  exists reference files', put_new (fun _ => Some sixteen) (fun _ => Some Write_Done) (lit "restic-password") [112; 119] ∅
    = (Ok reference, files') /\ get Read_Done reference files' = Ok [112; 119].
Proof.
  assert (is_ok (put_new (fun _ => Some sixteen) (fun _ => Some Write_Done) (lit "restic-password") [112; 119] ∅).1 = true) as Hok
    by (vm_compute; reflexivity).
  destruct (put_new (fun _ => Some sixteen) (fun _ => Some Write_Done) (lit "restic-password") [112; 119] ∅)
    as [[reference|] files'] eqn:E; [|discriminate Hok].
  exists reference, files'. split; [reflexivity|].
  apply (@credential_roundtrip toy_dpapi toy_dpapi_laws _ _ _ _ _ _ _ E).
Defined.
End CredentialsWitness.
