(* ===== verification/AtomicFile.v ===== *)
(** * Replacing files ([apps/resticpal-service/src/atomic_file.rs] and
    [crates/resticpal-windows/src/credentials.rs])

    A file is replaced by writing a temporary file beside it and moving that
    over the target.  Both writers of the sources are modelled call by call on
    one directory, with every state in which the machine can stop, and so is
    [DpapiSecretStore::open], which clears up what an interrupted write left.
    What was written is lost or mangled by a crash unless [sync_all] has
    flushed it. *)
From stdpp Require Import base option list gmap strings.
From S2P Require Import Prelude RustStd Config Credentials.

(** The files of one directory. *)
Abbreviation Directory := (gmap rstr (list Z)).

Inductive AtomicFileError : Type := MissingParent | AF_Io | AF_Windows.

(** What Windows answers; a write may stop after some bytes. *)
Record WriteEnv : Type := {
  wv_open : bool;
  wv_stops : option nat;
  wv_sync : bool;
  wv_protect_temporary : bool;
  wv_move : bool;
  wv_protect_target : bool;
  wv_cleanup : bool
}.

(** The directory as the running system sees it, with the names whose files
    have not been flushed to the disk. *)
Record Volume : Type := { vo_files : Directory; vo_unsynced : gset rstr }.

(** What a crash can leave: the flushed files as they are, and of every
    other name anything at all, or nothing. *)
Definition after_crash (v : Volume) (d : Directory) : Prop :=
  forall name, name ∉ vo_unsynced v -> d !! name = vo_files v !! name.

(** Writing and creating leave a file unflushed, [sync_all] flushes it. *)
Definition write_file (name : rstr) (contents : list Z) (v : Volume) : Volume :=
  {| vo_files := <[name := contents]> (vo_files v); vo_unsynced := {[name]} ∪ vo_unsynced v |}.
Definition sync_file (name : rstr) (v : Volume) : Volume :=
  {| vo_files := vo_files v; vo_unsynced := vo_unsynced v ∖ {[name]} |}.
(** A removal may be undone by a crash. *)
Definition remove_file (name : rstr) (v : Volume) : Volume :=
  {| vo_files := base.delete name (vo_files v); vo_unsynced := {[name]} ∪ vo_unsynced v |}.

(** A computation that leaves a history of volumes, newest first, and the
    current one. *)
Definition Traced (A : Type) : Type := A * list Volume * Volume.

(** [create_new], [write_all] and [sync_all] on the temporary file. *)
Definition write_temporary (env : WriteEnv) (temporary : rstr) (contents : list Z) (v : Volume) : Traced bool :=
  if negb (wv_open env) || is_some (vo_files v !! temporary) then (false, [], v)
  else
    let created := write_file temporary [] v in
    match wv_stops env with
    | Some n => (false, [created; v], write_file temporary (take n contents) v)
    | None =>
        let written := write_file temporary contents v in
        if wv_sync env then (true, [written; created; v], sync_file temporary written)
        else (false, [created; v], written)
    end.

(** [TemporaryFile::drop] on a guard that was not disarmed. *)
Definition drop_temporary (env : WriteEnv) (temporary : rstr) (v : Volume) : Volume :=
  if wv_cleanup env then remove_file temporary v else v.

(** [MoveFileExW] with [MOVEFILE_REPLACE_EXISTING] and
    [MOVEFILE_WRITE_THROUGH]: one step, on the disk when it returns; the
    contents of the file are flushed only as far as they were. *)
Definition move_file_replacing (temporary target : rstr) (v : Volume) : Volume :=
  match vo_files v !! temporary with
  | Some contents =>
      {| vo_files := <[target := contents]> (base.delete temporary (vo_files v));
         vo_unsynced := if decide (temporary ∈ vo_unsynced v) then {[target]} ∪ vo_unsynced v else vo_unsynced v ∖ {[target]} |}
  | None => v
  end.

Section writers.
Context (env : WriteEnv) (temporary target : rstr) (contents : list Z).

(** [atomic_file::replace], in the parent directory. *)
Definition replace (parent create_dir_all : bool) (v : Volume) : Traced (result AtomicFileError unit) :=
  if negb parent then (Err MissingParent, [], v)
  else if negb create_dir_all then (Err AF_Io, [], v)
  else
    let '(written, history, v) := write_temporary env temporary contents v in
    if negb written then (Err AF_Io, v :: history, drop_temporary env temporary v)
    else if negb (wv_move env) then (Err AF_Windows, v :: history, drop_temporary env temporary v)
    else (Ok (), v :: history, move_file_replacing temporary target v).

(** [DpapiSecretStore::write_atomically], with the protection of the two files. *)
Definition write_credential (v : Volume) : Traced (result CredentialStoreError unit) :=
  let '(written, history, v) := write_temporary env temporary contents v in
  if negb written then (Err CE_Io, v :: history, drop_temporary env temporary v)
  else if negb (wv_protect_temporary env) then (Err CE_Windows, v :: history, drop_temporary env temporary v)
  else if negb (wv_move env) then (Err CE_Windows, v :: history, drop_temporary env temporary v)
  else
    let moved := move_file_replacing temporary target v in
    if negb (wv_protect_target env) then (Err CE_Windows, v :: history, moved)
    else (Ok (), v :: history, moved).
End writers.

(** ** Names *)
Definition FILE_EXTENSION : rstr := lit "credential".
(** [".{label}-{pid}-{n}.tmp"] *)
Definition replace_temporary (label : rstr) (process counter : Z) : rstr :=
  lit "." ++ label ++ lit "-" ++ to_string process ++ lit "-" ++ to_string counter ++ lit ".tmp".
(** [".tmp-{pid}-{n}"] and ["{reference}.credential"] *)
Definition credential_temporary (process counter : Z) : rstr :=
  lit ".tmp-" ++ to_string process ++ lit "-" ++ to_string counter.
Definition path_for (reference : rstr) : rstr := reference ++ lit "." ++ FILE_EXTENSION.

(** [str::split_once]: around the first occurrence. *)
Fixpoint split_once (c : Z) (s : rstr) : option (rstr * rstr) :=
  match s with
  | [] => None
  | x :: s => if x =? c then Some ([], s) else '(a, b) ← split_once c s; Some (x :: a, b)
  end.

Definition is_internal_temporary_name (name : rstr) : bool :=
  match strip_prefix (lit ".tmp-") name with
  | None => false
  | Some suffix =>
      match split_once 45 suffix with
      | None => false
      | Some (process, counter) =>
          negb (str_is_empty process) && negb (str_is_empty counter)
          && forallb is_ascii_digit process && forallb is_ascii_digit counter
      end
  end.

(** ** Opening the store *)
Inductive EntryKind : Type := EK_File | EK_Directory | EK_Reparse.

(** What Windows answers for each entry. *)
Record StoreEnv : Type := {
  so_create_dir_all : bool;
  so_directory : option EntryKind;          (* [symlink_metadata] of the root *)
  so_protect_root : bool;
  so_read_dir : bool;
  so_entries : list (rstr * option EntryKind);
  so_remove : rstr -> bool;
  so_protect : rstr -> bool
}.

Definition validate_directory (env : StoreEnv) : result CredentialStoreError unit :=
  match so_directory env with
  | None => Err CE_Io
  | Some EK_Directory => Ok ()
  | Some _ => Err UnsafeStoreDirectory
  end.

(** The loop over the entries: which files are removed and which are
    protected, in order. *)
Fixpoint open_entries (env : StoreEnv) (entries : list (rstr * option EntryKind)) (removed protected : list rstr)
    : result CredentialStoreError unit * list rstr * list rstr :=
  match entries with
  | [] => (Ok (), removed, protected)
  | (_, None) :: _ => (Err CE_Io, removed, protected)
  | (name, Some EK_File) :: entries =>
      if is_internal_temporary_name name then
        if so_remove env name then open_entries env entries (name :: removed) protected
        else (Err CE_Io, removed, protected)
      else if so_protect env name then open_entries env entries removed (name :: protected)
      else (Err CE_Windows, removed, protected)
  | (_, Some _) :: _ => (Err UnexpectedStoreEntry, removed, protected)
  end.

Definition open_store (env : StoreEnv) : result CredentialStoreError unit * list rstr * list rstr :=
  if negb (so_create_dir_all env) then (Err CE_Io, [], [])
  else match validate_directory env with
  | Err error => (Err error, [], [])
  | Ok _ =>
      if negb (so_protect_root env) then (Err CE_Windows, [], [])
      else if negb (so_read_dir env) then (Err CE_Io, [], [])
      else open_entries env (so_entries env) [] []
  end.

(** ** Names do not collide *)
Lemma split_once_at c a b : forallb (fun x => negb (x =? c)) a = true -> split_once c (a ++ c :: b) = Some (a, b).
Proof.
  induction a as [|x a IH]; cbn; [by rewrite Z.eqb_refl|]. intros [Hx Ha]%andb_true_iff. apply negb_true_iff in Hx.
  by rewrite Hx, IH.
Qed.

Lemma temporary_is_internal process counter :
  0 <= process -> 0 <= counter -> is_internal_temporary_name (credential_temporary process counter) = true.
Proof.
  intros Hp Hc. destruct (to_string_digits process Hp) as [Hpd Hpn], (to_string_digits counter Hc) as [Hcd Hcn].
  unfold is_internal_temporary_name, credential_temporary.
  rewrite (proj2 (strip_prefix_Some (lit ".tmp-") _ _) eq_refl). change (lit "-") with [45]. cbn [app]. rewrite split_once_at.
  - rewrite Hpd, Hcd. by destruct (to_string process), (to_string counter).
  - rewrite forallb_forall in *. intros x Hx. specialize (Hpd x Hx). unfold is_ascii_digit in Hpd. apply in_range_true in Hpd.
    apply negb_true_iff, Z.eqb_neq. lia.
Qed.

Lemma path_first reference :
  is_valid_secret_reference reference = true -> exists c rest, path_for reference = c :: rest /\ c <> 46.
Proof.
  unfold is_valid_secret_reference. rewrite !andb_true_iff. intros [[Hne _] Hf]. destruct reference as [|c rest]; [done|].
  exists c. eexists. split; [reflexivity|]. intros ->. by cbn in Hf.
Qed.

Lemma path_not_internal reference :
  is_valid_secret_reference reference = true -> is_internal_temporary_name (path_for reference) = false.
Proof.
  intros Hv. destruct (path_first reference Hv) as (c & rest & -> & Hc). unfold is_internal_temporary_name, strip_prefix.
  assert (starts_with (lit ".tmp-") (c :: rest) = false) as ->; [|done].
  change (lit ".tmp-") with [46; 116; 109; 112; 45]. cbn [starts_with]. by destruct (Z.eqb_spec 46 c); [subst|].
Qed.

Lemma path_for_inj r r' : path_for r = path_for r' -> r = r'.
Proof. unfold path_for. apply app_inv_tail. Qed.

(** ** Stopping anywhere *)

(** A volume between the old and the new one: the target is the old or the
    new file, nothing else but the temporary file differs, and nothing else
    was flushed and is no more. *)
Record between (temporary target : rstr) (contents : list Z) (v v' : Volume) : Prop := {
  bt_target : vo_files v' !! target = vo_files v !! target \/ vo_files v' !! target = Some contents;
  bt_others : forall name, name <> temporary -> name <> target -> vo_files v' !! name = vo_files v !! name;
  bt_synced : forall name, name <> temporary -> name ∈ vo_unsynced v' -> name ∈ vo_unsynced v
}.

Section replacement.
Context (env : WriteEnv) (temporary target : rstr) (contents : list Z).
Notation between' := (between temporary target contents).
Context (Hne : temporary <> target).

Lemma between_refl v : between' v v.
Proof. split; auto. Qed.

Lemma between_write v v' c : between' v v' -> between' v (write_file temporary c v').
Proof.
  intros [Ht Ho Hs]. split; cbn.
  - by rewrite lookup_insert_ne.
  - intros name H1 H2. rewrite lookup_insert_ne by done. by apply Ho.
  - intros name Hn [?%elem_of_singleton|?]%elem_of_union; [done|by apply Hs].
Qed.
Lemma between_sync v v' : between' v v' -> between' v (sync_file temporary v').
Proof. intros [Ht Ho Hs]. split; cbn; [done..|]. intros name Hn [? _]%elem_of_difference. by apply Hs. Qed.

Lemma between_drop v v' : between' v v' -> between' v (drop_temporary env temporary v').
Proof.
  unfold drop_temporary. destruct (wv_cleanup env); [|done]. intros [Ht Ho Hs]. split; cbn.
  - by rewrite lookup_delete_ne.
  - intros name H1 H2. rewrite lookup_delete_ne by done. by apply Ho.
  - intros name Hn [?%elem_of_singleton|?]%elem_of_union; [done|by apply Hs].
Qed.

(** What was written and flushed: the temporary file alone has changed. *)
Definition flushed (v v' : Volume) : Prop :=
  vo_files v !! temporary = None /\ vo_files v' = <[temporary := contents]> (vo_files v)
  /\ vo_unsynced v' = vo_unsynced v ∖ {[temporary]}.

Lemma write_temporary_spec v :
  let '(written, history, v') := write_temporary env temporary contents v in
  Forall (between' v) (v' :: history) /\ (forall name, name <> temporary -> vo_files v' !! name = vo_files v !! name)
  /\ (written = true -> flushed v v').
Proof.
  unfold write_temporary. destruct (wv_open env); cbn [negb orb]; [|split_and!; [by repeat constructor|done..]].
  destruct (vo_files v !! temporary) eqn:Ht; cbn [is_some]; [split_and!; [by repeat constructor|done..]|].
  destruct (wv_stops env) as [n|]; [|destruct (wv_sync env)]; (split_and!; [|intros name Hn; cbn; by rewrite lookup_insert_ne|]).
  all: try (repeat apply Forall_cons_2; auto using between_write, between_sync, between_refl).
  all: try done. intros _. split_and!; [done..|]. cbn. set_solver.
Qed.

Lemma moved_files v v' : flushed v v' ->
  vo_files (move_file_replacing temporary target v') = <[target := contents]> (vo_files v)
  /\ vo_unsynced (move_file_replacing temporary target v') = vo_unsynced v ∖ {[temporary]} ∖ {[target]}.
Proof.
  intros (Ht & Hf & Hu). unfold move_file_replacing. rewrite Hf, lookup_insert_eq. cbn. rewrite Hu.
  rewrite decide_False by set_solver. by rewrite delete_insert_id.
Qed.

Lemma between_done v v' : flushed v v' -> between' v (move_file_replacing temporary target v').
Proof.
  intros [Hf Hu]%moved_files. split; rewrite ?Hf, ?Hu.
  - right. by rewrite lookup_insert_eq.
  - intros name _ Hn. by rewrite lookup_insert_ne.
  - set_solver.
Qed.

Lemma drop_others (v v' : Volume) name :
  name <> temporary -> vo_files v' !! name = vo_files v !! name ->
  vo_files (drop_temporary env temporary v') !! name = vo_files v !! name.
Proof. intros Hn Hd. unfold drop_temporary. destruct (wv_cleanup env); [|done]. cbn. by rewrite lookup_delete_ne. Qed.

(** [replace] leaves the old file on every error and the new one, flushed, on success. *)
Lemma replace_spec parent create v :
  let '(r, history, v') := replace env temporary target contents parent create v in
  Forall (between' v) (v' :: history)
  /\ match r with
     | Ok _ => vo_files v' = <[target := contents]> (vo_files v) /\ target ∉ vo_unsynced v'
     | Err _ => forall name, name <> temporary -> vo_files v' !! name = vo_files v !! name
     end.
Proof.
  unfold replace. destruct parent; [|by repeat constructor]. destruct create; [|by repeat constructor]. cbn [negb].
  pose proof (write_temporary_spec v) as Hw. destruct (write_temporary env temporary contents v) as [[written history] v'].
  destruct Hw as (Hb & Ho & Hd). apply Forall_cons in Hb as Hb'. destruct Hb' as [Hbd _].
  destruct written; cbn [negb]; [destruct (wv_move env); cbn [negb]|].
  - specialize (Hd eq_refl). split; [constructor; [by apply between_done|done]|].
    destruct (moved_files _ _ Hd) as [-> ->]. set_solver.
  - split; [constructor; [by apply between_drop|done]|]. intros name Hn. apply drop_others; auto.
  - split; [constructor; [by apply between_drop|done]|]. intros name Hn. apply drop_others; auto.
Qed.

(** [write_atomically] differs in one way: the new file can be in place
    although an error is reported. *)
Lemma write_credential_spec v :
  let '(r, history, v') := write_credential env temporary target contents v in
  Forall (between' v) (v' :: history)
  /\ (r = Ok () -> vo_files v' !! target = Some contents /\ target ∉ vo_unsynced v')
  /\ exists io, r = (write_atomically io target contents (vo_files v)).1
       /\ forall name, name <> temporary -> vo_files v' !! name = (write_atomically io target contents (vo_files v)).2 !! name.
Proof.
  unfold write_credential.
  pose proof (write_temporary_spec v) as Hw. destruct (write_temporary env temporary contents v) as [[written history] v'].
  destruct Hw as (Hb & Ho & Hd). apply Forall_cons in Hb as Hb'. destruct Hb' as [Hbd _].
  assert (forall e, Forall (between' v) (drop_temporary env temporary v' :: v' :: history) /\
    (@Err CredentialStoreError unit e = Ok () -> vo_files (drop_temporary env temporary v') !! target = Some contents
       /\ target ∉ vo_unsynced (drop_temporary env temporary v')) /\
    exists io, Err e = (write_atomically io target contents (vo_files v)).1
      /\ forall name, name <> temporary ->
           vo_files (drop_temporary env temporary v') !! name = (write_atomically io target contents (vo_files v)).2 !! name)
    as Hfail.
  { intros e. split; [constructor; [by apply between_drop|done]|]. split; [done|]. exists (Write_Fails e). split; [done|].
    intros name Hn. apply drop_others; auto. }
  destruct written; cbn [negb]; [|apply Hfail]. destruct (wv_protect_temporary env); cbn [negb]; [|apply Hfail].
  destruct (wv_move env); cbn [negb]; [|apply Hfail]. specialize (Hd eq_refl).
  destruct (moved_files _ _ Hd) as [Hf Hu]. destruct (wv_protect_target env); cbn [negb].
  - split; [constructor; [by apply between_done|done]|]. split; [intros _; rewrite Hf, Hu, lookup_insert_eq; set_solver|].
    exists Write_Done. split; [done|]. intros name _. by rewrite Hf.
  - split; [constructor; [by apply between_done|done]|]. split; [done|].
    exists Write_Unprotected. split; [done|]. intros name _. by rewrite Hf.
Qed.
End replacement.

(** ** Starting again *)
Lemma open_entries_spec env entries removed protected removed' protected' :
  open_entries env entries removed protected = (Ok (), removed', protected') ->
  Forall (fun e => e.2 = Some EK_File) entries
  /\ (forall name, name ∈ removed' <-> name ∈ removed \/ (name ∈ entries.*1 /\ is_internal_temporary_name name = true))
  /\ (forall name, name ∈ protected' <-> name ∈ protected \/ (name ∈ entries.*1 /\ is_internal_temporary_name name = false)).
Proof.
  revert removed protected. induction entries as [|[name kind] entries IH]; intros removed protected; cbn [open_entries].
  - intros [= <- <-]. split; [constructor|]. set_solver.
  - destruct kind as [[| |]|]; try done. destruct (is_internal_temporary_name name) eqn:En.
    + destruct (so_remove env name); [|done]. intros (Hf & Hr & Hp)%IH. split; [by constructor|]. cbn.
      split; intros x; [rewrite Hr|rewrite Hp]; rewrite !elem_of_cons; [|naive_solver congruence].
      split; [intros [[->|?]|[? ?]]; auto|]. intros [?|[[->|?] ?]]; auto.
    + destruct (so_protect env name); [|done]. intros (Hf & Hr & Hp)%IH. split; [by constructor|]. cbn.
      split; intros x; [rewrite Hr|rewrite Hp]; rewrite !elem_of_cons; [naive_solver congruence|].
      split; [intros [[->|?]|[? ?]]; auto|]. intros [?|[[->|?] ?]]; auto.
Qed.

(** The directory after the files were removed. *)
Definition without (names : list rstr) (dir : Directory) : Directory := foldr base.delete dir names.
Lemma without_lookup names dir name : without names dir !! name = if bool_decide (name ∈ names) then None else dir !! name.
Proof.
  unfold without. induction names as [|n names IH]; cbn [foldr]; [done|].
  destruct (decide (n = name)) as [->|Hn].
  - rewrite lookup_delete_eq. by rewrite bool_decide_eq_true_2 by (by apply elem_of_cons; left).
  - rewrite lookup_delete_ne, IH by done. apply (f_equal (fun b : bool => if b then None else _)), bool_decide_ext.
    rewrite elem_of_cons. naive_solver.
Qed.

Lemma temporary_is_no_credential process counter :
  0 <= process -> 0 <= counter ->
  forall r, is_valid_secret_reference r = true -> credential_temporary process counter <> path_for r.
Proof.
  intros Hp Hc r Hr E. pose proof (temporary_is_internal process counter Hp Hc). pose proof (path_not_internal r Hr). congruence.
Qed.

(** The store's coarse description of a write covers the calls it makes. *)
Lemma write_atomically_refined (env : WriteEnv) (process counter : Z) (reference : rstr) (contents : list Z)
    (v v' : Volume) (r : result CredentialStoreError unit) (history : list Volume) (files : CredentialFiles) :
  0 <= process -> 0 <= counter -> is_valid_secret_reference reference = true ->
  (forall x, is_valid_secret_reference x = true -> files !! x = vo_files v !! path_for x) ->
  write_credential env (credential_temporary process counter) (path_for reference) contents v = (r, history, v') ->
  exists io, r = (write_atomically io reference contents files).1
    /\ forall x, is_valid_secret_reference x = true ->
         (write_atomically io reference contents files).2 !! x = vo_files v' !! path_for x.
Proof.
  intros Hprocess Hcounter Hvalid Hfiles Hwrite.
  pose proof (temporary_is_no_credential process counter Hprocess Hcounter) as Hne.
  pose proof (write_credential_spec env _ (path_for reference) contents (Hne _ Hvalid) v) as Hw.
  rewrite Hwrite in Hw. destruct Hw as (_ & _ & io & -> & Hd).
  exists io. split; [by destruct io|]. intros x Hx. rewrite (Hd (path_for x)) by (by apply not_eq_sym, Hne).
  destruct (decide (x = reference)) as [->|Hn].
  - destruct io; cbn; rewrite ?lookup_insert_eq; auto.
  - assert (path_for reference <> path_for x) by (by intros E%path_for_inj).
    destruct io; cbn; rewrite ?lookup_insert_ne by done; auto.
Qed.

(** C24: a credential write is all or nothing across a crash.  Wherever the
    machine stops while a credential is being replaced, and whatever it
    makes of files that were not flushed, opening the store again (all its
    calls succeeding) leaves that credential with its old or its new
    contents, every other one as it was, and no temporary file.  When the
    write has succeeded, a crash finds the new contents.  Without a crash
    the call fails with the old file, fails with the new one in place, or
    succeeds with the new one, and touches no other credential; all
    credentials are flushed again. *)
Theorem interrupted_write_is_repaired (env : WriteEnv) (process counter : Z) (reference : rstr)
    (contents : list Z) (v v' : Volume) (r : result CredentialStoreError unit) (history : list Volume)
    (Hprocess : 0 <= process) (Hcounter : 0 <= counter) (Hvalid : is_valid_secret_reference reference = true)
    (Hsynced : forall x, is_valid_secret_reference x = true -> path_for x ∉ vo_unsynced v)
    (Hwrite : write_credential env (credential_temporary process counter) (path_for reference) contents v = (r, history, v')) :
  (forall stopped d store removed protected,
     stopped ∈ v' :: history -> after_crash stopped d ->
     (forall name, is_Some (d !! name) <-> name ∈ (so_entries store).*1) ->
     open_store store = (Ok (), removed, protected) ->
     (without removed d !! path_for reference = vo_files v !! path_for reference
      \/ without removed d !! path_for reference = Some contents)
     /\ (forall other, is_valid_secret_reference other = true -> other <> reference ->
           without removed d !! path_for other = vo_files v !! path_for other)
     /\ (forall name, is_Some (without removed d !! name) -> is_internal_temporary_name name = false))
  /\ (r = Ok () -> forall d, after_crash v' d -> d !! path_for reference = Some contents)
  /\ (vo_files v' !! path_for reference = vo_files v !! path_for reference /\ is_ok r = false
      \/ vo_files v' !! path_for reference = Some contents)
  /\ (forall files, (forall x, is_valid_secret_reference x = true -> files !! x = vo_files v !! path_for x) ->
        exists io, r = (write_atomically io reference contents files).1
          /\ forall x, is_valid_secret_reference x = true ->
               (write_atomically io reference contents files).2 !! x = vo_files v' !! path_for x)
  /\ (forall x, is_valid_secret_reference x = true -> path_for x ∉ vo_unsynced v').
Proof.
  pose proof (temporary_is_no_credential process counter Hprocess Hcounter) as Hne.
  pose proof (write_credential_spec env _ (path_for reference) contents (Hne _ Hvalid) v) as Hw.
  rewrite Hwrite in Hw. destruct Hw as (Hb & Hok & io & Hr & Hd).
  assert (forall x v1, is_valid_secret_reference x = true -> v1 ∈ v' :: history -> path_for x ∉ vo_unsynced v1) as Hsync.
  { intros x v1 Hx Hin Hu. apply (Hsynced x Hx). pose proof (proj1 (Forall_forall _ _) Hb v1 Hin) as [_ _ Hs].
    apply Hs; [by apply not_eq_sym, Hne|done]. }
  split_and!.
  - intros stopped d store removed protected Hin Hcrash Hentries Hopen.
    pose proof (proj1 (Forall_forall _ _) Hb stopped Hin) as [Ht Ho _].
    unfold open_store in Hopen. destruct (negb _) in Hopen; [done|]. destruct (validate_directory store); [|done].
    destruct (negb _) in Hopen; [done|]. destruct (negb _) in Hopen; [done|].
    apply open_entries_spec in Hopen as (_ & Hrem & _).
    assert (forall x, is_valid_secret_reference x = true -> without removed d !! path_for x = vo_files stopped !! path_for x) as Hkeep.
    { intros x Hx. rewrite without_lookup, bool_decide_eq_false_2; [exact (Hcrash _ (Hsync x stopped Hx Hin))|].
      rewrite Hrem, path_not_internal by done. set_solver. }
    split_and!.
    + by rewrite Hkeep.
    + intros other Hv Hn. rewrite Hkeep by done. apply Ho; [by apply not_eq_sym, Hne|]. by intros E%path_for_inj.
    + intros name [c Hc]. rewrite without_lookup in Hc. case_bool_decide as Hin'; [done|].
      destruct (is_internal_temporary_name name) eqn:En; [|done]. exfalso. apply Hin', Hrem. right. split; [|done].
      apply Hentries. by exists c.
  - intros ->. destruct (Hok eq_refl) as [Hf Hu]. intros d Hc. by rewrite (Hc _ Hu).
  - rewrite (Hd (path_for reference)) by (by apply not_eq_sym, Hne). rewrite Hr.
    destruct io; cbn; rewrite ?lookup_insert_eq; auto.
  - intros files Hfiles. exact (write_atomically_refined env process counter reference contents v v' r history files
      Hprocess Hcounter Hvalid Hfiles Hwrite).
  - intros x Hx. apply Hsync; [done|left].
Qed.

Module AtomicFileWitness.
Definition working : WriteEnv :=
  {| wv_open := true; wv_stops := None; wv_sync := true; wv_protect_temporary := true; wv_move := true;
     wv_protect_target := true; wv_cleanup := true |}.
Definition reference : rstr := lit "restic-password-00".
Definition old : Volume := {| vo_files := {[path_for reference := [1; 2]]}; vo_unsynced := ∅ |}.
(** The power goes while the temporary file is being written, which leaves other bytes in it. *)
Definition stopped : Volume := write_file (credential_temporary 42 7) [3; 4; 5] old.
Definition found : Directory := <[credential_temporary 42 7 := [3; 0]]> (vo_files old).
Definition restarted : StoreEnv :=
  {| so_create_dir_all := true; so_directory := Some EK_Directory; so_protect_root := true; so_read_dir := true;
     so_entries := [(credential_temporary 42 7, Some EK_File); (path_for reference, Some EK_File)];
     so_remove := fun _ => true; so_protect := fun _ => true |}.

Lemma interrupted_write_witness :
  (without [credential_temporary 42 7] found !! path_for reference = Some [1; 2]
   \/ without [credential_temporary 42 7] found !! path_for reference = Some [3; 4; 5])
  /\ forall name, is_Some (without [credential_temporary 42 7] found !! name) -> is_internal_temporary_name name = false.
Proof.
  destruct (interrupted_write_is_repaired working 42 7 reference [3; 4; 5] old _ _ _ ltac:(lia) ltac:(lia)
    ltac:(vm_compute; reflexivity) ltac:(intros x _; apply not_elem_of_empty) eq_refl) as [Hstop _].
  destruct (Hstop stopped found restarted [credential_temporary 42 7] [path_for reference]) as (Hold & _ & Hnone).
  - right. right. left.
  - intros name Hn. cbn in Hn. unfold found, stopped. cbn.
    rewrite !lookup_insert_ne; [reflexivity|intros E..]; apply Hn; rewrite E; set_solver.
  - intros name. cbn [so_entries restarted fmap list_fmap fst]. rewrite !elem_of_cons, elem_of_nil. unfold found. cbn. split.
    + intros [c Hc]. destruct (decide (credential_temporary 42 7 = name)) as [->|H1]; [auto|].
      rewrite lookup_insert_ne in Hc by done. apply lookup_singleton_Some in Hc as [<- _]. auto.
    + intros [->|[->|[]]]; [rewrite lookup_insert_eq; eauto|]. destruct (decide (credential_temporary 42 7 = path_for reference)) as [E|Hn].
      * vm_compute in E. discriminate E.
      * rewrite lookup_insert_ne, lookup_singleton_eq by done. eauto.
  - vm_compute. reflexivity.
  - split; [exact Hold|exact Hnone].
Defined.
End AtomicFileWitness.
