(* ===== verification/DpapiCalls.v ===== *)
(** * The calls into DPAPI ([crates/resticpal-windows/src/credentials.rs])

    [protect_data] and [unprotect_data] around [CryptProtectData] and
    [CryptUnprotectData]: the blobs that go in, the allocations that come
    back, and what is done to that memory before it is released.  The two
    wrappers are the implementation behind the [Dpapi] interface the
    credential store is verified against. *)
From stdpp Require Import base option list gmap strings.
From S2P Require Import Prelude RustStd Config Credentials.

Definition OPTIONAL_ENTROPY : list Z := lit "resticpal credential store v1".

(** An allocation Windows returns: [pbData] may be null, [cbData] bytes. *)
Record Blob : Type := { bl_null : bool; bl_bytes : list Z }.

(** What happens to the memory of one allocation, in order. *)
Inductive MemoryEvent : Type := Mem_Zero (index : nat) | Mem_Free.
#[global] Instance MemoryEvent_eq_dec : EqDecision MemoryEvent.
Proof. solve_decision. Defined.

Class CryptApi := {
  crypt_protect : list Z -> list Z -> option Blob;     (* data and entropy *)
  crypt_unprotect : list Z -> list Z -> option Blob
}.
(** What is protected is never empty, has a 32-bit length and is recovered
    with the same entropy. *)
Class CryptLaws `{CryptApi} : Prop := {
  crypt_roundtrip s e b :
    crypt_protect s e = Some b ->
    bl_null b = false /\ bl_bytes b <> [] /\ Z.of_nat (length (bl_bytes b)) <= u32_max
    /\ exists b', crypt_unprotect (bl_bytes b) e = Some b' /\ bl_bytes b' = s /\ (s <> [] -> bl_null b' = false)
}.

(** ** The wrappers *)

(** [blob_for]: the length must fit a [u32]. *)
Definition blob_for (bytes : list Z) : result CredentialStoreError (list Z) :=
  reject_if (u32_max <? Z.of_nat (length bytes)) SecretTooLarge ;;
  Ok bytes.

(** [LocalBlob] *)
Definition as_slice (b : Blob) : list Z :=
  if bl_null b || bool_decide (bl_bytes b = []) then [] else bl_bytes b.
Definition drop_blob (zero_on_drop : bool) (b : Blob) : list MemoryEvent :=
  if bl_null b then []
  else (if zero_on_drop then Mem_Zero <$> seq 0 (length (bl_bytes b)) else []) ++ [Mem_Free].

Section wrappers.
Context `{CryptApi}.

(** The result with what was done to the returned allocation. *)
Definition protect_call (plaintext : list Z) : result CredentialStoreError (list Z) * list MemoryEvent :=
  match (input ← blob_for plaintext; entropy ← blob_for OPTIONAL_ENTROPY; Ok (input, entropy)) with
  | Err error => (Err error, [])
  | Ok (input, entropy) =>
      match crypt_protect input entropy with
      | None => (Err CE_Windows, [])
      | Some output => (Ok (as_slice output), drop_blob false output)
      end
  end.

Definition unprotect_call (protected : list Z) : result CredentialStoreError (list Z) * list MemoryEvent :=
  match (input ← blob_for protected; entropy ← blob_for OPTIONAL_ENTROPY; Ok (input, entropy)) with
  | Err error => (Err error, [])
  | Ok (input, entropy) =>
      match crypt_unprotect input entropy with
      | None => (Err CE_Windows, [])
      | Some output => (Ok (as_slice output), drop_blob true output)
      end
  end.

Definition ok {A} (r : result CredentialStoreError A) : option A := match r with Ok x => Some x | Err _ => None end.

#[global] Instance windows_dpapi : Dpapi :=
  {| protect_data := fun s => ok (protect_call s).1; unprotect_data := fun p => ok (unprotect_call p).1 |}.

(** ** Properties *)
Lemma blob_for_Ok bytes b : blob_for bytes = Ok b <-> b = bytes /\ Z.of_nat (length bytes) <= u32_max.
Proof.
  unfold blob_for. rewrite seq_Ok, reject_if_Ok, Z.ltb_ge. split; [intros [? [= <-]]|intros [-> ?]]; done.
Qed.

Lemma entropy_fits : blob_for OPTIONAL_ENTROPY = Ok OPTIONAL_ENTROPY.
Proof. reflexivity. Qed.

(** Lengths within the store's limits always fit. *)
Lemma blobs_fit bytes :
  Z.of_nat (length bytes) <= MAX_PROTECTED_BYTES ->
  (input ← blob_for bytes; entropy ← blob_for OPTIONAL_ENTROPY; Ok (input, entropy)) = Ok (bytes, OPTIONAL_ENTROPY).
Proof.
  intros Hl. rewrite (proj2 (blob_for_Ok bytes bytes)); [by rewrite entropy_fits|]. split; [done|].
  unfold MAX_PROTECTED_BYTES, u32_max in *. lia.
Qed.

Lemma protect_call_Ok s p events :
  protect_call s = (Ok p, events) ->
  exists b, crypt_protect s OPTIONAL_ENTROPY = Some b /\ p = as_slice b /\ events = drop_blob false b.
Proof.
  unfold protect_call. destruct (_ ≫= _) as [[input entropy]|] eqn:E; [|done].
  apply bind_Ok in E as (i & [-> _]%blob_for_Ok & E). apply bind_Ok in E as (e & [-> _]%blob_for_Ok & [= <- <-]).
  destruct (crypt_protect _ _) as [b|]; [|done]. intros [= <- <-]. by exists b.
Qed.

(** Only the limits of Windows are left as causes of a failure. *)
Lemma call_errors bytes :
  Z.of_nat (length bytes) <= MAX_PROTECTED_BYTES ->
  ((protect_call bytes).1 = Err CE_Windows <-> crypt_protect bytes OPTIONAL_ENTROPY = None)
  /\ ((unprotect_call bytes).1 = Err CE_Windows <-> crypt_unprotect bytes OPTIONAL_ENTROPY = None).
Proof.
  intros Hl. unfold protect_call, unprotect_call. rewrite blobs_fit by done.
  destruct (crypt_protect _ _), (crypt_unprotect _ _); done.
Qed.
End wrappers.

Section laws.
Context `{CryptLaws}.

(** The wrappers keep what the credential store relies on. *)
#[global] Instance windows_dpapi_laws : DpapiLaws.
Proof.
  assert (forall s p, protect_data s = Some p -> exists b, crypt_protect s OPTIONAL_ENTROPY = Some b /\ p = bl_bytes b
            /\ p <> [] /\ blob_for p = Ok p /\ exists b', crypt_unprotect p OPTIONAL_ENTROPY = Some b' /\ as_slice b' = s) as Hp.
  { intros s p. unfold protect_data. cbn. destruct (protect_call s) as [[x|] events] eqn:E; cbn; [|done]. intros [= ->].
    apply protect_call_Ok in E as (b & Hb & -> & _). pose proof (crypt_roundtrip _ _ _ Hb) as (Hn & Hne & Hl & b' & Hu & Hs & Hn').
    assert (as_slice b = bl_bytes b) as -> by (unfold as_slice; by rewrite Hn, bool_decide_false).
    exists b. split_and!; try done; [by apply blob_for_Ok|]. exists b'. split; [done|]. unfold as_slice. rewrite Hs.
    destruct s as [|c s]; [by rewrite orb_true_r|]. by rewrite Hn', bool_decide_false. }
  split.
  - intros s p Hs. destruct (Hp s p Hs) as (b & _ & _ & _ & Hb & b' & Hu & Ha). unfold unprotect_data. cbn.
    unfold unprotect_call. rewrite Hb, entropy_fits. cbn [mbind result_bind]. rewrite Hu. cbn. by rewrite Ha.
  - intros s p Hs. by destruct (Hp s p Hs) as (b & _ & _ & ? & _).
Qed.

(** The memory of an allocation: every byte is overwritten before it is
    released, and it is released once. *)
Definition wiped (length : nat) (events : list MemoryEvent) : Prop :=
  exists zeroed, events = zeroed ++ [Mem_Free] /\ Mem_Free ∉ zeroed
    /\ forall index, (index < length)%nat -> Mem_Zero index ∈ zeroed.

Lemma drop_blob_wipes b : bl_null b = false -> wiped (length (bl_bytes b)) (drop_blob true b).
Proof.
  intros Hn. unfold drop_blob. rewrite Hn. eexists. split; [done|]. split.
  - intros (i & ? & _)%list_elem_of_fmap. done.
  - intros i Hi. apply list_elem_of_fmap. exists i. split; [done|]. apply elem_of_seq. lia.
Qed.

Lemma unprotect_call_fits protected r events :
  unprotect_call protected = (r, events) -> Z.of_nat (length protected) <= u32_max ->
  match crypt_unprotect protected OPTIONAL_ENTROPY with
  | Some b =>
      if bl_null b then r = Ok [] /\ events = []
      else r = Ok (bl_bytes b) /\ wiped (length (bl_bytes b)) events
  | None => r = Err CE_Windows /\ events = []
  end.
Proof.
  intros E Hl. unfold unprotect_call in E. rewrite (proj2 (blob_for_Ok _ _) (conj eq_refl Hl)), entropy_fits in E.
  cbn [mbind result_bind] in E. destruct (crypt_unprotect protected OPTIONAL_ENTROPY) as [b|]; [|by injection E as <- <-].
  injection E as <- <-. unfold as_slice. destruct (bl_null b) eqn:Hn; cbn [orb].
  - unfold drop_blob. by rewrite Hn.
  - split; [|by apply drop_blob_wipes]. case_bool_decide as Hb; [by rewrite Hb|done].
Qed.

End laws.

Module DpapiWitness.
(** A "protection" that prepends the length of the entropy. *)
#[local] Instance toy_crypt : CryptApi :=
  {| crypt_protect := fun s e =>
       if Z.of_nat (length s) <? u32_max then Some {| bl_null := false; bl_bytes := Z.of_nat (length e) :: s |} else None;
     crypt_unprotect := fun p e =>
       match p with
       | n :: s => if n =? Z.of_nat (length e) then Some {| bl_null := false; bl_bytes := s |} else None
       | [] => None
       end |}.
#[local] Instance toy_crypt_laws : CryptLaws.
Proof.
  split. intros s e b. cbn. destruct (Z.ltb_spec (Z.of_nat (length s)) u32_max); [|done]. intros [= <-]. cbn -[Z.of_nat u32_max].
  split_and!; [done|done|lia|]. rewrite Z.eqb_refl. by eexists.
Qed.

End DpapiWitness.
