(* ===== verification/HistoryFile.v ===== *)
(** * The history database's file ([apps/resticpal-service/src/history.rs])

    What happens before a query of [History] can run: the checks of the
    directory and the database files, the connection, the creation or
    migration of the tables, and the protection of the files.  Every call and
    every SQL statement may fail; a transaction takes effect with its commit
    or not at all. *)
From stdpp Require Import base option list gmap strings.
From S2P Require Import Prelude RustStd Chrono Crates Config Status Protocol Outcome History Credentials AtomicFile.

(** ** The tables *)
Record RunRow : Type := {
  rr_id : Z;
  rr_started_at_ms : Z;
  rr_completed_at_ms : Z;
  rr_outcome : rstr;
  rr_error_code : option rstr;
  rr_files_processed : option Z;
  rr_bytes_processed : option Z;
  rr_data_added : option Z;
  rr_snapshot_id : option rstr;
  rr_omitted : option Z              (* [failed_items_omitted], when the column exists *)
}.
Record RunsTable : Type := { ta_omitted_column : bool; ta_rows : list RunRow; ta_last_id : Z; ta_index : bool }.
(** A row of [backup_run_failed_items], in key order. *)
Record ItemRow : Type := { ir_run_id : Z; ir_ordinal : Z; ir_item : rstr }.

Record SqlDb : Type := {
  sq_version : Z;                    (* [user_version] *)
  sq_runs : option RunsTable;
  sq_items : option (list ItemRow)
}.
Definition empty_db : SqlDb := {| sq_version := 0; sq_runs := None; sq_items := None |}.

(** Which statements succeed. *)
Abbreviation SqlIo := (nat -> bool).

(** ** [initialize_schema] *)
Definition table_exists (db : SqlDb) : bool := is_some (sq_runs db).
Definition column_exists (db : SqlDb) : bool := match sq_runs db with Some t => ta_omitted_column t | None => false end.

(** [ALTER TABLE backup_runs ADD COLUMN failed_items_omitted ... DEFAULT 0] *)
Definition add_omitted_column (t : RunsTable) : option RunsTable :=
  if ta_omitted_column t then None
  else Some {| ta_omitted_column := true;
               ta_rows := (fun row => {| rr_id := rr_id row; rr_started_at_ms := rr_started_at_ms row;
                                         rr_completed_at_ms := rr_completed_at_ms row; rr_outcome := rr_outcome row;
                                         rr_error_code := rr_error_code row; rr_files_processed := rr_files_processed row;
                                         rr_bytes_processed := rr_bytes_processed row; rr_data_added := rr_data_added row;
                                         rr_snapshot_id := rr_snapshot_id row; rr_omitted := Some 0 |}) <$> ta_rows t;
               ta_last_id := ta_last_id t; ta_index := ta_index t |}.

(** The transaction of a migration: begin, alter, batch, version, commit. *)
Definition migrate_legacy_schema (io : SqlIo) (add_column : bool) (db : SqlDb) : result HistoryError unit * SqlDb :=
  let migrated :=
    runs ← sq_runs db;
    runs ← (if add_column then (if io 1%nat then add_omitted_column runs else None) else Some runs);
    if negb (io 0%nat && io 2%nat && io 3%nat && io 4%nat) then None
    else Some {| sq_version := HISTORY_SCHEMA_VERSION;
                 sq_runs := Some {| ta_omitted_column := ta_omitted_column runs; ta_rows := ta_rows runs;
                                    ta_last_id := ta_last_id runs; ta_index := true |};
                 sq_items := Some (default [] (sq_items db)) |} in
  match migrated with
  | Some db => (Ok (), db)
  | None => (Err HE_Database, db)
  end.

(** [CREATE TABLE] twice and the index, in one transaction; an existing table is an error. *)
Definition create_schema (io : SqlIo) (db : SqlDb) : result HistoryError unit * SqlDb :=
  if negb (io 0%nat && io 1%nat && io 2%nat && io 3%nat) || is_some (sq_items db) then (Err HE_Database, db)
  else (Ok (), {| sq_version := HISTORY_SCHEMA_VERSION;
                  sq_runs := Some {| ta_omitted_column := true; ta_rows := []; ta_last_id := 0; ta_index := true |};
                  sq_items := Some [] |}).

Definition initialize_tables (io : SqlIo) (db : SqlDb) : result HistoryError unit * SqlDb :=
  let version := sq_version db in
  if negb (io 0%nat) then (Err HE_Database, db)
  else if HISTORY_SCHEMA_VERSION <? version then (Err (UnsupportedHistorySchema version), db)
  else if negb (io 1%nat) then (Err HE_Database, db)
  else if version =? 0 then
    if negb (io 2%nat) then (Err HE_Database, db)
    else if table_exists db then
      if negb (io 3%nat) then (Err HE_Database, db)
      else migrate_legacy_schema (fun k => io (4 + k)%nat) (negb (column_exists db)) db
    else create_schema (fun k => io (4 + k)%nat) db
  else if version =? 1 then migrate_legacy_schema (fun k => io (4 + k)%nat) true db
  else if version =? HISTORY_SCHEMA_VERSION then (Ok (), db)
  else (Err (UnsupportedHistorySchema version), db).

(** ** The files *)
Inductive Metadata : Type := MD_NotFound | MD_Fails | MD_Entry (kind : EntryKind).

Definition validate_storage_entry (metadata : Metadata) (directory : bool) : result HistoryError unit :=
  match metadata with
  | MD_NotFound => if directory then Err HE_FileSystem else Ok ()
  | MD_Fails => Err HE_FileSystem
  | MD_Entry EK_Reparse => Err UnsafeStorageEntry
  | MD_Entry EK_Directory => if directory then Ok () else Err UnsafeStorageEntry
  | MD_Entry EK_File => if directory then Err UnsafeStorageEntry else Ok ()
  end.

Definition sqlite_sidecar_path (database suffix : rstr) : rstr := database ++ suffix.
Definition database_files (path : rstr) : list rstr :=
  [path; sqlite_sidecar_path path (lit "-wal"); sqlite_sidecar_path path (lit "-shm")].

(** What Windows and SQLite answer. *)
Record FileEnv : Type := {
  fe_metadata : rstr -> Metadata;
  fe_exists : rstr -> bool;          (* [Path::exists] after the tables are ready *)
  fe_protect : rstr -> bool;         (* [protect_service_data_path] *)
  fe_open : bool;
  fe_busy_timeout : bool;
  fe_sql : SqlIo
}.

(** What was done to the file system, in order. *)
Inductive FileCall : Type := FC_Protect (path : rstr) | FC_Open (path : rstr).
#[global] Instance FileCall_eq_dec : EqDecision FileCall.
Proof. solve_decision. Defined.

Fixpoint validate_files (env : FileEnv) (paths : list rstr) : result HistoryError unit :=
  match paths with
  | [] => Ok ()
  | path :: paths => validate_storage_entry (fe_metadata env path) false ;; validate_files env paths
  end.

Definition connection (env : FileEnv) (parent : option rstr) (path : rstr) : result HistoryError unit * list FileCall :=
  match
    match parent with
    | None => (Ok (), [])
    | Some parent =>
        match validate_storage_entry (fe_metadata env parent) true with
        | Err error => (Err error, [])
        | Ok _ => (reject_if (negb (fe_protect env parent)) HE_Protection, [FC_Protect parent])
        end
    end
  with
  | (Err error, calls) => (Err error, calls)
  | (Ok _, calls) =>
      match validate_files env (database_files path) with
      | Err error => (Err error, calls)
      | Ok _ => (reject_if (negb (fe_open env)) HE_Database ;; reject_if (negb (fe_busy_timeout env)) HE_Database,
                 calls ++ [FC_Open path])
      end
  end.

Fixpoint protect_files (env : FileEnv) (paths : list rstr) : result HistoryError unit * list FileCall :=
  match paths with
  | [] => (Ok (), [])
  | path :: paths =>
      if negb (fe_exists env path) then protect_files env paths
      else if negb (fe_protect env path) then (Err HE_Protection, [FC_Protect path])
      else let '(r, calls) := protect_files env paths in (r, FC_Protect path :: calls)
  end.
Definition protect_database_files (env : FileEnv) (path : rstr) : result HistoryError unit * list FileCall :=
  protect_files env (database_files path).

Definition initialized_connection (env : FileEnv) (parent : option rstr) (path : rstr) (db : SqlDb)
    : result HistoryError unit * SqlDb * list FileCall :=
  match connection env parent path with
  | (Err error, calls) => (Err error, db, calls)
  | (Ok _, calls) =>
      match initialize_tables (fe_sql env) db with
      | (Err error, db) => (Err error, db, calls)
      | (Ok _, db) => let '(r, calls') := protect_database_files env path in (r, db, calls ++ calls')
      end
  end.

(** ** What the tables hold *)

(** A run with its failed items, as the queries of [History] see it. *)
Definition raw_record (items : list ItemRow) (row : RunRow) : RawRunRecord :=
  {| hr_id := rr_id row; hr_started_at_ms := rr_started_at_ms row; hr_completed_at_ms := rr_completed_at_ms row;
     hr_outcome := rr_outcome row; hr_error_code := rr_error_code row; hr_files_processed := rr_files_processed row;
     hr_bytes_processed := rr_bytes_processed row; hr_data_added := rr_data_added row; hr_snapshot_id := rr_snapshot_id row;
     hr_failed_items_omitted := default 0 (rr_omitted row);
     hr_failed_items := ir_item <$> filter (fun item => ir_run_id item = rr_id row) items |}.
Definition contents (db : SqlDb) : option HistoryDb :=
  runs ← sq_runs db;
  Some {| db_version := sq_version db; db_last_id := ta_last_id runs;
          db_rows := raw_record (default [] (sq_items db)) <$> ta_rows runs |}.

(** What the versions of the program leave: no tables, runs without a version
    or with version 1 (whose rows have no omitted items yet), or version 2. *)
Definition column_matches (t : RunsTable) : Prop := Forall (fun row => is_some (rr_omitted row) = ta_omitted_column t) (ta_rows t).
Inductive left_by_program : SqlDb -> Prop :=
| lp_empty : left_by_program empty_db
| lp_unversioned t items :
    column_matches t -> left_by_program {| sq_version := 0; sq_runs := Some t; sq_items := items |}
| lp_version_1 t items :
    column_matches t -> ta_omitted_column t = false ->
    left_by_program {| sq_version := 1; sq_runs := Some t; sq_items := items |}
| lp_version_2 t items :
    column_matches t -> ta_omitted_column t = true -> ta_index t = true ->
    left_by_program {| sq_version := 2; sq_runs := Some t; sq_items := Some items |}.

(** The current version. *)
Definition current (db : SqlDb) : Prop :=
  sq_version db = HISTORY_SCHEMA_VERSION
  /\ exists t items, sq_runs db = Some t /\ sq_items db = Some items /\ ta_omitted_column t = true /\ ta_index t = true.

(** ** Properties *)
Lemma migrate_spec io add db r db' :
  migrate_legacy_schema io add db = (r, db') ->
  (r = Err HE_Database /\ db' = db)
  \/ (r = Ok () /\ exists runs runs', sq_runs db = Some runs /\ (if add then add_omitted_column runs else Some runs) = Some runs'
      /\ db' = {| sq_version := HISTORY_SCHEMA_VERSION;
                  sq_runs := Some {| ta_omitted_column := ta_omitted_column runs'; ta_rows := ta_rows runs';
                                     ta_last_id := ta_last_id runs'; ta_index := true |};
                  sq_items := Some (default [] (sq_items db)) |}).
Proof.
  unfold migrate_legacy_schema. destruct (sq_runs db) as [runs|]; cbn [mbind option_bind]; [|intros [= <- <-]; by left].
  destruct (if add then _ else _) as [runs'|] eqn:E; cbn [mbind option_bind]; [|intros [= <- <-]; by left].
  destruct (negb _); intros [= <- <-]; [by left|]. right. split; [done|]. exists runs, runs'. split; [done|]. split; [|done].
  destruct add; [|done]. by destruct (io 1%nat).
Qed.

Lemma initialize_tables_failed io db error db' : initialize_tables io db = (Err error, db') -> db' = db.
Proof.
  unfold initialize_tables, create_schema.
  repeat match goal with |- context [if ?c then _ else _] => destruct c; try (by intros [= _ <-]) end;
    intros E; apply migrate_spec in E as [[_ ?]|[? _]]; done.
Qed.

Lemma add_column_spec t t' :
  add_omitted_column t = Some t' -> column_matches t ->
  ta_omitted_column t' = true /\ ta_last_id t' = ta_last_id t /\ column_matches t'
  /\ forall items, raw_record items <$> ta_rows t' = raw_record items <$> ta_rows t.
Proof.
  unfold add_omitted_column, column_matches. destruct (ta_omitted_column t) eqn:Ec; [done|]. intros [= <-] Hm. cbn.
  split_and!; try done.
  - by apply Forall_fmap, Forall_true.
  - intros items. rewrite <- list_fmap_compose. apply list_fmap_ext. intros i row Hrow.
    eapply Forall_lookup in Hm; [|exact Hrow]. unfold raw_record. cbn. destruct (rr_omitted row); done.
Qed.

(** A migration brings tables the program left to the current version and keeps every run. *)
Lemma migrate_keeps io add db db' t :
  migrate_legacy_schema io add db = (Ok (), db') -> sq_runs db = Some t -> column_matches t ->
  add = negb (ta_omitted_column t) -> 0 <= sq_version db <= HISTORY_SCHEMA_VERSION ->
  current db' /\ left_by_program db' /\ initialize_schema (contents db) = ok_or (contents db') HE_Database.
Proof.
  intros E Ht Hm Ha Hv. apply migrate_spec in E as [[? _]|(_ & runs & runs' & Hr & Hadd & ->)]; [done|].
  rewrite Ht in Hr. injection Hr as <-.
  assert (ta_omitted_column runs' = true /\ ta_last_id runs' = ta_last_id t /\ column_matches runs'
          /\ forall items, raw_record items <$> ta_rows runs' = raw_record items <$> ta_rows t) as (Hc & Hl & Hm' & Hrows).
  { destruct (ta_omitted_column t) eqn:Ec; subst add; cbn [negb] in Hadd; [by injection Hadd as <-|by apply add_column_spec]. }
  split_and!.
  - split; [done|]. by eexists _, _.
  - apply lp_version_2; [exact Hm'|exact Hc|done].
  - unfold contents. rewrite Ht. cbn [mbind option_bind sq_runs sq_version sq_items ta_rows ta_last_id default].
    rewrite Hrows, Hl. unfold initialize_schema. cbn [db_version db_last_id db_rows].
    rewrite (proj2 (Z.ltb_ge _ _)) by lia. rewrite (proj2 (in_range_true _ _ _)) by lia. done.
Qed.

Lemma initialize_tables_Ok io db db' :
  left_by_program db -> initialize_tables io db = (Ok (), db') ->
  current db' /\ left_by_program db' /\ initialize_schema (contents db) = ok_or (contents db') HE_Database.
Proof.
  intros Hdb. unfold initialize_tables. destruct (negb (io 0%nat)); [done|].
  destruct Hdb as [|t items Hm|t items Hm Hc|t items Hm Hc Hi]; cbn [sq_version]; (destruct (_ <? _) eqn:Ev; [done|]);
    (destruct (negb (io 1%nat)); [done|]); cbn [Z.eqb].
  - destruct (negb (io 2%nat)); [done|]. cbn [table_exists sq_runs is_some empty_db]. unfold create_schema.
    destruct (_ || _); [done|]. intros [= <-].
    split; [split; [done|by eexists _, _]|]. split; [|done]. by apply lp_version_2; [constructor|..].
  - destruct (negb (io 2%nat)); [done|]. cbn [table_exists sq_runs is_some]. destruct (negb (io 3%nat)); [done|].
    intros E. by eapply migrate_keeps.
  - intros E. eapply migrate_keeps; [exact E|done|done|by rewrite Hc|done].
  - intros [= <-]. split; [split; [done|by eexists _, _]|]. split; [by apply lp_version_2|done].
Qed.

(** With nothing failing, what the program left is always brought up to date. *)
Lemma initialize_tables_total db : left_by_program db -> exists db', initialize_tables (fun _ => true) db = (Ok (), db').
Proof.
  destruct 1 as [|t items Hm|t items Hm Hc|t items Hm Hc Hi]; unfold initialize_tables; cbn -[migrate_legacy_schema]; [by eexists| | |by eexists].
  - unfold migrate_legacy_schema. cbn. destruct (ta_omitted_column t) eqn:Ec; cbn; [by eexists|].
    unfold add_omitted_column. rewrite Ec. by eexists.
  - unfold migrate_legacy_schema. cbn. unfold add_omitted_column. rewrite Hc. by eexists.
Qed.

(** A newer database is refused before anything is written to it. *)
Lemma newer_database_refused io db :
  HISTORY_SCHEMA_VERSION < sq_version db ->
  (initialize_tables io db).2 = db /\ (initialize_tables io db).1 <> Ok ().
Proof.
  intros Hv. unfold initialize_tables. destruct (negb (io 0%nat)); [done|]. by rewrite (proj2 (Z.ltb_lt _ _)).
Qed.

(** Only plain entries get as far as SQLite. *)
Definition plain_file (env : FileEnv) (path : rstr) : Prop :=
  fe_metadata env path = MD_NotFound \/ fe_metadata env path = MD_Entry EK_File.

Lemma validate_storage_entry_Ok m directory :
  validate_storage_entry m directory = Ok () <->
  m = MD_Entry (if directory then EK_Directory else EK_File) \/ (directory = false /\ m = MD_NotFound).
Proof. destruct m as [| |[]], directory; cbn; naive_solver. Qed.

Lemma validate_files_Ok env paths : validate_files env paths = Ok () -> Forall (plain_file env) paths.
Proof.
  induction paths as [|path paths IH]; cbn; [done|]. rewrite seq_Ok, validate_storage_entry_Ok.
  intros [[Hm|[_ Hm]] Hp]; (constructor; [|by apply IH]); unfold plain_file; auto.
Qed.

Definition guarded_parent (env : FileEnv) (parent : option rstr) (calls : list FileCall) : Prop :=
  forall p, parent = Some p -> fe_metadata env p = MD_Entry EK_Directory /\ FC_Protect p ∈ calls /\ fe_protect env p = true.

Lemma connection_opens env parent path r calls :
  connection env parent path = (r, calls) ->
  (FC_Open path ∈ calls -> guarded_parent env parent calls /\ Forall (plain_file env) (database_files path))
  /\ (r = Ok () -> FC_Open path ∈ calls).
Proof.
  unfold connection. destruct parent as [parent|].
  - destruct (validate_storage_entry _ true) as [[]|error] eqn:Ev; [|intros [= <- <-]; split; [set_solver|done]].
    apply validate_storage_entry_Ok in Ev as [Hm|[? _]]; [|done].
    destruct (fe_protect env parent) eqn:Ep; cbn [negb reject_if].
    2: { intros [= <- <-]. split; [|done]. intros [?|?%elem_of_nil]%elem_of_cons; done. }
    destruct (validate_files _ _) as [[]|] eqn:Ef; [|intros [= <- <-]; split; [|done]].
    2: { intros [?|?%elem_of_nil]%elem_of_cons; done. }
    intros [= <- <-]. split; [|set_solver]. intros _. split; [|by apply validate_files_Ok].
    intros p [= <-]. split; [done|]. split; [set_solver|done].
  - destruct (validate_files _ _) as [[]|] eqn:Ef; intros [= <- <-]; (split; [|set_solver]).
    + intros _. split; [done|by apply validate_files_Ok].
    + intros ?%elem_of_nil. done.
Qed.

Lemma protect_files_Ok env paths r calls :
  protect_files env paths = (r, calls) -> r = Ok () ->
  forall path, path ∈ paths -> fe_exists env path = true -> FC_Protect path ∈ calls /\ fe_protect env path = true.
Proof.
  revert r calls. induction paths as [|path paths IH]; intros r calls; cbn [protect_files]; [intros _ _ p Hp; by apply elem_of_nil in Hp|].
  destruct (fe_exists env path) eqn:Ee; cbn [negb].
  - destruct (fe_protect env path) eqn:Ep; cbn [negb]; [|by intros [= <- <-]].
    destruct (protect_files env paths) as [r' calls'] eqn:E. intros [= <- <-] Hr p [->|Hin]%elem_of_cons He; [split; [set_solver|done]|].
    destruct (IH _ _ eq_refl Hr p Hin He). split; [set_solver|done].
  - intros E Hr p [->|Hin]%elem_of_cons He; [congruence|]. by eapply IH.
Qed.

(** C13: opening the history loses no run and follows no link.  Whatever call
    or statement fails, the database is either as it was or completely
    brought to the current version with exactly the runs it had, so a failed
    attempt can be repeated; SQLite opens the file only after its directory,
    a real one, was protected and each database file was a plain file or
    absent; and when the opening succeeds, every database file that exists
    is protected. *)
Theorem history_opening_is_safe (env : FileEnv) (parent : option rstr) (path : rstr) (db db' : SqlDb)
    (r : result HistoryError unit) (calls : list FileCall)
    (Hdb : left_by_program db) (Hrun : initialized_connection env parent path db = (r, db', calls)) :
  left_by_program db'
  /\ (db' = db \/ (current db' /\ initialize_schema (contents db) = ok_or (contents db') HE_Database))
  /\ (FC_Open path ∈ calls -> guarded_parent env parent calls /\ Forall (plain_file env) (database_files path))
  /\ (r = Ok () -> current db' /\ forall file, file ∈ database_files path -> fe_exists env file = true ->
        FC_Protect file ∈ calls /\ fe_protect env file = true)
  /\ exists db'', initialize_tables (fun _ => true) db' = (Ok (), db'').
Proof.
  unfold initialized_connection in Hrun. destruct (connection env parent path) as [rc calls1] eqn:Ec.
  destruct (connection_opens _ _ _ _ _ Ec) as [Hopen Hok].
  destruct rc as [[]|error].
  2: { injection Hrun as <- <- <-. split_and!; [done|by left|done|done|by apply initialize_tables_total]. }
  specialize (Hopen (Hok eq_refl)) as [Hpar Hfiles].
  destruct (initialize_tables (fe_sql env) db) as [[[]|error] db1] eqn:Ei.
  2: { apply initialize_tables_failed in Ei as ->. injection Hrun as <- <- <-.
       split_and!; [done|by left|done|done|by apply initialize_tables_total]. }
  apply initialize_tables_Ok in Ei as (Hcur & Hleft & Hcont); [|done].
  unfold protect_database_files in Hrun. destruct (protect_files env (database_files path)) as [rp calls2] eqn:Ep. injection Hrun as <- <- <-.
  split_and!; [done|by right| | |by apply initialize_tables_total].
  - intros _. split; [|done]. intros p Hp. destruct (Hpar p Hp) as (? & ? & ?). split; [done|]. split; [set_solver|done].
  - intros Hr. split; [done|]. intros file Hin He. destruct (protect_files_Ok _ _ _ _ Ep Hr file Hin He). split; [set_solver|done].
Qed.

Module HistoryFileWitness.
(** A database of version 1 with one run, and a world where everything works. *)
Definition old_run : RunRow :=
  {| rr_id := 1; rr_started_at_ms := 1000; rr_completed_at_ms := 2000; rr_outcome := lit "succeeded"; rr_error_code := None;
     rr_files_processed := Some 3; rr_bytes_processed := None; rr_data_added := None; rr_snapshot_id := None; rr_omitted := None |}.
Definition version_1 : SqlDb :=
  {| sq_version := 1; sq_runs := Some {| ta_omitted_column := false; ta_rows := [old_run]; ta_last_id := 1; ta_index := true |};
     sq_items := None |}.
Definition path : rstr := lit "C:\ProgramData\resticpal\state.db".
Definition parent : rstr := lit "C:\ProgramData\resticpal".
Definition quiet_env : FileEnv :=
  {| fe_metadata := fun p => if str_eqb p parent then MD_Entry EK_Directory else if str_eqb p path then MD_Entry EK_File else MD_NotFound;
     fe_exists := fun _ => true; fe_protect := fun _ => true; fe_open := true; fe_busy_timeout := true; fe_sql := fun _ => true |}.

Lemma history_opening_witness :
  exists db' calls, initialized_connection quiet_env (Some parent) path version_1 = (Ok (), db', calls)
    /\ current db' /\ (db_rows <$> contents db') = (db_rows <$> contents version_1)
    /\ FC_Protect (lit "C:\ProgramData\resticpal\state.db-wal") ∈ calls.
Proof.
  assert (left_by_program version_1) as Hl by (by apply lp_version_1; [repeat constructor|]).
  destruct (initialized_connection quiet_env (Some parent) path version_1) as [[r db'] calls] eqn:E.
  assert (r = Ok ()) as ->.
  { change r with ((r, db', calls).1.1). rewrite <- E. vm_compute. reflexivity. }
  assert (db_rows <$> contents db' = db_rows <$> contents version_1) as Hrows.
  { change db' with ((@Ok HistoryError unit (), db', calls).1.2). rewrite <- E. vm_compute. reflexivity. }
  destruct (history_opening_is_safe quiet_env (Some parent) path version_1 db' (Ok ()) calls Hl E) as (_ & _ & _ & Hok & _).
  destruct (Hok eq_refl) as [Hcur Hprot].
  exists db', calls. split; [reflexivity|]. split; [exact Hcur|]. split; [exact Hrows|].
  apply (Hprot (lit "C:\ProgramData\resticpal\state.db-wal")); [|reflexivity].
  apply (bool_decide_eq_true_1 (_ ∈ _)). vm_compute. reflexivity.
Defined.
End HistoryFileWitness.
