(* ===== verification/PowerRequest.v ===== *)
(** * Wake locks ([apps/resticpal-service/src/power_request.rs])

    A backup keeps the machine awake with a power request of Windows.  The
    request is owned by a watchdog thread that gives it back when the lease
    is dropped or its timeout has passed.  The lease and the watchdog are two
    threads over one channel; what Windows answers is an argument. *)
From stdpp Require Import base option list relations.
From S2P Require Import Prelude RustStd.

(** The request as Windows sees it: whether it is set, its handle, and how
    often the handle was closed. *)
Record Request : Type := { rq_set : bool; rq_open : bool; rq_closed : nat }.
Definition no_request : Request := {| rq_set := false; rq_open := false; rq_closed := 0 |}.

Inductive TimedPowerRequestError : Type := TPR_Windows (error : Z) | TPR_Thread (error : Z).

Definition CloseHandle (r : Request) : Request :=
  {| rq_set := rq_set r; rq_open := false; rq_closed := S (rq_closed r) |}.
Definition PowerClearRequest (r : Request) : Request :=
  {| rq_set := false; rq_open := rq_open r; rq_closed := rq_closed r |}.

(** [SystemPowerRequest::acquire]; [create] and [set] are the errors of the two calls. *)
Definition SystemPowerRequest_acquire (create set : option Z) : result Z unit * Request :=
  match create with
  | Some error => (Err error, no_request)
  | None =>
      let handle := {| rq_set := false; rq_open := true; rq_closed := 0 |} in
      match set with
      | Some error => (Err error, CloseHandle handle)
      | None => (Ok (), {| rq_set := true; rq_open := true; rq_closed := 0 |})
      end
  end.

(** [Drop for SystemPowerRequest] *)
Definition SystemPowerRequest_drop (r : Request) : Request := CloseHandle (PowerClearRequest r).

(** The watchdog waits for the message or the timeout, then drops the request. *)
Inductive Watchdog : Type := Waiting | Dropping | Ended.
(** The lease is held, then dropped: it sends the message and joins the watchdog. *)
Inductive Lease : Type := Held | Joining | Gone.

Record TimedSystemPowerRequest : Type := {
  tp_lease : Lease;
  tp_message : bool;        (* the one place of [sync_channel(1)] *)
  tp_watchdog : Watchdog;
  tp_request : Request;
  tp_now : Z;
  tp_deadline : Z
}.

(** [TimedSystemPowerRequest::acquire]; when the thread cannot be created the
    closure is dropped, and the request with it. *)
Definition TimedSystemPowerRequest_acquire (create set spawn : option Z) (now timeout : Z)
    : result TimedPowerRequestError TimedSystemPowerRequest * Request :=
  match SystemPowerRequest_acquire create set with
  | (Err error, r) => (Err (TPR_Windows error), r)
  | (Ok _, r) =>
      match spawn with
      | Some error => (Err (TPR_Thread error), SystemPowerRequest_drop r)
      | None =>
          (Ok {| tp_lease := Held; tp_message := false; tp_watchdog := Waiting; tp_request := r; tp_now := now;
                 tp_deadline := now + timeout |}, r)
      end
  end.

Definition set_lease (lease : Lease) (message : bool) (t : TimedSystemPowerRequest) : TimedSystemPowerRequest :=
  {| tp_lease := lease; tp_message := message; tp_watchdog := tp_watchdog t; tp_request := tp_request t;
     tp_now := tp_now t; tp_deadline := tp_deadline t |}.
Definition set_watchdog (w : Watchdog) (r : Request) (t : TimedSystemPowerRequest) : TimedSystemPowerRequest :=
  {| tp_lease := tp_lease t; tp_message := tp_message t; tp_watchdog := w; tp_request := r;
     tp_now := tp_now t; tp_deadline := tp_deadline t |}.
Definition set_time (now : Z) (t : TimedSystemPowerRequest) : TimedSystemPowerRequest :=
  {| tp_lease := tp_lease t; tp_message := tp_message t; tp_watchdog := tp_watchdog t; tp_request := tp_request t;
     tp_now := now; tp_deadline := tp_deadline t |}.

(** The steps the two threads take by themselves. *)
Inductive thread_steps : TimedSystemPowerRequest -> TimedSystemPowerRequest -> Prop :=
(* [recv_timeout] returns: a message, or the timeout *)
| tp_woken t :
    tp_watchdog t = Waiting -> tp_message t || (tp_deadline t <=? tp_now t) = true ->
    thread_steps t (set_watchdog Dropping (tp_request t) t)
| tp_dropped t :
    tp_watchdog t = Dropping -> thread_steps t (set_watchdog Ended (SystemPowerRequest_drop (tp_request t)) t)
(* [watchdog.join()] *)
| tp_joined t :
    tp_lease t = Joining -> tp_watchdog t = Ended -> thread_steps t (set_lease Gone (tp_message t) t).

(** With the owner, who drops the lease at any time, and the clock. *)
Inductive tp_step : TimedSystemPowerRequest -> TimedSystemPowerRequest -> Prop :=
| tp_thread t t' : thread_steps t t' -> tp_step t t'
(* [release.send(())]: to an ended receiver it is an ignored error *)
| tp_release t :
    tp_lease t = Held ->
    tp_step t (set_lease Joining (match tp_watchdog t with Waiting => true | _ => tp_message t end) t)
| tp_clock now t : tp_now t <= now -> tp_step t (set_time now t).

Inductive tp_reachable : TimedSystemPowerRequest -> Prop :=
| tpr_acquire create set spawn now timeout t r :
    TimedSystemPowerRequest_acquire create set spawn now timeout = (Ok t, r) -> tp_reachable t
| tpr_step t t' : tp_reachable t -> tp_step t t' -> tp_reachable t'.

(** ** What holds of a lease *)
Definition released (r : Request) : Prop := rq_set r = false /\ rq_open r = false /\ rq_closed r = 1%nat.
Definition active (r : Request) : Prop := rq_set r = true /\ rq_open r = true /\ rq_closed r = 0%nat.

Definition lease_ok (t : TimedSystemPowerRequest) : Prop :=
  match tp_watchdog t with Ended => released (tp_request t) | _ => active (tp_request t) end
  /\ match tp_lease t with
     | Held => True
     | Joining => tp_watchdog t = Waiting -> tp_message t = true
     | Gone => tp_watchdog t = Ended
     end.

Lemma lease_ok_step t t' : lease_ok t -> tp_step t t' -> lease_ok t'.
Proof.
  intros Hok Hs. revert Hok. unfold lease_ok, released, active.
  destruct Hs as [t t' Hs|t Hl|now t _]; [destruct Hs as [t Hw Hm|t Hw|t Hj Hw]| |].
  all: destruct t as [lease message watchdog [is_set is_open closed] time deadline]; cbn in *; subst.
  all: try destruct lease; try destruct watchdog; naive_solver.
Qed.

Lemma reachable_lease_ok t : tp_reachable t -> lease_ok t.
Proof.
  induction 1 as [create set spawn now timeout t r E|t t' _ IH Hs]; [|by eapply lease_ok_step].
  revert E. unfold TimedSystemPowerRequest_acquire, SystemPowerRequest_acquire.
  destruct create, set, spawn; intros [= <- <-]; done.
Qed.

(** The threads finish by themselves once the lease is being dropped. *)
Lemma joining_finishes t :
  lease_ok t -> tp_lease t = Joining ->
  exists t', rtc thread_steps t t' /\ tp_lease t' = Gone /\ released (tp_request t').
Proof.
  intros [Hr Hl] Hj. rewrite Hj in Hl.
  assert (forall u, tp_lease u = Joining -> tp_watchdog u = Ended -> released (tp_request u) ->
    exists t', rtc thread_steps u t' /\ tp_lease t' = Gone /\ released (tp_request t')) as Hend.
  { intros u Hu He Hru. exists (set_lease Gone (tp_message u) u). split; [by apply rtc_once, tp_joined|done]. }
  assert (forall u, tp_lease u = Joining -> tp_watchdog u = Dropping -> active (tp_request u) ->
    exists t', rtc thread_steps u t' /\ tp_lease t' = Gone /\ released (tp_request t')) as Hdrop.
  { intros u Hu He (Hs & Ho & Hc). edestruct (Hend (set_watchdog Ended (SystemPowerRequest_drop (tp_request u)) u))
      as (t' & Ht & ?); [done|done|by unfold released; cbn; rewrite Hc|]. exists t'. split; [|done].
    eapply rtc_l; [by apply tp_dropped|done]. }
  destruct (tp_watchdog t) eqn:Hw; [|by apply Hdrop|by apply Hend].
  edestruct (Hdrop (set_watchdog Dropping (tp_request t) t)) as (t' & Ht & ?); [done..|].
  exists t'. split; [|done]. eapply rtc_l; [apply tp_woken; [done|]; by rewrite Hl|done].
Qed.

(** C40: a wake lock is given back exactly once: its handle is never closed
    twice, no request is left when the lease is gone or could not be
    acquired, dropping a lease always comes to an end, and once the timeout
    has passed the watchdog gives the request back without the owner. *)
Theorem wake_lock_is_given_back (t : TimedSystemPowerRequest) :
  tp_reachable t ->
  (rq_closed (tp_request t) <= 1)%nat
  /\ (tp_lease t = Gone -> released (tp_request t))
  /\ (tp_lease t = Joining ->
        exists t', rtc thread_steps t t' /\ tp_lease t' = Gone /\ released (tp_request t'))
  /\ (tp_deadline t <= tp_now t -> exists t', rtc thread_steps t t' /\ released (tp_request t'))
  /\ (forall create set spawn now timeout error r,
        TimedSystemPowerRequest_acquire create set spawn now timeout = (Err error, r) ->
        rq_set r = false /\ rq_open r = false /\ (rq_closed r <= 1)%nat).
Proof.
  intros Hok%reachable_lease_ok. pose proof Hok as [Hr Hl]. split_and!.
  - unfold released, active in Hr. destruct (tp_watchdog t); lia.
  - intros Hg. rewrite Hg in Hl. by rewrite Hl in Hr.
  - by apply joining_finishes.
  - intros Hd. assert (forall u, tp_watchdog u = Dropping -> active (tp_request u) ->
      exists t', rtc thread_steps u t' /\ released (tp_request t')) as Hdrop.
    { intros u Hu (_ & _ & Hc). eexists. split; [by apply rtc_once, tp_dropped|].
      unfold released. cbn. by rewrite Hc. }
    destruct (tp_watchdog t) eqn:Hw; [|by apply Hdrop|by exists t].
    destruct (Hdrop (set_watchdog Dropping (tp_request t) t)) as (t' & Ht & ?); [done|done|].
    exists t'. split; [|done]. eapply rtc_l; [|exact Ht]. apply tp_woken; [done|].
    apply orb_true_iff. right. by apply Z.leb_le.
  - intros create set spawn now timeout error r.
    unfold TimedSystemPowerRequest_acquire, SystemPowerRequest_acquire.
    destruct create, set, spawn; intros [= <- <-]; cbn; split_and!; done || lia.
Qed.

Module PowerRequestWitness.
(** A lease whose timeout passes before its owner drops it. *)
Definition expired : TimedSystemPowerRequest :=
  {| tp_lease := Joining; tp_message := true; tp_watchdog := Waiting;
     tp_request := {| rq_set := true; rq_open := true; rq_closed := 0 |}; tp_now := 90; tp_deadline := 60 |}.

Lemma expired_reachable : tp_reachable expired.
Proof.
  eapply tpr_step; [eapply tpr_step; [apply (tpr_acquire None None None 0 60 _ _ eq_refl)|apply (tp_clock 90); done]|].
  by apply tp_release.
Qed.

Lemma wake_lock_witness : exists t', rtc thread_steps expired t' /\ tp_lease t' = Gone /\ released (tp_request t').
Proof.
  refine (proj1 (proj2 (proj2 (wake_lock_is_given_back expired expired_reachable))) _). reflexivity.
Defined.
End PowerRequestWitness.
