(* ===== verification/Updater.v ===== *)
(** * Automatic updates

    [apps/resticpal-service/src/updater.rs]: the checks on an announced
    package, the download into the staging directory, the signature check on
    the bytes that Windows Installer will read, and the bounded wait for it.
    The ACL plumbing of the staging directory is Windows API calls; their
    results are fields of [InstallEnv]. *)
From stdpp Require Import base option list strings.
From S2P Require Import Prelude RustStd Protocol Management Outcome.

Definition MAX_UPDATE_BYTES : Z := 512 * 1024 * 1024.
Definition UPDATE_INSTALL_TIMEOUT_SECONDS : Z := 30 * 60.
(** milliseconds *)
Definition INSTALLER_POLL_INTERVAL : Z := 250.
Definition CARGO_PKG_VERSION : rstr := lit "1.0.8".
Definition UPDATE_PUBLIC_KEY : rstr := lit "gOs6c4Mn39nKvOgMy5zJeDFA6+h5+qBV4y38ceXGGj4=" ++ [10].

Inductive UpdateError : Type :=
| UE_InvalidVersion | UE_NotNewer | UE_InvalidUrl | UE_InvalidLength | UE_InvalidPublicKey | UE_InvalidSignature
| UE_LengthMismatch (expected actual : Z)
| UE_UnsafeStagingDirectory | UE_UnsafeStagingEntry | UE_UntrustedStagingDirectory
| UE_UnsafeServiceDataEntry | UE_UntrustedServiceDataEntry | UE_StagingProtection
| UE_Io | UE_Http | UE_InstallerStart | UE_InstallerExit (code : Z)
| UE_InstallerTimeout | UE_UpdateDeadlineExpired | UE_InstallerTermination.
#[global] Instance UpdateError_eq_dec : EqDecision UpdateError.
Proof. solve_decision. Defined.

Definition update_error_code (e : UpdateError) : rstr :=
  match e with
  | UE_InvalidVersion | UE_NotNewer | UE_InvalidUrl | UE_InvalidLength => lit "update_metadata_invalid"
  | UE_InvalidPublicKey | UE_InvalidSignature => lit "update_signature_invalid"
  | UE_LengthMismatch _ _ | UE_Io | UE_Http => lit "update_download_failed"
  | UE_UnsafeStagingDirectory | UE_UnsafeStagingEntry | UE_UntrustedStagingDirectory
  | UE_UnsafeServiceDataEntry | UE_UntrustedServiceDataEntry | UE_StagingProtection => lit "update_staging_unsafe"
  | UE_UpdateDeadlineExpired => lit "update_deadline_exceeded"
  | UE_InstallerStart | UE_InstallerExit _ => lit "update_installer_failed"
  | UE_InstallerTimeout | UE_InstallerTermination => lit "update_installer_indeterminate"
  end.

Definition installer_state_is_indeterminate (e : UpdateError) : bool :=
  match e with UE_InstallerTimeout | UE_InstallerTermination => true | _ => false end.

(** ** Versions *)

(** [str::split(c)]: always at least one piece. *)
Fixpoint str_split (c : Z) (s : rstr) : list rstr :=
  match s with
  | [] => [[]]
  | x :: s =>
      if x =? c then [] :: str_split c s
      else match str_split c s with
           | piece :: pieces => (x :: piece) :: pieces
           | [] => [[x]]
           end
  end.

(** [str::parse::<u64>] on ASCII digits: [None] on overflow. *)
Definition parse_u64_digits (s : rstr) : option Z :=
  fold_left (fun acc c => n ← acc; let n := n * 10 + (c - 48) in if n <=? u64_max then Some n else None) s (Some 0).

Definition parse_component (value : rstr) : option Z :=
  if negb (str_is_empty value) && forallb is_ascii_digit value then parse_u64_digits value else None.

Definition parse_version (value : rstr) : option (Z * Z * Z) :=
  match str_split 46 value with
  | a :: more =>
      a ← parse_component a;
      match more with
      | b :: more =>
          b ← parse_component b;
          match more with
          | c :: more => c ← parse_component c; if bool_decide (more = []) then Some (a, b, c) else None
          | [] => None
          end
      | [] => None
      end
  | [] => None
  end.

(** The lexicographic order of [[u64; 3]]. *)
Definition version_leb (v w : Z * Z * Z) : bool :=
  let '(a, b, c) := v in
  let '(a', b', c') := w in
  (a <? a') || ((a =? a') && ((b <? b') || ((b =? b') && (c <=? c')))).

(** The [STANDARD] engine of the [base64] crate. *)
Class Base64Standard := { base64_decode : rstr -> option (list Z) }.

Definition github_url (version : rstr) : rstr :=
  lit "https://github.com/theatrus/resticpal/releases/download/v" ++ version ++ lit "/resticpal-" ++ version
  ++ lit "-x64.msi".
Definition primary_url (version : rstr) : rstr :=
  lit "https://updates.resticpal.com/releases/v" ++ version ++ lit "/resticpal-" ++ version ++ lit "-x64.msi".

(** ** The staging directory *)
Inductive StagingEntry : Type :=
| SE_Absent | SE_File (contents : list Z) | SE_ReparsePoint | SE_Directory | SE_Unreadable.

(** [remove_staging_entry_if_present]; [removed] is whether the delete call works. *)
Definition remove_staging_entry_if_present (removed : bool) (entry : StagingEntry)
    : result UpdateError unit * StagingEntry :=
  match entry with
  | SE_Absent => (Ok (), SE_Absent)
  | SE_Unreadable => (Err UE_Io, entry)
  | SE_ReparsePoint | SE_File _ => if removed then (Ok (), SE_Absent) else (Err UE_Io, entry)
  | SE_Directory => (Err UE_UnsafeStagingEntry, entry)
  end.

(** What securing a directory handle can fail with. *)
Inductive StagingFailure : Type := SF_Unsafe | SF_Untrusted | SF_Protection | SF_Io.
Definition staging_error (f : StagingFailure) : UpdateError :=
  match f with
  | SF_Unsafe => UE_UnsafeStagingDirectory
  | SF_Untrusted => UE_UntrustedStagingDirectory
  | SF_Protection => UE_StagingProtection
  | SF_Io => UE_Io
  end.

Inductive ChildPoll : Type := Child_Exited (code : Z) | Child_Running | Child_PollFails.

(** What the operating system and the network answer during one installation. *)
Record InstallEnv : Type := {
  ie_security : result StagingFailure unit;
  ie_data_root : result StagingFailure unit;
  ie_update_root : result StagingFailure unit;
  ie_partial : StagingEntry;
  ie_installer : StagingEntry;
  ie_log : StagingEntry;
  ie_remove_partial : bool;
  ie_remove_installer : bool;
  ie_remove_log : bool;
  ie_get : rstr -> Z -> option (list Z * bool);               (* url, limit: bytes read, end of body reached *)
  ie_create : bool;
  ie_sync : bool;
  ie_rename : bool;
  ie_meanwhile : StagingEntry -> StagingEntry;                (* another process, until the handle is open *)
  ie_open : bool;
  ie_spawn : bool;
  ie_try_wait : nat -> ChildPoll;
  ie_kill : bool;
  ie_reap : bool;
  ie_exit_after_kill : ChildPoll;
  ie_now : nat -> Z                                           (* successive readings of the clock, ms *)
}.

Section updater.
Context `{Base64Standard} `{CryptoCrates}.

Definition decode_signature (value : rstr) : result UpdateError (list Z) :=
  reject_if ((256 <? str_len value) || contains_line_break value) UE_InvalidSignature ;;
  signature ← ok_or (base64_decode value) UE_InvalidSignature;
  reject_if (negb (Z.of_nat (length signature) =? 64)) UE_InvalidSignature ;;
  Ok signature.

Definition validate_package (package : UpdatePackage) : result UpdateError unit :=
  version ← ok_or (parse_version (up_version package)) UE_InvalidVersion;
  let current := default (0, 0, 0) (parse_version CARGO_PKG_VERSION) in
  reject_if (version_leb version current) UE_NotNewer ;;
  reject_if ((up_length package =? 0) || (MAX_UPDATE_BYTES <? up_length package)) UE_InvalidLength ;;
  reject_if (negb (str_eqb (up_url package) (github_url (up_version package)))
             && negb (str_eqb (up_url package) (primary_url (up_version package)))) UE_InvalidUrl ;;
  decode_signature (up_signature package) ;;
  Ok ().

Definition verify_contents_with_public_key (contents : list Z) (encoded_signature encoded_public_key : rstr)
    : result UpdateError unit :=
  key ← ok_or (base64_decode (trim encoded_public_key)) UE_InvalidPublicKey;
  reject_if (negb (Z.of_nat (length key) =? 32)) UE_InvalidPublicKey ;;
  key ← ok_or (verifying_key_from_bytes key) UE_InvalidPublicKey;
  signature ← decode_signature encoded_signature;
  reject_if (negb (verify_strict key contents signature)) UE_InvalidSignature.

(** [verify_open_file_with_public_key] on a handle whose file holds [bytes]. *)
Definition verify_open_file_with_public_key (bytes : list Z) (expected_length : Z)
    (encoded_signature encoded_public_key : rstr) : result UpdateError unit :=
  let actual := Z.of_nat (length bytes) in
  reject_if (negb (actual =? expected_length)) (UE_LengthMismatch expected_length actual) ;;
  let contents := take (Z.to_nat (u64_saturating_add expected_length 1)) bytes in
  let read := Z.of_nat (length contents) in
  reject_if (negb (read =? expected_length)) (UE_LengthMismatch expected_length read) ;;
  verify_contents_with_public_key contents encoded_signature encoded_public_key.

(** [VerifiedInstaller::open]: the bytes behind the handle that stays open. *)
Definition verified_installer_open (env : InstallEnv) (entry : StagingEntry) (package : UpdatePackage)
    : result UpdateError (list Z) :=
  match entry with
  | SE_File bytes =>
      reject_if (negb (ie_open env)) UE_Io ;;
      verify_open_file_with_public_key bytes (up_length package) (up_signature package) UPDATE_PUBLIC_KEY ;;
      Ok bytes
  | SE_ReparsePoint => reject_if (negb (ie_open env)) UE_Io ;; Err UE_UnsafeStagingEntry
  | SE_Directory | SE_Absent | SE_Unreadable => Err UE_Io
  end.

Definition download_to (env : InstallEnv) (package : UpdatePackage) (destination : StagingEntry)
    : result UpdateError unit * StagingEntry :=
  match ie_get env (up_url package) (u64_saturating_add (up_length package) 1) with
  | None => (Err UE_Http, destination)
  | Some (bytes, finished) =>
      match destination with
      | SE_Absent =>
          if negb (ie_create env) then (Err UE_Io, destination)
          else if negb finished || negb (ie_sync env) then (Err UE_Io, SE_File bytes)
          else
            let copied := Z.of_nat (length bytes) in
            if negb (copied =? up_length package)
            then (Err (UE_LengthMismatch (up_length package) copied), SE_File bytes)
            else (Ok (), SE_File bytes)
      | _ => (Err UE_Io, destination)                       (* create_new *)
      end
  end.

(** The guard of poll [k] takes reading [2k + 1] of the clock and the sleep
    after it reading [2k + 2]; [fuel] counts polls. *)
Fixpoint wait_for_installer (fuel : nat) (env : InstallEnv) (deadline : Z) (k : nat)
    : option (result UpdateError Z) :=
  match fuel with
  | O => None
  | S fuel =>
      match ie_try_wait env k with
      | Child_Exited code => Some (Ok code)
      | Child_Running =>
          if ie_now env (S (2 * k)) <? deadline
          then wait_for_installer fuel env deadline (S k)   (* after a sleep *)
          else if negb (ie_kill env)
          then match ie_exit_after_kill env with
               | Child_Exited code => Some (Ok code)
               | _ => Some (Err UE_InstallerTermination)
               end
          else if negb (ie_reap env) then Some (Err UE_InstallerTermination)
          else Some (Err UE_InstallerTimeout)
      | Child_PollFails => Some (Err UE_InstallerTermination)
      end
  end.

(** The second component says whether Windows Installer was started. *)
Definition launch_msi (fuel : nat) (env : InstallEnv) (deadline : Z) : option (result UpdateError unit * bool) :=
  if deadline <=? ie_now env 0 then Some (Err UE_UpdateDeadlineExpired, false)
  else if negb (ie_spawn env) then Some (Err UE_InstallerStart, false)
  else
    status ← wait_for_installer fuel env deadline 0;
    Some (match status with
          | Err e => Err e
          | Ok code => if (code =? 0) || (code =? 3010) then Ok () else Err (UE_InstallerExit code)
          end, true).

(** Everything up to the open, verified handle. *)
Definition download_and_verify (env : InstallEnv) (package : UpdatePackage) : result UpdateError (list Z) :=
  validate_package package ;;
  map_err staging_error (ie_security env) ;;
  map_err staging_error (ie_data_root env) ;;
  map_err staging_error (ie_update_root env) ;;
  let '(removed, partial) := remove_staging_entry_if_present (ie_remove_partial env) (ie_partial env) in
  removed ;;
  let '(removed, _) := remove_staging_entry_if_present (ie_remove_installer env) (ie_installer env) in
  removed ;;
  let '(downloaded, partial) := download_to env package partial in
  downloaded ;;
  reject_if (negb (ie_rename env)) UE_Io ;;
  verified ← verified_installer_open env (ie_meanwhile env partial) package;
  (remove_staging_entry_if_present (ie_remove_log env) (ie_log env)).1 ;;
  Ok verified.

(** [download_verify_and_launch]; the second component is what Windows
    Installer was given, if it was started. *)
Definition download_verify_and_launch (fuel : nat) (env : InstallEnv) (package : UpdatePackage) (deadline : Z)
    : option (result UpdateError unit * option (list Z)) :=
  match download_and_verify env package with
  | Err e => Some (Err e, None)
  | Ok bytes =>
      '(status, started) ← launch_msi fuel env deadline;
      Some (status, if started : bool then Some bytes else None)
  end.

Definition install (fuel : nat) (env : InstallEnv) (package : UpdatePackage) (started : Z)
    : option (UpdateInstallOutcome * option (list Z)) :=
  '(status, launched) ← download_verify_and_launch fuel env package (started + UPDATE_INSTALL_TIMEOUT_SECONDS * 1000);
  Some (match status with
        | Ok _ => Upd_Completed (up_version package)
        | Err e =>
            if installer_state_is_indeterminate e then Upd_Indeterminate (update_error_code e)
            else Upd_Failed (update_error_code e)
        end, launched).
End updater.

(** ** What may be installed *)

(** A newer version, of a permitted size, from one of the two release hosts. *)
Record approved_package `{Base64Standard} (p : UpdatePackage) : Prop := {
  ap_version : exists a b c, parse_version (up_version p) = Some (a, b, c)
                 /\ (1 < a \/ (a = 1 /\ (0 < b \/ (b = 0 /\ 8 < c))));
  ap_length : 1 <= up_length p <= MAX_UPDATE_BYTES;
  ap_url : up_url p = github_url (up_version p) \/ up_url p = primary_url (up_version p);
  ap_signature : exists s, base64_decode (up_signature p) = Some s /\ length s = 64%nat;
  ap_signature_text : str_len (up_signature p) <= 256 /\ contains_line_break (up_signature p) = false
}.

(** The bytes carry the release key's signature over exactly these contents. *)
Definition release_signed `{Base64Standard} `{CryptoCrates} (p : UpdatePackage) (bytes : list Z) : Prop :=
  Z.of_nat (length bytes) = up_length p
  /\ exists raw key s, base64_decode (trim UPDATE_PUBLIC_KEY) = Some raw /\ length raw = 32%nat
       /\ verifying_key_from_bytes raw = Some key /\ base64_decode (up_signature p) = Some s
       /\ length s = 64%nat /\ verify_strict key bytes s = true.

Lemma str_split_nonempty c s : str_split c s <> [].
Proof. induction s as [|x s IH]; cbn; [done|]. destruct (x =? c); [done|]. by destruct (str_split c s). Qed.

Lemma version_leb_current a b c :
  0 <= a -> 0 <= b -> version_leb (a, b, c) (1, 0, 8) = false <-> 1 < a \/ (a = 1 /\ (0 < b \/ (b = 0 /\ 8 < c))).
Proof.
  intros Ha Hb. unfold version_leb.
  rewrite !orb_false_iff, !andb_false_iff, !orb_false_iff, !andb_false_iff, !Z.ltb_ge, !Z.eqb_neq, Z.leb_gt. lia.
Qed.

Lemma parse_digits_nonneg s acc :
  forallb is_ascii_digit s = true -> (forall n, acc = Some n -> 0 <= n) ->
  forall n, fold_left (fun acc c => n ← acc; let n := n * 10 + (c - 48) in if n <=? u64_max then Some n else None) s acc
            = Some n -> 0 <= n.
Proof.
  revert acc. induction s as [|c s IH]; cbn; intros acc Hs Hacc n; [apply Hacc|].
  apply andb_true_iff in Hs as [Hc Hs]. apply IH; [done|]. intros m Hm.
  destruct acc as [k|]; cbn in Hm; [|done]. destruct (_ <=? _) in Hm; [|done]. injection Hm as <-.
  specialize (Hacc k eq_refl). unfold is_ascii_digit in Hc. apply in_range_true in Hc. lia.
Qed.

Lemma parse_component_nonneg s n : parse_component s = Some n -> 0 <= n.
Proof.
  unfold parse_component, parse_u64_digits. destruct (_ && _) eqn:E; [|done].
  apply andb_true_iff in E as [_ E]. apply parse_digits_nonneg; [done|]. by intros m [= <-].
Qed.

Lemma parse_version_nonneg s a b c : parse_version s = Some (a, b, c) -> 0 <= a /\ 0 <= b /\ 0 <= c.
Proof.
  unfold parse_version. intros E. destruct (str_split 46 s) as [|x [|y [|z more]]]; cbn in E; try done.
  - by destruct (parse_component x).
  - destruct (parse_component x); [cbn in E|done]. by destruct (parse_component y).
  - destruct (parse_component x) as [x'|] eqn:Hx; [cbn in E|done].
    destruct (parse_component y) as [y'|] eqn:Hy; [cbn in E|done].
    destruct (parse_component z) as [z'|] eqn:Hz; [cbn in E|done].
    case_bool_decide; [|done]. injection E as <- <- <-.
    split_and!; eapply parse_component_nonneg; eassumption.
Qed.

(** A failure that says nothing about a running installer. *)
Definition quiet {T} (r : result UpdateError T) : Prop :=
  match r with Ok _ => True | Err e => installer_state_is_indeterminate e = false end.

Lemma quiet_bind {T U} (r : result UpdateError T) (f : T -> result UpdateError U) :
  quiet r -> (forall x, quiet (f x)) -> quiet (r ≫= f).
Proof. destruct r; cbn; auto. Qed.
Lemma quiet_Ok {T} (x : T) : quiet (Ok x).
Proof. done. Qed.
Lemma quiet_Err {T} e : installer_state_is_indeterminate e = false -> quiet (Err e : result UpdateError T).
Proof. done. Qed.
Lemma quiet_reject b e : installer_state_is_indeterminate e = false -> quiet (reject_if b e).
Proof. by destruct b. Qed.
Lemma quiet_ok_or {T} (o : option T) e : installer_state_is_indeterminate e = false -> quiet (ok_or o e).
Proof. by destruct o. Qed.
Lemma quiet_staging (r : result StagingFailure unit) : quiet (map_err staging_error r).
Proof. destruct r as [|f]; [done|by destruct f]. Qed.
#[export] Hint Resolve quiet_bind quiet_Ok quiet_Err quiet_reject quiet_ok_or quiet_staging : resticpal.

Lemma remove_staging_quiet removed entry : quiet (remove_staging_entry_if_present removed entry).1.
Proof. by destruct entry, removed. Qed.

Lemma download_to_quiet env p entry : quiet (download_to env p entry).1.
Proof.
  unfold download_to. destruct (ie_get _ _ _) as [[bytes finished]|]; [|done].
  destruct entry; try done. destruct (negb (ie_create env)); [done|].
  destruct (_ || _); [done|]. by destruct (negb (_ =? _)).
Qed.

Section package.
Context `{Base64Standard} `{CryptoCrates}.

Lemma decode_signature_Ok value s :
  decode_signature value = Ok s <->
  (str_len value <= 256 /\ contains_line_break value = false) /\ base64_decode value = Some s /\ length s = 64%nat.
Proof.
  unfold decode_signature. rewrite seq_Ok, reject_if_Ok, orb_false_iff, Z.ltb_ge, bind_Ok.
  setoid_rewrite ok_or_Ok. setoid_rewrite seq_Ok. setoid_rewrite reject_if_Ok.
  setoid_rewrite negb_false_iff. setoid_rewrite Z.eqb_eq. split.
  - intros (Ht & x & Hx & Hl & [= <-]). split; [done|]. split; [done|lia].
  - intros (Ht & Hx & Hl). split; [done|]. exists s. split; [done|]. split; [lia|done].
Qed.

Lemma validate_package_iff p : 0 <= up_length p -> validate_package p = Ok () <-> approved_package p.
Proof.
  intros Hlen. unfold validate_package. rewrite bind_Ok. setoid_rewrite ok_or_Ok.
  setoid_rewrite seq_Ok. setoid_rewrite reject_if_Ok. setoid_rewrite seq_Ok. setoid_rewrite reject_if_Ok.
  setoid_rewrite seq_Ok. setoid_rewrite reject_if_Ok. setoid_rewrite bind_Ok.
  setoid_rewrite decode_signature_Ok. setoid_rewrite orb_false_iff. setoid_rewrite andb_false_iff.
  setoid_rewrite negb_false_iff. setoid_rewrite str_eqb_true. setoid_rewrite Z.eqb_neq. setoid_rewrite Z.ltb_ge.
  change (default (0, 0, 0) (parse_version CARGO_PKG_VERSION)) with (1, 0, 8). split.
  - intros (((a & b) & c) & Hv & Hle & [Hz Hmax] & Hurl & s & (Htext & Hs & Hl) & _).
    destruct (parse_version_nonneg _ _ _ _ Hv) as (Ha & Hb & _).
    constructor; [|lia|done|by exists s|done]. exists a, b, c. split; [done|]. by apply version_leb_current in Hle.
  - intros [(a & b & c & Hv & Hnew) Hl Hurl (s & Hs & Hlen64) Htext].
    destruct (parse_version_nonneg _ _ _ _ Hv) as (Ha & Hb & _).
    exists (a, b, c). split; [done|]. split; [by apply version_leb_current|]. split; [lia|]. split; [done|].
    by exists s.
Qed.

#[local] Opaque decode_signature.
Lemma verify_contents_Ok bytes sig key :
  verify_contents_with_public_key bytes sig key = Ok () <->
  exists raw k s, base64_decode (trim key) = Some raw /\ length raw = 32%nat /\ verifying_key_from_bytes raw = Some k
    /\ decode_signature sig = Ok s /\ verify_strict k bytes s = true.
Proof.
  unfold verify_contents_with_public_key. rewrite bind_Ok. setoid_rewrite ok_or_Ok.
  setoid_rewrite seq_Ok. setoid_rewrite reject_if_Ok. setoid_rewrite bind_Ok. setoid_rewrite ok_or_Ok.
  setoid_rewrite bind_Ok. setoid_rewrite reject_if_Ok.
  split.
  - intros (raw & Hr & Hl & k & Hk & s & Hs & Hv). bool_steps. exists raw, k, s. split_and!; try done. lia.
  - intros (raw & k & s & Hr & Hl & Hk & Hs & Hv). exists raw. split; [done|].
    split; [by rewrite Hl|]. exists k. split; [done|]. exists s. split; [done|]. by rewrite Hv.
Qed.

Lemma verify_open_file_signed p bytes :
  verify_open_file_with_public_key bytes (up_length p) (up_signature p) UPDATE_PUBLIC_KEY = Ok () ->
  release_signed p bytes.
Proof.
  unfold verify_open_file_with_public_key. rewrite !seq_Ok, !reject_if_Ok, !negb_false_iff, !Z.eqb_eq.
  intros (Hlen & Hread & Hv). rewrite take_ge in Hv.
  2: { rewrite length_take in Hread. lia. }
  split; [done|]. apply verify_contents_Ok in Hv as (raw & k & s & Hr & Hl & Hk & Hs & Hv).
  apply decode_signature_Ok in Hs as (_ & Hs & Hs'). by exists raw, k, s.
Qed.

Lemma download_and_verify_signed env p bytes :
  download_and_verify env p = Ok bytes -> validate_package p = Ok () /\ release_signed p bytes.
Proof.
  unfold download_and_verify. intros E.
  apply bind_Ok in E as ([] & Hv & E). split; [done|]. do 3 apply bind_Ok in E as ([] & _ & E).
  destruct (remove_staging_entry_if_present _ _) as [r partial]. apply bind_Ok in E as (? & _ & E).
  destruct (remove_staging_entry_if_present _ _) as [r' installer]. apply bind_Ok in E as (? & _ & E).
  destruct (download_to _ _ _) as [d entry]. apply bind_Ok in E as (? & _ & E).
  apply seq_Ok in E as [_ E]. apply bind_Ok in E as (bytes' & Ho & E).
  apply bind_Ok in E as (? & _ & [= <-]). unfold verified_installer_open in Ho.
  destruct (ie_meanwhile env entry); try done.
  - apply seq_Ok in Ho as [_ Ho]. apply bind_Ok in Ho as ([] & Ho & [= <-]). by apply verify_open_file_signed.
  - by apply seq_Ok in Ho as [_ ?].
Qed.

#[local] Transparent decode_signature.
Lemma decode_signature_quiet value : quiet (decode_signature value).
Proof. unfold decode_signature. auto 10 with resticpal. Qed.

Lemma validate_package_quiet p : quiet (validate_package p).
Proof. unfold validate_package. auto 12 using decode_signature_quiet with resticpal. Qed.

Lemma verified_installer_quiet env entry p : quiet (verified_installer_open env entry p).
Proof.
  unfold verified_installer_open, verify_open_file_with_public_key, verify_contents_with_public_key.
  destruct entry; auto 20 using decode_signature_quiet with resticpal.
Qed.

(** Nothing before the launch is an installer state. *)
Lemma download_and_verify_quiet env p : quiet (download_and_verify env p).
Proof.
  unfold download_and_verify.
  apply quiet_bind; [apply validate_package_quiet|intros _].
  do 3 (apply quiet_bind; [apply quiet_staging|intros _]).
  pose proof (remove_staging_quiet (ie_remove_partial env) (ie_partial env)) as H1.
  destruct (remove_staging_entry_if_present _ _) as [r partial]. apply quiet_bind; [exact H1|intros _].
  pose proof (remove_staging_quiet (ie_remove_installer env) (ie_installer env)) as H2.
  destruct (remove_staging_entry_if_present _ _) as [r' installer]. apply quiet_bind; [exact H2|intros _].
  pose proof (download_to_quiet env p partial) as H3.
  destruct (download_to _ _ _) as [d entry]. apply quiet_bind; [exact H3|intros _].
  apply quiet_bind; [by apply quiet_reject|intros _].
  apply quiet_bind; [apply verified_installer_quiet|intros bytes].
  apply quiet_bind; [apply remove_staging_quiet|done].
Qed.
End package.

Section properties.
Context `{Base64Standard} `{CryptoCrates}.

(** C4: whatever happens to the staging directory, the network or another
    process meanwhile, Windows Installer is only ever started on bytes that
    carry the release key's signature and the announced length, for an
    approved package; and a reported completion or an indeterminate
    installer state implies that it was started. *)
Theorem installs_only_signed_releases (fuel : nat) (env : InstallEnv) (p : UpdatePackage) (started : Z)
    (outcome : UpdateInstallOutcome) (launched : option (list Z))
    (Hlen : 0 <= up_length p) (Hrun : install fuel env p started = Some (outcome, launched)) :
  match launched with
  | Some bytes => approved_package p /\ release_signed p bytes
  | None => exists code, outcome = Upd_Failed code
  end.
Proof.
  unfold install in Hrun.
  destruct (download_verify_and_launch _ _ _ _) as [[status l]|] eqn:E; [|done].
  injection Hrun as <- <-. unfold download_verify_and_launch in E.
  destruct (download_and_verify env p) as [bytes|e] eqn:Hd.
  - apply download_and_verify_signed in Hd as [Hv Hs]. apply validate_package_iff in Hv; [|done].
    unfold launch_msi in E. destruct (_ <=? _); [by injection E as <- <-; eexists|].
    destruct (negb (ie_spawn env)); [by injection E as <- <-; eexists|].
    destruct (wait_for_installer _ _ _ _) as [w|]; [|done]. by injection E as <- <-.
  - injection E as <- <-. exists (update_error_code e).
    pose proof (download_and_verify_quiet env p) as Hq. rewrite Hd in Hq. cbn in Hq. by rewrite Hq.
Qed.

(** An announced package is accepted exactly when it is newer than the
    running service, at most 512 MiB, at one of the two release URLs of its
    own version and with a decodable signature. *)
Theorem package_approved_iff (p : UpdatePackage) (Hlen : 0 <= up_length p) :
  validate_package p = Ok () <-> approved_package p.
Proof. by apply validate_package_iff. Qed.

(** The clock only moves forward, and a sleep takes at least as long as was
    asked for. *)
Record clock_advances (env : InstallEnv) (deadline : Z) : Prop := {
  ca_mono : forall k, ie_now env k <= ie_now env (S k);
  ca_sleep : forall k, ie_now env (2 * k + 2)%nat
               + Z.min INSTALLER_POLL_INTERVAL (Z.max 0 (deadline - ie_now env (2 * k + 2)%nat))
             <= ie_now env (2 * k + 3)%nat
}.

Lemma wait_bounded env deadline (Hclock : clock_advances env deadline) fuel :
  forall k, deadline - ie_now env (2 * k + 1)%nat <= Z.of_nat fuel * INSTALLER_POLL_INTERVAL ->
  is_Some (wait_for_installer (S fuel) env deadline k).
Proof.
  induction fuel as [|fuel IH]; intros k Hk; cbn [wait_for_installer].
  all: destruct (ie_try_wait env k); try (by eexists).
  all: replace (S (2 * k)) with (2 * k + 1)%nat by lia; destruct (_ <? deadline) eqn:E.
  all: try (destruct (negb (ie_kill env)); [by destruct (ie_exit_after_kill env); eexists|];
            by destruct (negb (ie_reap env)); eexists).
  - apply Z.ltb_lt in E. unfold INSTALLER_POLL_INTERVAL in *. lia.
  - apply IH. replace (2 * S k + 1)%nat with (2 * k + 3)%nat by lia.
    pose proof (ca_sleep _ _ Hclock k) as Hs. pose proof (ca_mono _ _ Hclock (2 * k + 1)) as Hm.
    replace (S (2 * k + 1)) with (2 * k + 2)%nat in Hm by lia. unfold INSTALLER_POLL_INTERVAL in *. lia.
Qed.

(** An installation always comes to an outcome: under a clock that
    advances, the number of polls of Windows Installer that fits into the
    update deadline is enough, even when the installer never exits. *)
Theorem install_terminates (env : InstallEnv) (p : UpdatePackage) (started : Z) (polls : nat)
    (Hclock : clock_advances env (started + UPDATE_INSTALL_TIMEOUT_SECONDS * 1000))
    (Hpolls : Z.of_nat polls = UPDATE_INSTALL_TIMEOUT_SECONDS * 1000 / INSTALLER_POLL_INTERVAL)
    (Hstart : started <= ie_now env 0) :
  exists outcome launched, install (2 + polls) env p started = Some (outcome, launched).
Proof.
  unfold install. set (deadline := started + _).
  assert (is_Some (download_verify_and_launch (2 + polls) env p deadline)) as [[status launched] ->]; [|by eexists _, _].
  unfold download_verify_and_launch. destruct (download_and_verify env p); [|by eexists].
  unfold launch_msi. destruct (_ <=? _); [by eexists|]. destruct (negb _); [by eexists|].
  destruct (wait_bounded env deadline Hclock (S polls) 0) as [r Hr]; [|change (2 + polls)%nat with (S (S polls)); rewrite Hr; by eexists].
  pose proof (ca_mono _ _ Hclock 0%nat). cbn [Nat.mul Nat.add].
  change (UPDATE_INSTALL_TIMEOUT_SECONDS * 1000 / INSTALLER_POLL_INTERVAL) with 7200 in Hpolls.
  subst deadline. unfold UPDATE_INSTALL_TIMEOUT_SECONDS, INSTALLER_POLL_INTERVAL in *. lia.
Qed.
End properties.

Module UpdaterWitness.
#[local] Existing Instance ManagementWitness.toy_crypto.
(** The key text decodes to thirty-two bytes, every other text to sixty-four threes. *)
#[local] Instance toy_base64 : Base64Standard :=
  {| base64_decode := fun s => Some (replicate (if bool_decide (length s = 44%nat) then 32 else 64) 3) |}.

Definition package : UpdatePackage :=
  {| up_version := lit "1.2.0"; up_url := primary_url (lit "1.2.0"); up_signature := lit "sig"; up_length := 3 |}.
Definition env : InstallEnv := {|
  ie_security := Ok (); ie_data_root := Ok (); ie_update_root := Ok ();
  ie_partial := SE_Absent; ie_installer := SE_File [9]; ie_log := SE_Absent;
  ie_remove_partial := true; ie_remove_installer := true; ie_remove_log := true;
  ie_get := fun _ _ => Some ([7; 7; 7], true); ie_create := true; ie_sync := true; ie_rename := true;
  ie_meanwhile := fun e => e; ie_open := true; ie_spawn := true;
  ie_try_wait := fun k => if Nat.leb 2 k then Child_Exited 3010 else Child_Running;
  ie_kill := true; ie_reap := true; ie_exit_after_kill := Child_Running;
  ie_now := fun k => 250 * Z.of_nat k
|}.

Lemma installs_only_signed_witness :
  install 5 env package 0 = Some (Upd_Completed (lit "1.2.0"), Some [7; 7; 7])
  /\ release_signed package [7; 7; 7].
Proof.
  assert (install 5 env package 0 = Some (Upd_Completed (lit "1.2.0"), Some [7; 7; 7])) as E by (vm_compute; reflexivity).
  split; [exact E|].
  exact (proj2 (installs_only_signed_releases 5 env package 0 _ _ ltac:(vm_compute; discriminate) E)).
Defined.

Lemma package_approved_witness : approved_package package.
Proof.
  exact (proj1 (package_approved_iff package ltac:(vm_compute; discriminate)) ltac:(vm_compute; reflexivity)).
Defined.

Lemma install_terminates_witness :
  exists outcome launched, install (2 + Z.to_nat 7200) env package 0 = Some (outcome, launched).
Proof.
  apply (install_terminates env package 0 (Z.to_nat 7200)); [|reflexivity|discriminate].
  split; intros k; cbn [ie_now env]; unfold INSTALLER_POLL_INTERVAL; lia.
Defined.
End UpdaterWitness.
