(* ===== verification/DataRoot.v ===== *)
(** * The service's data root ([apps/resticpal-service/src/updater.rs])

    [prepare_service_data_root]: before anything is read, the machine-wide
    directories and files of the service get a protected ACL and a trusted
    owner, or the service does not start.  Security descriptors are records;
    the conversion of SDDL text is a parameter, every call of Windows may
    fail, and another process may change an object between any two calls. *)
From stdpp Require Import base option list gmap strings.
From S2P Require Import Prelude RustStd Config Protocol Management Outcome Updater.

(** Bytes of a SID and of an ACL. *)
Definition Sid : Type := list Z.
Definition Acl : Type := list Z.
#[global] Instance Sid_eq_dec : EqDecision Sid := _.
#[global] Instance Acl_eq_dec : EqDecision Acl := _.

Record Descriptor : Type := {
  sd_owner : option Sid;
  sd_group : option Sid;
  sd_dacl : option Acl;
  sd_protected : bool                (* [SE_DACL_PROTECTED] *)
}.

(** [ConvertStringSecurityDescriptorToSecurityDescriptorW] *)
Class Sddl := { convert_sddl : rstr -> option Descriptor }.

Definition FILE_ATTRIBUTE_DIRECTORY : Z := 0x10.
Definition FILE_ATTRIBUTE_REPARSE_POINT : Z := 0x400.
Definition SECURE_DIRECTORY_SDDL : rstr := lit "O:SYG:SYD:P(A;OICI;FA;;;SY)(A;OICI;FA;;;BA)".
Definition SECURE_FILE_SDDL : rstr := lit "O:SYG:SYD:P(A;;FA;;;SY)(A;;FA;;;BA)".

Record FileObject : Type := { fo_attributes : Z; fo_security : Descriptor }.
Definition is_directory (o : FileObject) : bool := negb (Z.land (fo_attributes o) FILE_ATTRIBUTE_DIRECTORY =? 0).
Definition is_reparse_point (o : FileObject) : bool := negb (Z.land (fo_attributes o) FILE_ATTRIBUTE_REPARSE_POINT =? 0).

(** What Windows answers while one object is prepared, and what others do to
    it before each call. *)
Record ObjectEnv : Type := {
  ob_create : bool;
  ob_metadata : bool;
  ob_open : bool;
  ob_attributes : bool;
  ob_owner : bool;
  ob_apply : bool;
  ob_attributes_again : bool;
  ob_security : bool;
  ob_meanwhile : nat -> FileObject -> FileObject
}.

Definition same_sid (left right : option Sid) : bool :=
  match left, right with Some l, Some r => bool_decide (l = r) | _, _ => false end.
Definition same_acl (left right : option Acl) : bool :=
  match left, right with Some l, Some r => bool_decide (l = r) | _, _ => false end.

Record SecureDirectorySecurity : Type := {
  sec_descriptor : Descriptor;
  sec_enforce_trusted_owner : bool
}.

(** The objects below the data root, by relative path. *)
Abbreviation DataRoot := (gmap rstr FileObject).

Section security.
Context `{Sddl}.

Definition from_sddl (sddl : rstr) (enforce_trusted_owner : bool) : result UpdateError SecureDirectorySecurity :=
  descriptor ← ok_or (convert_sddl sddl) UE_StagingProtection;
  reject_if (negb (is_some (sd_dacl descriptor))) UE_UnsafeStagingDirectory ;;
  reject_if (enforce_trusted_owner && (negb (is_some (sd_owner descriptor)) || negb (is_some (sd_group descriptor))))
    UE_UnsafeStagingDirectory ;;
  Ok {| sec_descriptor := descriptor; sec_enforce_trusted_owner := enforce_trusted_owner |}.

(** [system_and_administrators] and [system_and_administrators_file] *)
Definition system_and_administrators : result UpdateError SecureDirectorySecurity := from_sddl SECURE_DIRECTORY_SDDL true.
Definition system_and_administrators_file : result UpdateError SecureDirectorySecurity := from_sddl SECURE_FILE_SDDL true.

(** [apply]: what [SetSecurityInfo] leaves. *)
Definition apply (security : SecureDirectorySecurity) (o : FileObject) : FileObject :=
  let d := sec_descriptor security in
  {| fo_attributes := fo_attributes o;
     fo_security :=
       {| sd_owner := (if sec_enforce_trusted_owner security then sd_owner d else sd_owner (fo_security o));
          sd_group := (if sec_enforce_trusted_owner security then sd_group d else sd_group (fo_security o));
          sd_dacl := sd_dacl d; sd_protected := true |} |}.

(** [verify], when the descriptor could be read. *)
Definition verify (security : SecureDirectorySecurity) (o : FileObject) : result UpdateError unit :=
  let d := sec_descriptor security in
  let actual := fo_security o in
  reject_if (negb (sd_protected actual)) UE_UnsafeStagingDirectory ;;
  reject_if (negb (same_acl (sd_dacl actual) (sd_dacl d))) UE_UnsafeStagingDirectory ;;
  reject_if (sec_enforce_trusted_owner security
             && (negb (same_sid (sd_owner actual) (sd_owner d)) || negb (same_sid (sd_group actual) (sd_group d))))
    UE_UnsafeStagingDirectory.

Definition validate_directory_handle (queried : bool) (o : FileObject) : result UpdateError unit :=
  reject_if (negb queried) UE_StagingProtection ;;
  reject_if (negb (is_directory o) || is_reparse_point o) UE_UnsafeStagingDirectory.
Definition validate_file_handle (queried : bool) (o : FileObject) : result UpdateError unit :=
  reject_if (negb queried) UE_StagingProtection ;;
  reject_if (is_directory o || is_reparse_point o) UE_UnsafeServiceDataEntry.

Definition sid_matches_sddl_owner (owner : option Sid) (sddl : rstr) : result UpdateError bool :=
  descriptor ← ok_or (convert_sddl sddl) UE_StagingProtection;
  Ok (same_sid owner (sd_owner descriptor)).

Definition directory_owner_is_system_or_administrator (queried : bool) (o : FileObject) : result UpdateError bool :=
  reject_if (negb queried) UE_StagingProtection ;;
  system ← sid_matches_sddl_owner (sd_owner (fo_security o)) (lit "O:SY");
  if (system : bool) then Ok true else sid_matches_sddl_owner (sd_owner (fo_security o)) (lit "O:BA").

(** The part both kinds share, on an open handle: the checks, the owner, the
    new descriptor and its verification.  The object as it is left comes
    back with the result. *)
Definition protect_handle (env : ObjectEnv) (security : SecureDirectorySecurity) (validate : bool -> FileObject -> result UpdateError unit)
    (untrusted : UpdateError) (trusted : bool) (o : FileObject) : result UpdateError unit * FileObject :=
  let o := ob_meanwhile env 0 o in
  match validate (ob_attributes env) o with
  | Err error => (Err error, o)
  | Ok _ =>
      let o := ob_meanwhile env 1 o in
      match if trusted then Ok true else directory_owner_is_system_or_administrator (ob_owner env) o with
      | Err error => (Err error, o)
      | Ok false => (Err untrusted, o)
      | Ok true =>
          let o := ob_meanwhile env 2 o in
          if negb (ob_apply env) then (Err UE_StagingProtection, o)
          else
            let o := ob_meanwhile env 3 (apply security o) in
            match validate (ob_attributes_again env) o with
            | Err error => (Err error, o)
            | Ok _ =>
                let o := ob_meanwhile env 4 o in
                ((reject_if (negb (ob_security env)) UE_StagingProtection ;; verify security o), o)
            end
      end
  end.

(** [prepare_secure_directory] on the object at the path, if there is one. *)
Definition prepare_secure_directory (env : ObjectEnv) (security : SecureDirectorySecurity) (found : option FileObject)
    : result UpdateError unit * option FileObject :=
  let created := negb (is_some found) in
  if created && negb (ob_create env) then (Err UE_StagingProtection, found)
  else
    let o := default {| fo_attributes := FILE_ATTRIBUTE_DIRECTORY; fo_security := sec_descriptor security |} found in
    if negb (ob_open env) then (Err UE_StagingProtection, Some o)
    else
      let '(r, o) := protect_handle env security validate_directory_handle UE_UntrustedStagingDirectory
                       (created || negb (sec_enforce_trusted_owner security)) o in
      (r, Some o).

(** [prepare_existing_secure_file] *)
Definition prepare_existing_secure_file (env : ObjectEnv) (security : SecureDirectorySecurity) (found : option FileObject)
    : result UpdateError unit * option FileObject :=
  match found with
  | None => (Ok (), None)
  | Some o =>
      if negb (ob_metadata env) then (Err UE_StagingProtection, found)
      else if is_directory o || is_reparse_point o then (Err UE_UnsafeServiceDataEntry, found)
      else if negb (ob_open env) then (Err UE_StagingProtection, found)
      else
        let '(r, o) := protect_handle env security validate_file_handle UE_UntrustedServiceDataEntry
                         (negb (sec_enforce_trusted_owner security)) o in
        (r, Some o)
  end.

Definition data_directories : list rstr := [lit "."; lit "Cache"; lit "Credentials"; lit "Logs"; lit "Updates"].
Definition data_files : list rstr :=
  [ lit "config.toml"; lit "state.json"; lit "state.db"; lit "state.db-wal"; lit "state.db-shm"; lit "state.db-journal";
    lit "managed-policy-cache.json"; lit "service-startup-errors.log"; lit "Logs\service.jsonl" ].

(** One path after the other, up to the first error. *)
Fixpoint prepare_each (prepare : rstr -> option FileObject -> result UpdateError unit * option FileObject)
    (paths : list rstr) (root : DataRoot) : result UpdateError unit * DataRoot :=
  match paths with
  | [] => (Ok (), root)
  | path :: paths =>
      let '(r, o) := prepare path (root !! path) in
      let root := partial_alter (fun _ => o) path root in
      match r with
      | Err error => (Err error, root)
      | Ok _ => prepare_each prepare paths root
      end
  end.

Definition prepare_service_data_root (env : rstr -> ObjectEnv) (root : DataRoot) : result UpdateError unit * DataRoot :=
  match system_and_administrators, system_and_administrators_file with
  | Err error, _ => (Err error, root)
  | Ok _, Err error => (Err error, root)
  | Ok directory_security, Ok file_security =>
      match prepare_each (fun path => prepare_secure_directory (env path) directory_security) data_directories root with
      | (Err error, root) => (Err error, root)
      | (Ok _, root) => prepare_each (fun path => prepare_existing_secure_file (env path) file_security) data_files root
      end
  end.
End security.

(** ** What a prepared data root guarantees *)

(** The object has the wanted ACL, cut off from inheritance, and, where that
    is enforced, the wanted owner and group. *)
Record protected_by (security : SecureDirectorySecurity) (o : FileObject) : Prop := {
  pb_protected : sd_protected (fo_security o) = true;
  pb_dacl : is_Some (sd_dacl (fo_security o)) /\ sd_dacl (fo_security o) = sd_dacl (sec_descriptor security);
  pb_owner : sec_enforce_trusted_owner security = true ->
    sd_owner (fo_security o) = sd_owner (sec_descriptor security)
    /\ sd_group (fo_security o) = sd_group (sec_descriptor security)
}.

Section guarantees.
Context `{Sddl}.

(** Owned by LocalSystem or by the administrators. *)
Definition trusted_owner (o : FileObject) : Prop :=
  exists sddl d, (sddl = lit "O:SY" \/ sddl = lit "O:BA") /\ convert_sddl sddl = Some d
    /\ same_sid (sd_owner (fo_security o)) (sd_owner d) = true.

Lemma same_option_true {A} `{EqDecision A} (l r : option A) :
  (match l, r with Some l, Some r => bool_decide (l = r) | _, _ => false end) = true -> is_Some l /\ l = r.
Proof. destruct l, r; try done. intros ->%bool_decide_eq_true. eauto. Qed.

Lemma verify_Ok security o : verify security o = Ok () -> protected_by security o.
Proof.
  unfold verify. rewrite !seq_Ok, !reject_if_Ok. intros (Hp & Ha & Ho). apply negb_false_iff in Hp, Ha.
  apply same_option_true in Ha as [Hs Ha]. split; [done|done|]. intros He. rewrite He in Ho. cbn in Ho.
  apply orb_false_iff in Ho as [Ho Hg]. apply negb_false_iff in Ho, Hg.
  by apply same_option_true in Ho as [_ ->], Hg as [_ ->].
Qed.

Lemma owner_Ok_true queried o :
  directory_owner_is_system_or_administrator queried o = Ok true -> trusted_owner o.
Proof.
  unfold directory_owner_is_system_or_administrator, sid_matches_sddl_owner. intros [_ E]%seq_Ok.
  apply bind_Ok in E as (system & Es & E). apply bind_Ok in Es as (d & Hd%ok_or_Ok & [= <-]).
  destruct (same_sid _ _) eqn:Hs; [by exists (lit "O:SY"), d; eauto|].
  apply bind_Ok in E as (d' & Hd'%ok_or_Ok & [= E]). exists (lit "O:BA"), d'. eauto.
Qed.

(** The object ends protected, after its kind was checked under the new descriptor. *)
Lemma protect_handle_Ok env security validate untrusted trusted o o' :
  protect_handle env security validate untrusted trusted o = (Ok (), o') ->
  protected_by security o' /\ (trusted = false -> trusted_owner (ob_meanwhile env 1 (ob_meanwhile env 0 o)))
  /\ exists o1, o' = ob_meanwhile env 4 o1 /\ validate (ob_attributes_again env) o1 = Ok ().
Proof.
  unfold protect_handle. cbv zeta. destruct (validate (ob_attributes env) _); [|done].
  set (o1 := ob_meanwhile env 1 _). destruct (if trusted then _ else _) as [[|]|] eqn:Ht; [|done..].
  destruct (negb (ob_apply env)); [done|]. set (o3 := ob_meanwhile env 3 _).
  destruct (validate (ob_attributes_again env) o3) as [[]|] eqn:Hv; [|done].
  destruct (reject_if _ _ ;; _) as [[]|] eqn:Hr; [|done]. intros [= <-]. apply seq_Ok in Hr as [_ Hr].
  split; [by apply verify_Ok|]. split; [|by exists o3]. intros ->. by eapply owner_Ok_true.
Qed.

(** An object of a foreign owner that is left alone meanwhile is refused and not touched. *)
Lemma protect_handle_untrusted env security validate untrusted o :
  (forall k o, ob_meanwhile env k o = o) -> ~ trusted_owner o ->
  exists error, protect_handle env security validate untrusted false o = (Err error, o).
Proof.
  intros Hm Ht. unfold protect_handle. cbv zeta. rewrite !Hm. destruct (validate _ _); [|eauto].
  destruct (directory_owner_is_system_or_administrator _ _) as [[|]|] eqn:E; [|eauto..].
  by apply owner_Ok_true in E.
Qed.

Definition directory_ready (security : SecureDirectorySecurity) (o' : option FileObject) : Prop :=
  exists o, o' = Some o /\ protected_by security o.
Definition file_ready (security : SecureDirectorySecurity) (o o' : option FileObject) : Prop :=
  (o = None /\ o' = None) \/ exists x, o' = Some x /\ protected_by security x.

Lemma prepare_secure_directory_Ok env security o o' :
  prepare_secure_directory env security o = (Ok (), o') -> directory_ready security o'.
Proof.
  unfold prepare_secure_directory. destruct (_ && negb (ob_create env)); [done|]. destruct (negb (ob_open env)); [done|].
  destruct (protect_handle _ _ _ _ _ _) as [[[]|] x] eqn:E; [|done]. intros [= <-]. exists x. split; [done|].
  by apply protect_handle_Ok in E as [Hp _].
Qed.

Lemma prepare_existing_secure_file_Ok env security o o' :
  prepare_existing_secure_file env security o = (Ok (), o') -> file_ready security o o'.
Proof.
  unfold prepare_existing_secure_file. destruct o as [o|]; [|intros [= <-]; by left].
  destruct (negb _); [done|]. destruct (_ || _); [done|]. destruct (negb _); [done|].
  destruct (protect_handle _ _ _ _ _ _) as [[[]|] x] eqn:E; [|done]. intros [= <-]. right. exists x. split; [done|].
  by apply protect_handle_Ok in E as [Hp _].
Qed.

Lemma prepare_each_spec prepare paths root r root' :
  NoDup paths -> prepare_each prepare paths root = (r, root') ->
  (forall path, path ∉ paths -> root' !! path = root !! path)
  /\ (r = Ok () -> forall path, path ∈ paths -> exists o, prepare path (root !! path) = (Ok (), o) /\ root' !! path = o)
  /\ (forall path, path ∈ paths -> root' !! path = root !! path \/ root' !! path = (prepare path (root !! path)).2).
Proof.
  intros Hnd. revert root. induction Hnd as [|path paths Hp Hnd IH]; intros root; cbn [prepare_each].
  - intros [= <- <-]. split_and!; [done|by intros _ p ?%elem_of_nil|by intros p ?%elem_of_nil].
  - destruct (prepare path (root !! path)) as [r1 o] eqn:E. destruct r1 as [[]|error].
    + intros (Ho & Hok & Hany)%IH. split_and!.
      * intros p [Hne Hin]%not_elem_of_cons. rewrite Ho by done. by rewrite lookup_partial_alter_ne.
      * intros Hr p [->|Hin]%elem_of_cons; [exists o; by rewrite Ho, lookup_partial_alter_eq|].
        destruct (Hok Hr p Hin) as (o' & Hpo & Hro). exists o'. split; [|done].
        rewrite lookup_partial_alter_ne in Hpo by (by intros ->). done.
      * intros p [->|Hin]%elem_of_cons; [right; by rewrite E, Ho, lookup_partial_alter_eq|].
        specialize (Hany p Hin). rewrite lookup_partial_alter_ne in Hany by (by intros ->). done.
    + intros [= <- <-]. split_and!; [|done|].
      * intros p [Hne Hin]%not_elem_of_cons. by rewrite lookup_partial_alter_ne.
      * intros p [->|Hin]%elem_of_cons; [right; by rewrite E, lookup_partial_alter_eq|]. left.
        rewrite lookup_partial_alter_ne by (by intros ->). done.
Qed.

Lemma paths_distinct : NoDup (data_directories ++ data_files).
Proof. apply (bool_decide_unpack (NoDup _)). vm_compute. exact I. Qed.

Lemma enforced sddl security : from_sddl sddl true = Ok security -> sec_enforce_trusted_owner security = true.
Proof.
  unfold from_sddl. intros (d & _ & E)%bind_Ok. apply seq_Ok in E as [_ E]. apply seq_Ok in E as [_ E]. by injection E as <-.
Qed.

Lemma untrusted_directory env security o :
  sec_enforce_trusted_owner security = true -> (forall k x, ob_meanwhile env k x = x) -> ~ trusted_owner o ->
  exists error, prepare_secure_directory env security (Some o) = (Err error, Some o).
Proof.
  intros He Hm Ht. unfold prepare_secure_directory. cbn [is_some negb andb from_option id]. rewrite He.
  destruct (negb (ob_open env)); [eauto|]. cbn [negb orb].
  destruct (protect_handle_untrusted env security validate_directory_handle UE_UntrustedStagingDirectory o Hm Ht) as [e ->]. eauto.
Qed.

Lemma untrusted_file env security o :
  sec_enforce_trusted_owner security = true -> (forall k x, ob_meanwhile env k x = x) -> ~ trusted_owner o ->
  exists error, prepare_existing_secure_file env security (Some o) = (Err error, Some o).
Proof.
  intros He Hm Ht. unfold prepare_existing_secure_file. rewrite He.
  destruct (negb (ob_metadata env)); [eauto|]. destruct (_ || _); [eauto|]. destruct (negb (ob_open env)); [eauto|]. cbn [negb].
  destruct (protect_handle_untrusted env security validate_file_handle UE_UntrustedServiceDataEntry o Hm Ht) as [e ->]. eauto.
Qed.

(** One group of paths with its preparation, where a foreign object is refused. *)
Lemma group_refuses prepare paths root r root' path o :
  NoDup paths -> prepare_each prepare paths root = (r, root') -> root !! path = Some o ->
  (path ∈ paths -> exists error, prepare path (Some o) = (Err error, Some o)) ->
  root' !! path = Some o /\ (path ∈ paths -> r <> Ok ()).
Proof.
  intros Hnd Hr Ho Hp. destruct (prepare_each_spec _ _ _ _ _ Hnd Hr) as (Hout & Hok & Hany).
  destruct (decide (path ∈ paths)) as [Hin|Hin]; [|split; [by rewrite Hout|done]].
  destruct (Hp Hin) as [e He]. split.
  - destruct (Hany path Hin) as [->| ->]; rewrite Ho; [done|]. by rewrite He.
  - intros _ ->. destruct (Hok eq_refl path Hin) as (x & Hx & _). rewrite Ho, He in Hx. done.
Qed.

(** What an accepted data root holds. *)
Lemma prepared_objects env root root' :
  prepare_service_data_root env root = (Ok (), root') ->
  exists directory file, system_and_administrators = Ok directory /\ system_and_administrators_file = Ok file
    /\ (forall path, path ∈ data_directories -> directory_ready directory (root' !! path))
    /\ (forall path, path ∈ data_files -> file_ready file (root !! path) (root' !! path)).
Proof.
  intros Hrun. pose proof paths_distinct as Hnd. apply NoDup_app in Hnd as (Hdd & Hdis & Hdf).
  unfold prepare_service_data_root in Hrun.
  destruct system_and_administrators as [directory|]; [|done]. destruct system_and_administrators_file as [file|]; [|done].
  destruct (prepare_each _ data_directories root) as [[[]|] root1] eqn:E1; [|done].
  destruct (prepare_each_spec _ _ _ _ _ Hdd E1) as (Hout1 & Hok1 & _).
  destruct (prepare_each_spec _ _ _ _ _ Hdf Hrun) as (Hout2 & Hok2 & _).
  exists directory, file. split_and!; [done..| |].
  - intros path Hin. destruct (Hok1 eq_refl path Hin) as (o & Ho%prepare_secure_directory_Ok & E).
    rewrite Hout2, E by (by intros ?; eapply Hdis). done.
  - intros path Hin. destruct (Hok2 eq_refl path Hin) as (o & Ho%prepare_existing_secure_file_Ok & E).
    rewrite Hout1 in Ho by (by intros ?; eapply Hdis). by rewrite E.
Qed.

(** An object carries what a text of SDDL says: its ACL and nothing
    inherited, its owner and its group. *)
Definition carries (sddl : rstr) (o : FileObject) : Prop :=
  exists d, convert_sddl sddl = Some d /\ sd_protected (fo_security o) = true
    /\ is_Some (sd_dacl d) /\ sd_dacl (fo_security o) = sd_dacl d
    /\ is_Some (sd_owner d) /\ sd_owner (fo_security o) = sd_owner d
    /\ is_Some (sd_group d) /\ sd_group (fo_security o) = sd_group d.

Lemma from_sddl_carries sddl security o : from_sddl sddl true = Ok security -> protected_by security o -> carries sddl o.
Proof.
  unfold from_sddl. intros (d & Hd%ok_or_Ok & E)%bind_Ok [Hp [Ha Hb] Ho]. rewrite !seq_Ok, !reject_if_Ok in E.
  destruct E as (_ & Hs & [= <-]). destruct (Ho eq_refl) as [Hso Hsg]. cbn in *.
  apply orb_false_iff in Hs as [Hs1%negb_false_iff Hs2%negb_false_iff]. exists d.
  split_and!; try done; [by rewrite <- Hb|by destruct (sd_owner d)|by destruct (sd_group d)].
Qed.

Lemma prepared_carry env root root' :
  prepare_service_data_root env root = (Ok (), root') ->
  (forall path, path ∈ data_directories -> exists o, root' !! path = Some o /\ carries SECURE_DIRECTORY_SDDL o)
  /\ (forall path, path ∈ data_files ->
        root !! path = None /\ root' !! path = None \/ exists o, root' !! path = Some o /\ carries SECURE_FILE_SDDL o).
Proof.
  intros (directory & file & Hd & Hf & Hdirs & Hfiles)%prepared_objects. split.
  - intros path (o & Ho & Hp)%Hdirs. exists o. split; [done|]. by eapply from_sddl_carries.
  - intros path [?|(o & Ho & Hp)]%Hfiles; [by left|right]. exists o. split; [done|]. by eapply from_sddl_carries.
Qed.

(** C11: once the data root is accepted, its directory, the four directories
    below it and each of the nine files named here that existed carry
    exactly the owner, group and ACL (LocalSystem and the administrators
    only, nothing inherited) of the SDDL texts, even if another process
    interferes between the calls.  If one of these objects belongs to
    neither LocalSystem nor the administrators and nobody changes it
    meanwhile, the service refuses to start and leaves that object as it
    was.  (Archived logs and single credential files are not among them.) *)
Theorem data_root_is_secured (env : rstr -> ObjectEnv) (root root' : DataRoot) (r : result UpdateError unit)
    (Hrun : prepare_service_data_root env root = (r, root')) :
  (r = Ok () ->
     (forall path, path ∈ [lit "."; lit "Cache"; lit "Credentials"; lit "Logs"; lit "Updates"] ->
        exists o, root' !! path = Some o /\ carries (lit "O:SYG:SYD:P(A;OICI;FA;;;SY)(A;OICI;FA;;;BA)") o)
     /\ (forall path, path ∈ [lit "config.toml"; lit "state.json"; lit "state.db"; lit "state.db-wal"; lit "state.db-shm";
             lit "state.db-journal"; lit "managed-policy-cache.json"; lit "service-startup-errors.log"; lit "Logs\service.jsonl"] ->
        root !! path = None /\ root' !! path = None
        \/ exists o, root' !! path = Some o /\ carries (lit "O:SYG:SYD:P(A;;FA;;;SY)(A;;FA;;;BA)") o))
  /\ (forall path o,
        path ∈ [lit "."; lit "Cache"; lit "Credentials"; lit "Logs"; lit "Updates"; lit "config.toml"; lit "state.json";
                lit "state.db"; lit "state.db-wal"; lit "state.db-shm"; lit "state.db-journal"; lit "managed-policy-cache.json";
                lit "service-startup-errors.log"; lit "Logs\service.jsonl"] ->
        root !! path = Some o -> (forall k x, ob_meanwhile (env path) k x = x) -> ~ trusted_owner o ->
        r <> Ok () /\ root' !! path = Some o).
Proof.
  split; [intros ->; exact (prepared_carry _ _ _ Hrun)|]. intros path o Hin Ho Hm Ht.
  change (path ∈ data_directories ++ data_files) in Hin.
  pose proof paths_distinct as Hnd. apply NoDup_app in Hnd as (Hdd & _ & Hdf).
  unfold prepare_service_data_root in Hrun.
  destruct system_and_administrators as [directory|] eqn:Hd; [|by injection Hrun as <- <-].
  destruct system_and_administrators_file as [file|] eqn:Hf; [|by injection Hrun as <- <-].
  pose proof (enforced _ _ Hd) as Hde. pose proof (enforced _ _ Hf) as Hfe.
  destruct (prepare_each _ data_directories root) as [r1 root1] eqn:E1.
  destruct (group_refuses _ _ _ _ _ path o Hdd E1 Ho) as [Ho1 Hn1]; [intros _; by apply untrusted_directory|].
  destruct r1 as [[]|error]; [|by injection Hrun as <- <-].
  destruct (group_refuses _ _ _ _ _ path o Hdf Hrun Ho1) as [Ho2 Hn2]; [intros _; by apply untrusted_file|].
  split; [|done]. apply elem_of_app in Hin as [Hin|Hin]; [by destruct (Hn1 Hin)|by apply Hn2].
Qed.
End guarantees.

Module DataRootWitness.
(** SIDs 18 and 32; the ACLs are the texts. *)
#[local] Instance toy_sddl : Sddl :=
  {| convert_sddl := fun s =>
       Some {| sd_owner := Some (if starts_with (lit "O:BA") s then [32] else [18]); sd_group := Some [18];
               sd_dacl := Some (drop 10 s); sd_protected := true |} |}.
Definition quiet_env (_ : rstr) : ObjectEnv :=
  {| ob_create := true; ob_metadata := true; ob_open := true; ob_attributes := true; ob_owner := true; ob_apply := true;
     ob_attributes_again := true; ob_security := true; ob_meanwhile := fun _ o => o |}.
Definition object (attributes : Z) (owner : Sid) : FileObject :=
  {| fo_attributes := attributes;
     fo_security := {| sd_owner := Some owner; sd_group := Some owner; sd_dacl := Some [7]; sd_protected := false |} |}.
(** A configuration of the administrators, and one that a user put there. *)
Definition legacy : DataRoot := {[ lit "config.toml" := object 0x20 [32] ]}.
Definition squatted : DataRoot := {[ lit "config.toml" := object 0x20 [99] ]}.

Lemma data_root_witness :
  (exists o, (prepare_service_data_root quiet_env legacy).2 !! lit "Updates" = Some o /\ carries SECURE_DIRECTORY_SDDL o)
  /\ (prepare_service_data_root quiet_env squatted).1 <> Ok ()
  /\ (prepare_service_data_root quiet_env squatted).2 !! lit "config.toml" = Some (object 0x20 [99]).
Proof.
  destruct (prepare_service_data_root quiet_env legacy) as [r1 root1] eqn:E1.
  destruct (prepare_service_data_root quiet_env squatted) as [r2 root2] eqn:E2.
  assert (r1 = Ok ()) as ->.
  { change r1 with ((r1, root1).1). rewrite <- E1. vm_compute. reflexivity. }
  destruct (proj1 (data_root_is_secured quiet_env legacy root1 _ E1) eq_refl) as [Hdir _].
  split; [apply Hdir; apply (bool_decide_unpack (_ ∈ _)); vm_compute; exact I|].
  apply (proj2 (data_root_is_secured quiet_env squatted root2 _ E2) (lit "config.toml") (object 0x20 [99])).
  - apply (bool_decide_unpack (_ ∈ _)). vm_compute. exact I.
  - vm_compute. reflexivity.
  - reflexivity.
  - intros (sddl & d & [->| ->] & [= <-] & Hs); vm_compute in Hs; discriminate Hs.
Defined.
End DataRootWitness.
