(* ===== verification/Access.v ===== *)
(** * Who may reach the service's objects

    The access control lists the sources write as SDDL text
    ([crates/resticpal-windows/src/credentials.rs], [named_pipe.rs] and
    [apps/resticpal-service/src/updater.rs]), the calls that put the one of
    the credential store on a file, and what the lists let whom do.  Windows
    converts the texts; a reader for the part of the documented SDDL grammar
    they use says what they mean. *)
From stdpp Require Import base option list gmap strings.
From S2P Require Import Prelude RustStd Config Credentials AtomicFile Protocol Management Outcome Updater DataRoot.

(** ** Access rights *)
Definition FILE_ALL_ACCESS : Z := 0x1F01FF.
Definition GENERIC_ALL : Z := 0x10000000.
(** Bits: reading and writing data, adding a pipe instance, deleting, and
    changing the list or the owner. *)
Definition READ_DATA : Z := 0.
Definition WRITE_DATA : Z := 1.
Definition CREATE_PIPE_INSTANCE : Z := 2.
Definition DELETE : Z := 16.
Definition WRITE_DAC : Z := 18.
Definition WRITE_OWNER : Z := 19.

(** An entry that allows [ace_mask] to [ace_sid]; [ace_inherit]: also below a directory. *)
Record Ace : Type := { ace_inherit : bool; ace_mask : Z; ace_sid : rstr }.
#[global] Instance Ace_eq_dec : EqDecision Ace.
Proof. solve_decision. Defined.

(** The generic mapping of files and pipes. *)
Definition map_generic (mask : Z) : Z :=
  if Z.testbit mask 28 then Z.lor (Z.clearbit mask 28) FILE_ALL_ACCESS else mask.

(** What a list of allowing entries grants to the identities of a token. *)
Definition granted (aces : list Ace) (token : list rstr) : Z :=
  foldr (fun ace mask => if bool_decide (ace_sid ace ∈ token) then Z.lor (map_generic (ace_mask ace)) mask else mask) 0 aces.

(** ** The texts *)
Record SecurityText : Type := {
  td_owner : option rstr; td_group : option rstr; td_protected : bool; td_aces : list Ace
}.

Fixpoint split_char (c : Z) (s : rstr) : list rstr :=
  match s with
  | [] => [[]]
  | x :: s =>
      if x =? c then [] :: split_char c s
      else match split_char c s with [] => [[x]] | word :: words => (x :: word) :: words end
  end.

Definition hex_value (c : Z) : option Z :=
  if is_ascii_digit c then Some (c - 48)
  else if in_range 97 102 c then Some (c - 87)
  else if in_range 65 70 c then Some (c - 55)
  else None.
Definition read_hex (s : rstr) : option Z :=
  foldl (fun value c => value ← value; digit ← hex_value c; Some (value * 16 + digit)) (Some 0) s.

Definition read_rights (s : rstr) : option Z :=
  if str_eqb s (lit "FA") then Some FILE_ALL_ACCESS
  else if str_eqb s (lit "GA") then Some GENERIC_ALL
  else digits ← strip_prefix (lit "0x") s; if str_is_empty digits then None else read_hex digits.
Definition read_inheritance (s : rstr) : option bool :=
  if str_is_empty s then Some false else if str_eqb s (lit "OICI") then Some true else None.

(** [type;flags;rights;object;inherited object;sid] with type [A] and no objects *)
Definition read_ace (s : rstr) : option Ace :=
  match split_char 59 s with
  | [type; flags; rights; []; []; sid] =>
      if negb (str_eqb type (lit "A")) || str_is_empty sid then None
      else inherit ← read_inheritance flags; mask ← read_rights rights;
           Some {| ace_inherit := inherit; ace_mask := mask; ace_sid := sid |}
  | _ => None
  end.

Fixpoint read_aces (fuel : nat) (s : rstr) : option (list Ace) :=
  match s, fuel with
  | [], _ => Some []
  | 40 :: s, S fuel =>
      '(body, s) ← split_once 41 s; ace ← read_ace body; aces ← read_aces fuel s; Some (ace :: aces)
  | _, _ => None
  end.

(** An owner or group, as one of the two-letter names. *)
Definition read_name (prefix : string) (s : rstr) : option rstr * rstr :=
  match strip_prefix (lit prefix) s with
  | Some (a :: b :: s) => (Some [a; b], s)
  | _ => (None, s)
  end.

Definition read_sddl (s : rstr) : option SecurityText :=
  let '(owner, s) := read_name "O:" s in
  let '(group, s) := read_name "G:" s in
  s ← strip_prefix (lit "D:") s;
  let '(protected, s) := match s with 80 :: s => (true, s) | _ => (false, s) end in
  aces ← read_aces (length s) s;
  Some {| td_owner := owner; td_group := group; td_protected := protected; td_aces := aces |}.

(** What the lists Windows makes of the texts hold. *)
Class SddlMeaning `{Sddl} := { acl_entries : Acl -> list Ace; sid_bytes : rstr -> Sid }.
Class SddlLaws `{SddlMeaning} : Prop := {
  convert_meaning text t d :
    read_sddl text = Some t -> convert_sddl text = Some d ->
    acl_entries <$> sd_dacl d = Some (td_aces t) /\ sd_protected d = td_protected t
    /\ sd_owner d = sid_bytes <$> td_owner t /\ sd_group d = sid_bytes <$> td_group t
}.

(** ** The texts of the sources *)
Definition PIPE_SDDL : rstr := lit "D:P(A;;GA;;;SY)(A;;GA;;;BA)(A;;0x12019b;;;IU)".
(** [format!("D:P(A;OICI;FA;;;SY)(A;OICI;FA;;;BA)(A;OICI;FA;;;{current_sid})")] *)
Definition credential_sddl (current_sid : rstr) : rstr :=
  lit "D:P(A;OICI;FA;;;SY)(A;OICI;FA;;;BA)(A;OICI;FA;;;" ++ current_sid ++ lit ")".

Definition LOCAL_SYSTEM : rstr := lit "SY".
Definition ADMINISTRATORS : rstr := lit "BA".
Definition INTERACTIVE : rstr := lit "IU".

Definition full_control (inherit : bool) (sid : rstr) : Ace :=
  {| ace_inherit := inherit; ace_mask := FILE_ALL_ACCESS; ace_sid := sid |}.

(** ** Protecting a path of the credential store *)

(** [wide_null], and what a call reads from the pointer: up to the null. *)
Definition wide_null (s : rstr) : list Z := encode_utf16 s ++ [0].
Fixpoint up_to_null (units : list Z) : list Z :=
  match units with
  | [] => []
  | u :: units => if u =? 0 then [] else u :: up_to_null units
  end.
Definition read_pcwstr (units : list Z) : option rstr := from_utf16 (up_to_null units).

(** What is acquired and has to be given back. *)
Inductive Resource : Type := R_TokenHandle | R_SidString | R_Descriptor.
Inductive ResourceEvent : Type := R_Acquire (r : Resource) | R_Release (r : Resource).
#[global] Instance Resource_eq_dec : EqDecision Resource.
Proof. solve_decision. Defined.
#[global] Instance ResourceEvent_eq_dec : EqDecision ResourceEvent.
Proof. solve_decision. Defined.

(** The first [GetTokenInformation]: it may succeed without a buffer, ask for
    one of a size, or fail otherwise. *)
Inductive FirstQuery : Type := Query_Succeeds | Query_Insufficient (required : Z) | Query_Fails.
Record SidEnv : Type := {
  si_open : bool;
  si_first : FirstQuery;
  si_second : Z -> bool;             (* with a buffer of this many bytes *)
  si_convert : option (list Z)       (* [ConvertSidToStringSidW] *)
}.

(** [size_of::<usize>()] on the supported targets, and the words of the buffer *)
Definition WORD_SIZE : Z := 8.
Definition buffer_words (required : Z) : Z := (required + WORD_SIZE - 1) / WORD_SIZE.

(** Locals are dropped in reverse order. *)
Definition current_user_sid_string (env : SidEnv) : result CredentialStoreError rstr * list ResourceEvent :=
  if negb (si_open env) then (Err CE_Windows, [])
  else
    let opened := [R_Acquire R_TokenHandle] in
    let failed error := (Err error, opened ++ [R_Release R_TokenHandle]) in
    match si_first env with
    | Query_Succeeds => failed InvalidTokenInformation
    | Query_Fails => failed CE_Windows
    | Query_Insufficient required =>
        if negb (0 <? required) then failed CE_Windows
        else if negb (si_second env (buffer_words required * WORD_SIZE)) then failed CE_Windows
        else match si_convert env with
        | None => failed CE_Windows
        | Some units =>
            (ok_or (from_utf16 units) CE_SidEncoding,
             opened ++ [R_Acquire R_SidString; R_Release R_SidString; R_Release R_TokenHandle])
        end
    end.

Record AclEnv : Type := {
  ae_sid : SidEnv;
  ae_query : bool;                   (* [GetSecurityDescriptorDacl] *)
  ae_set : bool                      (* [SetNamedSecurityInfoW] *)
}.

Section calls.
Context `{Sddl}.

(** [CredentialAcl::for_current_identity]: the list, with the descriptor still held. *)
Definition for_current_identity (env : AclEnv) : result CredentialStoreError Acl * list ResourceEvent :=
  match current_user_sid_string (ae_sid env) with
  | (Err error, events) => (Err error, events)
  | (Ok current_sid, events) =>
      match read_pcwstr (wide_null (credential_sddl current_sid)) ≫= convert_sddl with
      | None => (Err CE_Windows, events)
      | Some descriptor =>
          let events := events ++ [R_Acquire R_Descriptor] in
          if negb (ae_query env) then (Err CE_Windows, events)
          else match sd_dacl descriptor with
          | None => (Err InvalidSecurityDescriptor, events ++ [R_Release R_Descriptor])
          | Some dacl => (Ok dacl, events)
          end
      end
  end.

(** [protect_service_data_path] on the security of the object at the path *)
Definition protect_service_data_path (env : AclEnv) (security : Descriptor)
    : result CredentialStoreError unit * Descriptor * list ResourceEvent :=
  match for_current_identity env with
  | (Err error, events) => (Err error, security, events)
  | (Ok dacl, events) =>
      let events := events ++ [R_Release R_Descriptor] in
      if negb (ae_set env) then (Err CE_Windows, security, events)
      else (Ok tt, {| sd_owner := sd_owner security; sd_group := sd_group security; sd_dacl := Some dacl;
                      sd_protected := true |}, events)
  end.
End calls.

(** ** What the texts say *)

(** The characters of a SID text, [S-1-5-...]: letters, digits and hyphens. *)
Definition sid_char (c : Z) : bool :=
  is_ascii_digit c || in_range 65 90 c || in_range 97 122 c || (c =? 45).
Definition sid_text (s : rstr) : Prop := s <> [] /\ forallb sid_char s = true.

Lemma sid_char_spec c : sid_char c = true -> 45 <= c <= 122 /\ c <> 59.
Proof.
  unfold sid_char, is_ascii_digit. rewrite !orb_true_iff, !in_range_true, Z.eqb_eq. lia.
Qed.

Lemma split_char_none c s : c ∉ s -> split_char c s = [s].
Proof.
  induction s as [|x s IH]; cbn; [done|]. intros [Hx Hs]%not_elem_of_cons.
  destruct (Z.eqb_spec x c); [congruence|]. by rewrite IH.
Qed.
Lemma split_once_app c s rest : c ∉ s -> split_once c (s ++ c :: rest) = Some (s, rest).
Proof.
  induction s as [|x s IH]; cbn; [by rewrite Z.eqb_refl|]. intros [Hx Hs]%not_elem_of_cons.
  destruct (Z.eqb_spec x c); [congruence|]. by rewrite IH.
Qed.

Lemma sid_text_safe s c : sid_text s -> c = 41 \/ c = 59 \/ c = 0 -> c ∉ s.
Proof.
  intros [_ Hs] Hc Hin. apply list_elem_of_In in Hin. rewrite forallb_forall in Hs. apply Hs, sid_char_spec in Hin. lia.
Qed.

(** A closed list does not have a character. *)
Ltac closed_notin := apply (bool_decide_eq_true_1 (_ ∉ _)); vm_compute; reflexivity.

Lemma read_aces_cons fuel body rest :
  41 ∉ body ->
  read_aces (S fuel) (40 :: body ++ 41 :: rest)
  = (ace ← read_ace body; aces ← read_aces fuel rest; Some (ace :: aces)).
Proof. intros Hb. cbn [read_aces]. by rewrite split_once_app. Qed.

Lemma read_last_ace sid :
  sid_text sid -> read_ace (lit "A;OICI;FA;;;" ++ sid) = Some (full_control true sid).
Proof.
  intros Hs. pose proof (split_char_none 59 sid (sid_text_safe sid 59 Hs ltac:(auto))) as Hsplit.
  destruct Hs as [Hne _]. unfold read_ace.
  assert (split_char 59 (lit "A;OICI;FA;;;" ++ sid) = [lit "A"; lit "OICI"; lit "FA"; []; []; sid]) as ->.
  { let l := eval vm_compute in (lit "A;OICI;FA;;;") in change (lit "A;OICI;FA;;;") with l. cbn. by rewrite Hsplit. }
  by destruct sid.
Qed.

(** No SID can break out of the place it is put in. *)
Lemma credential_text sid :
  sid_text sid ->
  read_sddl (credential_sddl sid) =
  Some {| td_owner := None; td_group := None; td_protected := true;
          td_aces := [full_control true LOCAL_SYSTEM; full_control true ADMINISTRATORS; full_control true sid] |}.
Proof.
  intros Hs. pose proof (sid_text_safe sid 41 Hs ltac:(auto)) as Hp.
  set (third := 40 :: (lit "A;OICI;FA;;;" ++ sid) ++ [41]).
  set (second := 40 :: lit "A;OICI;FA;;;BA" ++ 41 :: third).
  set (first := 40 :: lit "A;OICI;FA;;;SY" ++ 41 :: second).
  assert (read_sddl (credential_sddl sid)
          = (aces ← read_aces (length first) first;
             Some {| td_owner := None; td_group := None; td_protected := true; td_aces := aces |})) as -> by reflexivity.
  assert (exists n, length first = S (S (S (S n)))) as [n ->] by (by eexists).
  assert (41 ∉ lit "A;OICI;FA;;;" ++ sid) as H3 by (intros [Hin|Hin]%elem_of_app; [revert Hin; closed_notin|done]).
  subst first. rewrite read_aces_cons by closed_notin. subst second. rewrite read_aces_cons by closed_notin.
  subst third. rewrite (read_aces_cons (S n) _ [] H3), read_last_ace by done. reflexivity.
Qed.

Lemma pcwstr_wide_null s : forallb (in_range 1 127) s = true -> read_pcwstr (wide_null s) = Some s.
Proof.
  unfold read_pcwstr, wide_null. rewrite forallb_forall. intros Hs.
  assert (encode_utf16 s = s) as ->.
  { unfold encode_utf16. induction s as [|c s IH]; [done|]. cbn [flat_map]. rewrite IH by (intros x Hx; apply Hs; by right).
    specialize (Hs c (or_introl eq_refl)). apply in_range_true in Hs. unfold utf16_char.
    destruct (Z.ltb_spec c 0x10000); [done|lia]. }
  induction s as [|c s IH]; [done|]. pose proof (Hs c (or_introl eq_refl)) as Hc%in_range_true.
  cbn [app up_to_null]. destruct (Z.eqb_spec c 0); [lia|]. cbn [from_utf16].
  rewrite !(proj2 (in_range_false _ _ _)) by lia. rewrite IH by (intros x Hx; apply Hs; by right). done.
Qed.

Lemma credential_pcwstr sid :
  sid_text sid -> read_pcwstr (wide_null (credential_sddl sid)) = Some (credential_sddl sid).
Proof.
  intros [_ Hs]. apply pcwstr_wide_null. unfold credential_sddl. rewrite !forallb_app.
  apply andb_true_iff. split; [reflexivity|]. apply andb_true_iff. split; [|reflexivity].
  rewrite forallb_forall in Hs |- *. intros c Hc%Hs%sid_char_spec. apply in_range_true. lia.
Qed.

(** ** What they grant *)
Lemma granted_none aces token : (forall ace, ace ∈ aces -> ace_sid ace ∉ token) -> granted aces token = 0.
Proof.
  unfold granted. induction aces as [|ace aces IH]; intros Ha; cbn [foldr]; [done|].
  rewrite bool_decide_false by (apply Ha; set_solver). apply IH. intros x Hx. apply Ha. set_solver.
Qed.

(** No identity of the token is trusted with the data. *)
Definition outsider (token : list rstr) : Prop := LOCAL_SYSTEM ∉ token /\ ADMINISTRATORS ∉ token.

Lemma full_control_only inherit sids token :
  (forall sid, sid ∈ sids -> sid ∉ token) -> granted (full_control inherit <$> sids) token = 0.
Proof.
  intros Hs. apply granted_none. intros ace (sid & -> & Hin)%list_elem_of_fmap. by apply Hs.
Qed.

Section meaning.
Context `{SddlLaws}.

Lemma secured_text inherit sddl security :
  (sddl = SECURE_DIRECTORY_SDDL /\ inherit = true \/ sddl = SECURE_FILE_SDDL /\ inherit = false) ->
  from_sddl sddl true = Ok security ->
  acl_entries <$> sd_dacl (sec_descriptor security) = Some (full_control inherit <$> [LOCAL_SYSTEM; ADMINISTRATORS])
  /\ sd_owner (sec_descriptor security) = Some (sid_bytes LOCAL_SYSTEM).
Proof.
  intros Hs E. unfold from_sddl in E. apply bind_Ok in E as (d & Hd%ok_or_Ok & E).
  apply seq_Ok in E as [_ E]. apply seq_Ok in E as [_ [= <-]]. cbn [sec_descriptor].
  assert (read_sddl sddl = Some {| td_owner := Some LOCAL_SYSTEM; td_group := Some LOCAL_SYSTEM; td_protected := true;
            td_aces := full_control inherit <$> [LOCAL_SYSTEM; ADMINISTRATORS] |}) as Hr.
  { by destruct Hs as [[-> ->]|[-> ->]]; vm_compute. }
  by destruct (convert_meaning _ _ _ Hr Hd) as (? & _ & ? & _).
Qed.

(** What is on a file the credential store protected. *)
Lemma protected_path env security security' events :
  protect_service_data_path env security = (Ok tt, security', events) ->
  exists units sid dacl, si_convert (ae_sid env) = Some units /\ from_utf16 units = Some sid
    /\ (read_pcwstr (wide_null (credential_sddl sid)) ≫= convert_sddl) ≫= sd_dacl = Some dacl
    /\ security' = {| sd_owner := sd_owner security; sd_group := sd_group security; sd_dacl := Some dacl; sd_protected := true |}.
Proof.
  unfold protect_service_data_path, for_current_identity.
  destruct (current_user_sid_string (ae_sid env)) as [[sid|] ev] eqn:Es; [|done].
  unfold current_user_sid_string in Es. destruct (negb (si_open _)); [done|].
  destruct (si_first _) as [|required|]; [done| |done]. destruct (negb (0 <? required)); [done|]. destruct (negb (si_second _ _)); [done|].
  destruct (si_convert _) as [units|]; [|done]. injection Es as Hsid%ok_or_Ok _.
  destruct (read_pcwstr _ ≫= convert_sddl) as [d|] eqn:Ed; [|done]. destruct (negb (ae_query env)); [done|].
  destruct (sd_dacl d) as [dacl|] eqn:Ed2; [|done]. destruct (negb (ae_set env)); [done|]. intros [= <- <-].
  exists units, sid, dacl. split_and!; try done. by rewrite Ed; cbn; rewrite Ed2.
Qed.


(** The entries of the pipe's text. *)
Definition pipe_aces : list Ace := from_option td_aces [] (read_sddl PIPE_SDDL).
Lemma pipe_text :
  read_sddl PIPE_SDDL = Some {| td_owner := None; td_group := None; td_protected := true; td_aces := pipe_aces |}.
Proof. reflexivity. Qed.

(** The pipe's list, for each kind of token: everything for LocalSystem and
    administrators, nothing for a token that is neither nor interactive, and
    for an interactive user reading and writing but neither adding an
    instance nor taking the pipe over. *)
Lemma pipe_grants token :
  (LOCAL_SYSTEM ∈ token \/ ADMINISTRATORS ∈ token -> Z.land (granted pipe_aces token) FILE_ALL_ACCESS = FILE_ALL_ACCESS)
  /\ (outsider token -> INTERACTIVE ∉ token -> granted pipe_aces token = 0)
  /\ (outsider token -> INTERACTIVE ∈ token -> granted pipe_aces token = 0x12019b).
Proof.
  assert (pipe_aces = [ {| ace_inherit := false; ace_mask := GENERIC_ALL; ace_sid := LOCAL_SYSTEM |};
    {| ace_inherit := false; ace_mask := GENERIC_ALL; ace_sid := ADMINISTRATORS |};
    {| ace_inherit := false; ace_mask := 0x12019b; ace_sid := INTERACTIVE |} ]) as -> by reflexivity.
  unfold granted, outsider. cbn [foldr ace_sid ace_mask].
  split_and!.
  - intros Hin. repeat case_bool_decide; first [reflexivity|tauto].
  - intros [? ?] ?. by rewrite !bool_decide_false.
  - intros [? ?] ?. rewrite !bool_decide_false, bool_decide_true by done. reflexivity.
Qed.
End meaning.

(** ** What is acquired is given back *)
Definition held (r : Resource) (events : list ResourceEvent) : Z :=
  Z.of_nat (length (filter (fun e => e = R_Acquire r) events)) - Z.of_nat (length (filter (fun e => e = R_Release r) events)).

Lemma held_app r events events' : held r (events ++ events') = held r events + held r events'.
Proof. unfold held. rewrite !filter_app, !length_app. lia. Qed.

Lemma sid_string_releases env r : held r (current_user_sid_string env).2 = 0.
Proof.
  unfold current_user_sid_string. destruct (si_open env); cbn [negb]; [|by destruct r].
  destruct (si_first env) as [|required|]; [by destruct r| |by destruct r].
  destruct (negb (0 <? required)); [by destruct r|]. destruct (negb (si_second env _)); [by destruct r|].
  destruct (si_convert env); by destruct r.
Qed.

(** The buffer for the token information has room for what was asked, and
    wastes less than a word. *)
Lemma buffer_fits required : 0 <= required -> required <= buffer_words required * WORD_SIZE < required + WORD_SIZE.
Proof. intros Hr. unfold buffer_words, WORD_SIZE. pose proof (Z.div_mod (required + 8 - 1) 8). pose proof (Z.mod_pos_bound (required + 8 - 1) 8). lia. Qed.

Section releases.
Context `{Sddl}.

(** Protecting a path releases everything it acquires, on every path through
    the calls but one: when Windows cannot say where the list of the converted
    descriptor is, the descriptor is never freed. *)
Theorem path_protection_releases (env : AclEnv) (security : Descriptor) (r : Resource) :
  let '(outcome, _, events) := protect_service_data_path env security in
  held r events = 0
  \/ (r = R_Descriptor /\ held r events = 1 /\ ae_query env = false /\ outcome = Err CE_Windows).
Proof.
  unfold protect_service_data_path, for_current_identity. pose proof (sid_string_releases (ae_sid env) r) as Hs.
  destruct (current_user_sid_string (ae_sid env)) as [[sid|] ev]; cbn [snd] in Hs; [|by left].
  destruct (read_pcwstr _ ≫= convert_sddl) as [d|]; [|by left].
  destruct (ae_query env); cbn [negb].
  - destruct (sd_dacl d); [destruct (negb (ae_set env))|]; left; rewrite !held_app, Hs; by destruct r.
  - destruct r; rewrite held_app, Hs; [by left|by left|by right].
Qed.
End releases.

(** ** Evaluated examples *)
Module AccessWitness.
(** An ACL holds its text; SIDs are their names. *)
#[local] Instance text_sddl : Sddl :=
  {| convert_sddl := fun s =>
       t ← read_sddl s;
       Some {| sd_owner := td_owner t; sd_group := td_group t; sd_dacl := Some s; sd_protected := td_protected t |} |}.
#[local] Instance text_meaning : SddlMeaning :=
  {| acl_entries := fun s : rstr => default [] (td_aces <$> read_sddl s); sid_bytes := fun s : rstr => s |}.
#[local] Instance text_laws : SddlLaws.
Proof.
  split. intros text t d Hr. cbn. rewrite Hr. cbn. intros [= <-]. cbn. rewrite Hr. cbn.
  destruct (td_owner t), (td_group t); done.
Qed.

Definition sid : rstr := lit "S-1-5-21-1004336348-1177238915-682003330-512".
Definition acl_env : AclEnv :=
  {| ae_sid := {| si_open := true; si_first := Query_Insufficient 44; si_second := fun n => 44 <=? n;
                  si_convert := Some sid |};
     ae_query := true; ae_set := true |}.
Definition inherited : Descriptor :=
  {| sd_owner := Some LOCAL_SYSTEM; sd_group := None; sd_dacl := None; sd_protected := false |}.
Definition no_objects : DataRoot := ∅.

End AccessWitness.
