(* ===== verification/Sources.v ===== *)
(** * Backup sources and the backup plan ([apps/resticpal-service/src/executor.rs])

    Which source paths a backup may read, the pair of restic commands a backup
    runs, and the environment a restic process is given.  What the filesystem
    answers ([canonicalize], [GetDriveTypeW]) is a parameter. *)
From stdpp Require Import base option list gmap strings.
From S2P Require Import Prelude RustStd WinPath Chrono Config Status Restic Outcome.

Class Filesystem := {
  canonicalize : rstr -> option rstr;   (* [std::fs::canonicalize(path).ok()] *)
  drive_is_remote : Z -> bool           (* [GetDriveTypeW == DRIVE_REMOTE] *)
}.

(** [PathBuf::push] on a path without a verbatim prefix. *)
Definition path_push (base path : rstr) : rstr :=
  let prefix := parse_prefix base in
  let bare_drive := match prefix with Some (Disk _) => (length base =? 2)%nat | _ => false end in
  let need_sep := match last base with Some c => negb (is_sep c) | None => false end && negb bare_drive in
  if is_absolute path || is_some (parse_prefix path) then path
  else if has_root path then take (length base - length (body_of base prefix)) base ++ path
  else if need_sep then base ++ [backslash] ++ path
  else base ++ path.

(** [ordinary_windows_path]: a verbatim drive or share path in its ordinary spelling. *)
Definition ordinary_windows_path (path : rstr) : rstr :=
  let components_on (base : rstr) :=
    fold_left (fun ordinary component =>
                 match component with
                 | CPrefix _ | RootDir | CurDir => ordinary
                 | ParentDir => path_push ordinary (lit "..")
                 | Normal value => path_push ordinary value
                 end) (drop 1 (components path)) base in
  match first_prefix path with
  | Some (VerbatimDisk drive) => components_on ([drive] ++ lit ":\")
  | Some (VerbatimUNC server share) => components_on (path_push (path_push (lit "\\") server) share)
  | _ => path
  end.

Definition source_uses_unsupported_local_namespace (path : rstr) : bool :=
  match first_prefix path with Some (DeviceNS _) | Some (Verbatim _) => true | _ => false end.

Section sources.
Context `{UnicodeData} `{Filesystem}.

Definition source_is_network_path (path : rstr) : bool :=
  match first_prefix path with
  | Some (UNC _ _) | Some (VerbatimUNC _ _) => true
  | Some (Disk drive) | Some (VerbatimDisk drive) => drive_is_remote drive
  | Some (DeviceNS _) | Some (Verbatim _) | None => false
  end.

Definition protected_paths (data_directory : option rstr) : list rstr :=
  match data_directory with
  | None => []
  | Some d => d :: match canonicalize d with Some c => [ordinary_windows_path c] | None => [] end
  end.

Definition canonical_source (source : rstr) : option rstr := ordinary_windows_path <$> canonicalize source.

(** One iteration of the loop of [validate_backup_source_paths]. *)
Definition validate_source (protected : list rstr) (source : rstr) : result InvocationError unit :=
  reject_if (source_is_network_path source) UnsupportedNetworkBackupSource ;;
  reject_if (source_uses_unsupported_local_namespace source) UnsupportedBackupSourceNamespace ;;
  reject_if (existsb (fun p => windows_path_is_same_or_descendant source p
                               || match canonical_source source with
                                  | Some c => windows_path_is_same_or_descendant c p
                                  | None => false
                                  end) protected) ProtectedBackupSource ;;
  match canonical_source source with
  | Some c =>
      reject_if (negb (windows_path_is_same_or_descendant source c && windows_path_is_same_or_descendant c source))
        UnsupportedBackupSourceNamespace
  | None => Ok ()
  end.

Definition validate_backup_source_paths (sources : list rstr) (data_directory : option rstr)
    : result InvocationError unit :=
  for_each (validate_source (protected_paths data_directory)) sources.

(** [Path] equality is equality of components. *)
Definition required_exclusions (data_directory : rstr) : list rstr :=
  match canonicalize data_directory with
  | Some c =>
      let c := ordinary_windows_path c in
      if bool_decide (components data_directory = components c) then [data_directory] else [data_directory; c]
  | None => [data_directory]
  end.

(** The unlock command and the backup command, built before either runs. *)
Definition build_backup_invocations (executable data_directory : rstr) (config : EffectiveConfig)
    : result InvocationError (ResticInvocation * ResticInvocation) :=
  validate_backup_source_paths (bc_paths (ec_backup config)) (Some data_directory) ;;
  backup ← backup_with_required_exclusions executable config (required_exclusions data_directory);
  unlock ← unlock executable config;
  Ok (unlock, backup).
End sources.

Definition backup_invocation_error_code (error : InvocationError) : rstr :=
  match error with
  | UnsupportedNetworkBackupSource => lit "network_backup_source_unsupported"
  | UnsupportedBackupSourceNamespace => lit "backup_source_namespace_unsupported"
  | ProtectedBackupSource => lit "protected_backup_source"
  | _ => lit "invalid_configuration"
  end.

Definition backup_outcome_for_lock_cleanup (cleanup : RepositoryOutcome) : option BackupOutcome :=
  match cleanup with
  | Repo_Succeeded => None
  | Repo_Cancelled => Some outcome_cancelled
  | Repo_Failed code =>
      Some (outcome_failed
        (if str_eqb code (lit "repository_operation_timed_out") then lit "stale_lock_cleanup_timed_out"
         else if str_eqb code (lit "repository_operation_failed") then lit "stale_lock_cleanup_failed"
         else code))
  end.

(** ** The environment of a restic process *)
Definition INHERITED_ENVIRONMENT : list rstr :=
  [lit "SystemRoot"; lit "TEMP"; lit "TMP"; lit "LOCALAPPDATA"; lit "APPDATA"; lit "USERPROFILE"].

(** [Command::env] on Windows: names are compared ignoring ASCII case. *)
Abbreviation Environment := (gmap rstr rstr).
Definition env_key (name : rstr) : rstr := str_to_ascii_lowercase name.
Definition command_env (name value : rstr) (e : Environment) : Environment := <[env_key name := value]> e.

(** [command_for]: the environment, from an empty one; [var_os] reads the
    service's own environment. *)
Definition command_environment (var_os : rstr -> option rstr) (invocation : ResticInvocation)
    (secrets : list (SecretEnvironmentVariable * rstr)) (cache_directory : rstr) : Environment :=
  let e : Environment := ∅ in
  let e := fold_left (fun e name => match var_os name with Some value => command_env name value e | None => e end)
             INHERITED_ENVIRONMENT e in
  let e := fold_left (fun e '(name, value) => command_env name value e) (inv_environment invocation) e in
  let e := command_env (lit "RESTIC_PROGRESS_FPS") (lit "1") e in
  let e := fold_left (fun e '(variable, value) => command_env (secret_as_str variable) value e) secrets e in
  command_env (lit "RESTIC_CACHE_DIR") cache_directory e.

(** [resolve_secrets]: every reference or an error. *)
Fixpoint resolve_secrets {E} (resolve : rstr -> result E rstr) (refs : SecretRefs)
    : result E (list (SecretEnvironmentVariable * rstr)) :=
  match refs with
  | [] => Ok []
  | (variable, reference) :: refs =>
      secret ← resolve reference;
      secrets ← resolve_secrets resolve refs;
      Ok ((variable, secret) :: secrets)
  end.

(** ** Properties *)
Section plan.
Context `{UnicodeData} `{Filesystem}.

(** Two spellings of one location. *)
Definition same_location (a b : rstr) : Prop :=
  exists l, normalized_windows_path a = Some l /\ normalized_windows_path b = Some l.

(** The name Windows gives a path, in its ordinary spelling. *)
Definition canonical_name (path name : rstr) : Prop := exists c, canonicalize path = Some c /\ name = ordinary_windows_path c.
(** [a] is [b] or lies below it. *)
Definition at_or_below (a b : rstr) : Prop :=
  exists d rest, normalized_windows_path b = Some d /\ normalized_windows_path a = Some (d ++ rest).

(** A source a backup may read: on a local drive, outside the service data
    under both its configured and its canonical name, and not an alias. *)
Record source_ok (data_directory source : rstr) : Prop := {
  so_local : match first_prefix source with
             | Some (Disk drive) | Some (VerbatimDisk drive) => drive_is_remote drive = false
             | Some (UNC _ _) | Some (VerbatimUNC _ _) | Some (DeviceNS _) | Some (Verbatim _) => False
             | None => True
             end;
  so_outside : forall s p, s = source \/ canonical_name source s -> p = data_directory \/ canonical_name data_directory p ->
    ~ at_or_below s p;
  so_canonical : forall c, canonical_name source c -> same_location source c
}.

(** What restic is told to leave out: the data directory as the service
    names it, and a path with the components of its canonical name. *)
Definition excludes_data (data_directory : rstr) (cli : Cli) : Prop :=
  (lit "--iexclude", data_directory) ∈ cli_values cli
  /\ forall c, canonical_name data_directory c ->
       exists p, (lit "--iexclude", p) ∈ cli_values cli /\ components p = components c.

Lemma contained_both a b :
  windows_path_is_same_or_descendant a b && windows_path_is_same_or_descendant b a = true <-> same_location a b.
Proof.
  rewrite andb_true_iff, !contained_iff. unfold same_location. split.
  - intros [(d & r & Hb & Ha) (d' & r' & Ha' & Hb')].
    assert (d' = d ++ r) as -> by congruence. assert (d = (d ++ r) ++ r') as Hd by congruence.
    assert (r = []) as ->.
    { apply length_zero_iff_nil. apply (f_equal length) in Hd. rewrite !length_app in Hd. lia. }
    exists d. by rewrite app_nil_r in Ha.
  - intros (l & Ha & Hb). split; exists l, []; by rewrite app_nil_r.
Qed.

Lemma at_or_below_iff a b : windows_path_is_same_or_descendant a b = false <-> ~ at_or_below a b.
Proof. by rewrite <- not_true_iff_false, contained_iff. Qed.
Lemma canonical_source_iff source c : canonical_source source = Some c <-> canonical_name source c.
Proof.
  unfold canonical_source, canonical_name. rewrite fmap_Some. split; intros (x & ? & ?); eauto.
Qed.
Lemma protected_paths_iff data_directory p :
  p ∈ protected_paths (Some data_directory) <-> p = data_directory \/ canonical_name data_directory p.
Proof.
  unfold protected_paths, canonical_name. rewrite elem_of_cons.
  destruct (canonicalize data_directory) as [c|]; [rewrite list_elem_of_singleton|rewrite elem_of_nil]; naive_solver.
Qed.
Lemma local_source_iff source :
  source_is_network_path source = false /\ source_uses_unsupported_local_namespace source = false
  <-> match first_prefix source with
      | Some (Disk drive) | Some (VerbatimDisk drive) => drive_is_remote drive = false
      | Some (UNC _ _) | Some (VerbatimUNC _ _) | Some (DeviceNS _) | Some (Verbatim _) => False
      | None => True
      end.
Proof. unfold source_is_network_path, source_uses_unsupported_local_namespace. destruct (first_prefix source) as [[]|]; naive_solver. Qed.

Lemma validate_source_Ok data_directory source :
  validate_source (protected_paths (Some data_directory)) source = Ok () <-> source_ok data_directory source.
Proof.
  unfold validate_source. rewrite !seq_Ok, !reject_if_Ok, existsb_false_Forall, Forall_forall.
  setoid_rewrite orb_false_iff. setoid_rewrite protected_paths_iff. split.
  - intros (Hl & Hn & Ho & Hc). split; [by apply local_source_iff| |].
    + intros s p [->|Hs] Hp; destruct (Ho p Hp) as [Ho1 Ho2]; [by apply at_or_below_iff|].
      apply canonical_source_iff in Hs. rewrite Hs in Ho2. by apply at_or_below_iff.
    + intros c Hs%canonical_source_iff. rewrite Hs in Hc. apply reject_if_Ok, negb_false_iff in Hc. by apply contained_both.
  - intros [[Hl Hn]%local_source_iff Ho Hc]. split_and!; [done|done| |].
    + intros p Hp. split; [apply at_or_below_iff, Ho; auto|]. destruct (canonical_source source) as [c|] eqn:E; [|done].
      apply at_or_below_iff, Ho; [|done]. right. by apply canonical_source_iff.
    + destruct (canonical_source source) as [c|] eqn:E; [|done]. apply reject_if_Ok, negb_false_iff, contained_both.
      by apply Hc, canonical_source_iff.
Qed.

Lemma required_exclusions_protected data_directory p :
  p ∈ required_exclusions data_directory -> p = data_directory \/ canonical_name data_directory p.
Proof.
  unfold required_exclusions, canonical_name. destruct (canonicalize data_directory) as [c|].
  - case_bool_decide; rewrite ?elem_of_cons, elem_of_nil; naive_solver.
  - rewrite list_elem_of_singleton. auto.
Qed.
(** Both spellings are among them, up to equality of [Path]s. *)
Lemma required_exclusions_cover data_directory :
  data_directory ∈ required_exclusions data_directory
  /\ forall c, canonical_name data_directory c -> exists p, p ∈ required_exclusions data_directory /\ components p = components c.
Proof.
  unfold required_exclusions, canonical_name. destruct (canonicalize data_directory) as [c'|]; [|split; [left|naive_solver]].
  case_bool_decide as Hc; (split; [left|]); intros c (? & [= <-] & ->).
  - exists data_directory. split; [left|done].
  - eexists. split; [right; left|done].
Qed.

Lemma unlock_builds executable config :
  validate config = Ok () -> is_configured config = true ->
  exists inv, unlock executable config = Ok inv /\ inv_operation inv = Unlock.
Proof.
  intros Hv Hc. unfold is_configured in Hc. destruct (rc_url (ec_repository config)) as [url|] eqn:Hu; [|done].
  eexists. split; [|shelve]. unfold unlock. apply builder_steps. split; [by destruct (rc_mode _)|]. split; [done|].
  exists url. split; [done|]. reflexivity.
  Unshelve. done.
Qed.

Lemma validate_sources_Ok data_directory sources :
  validate_backup_source_paths sources (Some data_directory) = Ok () <-> Forall (source_ok data_directory) sources.
Proof.
  unfold validate_backup_source_paths. rewrite for_each_Ok, !Forall_forall. setoid_rewrite validate_source_Ok. done.
Qed.

(** The plan reads only acceptable sources. *)
Lemma plan_accepted executable data_directory config u b :
  build_backup_invocations executable data_directory config = Ok (u, b) ->
  validate config = Ok () /\ is_configured config = true
  /\ Forall (source_ok data_directory) (bc_paths (ec_backup config)).
Proof.
  intros E. apply seq_Ok in E as [Hs E]. apply bind_Ok in E as (b' & Hb & _).
  apply backup_accepts_iff_aux in Hb as (Hv & Hne & _ & url & Hu & _).
  split; [done|]. split; [|by apply validate_sources_Ok]. unfold is_configured. rewrite Hu. by destruct (bc_paths _).
Qed.

(** The two commands of a plan. *)
Lemma plan_commands executable data_directory config u b :
  build_backup_invocations executable data_directory config = Ok (u, b) ->
  inv_operation u = Unlock /\ inv_operation b = Backup
  /\ exists cli, parse_cli (inv_arguments b) = Some cli
     /\ cli_positional cli = lit "backup" :: bc_paths (ec_backup config) /\ excludes_data data_directory cli.
Proof.
  intros E. unfold build_backup_invocations in E. apply seq_Ok in E as [_ E].
  apply bind_Ok in E as (b' & Hb & E). apply bind_Ok in E as (u' & Hu & [= <- <-]).
  unfold unlock in Hu. apply builder_steps in Hu as (_ & _ & url & _ & [= <-]). split; [done|].
  apply backup_accepts_iff_aux in Hb as (Hv & _ & _ & url' & _ & Hinv & Hargs).
  split; [by rewrite Hinv|]. eexists. rewrite Hargs, parse_backup_args by done. split; [done|]. cbn [cli_of cli_positional].
  split; [done|]. assert (forall p, p ∈ required_exclusions data_directory ->
    (lit "--iexclude", p) ∈ cli_values (cli_of config (required_exclusions data_directory) Backup)) as Hin.
  { intros p Hp. cbn [cli_of cli_values]. rewrite !elem_of_app. right; right. unfold with_flag.
    by apply (list_elem_of_fmap_2 (fun v => (_, v))). }
  destruct (required_exclusions_cover data_directory) as [Hd Hc]. split; [by apply Hin|].
  intros c (p & Hp & ?)%Hc. exists p. split; [by apply Hin|done].
Qed.

(** C15: a backup is planned exactly when the configuration is valid and
    complete and every source is on a drive that is not remote (not a
    share, not a device path), is not an alias of another location and
    lies outside the service data directory, under its configured and its
    canonical name and for both names of that directory; the plan is a
    stale-lock cleanup and a backup of exactly the configured sources that
    tells restic to leave out the data directory and a path with the
    components of its canonical name. *)
Theorem backup_plan_protects_data (executable data_directory : rstr) (config : EffectiveConfig) :
  (is_ok (build_backup_invocations executable data_directory config) = true <->
     validate config = Ok () /\ is_configured config = true
     /\ Forall (source_ok data_directory) (bc_paths (ec_backup config)))
  /\ (forall u b, build_backup_invocations executable data_directory config = Ok (u, b) ->
       inv_operation u = Unlock /\ inv_operation b = Backup
       /\ exists cli, parse_cli (inv_arguments b) = Some cli
          /\ cli_positional cli = lit "backup" :: bc_paths (ec_backup config)
          /\ (lit "--iexclude", data_directory) ∈ cli_values cli
          /\ forall c, canonicalize data_directory = Some c ->
               exists p, (lit "--iexclude", p) ∈ cli_values cli
                 /\ components p = components (ordinary_windows_path c)).
Proof.
  split.
  2: { intros u b E. apply plan_commands in E as (Hu & Hb & cli & Hcli & Hp & Hd & Hc). split_and!; [done..|].
    exists cli. split_and!; [done..|]. intros c E. apply Hc. by exists c. }
  split.
  - intros Hok. destruct (build_backup_invocations _ _ _) as [[u b]|] eqn:E; [|done]. by eapply plan_accepted.
  - intros (Hv & Hc & Hs). unfold build_backup_invocations. rewrite (proj2 (validate_sources_Ok _ _) Hs). cbn [mbind result_bind].
    destruct (unlock_builds executable config Hv Hc) as (u & -> & _).
    assert (exists b, backup_with_required_exclusions executable config (required_exclusions data_directory) = Ok b)
      as [b ->]; [|done].
    unfold is_configured in Hc. destruct (rc_url (ec_repository config)) as [url|] eqn:Hu; [|done].
    eexists {| inv_arguments := _ |}. apply backup_accepts_iff_aux. split; [done|].
    split; [by destruct (bc_paths _)|]. split; [|exists url; split; [done|]; cbn [inv_arguments]; split; reflexivity].
    intros source p Hin Hp%required_exclusions_protected. rewrite Forall_forall in Hs.
    apply at_or_below_iff, (so_outside _ _ (Hs _ Hin)); auto.
Qed.
End plan.

(** *** The process environment *)
Lemma env_key_inj_fixed :
  forall v, env_key (secret_as_str v) <> env_key (lit "RESTIC_CACHE_DIR")
            /\ env_key (secret_as_str v) <> env_key (lit "RESTIC_REPOSITORY")
            /\ env_key (secret_as_str v) <> env_key (lit "RESTIC_PROGRESS_FPS").
Proof. intros []; split_and!; discriminate. Qed.

Lemma secret_name_inj v v' : env_key (secret_as_str v) = env_key (secret_as_str v') -> v = v'.
Proof. destruct v, v'; intros E; first [reflexivity|discriminate E]. Qed.

(** The secrets written over an environment. *)
Definition with_secrets (secrets : list (SecretEnvironmentVariable * rstr)) (e : Environment) : Environment :=
  fold_left (fun e '(variable, value) => command_env (secret_as_str variable) value e) secrets e.

Lemma with_secrets_other secrets e k :
  (forall v, k <> env_key (secret_as_str v)) -> with_secrets secrets e !! k = e !! k.
Proof.
  intros Hk. unfold with_secrets. revert e. induction secrets as [|[v s] secrets IH]; intros e; cbn; [done|].
  rewrite IH. unfold command_env. apply lookup_insert_ne. intros E. by apply (Hk v).
Qed.

Lemma with_secrets_lookup secrets e v s :
  NoDup (fst <$> secrets) -> (v, s) ∈ secrets -> with_secrets secrets e !! env_key (secret_as_str v) = Some s.
Proof.
  unfold with_secrets. revert e. induction secrets as [|[v' s'] secrets IH]; intros e Hnd Hin; [by apply elem_of_nil in Hin|].
  cbn in Hnd. apply NoDup_cons in Hnd as [Hni Hnd]. cbn [fold_left].
  apply elem_of_cons in Hin as [[= -> ->]|Hin]; [|by apply IH].
  assert (forall e', e' !! env_key (secret_as_str v') = Some s' ->
            fold_left (fun e '(variable, value) => command_env (secret_as_str variable) value e) secrets e'
              !! env_key (secret_as_str v') = Some s') as Hkeep.
  { clear IH Hnd. induction secrets as [|[w t] secrets IH]; intros e' He; cbn; [done|].
    cbn in Hni. apply not_elem_of_cons in Hni as [Hne Hni]. apply IH; [done|].
    unfold command_env. rewrite lookup_insert_ne; [done|]. by intros E%secret_name_inj. }
  apply Hkeep. unfold command_env. apply lookup_insert_eq.
Qed.

(** Where an entry of an environment may come from. *)
Definition entries (P : rstr -> rstr -> Prop) (e : Environment) : Prop := forall k value, e !! k = Some value -> P k value.

Lemma entries_command_env (P : rstr -> rstr -> Prop) name value e :
  P (env_key name) value -> entries P e -> entries P (command_env name value e).
Proof.
  intros HP He k v. unfold command_env. rewrite lookup_insert_Some. intros [[<- <-]|[_ Hk]]; [done|by apply He].
Qed.

Lemma entries_fold {A} (P : rstr -> rstr -> Prop) (f : Environment -> A -> Environment) l e :
  (forall e x, x ∈ l -> entries P e -> entries P (f e x)) -> entries P e -> entries P (fold_left f l e).
Proof.
  revert e. induction l as [|x l IH]; intros e Hf He; cbn; [done|].
  apply IH; [|apply Hf; [set_solver|done]]. intros e' y Hy. apply Hf. set_solver.
Qed.

(** A restic process gets the repository of its command, each resolved
    secret under its own variable and the cache directory of the service,
    which no other assignment can redirect; and nothing of the service's own
    environment beyond six system variables. *)
Theorem restic_environment (var_os : rstr -> option rstr) (inv : ResticInvocation)
    (secrets : list (SecretEnvironmentVariable * rstr)) (cache_directory url : rstr)
    (Hkeys : NoDup (fst <$> secrets)) (Hurl : inv_environment inv = [(lit "RESTIC_REPOSITORY", url)]) :
  let e := command_environment var_os inv secrets cache_directory in
  e !! env_key (lit "RESTIC_CACHE_DIR") = Some cache_directory
  /\ e !! env_key (lit "RESTIC_REPOSITORY") = Some url
  /\ (forall v s, (v, s) ∈ secrets -> e !! env_key (secret_as_str v) = Some s)
  /\ entries (fun k value =>
       (exists name, name ∈ INHERITED_ENVIRONMENT /\ k = env_key name /\ var_os name = Some value)
       \/ (exists v, (v, value) ∈ secrets /\ k = env_key (secret_as_str v))
       \/ k = env_key (lit "RESTIC_REPOSITORY") \/ k = env_key (lit "RESTIC_PROGRESS_FPS")
       \/ k = env_key (lit "RESTIC_CACHE_DIR")) e.
Proof.
  unfold command_environment. rewrite Hurl. cbn [fold_left]. fold (with_secrets secrets).
  set (inherited := fold_left _ INHERITED_ENVIRONMENT ∅).
  split_and!.
  - unfold command_env. apply lookup_insert_eq.
  - unfold command_env at 1. rewrite lookup_insert_ne by discriminate.
    rewrite with_secrets_other by (intros v; pose proof (env_key_inj_fixed v); naive_solver).
    unfold command_env at 1. rewrite lookup_insert_ne by discriminate. unfold command_env. apply lookup_insert_eq.
  - intros v s Hin. unfold command_env at 1.
    rewrite lookup_insert_ne by (pose proof (env_key_inj_fixed v); naive_solver).
    by apply with_secrets_lookup.
  - apply entries_command_env; [by do 4 right|]. unfold with_secrets. apply entries_fold.
    { intros e [v s] Hin He. apply entries_command_env; [|done]. right; left. by exists v. }
    apply entries_command_env; [by do 3 right; left|]. apply entries_command_env; [by do 2 right; left|].
    apply entries_fold; [|by intros k v; rewrite lookup_empty].
    intros e name Hin He. destruct (var_os name) as [value|] eqn:E; [|done].
    apply entries_command_env; [|done]. left. by exists name.
Qed.

Module SourcesWitness.
Definition inv : ResticInvocation :=
  {| inv_operation := Backup; inv_executable := lit "restic.exe"; inv_arguments := [];
     inv_environment := [(lit "RESTIC_REPOSITORY", lit "s3:b")]; inv_secret_environment := [] |}.

Lemma restic_environment_witness :
  command_environment (fun _ => Some (lit "C:\x")) inv [(ResticPassword, lit "pw")] (lit "D:\cache")
    !! env_key (lit "RESTIC_PASSWORD") = Some (lit "pw").
Proof.
  edestruct (restic_environment (fun _ => Some (lit "C:\x")) inv [(ResticPassword, lit "pw")] (lit "D:\cache")
               (lit "s3:b")) as (_ & _ & Hs & _); [repeat constructor; set_solver|reflexivity|].
  apply (Hs ResticPassword (lit "pw")). left.
Defined.

(** A source below the data directory is refused in either spelling. *)
#[local] Existing Instance ResticWitness.ascii_unicode.
#[local] Instance plain_files : Filesystem := {| canonicalize := fun _ => None; drive_is_remote := fun _ => false |}.
Example data_directory_refused :
  validate_backup_source_paths [lit "C:\Users"; lit "c:/programdata/RESTICPAL/logs"] (Some (lit "C:\ProgramData\resticpal"))
  = Err ProtectedBackupSource.
Proof. vm_compute. reflexivity. Qed.
Example canonical_spelling :
  ordinary_windows_path (lit "\\?\C:\Users\me") = lit "C:\Users\me"
  /\ ordinary_windows_path (lit "\\?\UNC\srv\share\x") = lit "\\srv\share\x".
Proof. split; vm_compute; reflexivity. Qed.
End SourcesWitness.
