(* ===== verification/Staging.v ===== *)
(** * The staging directory of an update ([apps/resticpal-service/src/updater.rs])

    [download_verify_and_launch] on the directory [Updates], one call at a
    time: other processes of the administrators may change the directory
    between any two calls, except for the file the service holds open.
    Windows Installer is given a path and not a handle, so what it reads is
    what the directory holds while it runs. *)
From stdpp Require Import base option list gmap strings.
From S2P Require Import Prelude RustStd WinPath Chrono Crates Config Status Protocol Outcome Management Updater Sources.

(** ** Names and command line *)
Definition installer_name (package : UpdatePackage) : rstr := lit "resticpal-" ++ up_version package ++ lit "-x64.msi".
Definition partial_name (package : UpdatePackage) : rstr := installer_name package ++ lit ".partial".
Definition log_name : rstr := lit "install.log".

(** The program and the arguments of [launch_msi]. *)
Definition msiexec_command (system_root : option rstr) (installer log : rstr) : rstr * list rstr :=
  (path_push (path_push (default (lit "C:\Windows") system_root) (lit "System32")) (lit "msiexec.exe"),
   [lit "/i"; installer; lit "/qn"; lit "/norestart"; lit "/l*v"; log]).

(** ** The directory *)
Abbreviation Updates := (gmap rstr StagingEntry).
Definition entry_at (name : rstr) (d : Updates) : StagingEntry := default SE_Absent (d !! name).

(** [remove_staging_entry_if_present] on a name *)
Definition remove_at (removed : bool) (name : rstr) (d : Updates) : result UpdateError unit * Updates :=
  let '(r, entry) := remove_staging_entry_if_present removed (entry_at name d) in (r, <[name := entry]> d).

(** [fs::rename]: a directory in the way makes it fail. *)
Definition rename_at (ok : bool) (source target : rstr) (d : Updates) : result UpdateError Updates :=
  match entry_at source d, entry_at target d with
  | SE_Absent, _ | _, SE_Directory => Err UE_Io
  | entry, _ => if ok then Ok (<[target := entry]> (<[source := SE_Absent]> d)) else Err UE_Io
  end.

(** Where the call is.  [Us_Verified] and [Us_Ready] hold the handle of the
    installer, as does [Us_Running], when Windows Installer runs. *)
Inductive UpdateStage : Type :=
| Us_Begin | Us_PartialCleared | Us_Cleared | Us_Downloaded | Us_Renamed
| Us_Verified (bytes : list Z) | Us_Ready (bytes : list Z) | Us_Running (bytes : list Z)
| Us_Returned (r : result UpdateError unit).

Definition holds_installer (s : UpdateStage) : bool :=
  match s with Us_Verified _ | Us_Ready _ | Us_Running _ => true | _ => false end.

(** [us_log_removed] is history: whether the old log was touched. *)
Record Staging : Type := { us_stage : UpdateStage; us_updates : Updates; us_log_removed : bool }.

Section staging.
Context `{Base64Standard} `{CryptoCrates}.
Context (package : UpdatePackage).

(** A failure, with what is removed on the way out. *)
Definition failed (cleanup : option rstr) (removed : bool) (e : UpdateError) (d : Updates) (s : Staging) : Staging :=
  {| us_stage := Us_Returned (Err e);
     us_updates := match cleanup with Some name => (remove_at removed name d).2 | None => d end;
     us_log_removed := us_log_removed s |}.
Definition moved (stage : UpdateStage) (d : Updates) (s : Staging) : Staging :=
  {| us_stage := stage; us_updates := d; us_log_removed := us_log_removed s |}.

(** The checks before the directory is touched. *)
Definition begin_checks (env : InstallEnv) : result UpdateError unit :=
  validate_package package ;;
  map_err staging_error (ie_security env) ;;
  map_err staging_error (ie_data_root env) ;;
  map_err staging_error (ie_update_root env).

Inductive update_step (env : InstallEnv) (s : Staging) : Staging -> Prop :=
| us_refused e : us_stage s = Us_Begin -> begin_checks env = Err e -> update_step env s (failed None true e (us_updates s) s)
| us_clear_partial r d :
    us_stage s = Us_Begin -> begin_checks env = Ok () -> remove_at (ie_remove_partial env) (partial_name package) (us_updates s) = (r, d) ->
    update_step env s (match r with Ok _ => moved Us_PartialCleared d s | Err e => failed None true e d s end)
| us_clear_installer r d :
    us_stage s = Us_PartialCleared -> remove_at (ie_remove_installer env) (installer_name package) (us_updates s) = (r, d) ->
    update_step env s (match r with Ok _ => moved Us_Cleared d s | Err e => failed None true e d s end)
| us_download r entry :
    us_stage s = Us_Cleared -> download_to env package (entry_at (partial_name package) (us_updates s)) = (r, entry) ->
    let d := <[partial_name package := entry]> (us_updates s) in
    update_step env s (match r with
                       | Ok _ => moved Us_Downloaded d s
                       | Err e => failed (Some (partial_name package)) (ie_remove_partial env) e d s
                       end)
| us_rename r :
    us_stage s = Us_Downloaded -> rename_at (ie_rename env) (partial_name package) (installer_name package) (us_updates s) = r ->
    update_step env s (match r with Ok d => moved Us_Renamed d s | Err e => failed None true e (us_updates s) s end)
(* [VerifiedInstaller::open] *)
| us_verify r :
    us_stage s = Us_Renamed -> verified_installer_open env (entry_at (installer_name package) (us_updates s)) package = r ->
    update_step env s (match r with
                       | Ok bytes => moved (Us_Verified bytes) (us_updates s) s
                       | Err e => failed (Some (installer_name package)) (ie_remove_installer env) e (us_updates s) s
                       end)
| us_remove_log bytes r d :
    us_stage s = Us_Verified bytes -> remove_at (ie_remove_log env) log_name (us_updates s) = (r, d) ->
    update_step env s
      {| us_stage := match r with Ok _ => Us_Ready bytes | Err e => Us_Returned (Err e) end;
         us_updates := match r with Ok _ => d | Err _ => (remove_at (ie_remove_installer env) (installer_name package) d).2 end;
         us_log_removed := true |}
(* [launch_msi] *)
| us_launch_failed bytes e :
    us_stage s = Us_Ready bytes -> e ∈ [UE_UpdateDeadlineExpired; UE_InstallerStart] ->
    update_step env s (moved (Us_Returned (Err e)) (us_updates s) s)
| us_launch bytes : us_stage s = Us_Ready bytes -> update_step env s (moved (Us_Running bytes) (us_updates s) s)
| us_finish bytes r : us_stage s = Us_Running bytes -> update_step env s (moved (Us_Returned r) (us_updates s) s)
(* another process: an open handle without write or delete sharing keeps its file *)
| us_other name entry :
    holds_installer (us_stage s) && str_eqb name (installer_name package) = false ->
    update_step env s (moved (us_stage s) (<[name := entry]> (us_updates s)) s).

(** The environment may answer differently at every call. *)
Inductive update_reachable : Staging -> Prop :=
| ur_start d : update_reachable {| us_stage := Us_Begin; us_updates := d; us_log_removed := false |}
| ur_step env s s' : update_reachable s -> update_step env s s' -> update_reachable s'.

(** ** What Windows Installer reads *)
Definition staged (s : Staging) (bytes : list Z) : Prop :=
  entry_at (installer_name package) (us_updates s) = SE_File bytes /\ release_signed package bytes.

Definition staging_invariant (s : Staging) : Prop :=
  (forall bytes, us_stage s = Us_Verified bytes \/ us_stage s = Us_Ready bytes \/ us_stage s = Us_Running bytes -> staged s bytes)
  /\ (us_log_removed s = true -> exists bytes, release_signed package bytes)
  /\ (us_stage s <> Us_Begin -> (exists e, us_stage s = Us_Returned (Err e)) \/ validate_package package = Ok ()).

Lemma entry_at_insert_ne name name' entry d : name' <> name -> entry_at name (<[name' := entry]> d) = entry_at name d.
Proof. intros Hn. unfold entry_at. by rewrite lookup_insert_ne. Qed.

Lemma installer_is_not_log : installer_name package <> log_name.
Proof. unfold installer_name, log_name. intros E. discriminate E. Qed.

Lemma remove_at_other removed name name' d : name' <> name -> entry_at name (remove_at removed name' d).2 = entry_at name d.
Proof. intros Hn. unfold remove_at. destruct (remove_staging_entry_if_present _ _). cbn. by apply entry_at_insert_ne. Qed.

Lemma verified_installer_signed env entry bytes :
  verified_installer_open env entry package = Ok bytes -> entry = SE_File bytes /\ release_signed package bytes.
Proof.
  unfold verified_installer_open. destruct entry; try done.
  - intros [_ (u & Hv & [= <-])%bind_Ok]%seq_Ok. destruct u. split; [done|]. by apply verify_open_file_signed.
  - by intros [_ ?]%seq_Ok.
Qed.

(** A step that holds no handle afterwards and leaves the log alone. *)
Lemma staging_plain s stage d :
  staging_invariant s -> holds_installer stage = false ->
  (stage <> Us_Begin -> (exists e, stage = Us_Returned (Err e)) \/ validate_package package = Ok ()) ->
  staging_invariant (moved stage d s).
Proof. intros (_ & Hl & _) Hh Hv. split; [|by split]. intros bytes [E|[E|E]]; cbn in E; by rewrite E in Hh. Qed.

Lemma staging_failed s cleanup removed e d : staging_invariant s -> staging_invariant (failed cleanup removed e d s).
Proof. intros Hs. apply (staging_plain s (Us_Returned (Err e))); [done|done|]. eauto. Qed.

Lemma begin_checks_valid env : begin_checks env = Ok () -> validate_package package = Ok ().
Proof. unfold begin_checks. intros (u & Hv & _)%bind_Ok. by destruct u. Qed.

Lemma staging_valid s : staging_invariant s -> us_stage s <> Us_Begin -> (forall e, us_stage s <> Us_Returned (Err e)) ->
  validate_package package = Ok ().
Proof. intros (_ & _ & Hv) Hb He. destruct (Hv Hb) as [[e E]|]; [by destruct (He e)|done]. Qed.

Lemma update_step_invariant env s s' : update_step env s s' -> staging_invariant s -> staging_invariant s'.
Proof.
  intros Hstep Hs. pose proof Hs as (Hst & Hlog & Hval).
  destruct Hstep as [e Est Hc|r d Est Hc Hr|r d Est Hr|r entry Est Hd d|r Est Hr|r Est Hv|bytes r d Est Hr|bytes e Est He|bytes Est
    |bytes r Est|name entry Hn].
  - by apply staging_failed.
  - destruct r; [|by apply staging_failed]. apply staging_plain; [done|done|]. intros _. right. by eapply begin_checks_valid.
  - destruct r; [|by apply staging_failed]. apply staging_plain; [done|done|]. intros _. right.
    apply (staging_valid s Hs); by rewrite Est.
  - destruct r; [|by apply staging_failed]. apply staging_plain; [done|done|]. intros _. right.
    apply (staging_valid s Hs); by rewrite Est.
  - destruct r; [|by apply staging_failed]. apply staging_plain; [done|done|]. intros _. right.
    apply (staging_valid s Hs); by rewrite Est.
  - destruct r as [bytes|]; [|by apply staging_failed]. apply verified_installer_signed in Hv as [He Hsig].
    split; [|split; [done|]].
    + intros bytes' [E|[E|E]]; cbn in E; simplify_eq. by split.
    + intros _. right. apply (staging_valid s Hs); by rewrite Est.
  - destruct (Hst bytes (or_introl Est)) as [He Hsig]. split; [|split; [by exists bytes|]].
    + intros bytes' [E|[E|E]]; cbn in E; destruct r; simplify_eq. split; [|done]. cbn.
      pose proof (remove_at_other (ie_remove_log env) (installer_name package) log_name (us_updates s)) as Hro.
      rewrite Hr in Hro. cbn in Hro. rewrite Hro; [done|]. apply not_eq_sym, installer_is_not_log.
    + intros _. right. apply (staging_valid s Hs); by rewrite Est.
  - apply staging_plain; [done|done|eauto].
  - split; [|split; [done|]].
    + intros bytes' [E|[E|E]]; cbn in E; simplify_eq. by apply Hst; auto.
    + intros _. right. apply (staging_valid s Hs); by rewrite Est.
  - apply staging_plain; [done|done|]. intros _. right. apply (staging_valid s Hs); by rewrite Est.
  - split; [|by split]. intros bytes E. cbn in E. destruct (Hst bytes E) as [He Hsig]. split; [|done]. cbn.
    rewrite entry_at_insert_ne; [done|]. intros ->. rewrite str_eqb_refl, andb_true_r in Hn.
    by destruct E as [E|[E|E]]; rewrite E in Hn.
Qed.

Lemma update_reachable_invariant s : update_reachable s -> staging_invariant s.
Proof.
  induction 1 as [d|env s s' _ IH Hs]; [|by eapply update_step_invariant].
  split; [|split; [done|done]]. intros bytes [E|[E|E]]; discriminate E.
Qed.

(** C17: Windows Installer reads what was verified.  Whatever other processes
    do to the staging directory and in whichever order, as long as the call
    lasts and Windows Installer runs, the path it was given holds bytes of
    the announced length that carry the release key's signature, for an
    approved package; and the log of an earlier installation is only removed
    once an installer has been verified. *)
Theorem installer_path_holds_release (s : Staging) (Hlen : 0 <= up_length package) (Hreach : update_reachable s) :
  (forall bytes, us_stage s = Us_Running bytes ->
     entry_at (installer_name package) (us_updates s) = SE_File bytes
     /\ release_signed package bytes /\ approved_package package)
  /\ (us_log_removed s = true -> exists bytes, release_signed package bytes).
Proof.
  pose proof (update_reachable_invariant s Hreach) as Hs. pose proof Hs as (Hst & Hlog & _). split; [|done].
  intros bytes E. destruct (Hst bytes (or_intror (or_intror E))) as [He Hsig]. split; [done|]. split; [done|].
  apply validate_package_iff; [done|]. apply (staging_valid s Hs); by rewrite E.
Qed.
End staging.

(** Windows Installer is started from the system directory, silently. *)
Example msiexec_path :
  msiexec_command None (lit "C:\ProgramData\ResticPal\Updates\a.msi") (lit "C:\ProgramData\ResticPal\Updates\install.log")
  = (lit "C:\Windows\System32\msiexec.exe",
     [lit "/i"; lit "C:\ProgramData\ResticPal\Updates\a.msi"; lit "/qn"; lit "/norestart"; lit "/l*v";
      lit "C:\ProgramData\ResticPal\Updates\install.log"]).
Proof. reflexivity. Qed.

Module StagingWitness.
Import UpdaterWitness.
#[local] Existing Instances ManagementWitness.toy_crypto UpdaterWitness.toy_base64.
Definition start : Staging := {| us_stage := Us_Begin; us_updates := ∅; us_log_removed := false |}.
Definition installer : rstr := installer_name package.
Definition partial : rstr := partial_name package.
Definition d1 : Updates := (remove_at true partial ∅).2.
Definition d2 : Updates := (remove_at true installer d1).2.
Definition d3 : Updates := <[partial := SE_File [7; 7; 7]]> d2.
Definition d4 : Updates := <[installer := SE_File [7; 7; 7]]> (<[partial := SE_Absent]> d3).
Definition d6 : Updates := (remove_at true log_name d4).2.
(** Someone puts a directory where the log goes while Windows Installer runs. *)
Definition d8 : Updates := <[log_name := SE_Directory]> d6.
Definition at_stage (stage : UpdateStage) (d : Updates) (log_removed : bool) : Staging :=
  {| us_stage := stage; us_updates := d; us_log_removed := log_removed |}.
Definition s8 : Staging := at_stage (Us_Running [7; 7; 7]) d8 true.

Ltac computed := vm_compute; reflexivity.
(** Only whether a call works is computed, not the directory. *)
Lemma remove_at_done removed name d :
  is_ok (remove_at removed name d).1 = true -> remove_at removed name d = (Ok (), (remove_at removed name d).2).
Proof. by destruct (remove_at removed name d) as [[[]|] ?]. Qed.
Lemma rename_at_done source target bytes d :
  entry_at source d = SE_File bytes -> entry_at target d = SE_Absent ->
  rename_at true source target d = Ok (<[target := SE_File bytes]> (<[source := SE_Absent]> d)).
Proof. unfold rename_at. by intros -> ->. Qed.
Lemma running_reachable : update_reachable package s8.
Proof.
  eapply (ur_step package env (at_stage (Us_Running [7; 7; 7]) d6 true)); [|refine (us_other package env (at_stage (Us_Running [7; 7; 7]) d6 true) log_name SE_Directory _); computed].
  eapply (ur_step package env (at_stage (Us_Ready [7; 7; 7]) d6 true)); [|exact (us_launch package env (at_stage (Us_Ready [7; 7; 7]) d6 true) [7; 7; 7] eq_refl)].
  eapply (ur_step package env (at_stage (Us_Verified [7; 7; 7]) d4 false));
    [|refine (us_remove_log package env (at_stage (Us_Verified [7; 7; 7]) d4 false) [7; 7; 7] (Ok ()) d6 eq_refl _); apply remove_at_done; computed].
  eapply (ur_step package env (at_stage Us_Renamed d4 false)); [|refine (us_verify package env (at_stage Us_Renamed d4 false) (Ok [7; 7; 7]) eq_refl _); computed].
  eapply (ur_step package env (at_stage Us_Downloaded d3 false)); [|refine (us_rename package env (at_stage Us_Downloaded d3 false) (Ok d4) eq_refl _); apply rename_at_done; computed].
  eapply (ur_step package env (at_stage Us_Cleared d2 false));
    [|refine (us_download package env (at_stage Us_Cleared d2 false) (Ok ()) (SE_File [7; 7; 7]) eq_refl _); computed].
  eapply (ur_step package env (at_stage Us_PartialCleared d1 false));
    [|refine (us_clear_installer package env (at_stage Us_PartialCleared d1 false) (Ok ()) d2 eq_refl _); apply remove_at_done; computed].
  eapply (ur_step package env start); [apply ur_start|].
  refine (us_clear_partial package env start (Ok ()) d1 eq_refl _ _); [computed|apply remove_at_done; computed].
Qed.

Lemma staging_witness :
  us_stage s8 = Us_Running [7; 7; 7] /\ entry_at installer (us_updates s8) = SE_File [7; 7; 7] /\ release_signed package [7; 7; 7].
Proof.
  split; [reflexivity|].
  destruct (proj1 (installer_path_holds_release package s8 ltac:(vm_compute; discriminate) running_reachable) [7; 7; 7] eq_refl)
    as (He & Hs & _).
  split; [exact He|exact Hs].
Defined.
End StagingWitness.
