(* ===== verification/PolicyCache.v ===== *)
(** * Managed policy: fetching and caching ([apps/resticpal-service/src/management.rs])

    The HTTP client and the clock are parameters.  A [String] document is its
    UTF-8 bytes. *)
From stdpp Require Import base option list gmap strings.
From S2P Require Import Prelude RustStd Chrono Crates Config Status Policy ServiceState Credentials Management.
From S2P Require Import Updater.

Definition CACHE_SCHEMA_VERSION : Z := 1.
Definition MAX_CACHE_BYTES : Z := 2 * 1024 * 1024.

Record LoadedPolicy : Type := { lp_policy : ManagedPolicy; lp_sequence : Z }.
Record PendingEnrollment : Type := {
  pe_material : EnrollmentMaterial; pe_private_key : list Z; pe_public_key : rstr
}.
Record CachedManifest : Type := {
  cm_schema_version : Z;
  cm_mode : ManagementMode;
  cm_source_url : rstr;
  cm_verified_at : DateTime;
  cm_document : list Z
}.
#[global] Instance CachedManifest_eq_dec : EqDecision CachedManifest.
Proof. solve_decision. Defined.

(** The texts of [FetchAndCacheUnavailable] and of transparent errors are not modelled. *)
Inductive ManagementError : Type :=
| MG_ManagementDisabled | MG_MissingManifestUrl | MG_MissingSigningKey | MG_ManifestTooLarge | MG_EnrollmentTooLarge
| MG_InvalidUtf8 | MG_StatusReportingNotConfigured | MG_CredentialStoreUnavailable | MG_InvalidStatusToken
| MG_EnrolledPolicyContainsSecretReferences | MG_CacheTooLarge | MG_CacheDoesNotMatchSource
| MG_FetchAndCacheUnavailable
| MG_Config (e : ManagementConfigError) | MG_Manifest (e : ManifestError) | MG_Enrollment (e : EnrollmentError)
| MG_Policy (e : PolicyError) | MG_Http | MG_Io | MG_Json | MG_Atomic | MG_Credential (e : CredentialStoreError).

Definition lift_failure {E F T} (f : E -> F) (r : result (failure E) T) : result (failure F) T :=
  map_err (fun e => match e with Fails e => Fails (f e) | Panics => Panics end) r.

(** [ureq] without redirects: the body, up to the limit; [None] is an error. *)
Class HttpClient := {
  http_get : rstr -> option rstr -> Z -> option (list Z);              (* url, authorization, limit *)
  http_post : rstr -> rstr -> list Z -> Z -> option (list Z)           (* url, authorization, body, limit *)
}.

Section client.
Context `{Chrono} `{UrlCrate} `{CryptoCrates} `{Dpapi} `{HttpClient}.
Context `{Serde ManifestPayload} `{Serde SignedManifestEnvelope} `{Serde CachedManifest}.

Definition status_token (io : ReadIo) (credential_store : CredentialFiles) (reference : rstr)
    : result (failure ManagementError) rstr :=
  token ← map_err (fun e => Fails (MG_Credential e)) (get io reference credential_store);
  token ← ok_or (from_utf8 token) (Fails MG_InvalidStatusToken);
  reject_if (contains_line_break token) (Fails MG_InvalidStatusToken) ;;
  Ok (lit "Bearer " ++ token).

Definition bearer_token (io : ReadIo) (credential_store : option CredentialFiles) (reference : rstr)
    : result (failure ManagementError) rstr :=
  store ← ok_or credential_store (Fails MG_CredentialStoreUnavailable);
  status_token io store reference.

(** The [match config.mode] shared by [fetch_policy] and the cache. *)
Definition verify_document (config : LocalManagementConfig) (mode : ManagementMode) (document : list Z)
    (now : DateTime) (minimum_sequence : option Z) : result (failure ManagementError) VerifiedManifest :=
  match mode with
  | PlainManifest => lift_failure MG_Manifest (parse_plain_manifest document now minimum_sequence)
  | SignedManifest =>
      key ← ok_or (lm_signing_public_key config) (Fails MG_MissingSigningKey);
      lift_failure MG_Manifest (verify_signed_manifest document key now minimum_sequence)
  | Disabled => Err (Fails MG_ManagementDisabled)
  end.

Definition loaded_of (verified : VerifiedManifest) : LoadedPolicy :=
  {| lp_policy := pl_policy (vm_payload verified); lp_sequence := pl_sequence (vm_payload verified) |}.

(** [now] is read after the response has arrived. *)
Definition fetch_policy (io : ReadIo) (now : DateTime) (config : LocalManagementConfig) (minimum_sequence : option Z)
    (credential_store : option CredentialFiles) : result (failure ManagementError) (LoadedPolicy * list Z) :=
  url ← ok_or (lm_manifest_url config) (Fails MG_MissingManifestUrl);
  authorization ←
    match lm_mode config, lm_status_token_ref config with
    | SignedManifest, Some reference => Some <$> bearer_token io credential_store reference
    | _, _ => Ok None
    end;
  document ← ok_or (http_get url authorization (MAX_MANIFEST_BYTES + 1)) (Fails MG_Http);
  reject_if (MAX_MANIFEST_BYTES <? Z.of_nat (length document)) (Fails MG_ManifestTooLarge) ;;
  verified ← verify_document config (lm_mode config) document now minimum_sequence;
  reject_if (negb (is_some (from_utf8 document))) (Fails MG_InvalidUtf8) ;;
  Ok (loaded_of verified, document).

Definition validate_effective_policy (local : LocalConfig) (policy : ManagedPolicy)
    : result (failure ManagementError) unit :=
  reject_if (is_some (lm_enrollment_key_ref (lc_management local))
             && is_some (mr_secret_refs (mp_repository policy))) (Fails MG_EnrolledPolicyContainsSecretReferences) ;;
  map_err (fun e => Fails (MG_Policy e)) (resolve_config EffectiveConfig_default local (Some policy)) ;;
  Ok ().

(** *** The cache file [managed-policy-cache.json] *)
Definition cache_save (replaced : bool) (config : LocalManagementConfig) (document : list Z) (verified_at : DateTime)
    (file : FileRead) : result (failure ManagementError) unit * FileRead :=
  match serialize {| cm_schema_version := CACHE_SCHEMA_VERSION; cm_mode := lm_mode config;
                     cm_source_url := default [] (lm_manifest_url config); cm_verified_at := verified_at;
                     cm_document := document |} with
  | None => (Err (Fails MG_Json), file)
  | Some contents =>
      if MAX_CACHE_BYTES <? Z.of_nat (length contents) then (Err (Fails MG_CacheTooLarge), file)
      else if replaced then (Ok (), Contents contents) else (Err (Fails MG_Atomic), file)
  end.

Definition cache_load (config : LocalManagementConfig) (file : FileRead)
    : result (failure ManagementError) LoadedPolicy :=
  match file with
  | NotFound | ReadFails => Err (Fails MG_Io)
  | Contents bytes =>
      let contents := read_up_to (MAX_CACHE_BYTES + 1) bytes in
      reject_if (MAX_CACHE_BYTES <? Z.of_nat (length contents)) (Fails MG_CacheTooLarge) ;;
      cache ← ok_or (deserialize contents) (Fails MG_Json);
      reject_if (negb (cm_schema_version cache =? CACHE_SCHEMA_VERSION)
                 || negb (bool_decide (cm_mode cache = lm_mode config))
                 || negb (bool_decide (Some (cm_source_url cache) = lm_manifest_url config)))
        (Fails MG_CacheDoesNotMatchSource) ;;
      verified ← verify_document config (cm_mode cache) (cm_document cache) (cm_verified_at cache) None;
      Ok (loaded_of verified)
  end.

Definition remove_management_cache (removed : bool) (file : FileRead) : result (failure ManagementError) unit * FileRead :=
  match file with
  | NotFound => (Ok (), NotFound)
  | _ => if removed then (Ok (), NotFound) else (Err (Fails MG_Io), file)
  end.

(** A fetched policy that is new: checked against the local configuration, then cached. *)
Definition adopt (replaced : bool) (saved_at : DateTime) (local : LocalConfig) (loaded : LoadedPolicy)
    (document : list Z) (cache : FileRead) : result (failure ManagementError) (option LoadedPolicy) * FileRead :=
  match validate_effective_policy local (lp_policy loaded) with
  | Err e => (Err e, cache)
  | Ok _ =>
      let '(saved, cache) := cache_save replaced (lc_management local) document saved_at cache in
      (saved ;; Ok (Some loaded), cache)
  end.

(** [fetched_at] and [saved_at] are the two readings of the clock. *)
Definition load_best_policy (io : ReadIo) (replaced : bool) (fetched_at saved_at : DateTime) (local : LocalConfig)
    (credential_store : option CredentialFiles) (cache : FileRead)
    : result (failure ManagementError) (option LoadedPolicy) * FileRead :=
  let management := lc_management local in
  if bool_decide (lm_mode management = Disabled) then (Ok None, cache)
  else match validate_management management with
  | Err e => (Err (Fails (MG_Config e)), cache)
  | Ok _ =>
      let cached := cache_load management cache in
      let minimum_sequence := match cached with Ok loaded => Some (lp_sequence loaded) | Err _ => None end in
      match cached, fetch_policy io fetched_at management minimum_sequence credential_store with
      | Err Panics, _ | _, Err Panics => (Err Panics, cache)
      | Ok c, Ok (loaded, document) =>
          if lp_sequence c =? lp_sequence loaded
          then (validate_effective_policy local (lp_policy c) ;; Ok (Some c), cache)
          else adopt replaced saved_at local loaded document cache
      | Err (Fails _), Ok (loaded, document) => adopt replaced saved_at local loaded document cache
      | Ok loaded, Err (Fails _) => (validate_effective_policy local (lp_policy loaded) ;; Ok (Some loaded), cache)
      | Err (Fails _), Err (Fails _) => (Err (Fails MG_FetchAndCacheUnavailable), cache)
      end
  end.

Definition refresh_policy (io : ReadIo) (replaced : bool) (fetched_at saved_at : DateTime) (local : LocalConfig)
    (minimum_sequence : Z) (credential_store : option CredentialFiles) (cache : FileRead)
    : result (failure ManagementError) LoadedPolicy * FileRead :=
  match fetch_policy io fetched_at (lc_management local) (Some minimum_sequence) credential_store with
  | Err e => (Err e, cache)
  | Ok (loaded, document) =>
      if lp_sequence loaded =? minimum_sequence then (Ok loaded, cache)
      else match validate_effective_policy local (lp_policy loaded) with
           | Err e => (Err e, cache)
           | Ok _ =>
               let '(saved, cache) := cache_save replaced (lc_management local) document saved_at cache in
               (saved ;; Ok loaded, cache)
           end
  end.

(** *** Enrollment and status reports *)
Definition bounded_hostname (computer_name : option rstr) : rstr :=
  match option_filter (fun value => negb (str_is_empty value)) computer_name with
  | Some value => take 256 value
  | None => lit "unknown-windows-device"
  end.

Definition client_enroll `{Serde SignedEnrollmentEnvelope} `{Serde EnrollmentPayload} `{Serde EnrollmentSecretBundle}
    `{Serde EnrollmentRequest} (private_key : list Z) (nonce : option (list Z)) (computer_name : option rstr)
    (architecture : rstr) (now : DateTime) (bootstrap_url : rstr)
    : result (failure ManagementError) PendingEnrollment :=
  descriptor ← map_err (fun e => Fails (MG_Enrollment e)) (bootstrap_parse bootstrap_url);
  context ← map_err (fun e => Fails (MG_Enrollment e))
    (new_enrollment_request private_key nonce (bounded_hostname computer_name) CARGO_PKG_VERSION architecture);
  body ← ok_or (serialize (cx_request context)) (Fails MG_Http);
  document ← ok_or (http_post (bd_endpoint_url descriptor) (lit "Bearer " ++ bd_token descriptor) body
                      (MAX_ENROLLMENT_BYTES + 1)) (Fails MG_Http);
  reject_if (MAX_ENROLLMENT_BYTES <? Z.of_nat (length document)) (Fails MG_EnrollmentTooLarge) ;;
  material ← lift_failure MG_Enrollment
    (verify_and_decrypt_enrollment document descriptor (cx_private_key context) (cx_request_nonce context) now);
  Ok {| pe_material := material; pe_private_key := cx_private_key context;
        pe_public_key := bd_public_key descriptor |}.

Definition report_status `{Serde DeviceStatusReport} (io : ReadIo) (now : DateTime) (computer_name : option rstr)
    (architecture : rstr) (config : LocalManagementConfig) (credential_store : CredentialFiles) (status : ServiceStatus)
    : result (failure ManagementError) unit :=
  status_url ← ok_or (lm_status_url config) (Fails MG_StatusReportingNotConfigured);
  device_id ← ok_or (lm_device_id config) (Fails MG_StatusReportingNotConfigured);
  token_ref ← ok_or (lm_status_token_ref config) (Fails MG_StatusReportingNotConfigured);
  authorization ← status_token io credential_store token_ref;
  body ← ok_or (serialize
    {| dr_schema_version := MANAGEMENT_SCHEMA_VERSION; dr_device_id := device_id;
       dr_hostname := bounded_hostname computer_name; dr_app_version := CARGO_PKG_VERSION;
       dr_architecture := architecture; dr_reported_at := now; dr_status := status |}) (Fails MG_Http);
  ok_or (http_post status_url authorization body 0) (Fails MG_Http) ;;
  Ok ().
End client.

(** ** Properties *)
Section properties.
Context `{ChronoLaws} `{UrlCrate} `{CryptoCrates} `{Dpapi} `{HttpClient}.
Context `{Serde ManifestPayload} `{Serde SignedManifestEnvelope} `{Serde CachedManifest}.

Lemma lift_failure_Ok {E F T} (f : E -> F) (r : result (failure E) T) x : lift_failure f r = Ok x <-> r = Ok x.
Proof. apply map_err_Ok. Qed.

(** What a verified document says does not depend on when it was checked,
    as long as it is still fresh. *)
Lemma verify_document_later config mode document now later minimum v :
  clock_ok now -> clock_ok later -> now <= later ->
  (forall e, pl_expires_at (vm_payload v) = Some e -> later <= e) ->
  verify_document config mode document now minimum = Ok v ->
  verify_document config mode document later None = Ok v.
Proof.
  intros Hnow Hlater Hle Hexp. destruct mode; cbn; [done| |].
  - rewrite !lift_failure_Ok, !parse_plain_manifest_iff by done.
    intros (Hs & Hz & Hd & [? ? ? ? He]). split_and!; [done..|]. constructor; try done; [lia|].
    destruct (pl_expires_at (vm_payload v)) as [e|]; [|done]. split; [tauto|by apply Hexp].
  - destruct (lm_signing_public_key config) as [key|]; cbn [ok_or mbind result_bind]; [|done].
    rewrite !lift_failure_Ok, !verify_signed_manifest_iff by done.
    intros (Hs & Hz & [? ? ? ? He]). split_and!; [done..|]. constructor; try done; [lia|].
    destruct (pl_expires_at (vm_payload v)) as [e|]; [|done]. split; [tauto|by apply Hexp].
Qed.

Lemma verify_document_minimum config mode document now minimum v :
  clock_ok now -> verify_document config mode document now (Some minimum) = Ok v ->
  minimum <= pl_sequence (vm_payload v).
Proof.
  intros Hnow. destruct mode; cbn; [done| |].
  - rewrite lift_failure_Ok, parse_plain_manifest_iff by done. intros (_ & _ & _ & [? ? Hr ? ?]). by apply Hr.
  - destruct (lm_signing_public_key config) as [key|]; cbn [ok_or mbind result_bind]; [|done].
    rewrite lift_failure_Ok, verify_signed_manifest_iff by done. intros (_ & _ & [? ? Hr ? ?]). by apply Hr.
Qed.

Lemma fetch_policy_Ok io now config minimum store loaded document :
  fetch_policy io now config minimum store = Ok (loaded, document) ->
  exists v, verify_document config (lm_mode config) document now minimum = Ok v /\ loaded = loaded_of v.
Proof.
  unfold fetch_policy. intros E. apply bind_Ok in E as (url & _ & E). apply bind_Ok in E as (auth & _ & E).
  apply bind_Ok in E as (doc & _ & E). apply seq_Ok in E as [_ E]. apply bind_Ok in E as (v & Hv & E).
  apply seq_Ok in E as [_ [= <- <-]]. by exists v.
Qed.

Lemma validate_effective_policy_Ok local policy u :
  validate_effective_policy local policy = Ok u ->
  is_ok (resolve_config EffectiveConfig_default local (Some policy)) = true.
Proof.
  unfold validate_effective_policy. intros E. apply seq_Ok in E as [_ E].
  apply bind_Ok in E as (r & Hr%map_err_Ok & _). by rewrite Hr.
Qed.

Lemma adopt_Ok replaced t local loaded document cache p cache' :
  adopt replaced t local loaded document cache = (Ok p, cache') ->
  p = Some loaded /\ is_ok (resolve_config EffectiveConfig_default local (Some (lp_policy loaded))) = true
  /\ cache_save replaced (lc_management local) document t cache = (Ok (), cache').
Proof.
  unfold adopt. destruct (validate_effective_policy _ _) eqn:Hv; [|done].
  apply validate_effective_policy_Ok in Hv. destruct (cache_save _ _ _ _ _) as [[[]|e] c] eqn:Hs; cbn; [|done].
  by intros [= <- <-].
Qed.

(** The policy the service starts with, online or offline, is never
    older than the one it has cached: its sequence is at least the cached
    one, with an equal sequence it is the cached policy itself, and it
    always resolves with the local configuration. *)
Theorem best_policy_never_rolls_back (io : ReadIo) (replaced : bool) (fetched_at saved_at : DateTime) (local : LocalConfig)
    (store : option CredentialFiles) (cache cache' : FileRead) (loaded cached : LoadedPolicy)
    (Hclock : clock_ok fetched_at)
    (Hcached : cache_load (lc_management local) cache = Ok cached)
    (Hload : load_best_policy io replaced fetched_at saved_at local store cache = (Ok (Some loaded), cache')) :
  lp_sequence cached <= lp_sequence loaded
  /\ (lp_sequence loaded = lp_sequence cached -> loaded = cached /\ cache' = cache)
  /\ is_ok (resolve_config EffectiveConfig_default local (Some (lp_policy loaded))) = true.
Proof.
  unfold load_best_policy in Hload. case_bool_decide; [done|].
  destruct (validate_management _); [|done]. rewrite Hcached in Hload.
  destruct (fetch_policy _ _ _ _ _) as [[fetched document]|[e|]] eqn:Hf; [| |done].
  - apply fetch_policy_Ok in Hf as (v & Hv & ->). apply verify_document_minimum in Hv; [|done].
    destruct (lp_sequence cached =? lp_sequence (loaded_of v)) eqn:Hseq.
    + destruct (validate_effective_policy _ _) eqn:Hval in Hload; cbn in Hload; [|done].
      injection Hload as <- <-. apply validate_effective_policy_Ok in Hval. by split_and!.
    + apply Z.eqb_neq in Hseq. apply adopt_Ok in Hload as ([= ->] & Hr & _). cbn in *. split_and!; [done|lia|done].
  - destruct (validate_effective_policy _ _) eqn:Hval in Hload; cbn in Hload; [|done].
    injection Hload as <- <-. apply validate_effective_policy_Ok in Hval. by split_and!.
Qed.

(** A policy document that was verified and cached is what the next
    start loads without a network, as long as it had not expired when it
    was cached; and the cache answers only for the management source it was
    saved for. *)
Theorem cached_policy_loads_offline `{!SerdeLaws CachedManifest} (config : LocalManagementConfig) (url : rstr)
    (document : list Z) (now saved_at : DateTime) (minimum : option Z) (v : VerifiedManifest) (file file' : FileRead)
    (Hnow : clock_ok now) (Hlater : clock_ok saved_at) (Horder : now <= saved_at)
    (Hfresh : forall e, pl_expires_at (vm_payload v) = Some e -> saved_at <= e)
    (Hurl : lm_manifest_url config = Some url)
    (Hverified : verify_document config (lm_mode config) document now minimum = Ok v)
    (Hsaved : cache_save true config document saved_at file = (Ok (), file')) :
  cache_load config file' = Ok (loaded_of v)
  /\ (forall config' l, cache_load config' file' = Ok l ->
        lm_mode config' = lm_mode config /\ lm_manifest_url config' = Some url).
Proof.
  unfold cache_save in Hsaved. destruct (serialize _) as [contents|] eqn:Hs; [|done].
  destruct (_ <? _) eqn:Hlen in Hsaved; [done|]. injection Hsaved as <-. apply Z.ltb_ge in Hlen.
  apply serde_roundtrip in Hs. unfold cache_load. rewrite read_up_to_within by done.
  rewrite (proj2 (reject_if_Ok _ (Fails MG_CacheTooLarge) ())) by by apply Z.ltb_ge. cbn [mbind result_bind].
  rewrite Hs. cbn [ok_or mbind result_bind cm_schema_version cm_mode cm_source_url cm_document cm_verified_at].
  rewrite Hurl. cbn [default]. split.
  - rewrite !bool_decide_true by done. cbn [negb orb Z.eqb CACHE_SCHEMA_VERSION reject_if mbind result_bind].
    by rewrite (verify_document_later _ _ _ _ _ _ _ Hnow Hlater Horder Hfresh Hverified).
  - intros config' l E. apply seq_Ok in E as [E _]. apply reject_if_Ok in E.
    apply orb_false_iff in E as [E Hu]. apply orb_false_iff in E as [_ Hm]. bool_steps. by split.
Qed.
End properties.

Module PolicyCacheWitness.
Import ChronoExample UrlExample ManagementWitness.
#[local] Existing Instances toy_crypto manifest_envelope_serde.
Definition revised : ManifestPayload :=
  {| pl_schema_version := 1; pl_sequence := 7; pl_issued_at := seconds 1000; pl_expires_at := None;
     pl_policy := {| mp_schema_version := 2; mp_revision := lit "r1"; mp_backup := no_backup; mp_repository := no_repository;
                     mp_schedule := no_schedule; mp_retention := no_retention; mp_updates := None |} |}.
#[local] Instance revised_serde : Serde ManifestPayload := one_document revised 1.
#[local] Instance no_dpapi : Dpapi := {| protect_data := fun _ => None; unprotect_data := fun _ => None |}.
#[local] Instance one_server : HttpClient := {| http_get := fun _ _ _ => Some [1]; http_post := fun _ _ _ _ => None |}.

Definition local : LocalConfig :=
  set_lc_management
    {| lm_mode := PlainManifest; lm_manifest_url := Some (lit "https://m.test/p"); lm_signing_public_key := None;
       lm_refresh_interval_minutes := None; lm_status_url := None; lm_device_id := None;
       lm_status_token_ref := None; lm_enrollment_key_ref := None |} LocalConfig_default.
Definition entry : CachedManifest :=
  {| cm_schema_version := 1; cm_mode := PlainManifest; cm_source_url := lit "https://m.test/p";
     cm_verified_at := seconds 1200; cm_document := [1] |}.
#[local] Instance entry_serde : Serde CachedManifest :=
  {| serialize := fun c => if decide (c = entry) then Some [9] else None;
     deserialize := fun b => if bool_decide (b = [9]) then Some entry else None |}.
#[local] Instance entry_serde_laws : SerdeLaws CachedManifest.
Proof. split; cbn; intros x b; case_decide; intros [= <-]; subst; done. Qed.
Definition loaded : LoadedPolicy := loaded_of {| vm_payload := revised; vm_signed := false |}.

Lemma best_policy_witness :
  load_best_policy Read_Done true (seconds 1200) (seconds 1200) local None (Contents [9]) = (Ok (Some loaded), Contents [9])
  /\ lp_sequence loaded <= lp_sequence loaded.
Proof.
  assert (load_best_policy Read_Done true (seconds 1200) (seconds 1200) local None (Contents [9])
          = (Ok (Some loaded), Contents [9])) as E by (vm_compute; reflexivity).
  split; [exact E|].
  refine (proj1 (best_policy_never_rolls_back Read_Done true (seconds 1200) (seconds 1200) local None (Contents [9]) (Contents [9])
                   loaded loaded clock_example _ E)).
  vm_compute. reflexivity.
Defined.

Lemma cached_policy_witness : cache_load (lc_management local) (Contents [9]) = Ok loaded.
Proof.
  refine (proj1 (cached_policy_loads_offline (lc_management local) (lit "https://m.test/p") [1]
                   (seconds 1200) (seconds 1200) None {| vm_payload := revised; vm_signed := false |} NotFound (Contents [9])
                   clock_example clock_example _ _ _ _ _)).
  - lia.
  - discriminate.
  - reflexivity.
  - vm_compute. reflexivity.
  - vm_compute. reflexivity.
Defined.
End PolicyCacheWitness.
