(* ===== verification/Executor.v ===== *)
(** * Running restic ([apps/resticpal-service/src/executor.rs], process half)

    One restic process from its secrets to its exit, and the sequences of
    processes that make up a backup, a repository operation and retention.
    What Windows answers (spawning, polling, terminating, the clock, the
    pipes) and when the cancellation token is set is a [ProcessEnv]; every
    process that is started appears in the result. *)
From stdpp Require Import base option list gmap strings.
From S2P Require Import Prelude RustStd WinPath Chrono Config Status Restic Outcome Credentials Sources Output.

(** Milliseconds. *)
Definition PROCESS_POLL_INTERVAL : Z := 100.
Definition PROCESS_TERMINATION_GRACE : Z := 5 * 1000.
Definition REPOSITORY_OPERATION_TIMEOUT : Z := 2 * 60 * 1000.
Definition STALE_LOCK_CLEANUP_TIMEOUT : Z := 2 * 60 * 1000.

(** [Child::try_wait]; the status is [ExitStatus::code]. *)
Inductive ProcessPoll : Type := Poll_Exited (status : option Z) | Poll_Running | Poll_Fails.

Record ProcessEnv : Type := {
  pv_wake_lock : Z -> bool;             (* [WakeLockProvider::acquire] for a timeout *)
  pv_job : bool;                        (* [KillOnDropJob::new] *)
  pv_spawn : bool;
  pv_assign : bool;
  pv_pipes : bool * bool;               (* [child.stdout.take()], [child.stderr.take()] *)
  pv_cancelled : nat -> bool;           (* readings of the cancellation token: before the start, then per poll *)
  pv_poll : nat -> ProcessPoll;
  pv_elapsed : nat -> Z;                (* [started.elapsed()] at each poll *)
  pv_grace_poll : nat -> ProcessPoll;   (* polls of [terminate_process_tree] *)
  pv_grace_elapsed : nat -> Z;
  pv_stdout : Stream;
  pv_stderr : Stream
}.

(** A process that was started. *)
Record Launch : Type := { la_invocation : ResticInvocation; la_environment : Environment }.

(** ** Secrets *)
Section resolvers.
Context `{Dpapi}.

(** [DpapiSecretResolver::resolve] and [UnavailableSecretResolver] *)
Definition dpapi_resolve (io : ReadIo) (files : CredentialFiles) (reference : rstr) : result unit rstr :=
  bytes ← map_err (fun _ => ()) (get io reference files);
  value ← ok_or (from_utf8 bytes) ();
  reject_if (contains_char 0 value) () ;;
  Ok value.
Definition unavailable_resolve (reference : rstr) : result unit rstr := Err ().
End resolvers.

Record ResticExecutor : Type := {
  rx_executable : rstr;
  rx_data_directory : rstr;
  rx_cache_directory : rstr;
  rx_secrets : rstr -> result unit rstr
}.
(** [ResticExecutor::new] *)
Definition ResticExecutor_new (executable data_directory : rstr) (secrets : rstr -> result unit rstr) : ResticExecutor :=
  {| rx_executable := executable; rx_data_directory := data_directory;
     rx_cache_directory := path_push data_directory (lit "Cache"); rx_secrets := secrets |}.

(** ** One process *)

(** [terminate_process_tree] after the job is closed and the child killed:
    whether the child is known to be gone.  [None]: more fuel is needed. *)
Fixpoint await_termination (fuel : nat) (env : ProcessEnv) (k : nat) : option bool :=
  match fuel with
  | O => None
  | S fuel =>
      match pv_grace_poll env k with
      | Poll_Exited _ => Some true
      | Poll_Running =>
          if pv_grace_elapsed env k <? PROCESS_TERMINATION_GRACE then await_termination fuel env (S k) else Some false
      | Poll_Fails => Some false
      end
  end.
Definition terminate_process_tree (fuel : nat) (env : ProcessEnv) : option bool := await_termination fuel env 0.

(** How the poll loop ends: [cancelled], [timed_out] or neither. *)
Inductive LoopEnd : Type := End_Exited (status : option Z) | End_Cancelled | End_TimedOut | End_WaitFailed.

(** The loop of both executors; a backup has no [timeout].  The second
    component is [termination_failed]. *)
Fixpoint poll_loop (fuel : nat) (env : ProcessEnv) (timeout : option Z) (k : nat) : option (LoopEnd * bool) :=
  match fuel with
  | O => None
  | S fuel' =>
      let terminate_with (e : LoopEnd) := gone ← terminate_process_tree fuel env; Some (e, negb gone) in
      match pv_poll env k with
      | Poll_Exited status => Some (End_Exited status, false)
      | Poll_Running =>
          if pv_cancelled env (S k) then terminate_with End_Cancelled
          else if match timeout with Some t => t <=? pv_elapsed env k | None => false end
          then terminate_with End_TimedOut
          else poll_loop fuel' env timeout (S k)
      | Poll_Fails => terminate_with End_WaitFailed
      end
  end.

Section execute.
(** The service's own environment. *)
Context (var_os : rstr -> option rstr) (x : ResticExecutor).

(** [command_for] *)
Definition command_for (invocation : ResticInvocation) (secrets : list (SecretEnvironmentVariable * rstr)) : Launch :=
  {| la_invocation := invocation;
     la_environment := command_environment var_os invocation secrets (rx_cache_directory x) |}.

(** Up to the poll loop: the process that was started, or why there is none
    and, if one was started all the same, which. *)
Definition start_process (env : ProcessEnv) (invocation : ResticInvocation) (wake_lock_timeout : Z)
    : result (option rstr * list Launch) Launch :=
  match resolve_secrets (rx_secrets x) (inv_secret_environment invocation) with
  | Err _ => Err (Some (lit "credential_unavailable"), [])
  | Ok secrets =>
      if negb (pv_wake_lock env wake_lock_timeout) then Err (Some (lit "wake_lock_unavailable"), [])
      else if pv_cancelled env 0 then Err (None, [])
      else if negb (pv_job env) then Err (Some (lit "process_isolation_failed"), [])
      else if negb (pv_spawn env) then Err (Some (lit "restic_start_failed"), [])
      else
        let launch := command_for invocation secrets in
        if negb (pv_assign env) then Err (Some (lit "process_isolation_failed"), [launch])
        else if negb (pv_pipes env).1 || negb (pv_pipes env).2
        then Err (Some (lit "restic_output_unavailable"), [launch])
        else Ok launch
  end.

Definition repository_failure_code (operation : ResticOperation) (status : option Z) (stderr : list Z) : rstr :=
  if bool_decide (operation = Probe /\ status = Some 10) then lit "repository_not_found"
  else match classify_stderr stderr with
  | Some code => code
  | None =>
      match operation with
      | Probe => lit "repository_validation_failed"
      | Initialize => lit "repository_initialization_failed"
      | _ => lit "repository_operation_failed"
      end
  end.

Definition execute_repository_invocation (fuel : nat) (env : ProcessEnv) (invocation : ResticInvocation) (timeout : Z)
    : option (RepositoryOutcome * list Launch) :=
  match start_process env invocation timeout with
  | Err (Some code, launches) => Some (Repo_Failed code, launches)
  | Err (None, launches) => Some (Repo_Cancelled, launches)
  | Ok launch =>
      match poll_loop fuel env (Some timeout) 0 with
      | None => None
      | Some (_, true) => Some (Repo_Failed (lit "restic_termination_failed"), [launch])
      | Some (ended, false) =>
          Some (match ended with
                | End_Cancelled => Repo_Cancelled
                | End_TimedOut => Repo_Failed (lit "repository_operation_timed_out")
                | End_WaitFailed => Repo_Failed (lit "restic_wait_failed")
                | End_Exited status =>
                    if bool_decide (status = Some 0) then Repo_Succeeded
                    else Repo_Failed (repository_failure_code (inv_operation invocation) status
                                        (read_bounded (pv_stderr env) MAX_STDERR_BYTES))
                end, [launch])
      end
  end.

Context `{WireJson}.

(** The progress updates [read_json_output] offers go through a channel that
    may drop them; they are not part of the outcome. *)
Definition execute_invocation (fuel : nat) (env : ProcessEnv) (invocation : ResticInvocation) (wake_lock_timeout : Z)
    (known_vss_fallback : bool) : option (BackupOutcome * list Launch) :=
  match start_process env invocation wake_lock_timeout with
  | Err (Some code, launches) => Some (outcome_failed code, launches)
  | Err (None, launches) => Some (outcome_cancelled, launches)
  | Ok launch =>
      match poll_loop fuel env None 0 with
      | None => None
      | Some (_, true) => Some (outcome_failed (lit "restic_termination_failed"), [launch])
      | Some (ended, false) =>
          '(output_result, _) ← read_json_output (pv_stdout env);
          '(stderr_output, _, stderr) ← read_stderr_output (pv_stderr env);
          Some (match ended with
                | End_Cancelled => outcome_cancelled
                | End_Exited status => finish_outcome status output_result stderr_output stderr known_vss_fallback
                | End_TimedOut | End_WaitFailed => outcome_failed (lit "restic_wait_failed")
                end, [launch])
      end
  end.

(** ** Operations *)
Context `{UnicodeData}.

(** [ResticExecutor::backup]: the plan is made twice, against the file system
    before the clean-up of stale locks and against the one after it. *)
Definition executor_backup (fuel : nat) (fs1 fs2 : Filesystem) (env1 env2 : ProcessEnv) (config : EffectiveConfig)
    : option (BackupOutcome * list Launch) :=
  match @build_backup_invocations _ fs1 (rx_executable x) (rx_data_directory x) config with
  | Err error => Some (outcome_failed (backup_invocation_error_code error), [])
  | Ok (unlock, _) =>
      '(cleanup, launches) ← execute_repository_invocation fuel env1 unlock STALE_LOCK_CLEANUP_TIMEOUT;
      match backup_outcome_for_lock_cleanup cleanup with
      | Some outcome => Some (outcome, launches)
      | None =>
          match @build_backup_invocations _ fs2 (rx_executable x) (rx_data_directory x) config with
          | Err error => Some (outcome_failed (backup_invocation_error_code error), launches)
          | Ok (_, backup) =>
              '(outcome, launches') ←
                execute_invocation fuel env2 backup (sc_wake_lock_timeout_seconds (ec_schedule config) * 1000) false;
              Some (outcome, launches ++ launches')
          end
      end
  end.

Definition repository_operation (fuel : nat) (env : ProcessEnv) (config : EffectiveConfig) (operation : ResticOperation)
    : option (RepositoryOutcome * list Launch) :=
  match repository_setup (rx_executable x) config operation with
  | Err _ => Some (Repo_Failed (lit "invalid_repository_configuration"), [])
  | Ok invocation => execute_repository_invocation fuel env invocation REPOSITORY_OPERATION_TIMEOUT
  end.

(** [if code == "repository_operation_failed" { specific } else { &code }] *)
Definition retention_code (specific : string) (code : rstr) : rstr :=
  if str_eqb code (lit "repository_operation_failed") then lit specific else code.

Definition executor_retention (fuel : nat) (env1 env2 : ProcessEnv) (config : EffectiveConfig) (prune_due : bool)
    : option (RetentionOutcome * list Launch) :=
  let timeout := sc_wake_lock_timeout_seconds (ec_schedule config) * 1000 in
  match retention (rx_executable x) config Forget with
  | Err _ => Some (Ret_Failed (lit "retention_forbidden"), [])
  | Ok forget =>
      '(outcome, launches) ← execute_repository_invocation fuel env1 forget timeout;
      match outcome with
      | Repo_Cancelled => Some (Ret_Cancelled, launches)
      | Repo_Failed code => Some (Ret_Failed (retention_code "retention_forget_failed" code), launches)
      | Repo_Succeeded =>
          if negb prune_due then Some (Ret_Succeeded false, launches)
          else match retention (rx_executable x) config Prune with
          | Err _ => Some (Ret_Failed (lit "retention_forbidden"), launches)
          | Ok prune =>
              '(outcome, launches') ← execute_repository_invocation fuel env2 prune timeout;
              Some (match outcome with
                    | Repo_Succeeded => Ret_Succeeded true
                    | Repo_Cancelled => Ret_Cancelled
                    | Repo_Failed code => Ret_Failed (retention_code "retention_prune_failed" code)
                    end, launches ++ launches')
          end
      end
  end.
End execute.

(** ** Which processes run *)
Section launches.
Context (var_os : rstr -> option rstr) (x : ResticExecutor) `{WireJson} `{UnicodeData}.

(** A process started for an invocation, with every secret it refers to. *)
Definition launch_of (invocation : ResticInvocation) (l : Launch) : Prop :=
  exists secrets, resolve_secrets (rx_secrets x) (inv_secret_environment invocation) = Ok secrets
                  /\ l = command_for var_os x invocation secrets.

(** At some poll the process had exited with this code. *)
Definition exits_with (env : ProcessEnv) (code : Z) : Prop := exists k, pv_poll env k = Poll_Exited (Some code).

Lemma start_process_launches env invocation timeout :
  match start_process var_os x env invocation timeout with
  | Ok l => launch_of invocation l
  | Err (_, ls) => ls = [] \/ exists l, ls = [l] /\ launch_of invocation l
  end.
Proof.
  unfold start_process, launch_of.
  destruct (resolve_secrets _ _) as [secrets|]; [|by left].
  repeat match goal with |- context [if ?c then _ else _] => destruct c end; eauto 10.
Qed.

Lemma poll_loop_exited fuel env timeout k status b :
  poll_loop fuel env timeout k = Some (End_Exited status, b) -> exists j, pv_poll env j = Poll_Exited status.
Proof.
  revert k. induction fuel as [|fuel IH]; intros k; cbn [poll_loop]; [done|].
  destruct (pv_poll env k) eqn:Ep.
  - intros [= -> _]. eauto.
  - destruct (pv_cancelled env (S k)); [by destruct (terminate_process_tree _ _)|].
    destruct (match timeout with Some _ => _ | None => _ end); [by destruct (terminate_process_tree _ _)|]. apply IH.
  - by destruct (terminate_process_tree _ _).
Qed.

Lemma repository_launches fuel env invocation timeout o ls :
  execute_repository_invocation var_os x fuel env invocation timeout = Some (o, ls) ->
  (ls = [] \/ exists l, ls = [l] /\ launch_of invocation l)
  /\ (o = Repo_Succeeded -> (exists l, ls = [l]) /\ exits_with env 0).
Proof.
  unfold execute_repository_invocation. pose proof (start_process_launches env invocation timeout) as Hl.
  destruct (start_process _ _ _ _ _) as [l|[[code|] ls']]; [| |].
  2, 3: intros [= <- <-]; by split.
  destruct (poll_loop _ _ _ _) as [[ended []]|] eqn:Ep; [|intros [= <- <-]|done].
  { intros [= <- <-]. split; [eauto|done]. }
  split; [eauto|]. destruct ended as [status| | |]; try done. case_bool_decide as Hs; [|done]. intros _.
  split; [eauto|]. subst. by eapply poll_loop_exited.
Qed.

Lemma invocation_launches fuel env invocation timeout known o ls :
  execute_invocation var_os x fuel env invocation timeout known = Some (o, ls) ->
  (ls = [] \/ exists l, ls = [l] /\ launch_of invocation l)
  /\ (outcome_is_success o = true -> (exists l, ls = [l]) /\ (exits_with env 0 \/ exits_with env 3)).
Proof.
  unfold execute_invocation. pose proof (start_process_launches env invocation timeout) as Hl.
  destruct (start_process _ _ _ _ _) as [l|[[code|] ls']]; [| |].
  2, 3: intros [= <- <-]; by split.
  destruct (poll_loop _ _ _ _) as [[ended []]|] eqn:Ep; [| |done].
  { intros [= <- <-]. split; [eauto|done]. }
  destruct (read_json_output _) as [[out sent]|]; cbn [mbind option_bind]; [|done].
  destruct (read_stderr_output _) as [[[err sent'] stderr]|]; cbn [mbind option_bind]; [|done].
  intros [= <- <-]. split; [eauto|]. destruct ended as [status| | |]; try done. intros Ho. split; [eauto|].
  apply poll_loop_exited in Ep as [k Hk].
  destruct (finish_outcome_meaning status out err stderr known) as (_ & Hok & Hwarn).
  unfold outcome_is_success in Ho. destruct (bo_kind (finish_outcome _ _ _ _ _)); try done.
  - destruct (proj1 Hok eq_refl) as [-> _]. left. by exists k.
  - destruct (proj1 Hwarn eq_refl) as (_ & _ & _ & _ & _ & [->|[-> _]]); [right|left]; by exists k.
Qed.

(** The processes of one backup: none, the clean-up alone, or the clean-up
    and then the backup of a plan made after it. *)
Inductive backup_trace (fs1 fs2 : Filesystem) (env1 : ProcessEnv) (config : EffectiveConfig) : list Launch -> Prop :=
| trace_none : backup_trace fs1 fs2 env1 config []
| trace_cleanup u b l :
    @build_backup_invocations _ fs1 (rx_executable x) (rx_data_directory x) config = Ok (u, b) ->
    launch_of u l -> backup_trace fs1 fs2 env1 config [l]
| trace_backup u b u' b' l l' :
    @build_backup_invocations _ fs1 (rx_executable x) (rx_data_directory x) config = Ok (u, b) ->
    @build_backup_invocations _ fs2 (rx_executable x) (rx_data_directory x) config = Ok (u', b') ->
    exits_with env1 0 -> launch_of u l -> launch_of b' l' -> backup_trace fs1 fs2 env1 config [l; l'].

(** What the process that backs up reads: exactly the configured sources,
    each acceptable to the file system as it is then, without the service data. *)
Definition guarded_backup (fs : Filesystem) (config : EffectiveConfig) (l : Launch) : Prop :=
  inv_operation (la_invocation l) = Backup
  /\ Forall (source_ok (rx_data_directory x)) (bc_paths (ec_backup config))
  /\ exists cli, parse_cli (inv_arguments (la_invocation l)) = Some cli
     /\ cli_positional cli = lit "backup" :: bc_paths (ec_backup config)
     /\ (lit "--iexclude", rx_data_directory x) ∈ cli_values cli
     /\ forall c, @canonicalize fs (rx_data_directory x) = Some c ->
          exists p, (lit "--iexclude", p) ∈ cli_values cli /\ components p = components (ordinary_windows_path c).

Lemma backup_trace_guarded fs1 fs2 env1 config ls :
  backup_trace fs1 fs2 env1 config ls ->
  ls = [] \/ (exists u, ls = [u] /\ inv_operation (la_invocation u) = Unlock)
  \/ (exists u b, ls = [u; b] /\ inv_operation (la_invocation u) = Unlock /\ exits_with env1 0 /\ guarded_backup fs2 config b).
Proof.
  intros [|u b l Hp (? & _ & ->)|u b u' b' l l' Hp1 Hp2 Hx (? & _ & ->) (? & _ & ->)]; [by left| |]; right.
  - left. eexists. split; [done|]. by apply plan_commands in Hp as [Hu _].
  - right. eexists _, _. split; [done|]. apply plan_commands in Hp1 as [Hu _]. split; [done|]. split; [done|].
    pose proof (plan_accepted _ _ _ _ _ Hp2) as (_ & _ & Hs).
    apply plan_commands in Hp2 as (_ & Hb & cli & Hcli & Hpos & Hd & Hc). split; [done|]. split; [done|].
    exists cli. split_and!; [done..|]. intros c E. apply Hc. by exists c.
Qed.

Lemma backup_trace_of fuel fs1 fs2 env1 env2 config o ls :
  executor_backup var_os x fuel fs1 fs2 env1 env2 config = Some (o, ls) ->
  backup_trace fs1 fs2 env1 config ls
  /\ (outcome_is_success o = true -> length ls = 2%nat /\ (exits_with env2 0 \/ exits_with env2 3)).
Proof.
  unfold executor_backup. destruct (@build_backup_invocations _ fs1 _ _ config) as [[u b]|] eqn:Hp1; [|].
  2: { intros [= <- <-]. split; [constructor|done]. }
  destruct (execute_repository_invocation _ _ _ _ _ _) as [[cleanup ls1]|] eqn:E1; cbn [mbind option_bind]; [|done].
  apply repository_launches in E1 as [Hl1 Hs1].
  assert (backup_trace fs1 fs2 env1 config ls1) as Ht1.
  { destruct Hl1 as [->|(l & -> & Hl)]; [constructor|by eapply trace_cleanup]. }
  destruct (backup_outcome_for_lock_cleanup cleanup) as [o'|] eqn:Hc.
  { intros [= <- <-]. split; [done|]. destruct cleanup; cbn in Hc; try done; by injection Hc as <-. }
  destruct (Hs1 ltac:(by destruct cleanup)) as [[l ->] Hx].
  destruct (@build_backup_invocations _ fs2 _ _ config) as [[u' b']|] eqn:Hp2; [|intros [= <- <-]; by split].
  destruct (execute_invocation _ _ _ _ _ _ _) as [[o' ls2]|] eqn:E2; cbn [mbind option_bind]; [|done].
  apply invocation_launches in E2 as [Hl2 Hs2]. intros [= <- <-]. split.
  - destruct Hl2 as [->|(l' & -> & Hl')]; [done|]. destruct Hl1 as [|(? & [= <-] & Hl)]; [done|]. by eapply trace_backup.
  - intros Ho. destruct (Hs2 Ho) as [[l' ->] ?]. done.
Qed.

(** ** Repository operations end *)

(** The clock moves on by the poll interval between polls. *)
Record ticking (env : ProcessEnv) : Prop := {
  tk_start : 0 <= pv_elapsed env 0;
  tk_step k : pv_elapsed env k + PROCESS_POLL_INTERVAL <= pv_elapsed env (S k);
  tk_grace_start : 0 <= pv_grace_elapsed env 0;
  tk_grace_step k : pv_grace_elapsed env k + PROCESS_POLL_INTERVAL <= pv_grace_elapsed env (S k)
}.

Lemma ticking_elapsed env k : ticking env -> PROCESS_POLL_INTERVAL * Z.of_nat k <= pv_elapsed env k.
Proof.
  intros Ht. induction k as [|k IH]; [pose proof (tk_start _ Ht); lia|]. pose proof (tk_step _ Ht k).
  unfold PROCESS_POLL_INTERVAL in *. lia.
Qed.
Lemma ticking_grace env k : ticking env -> PROCESS_POLL_INTERVAL * Z.of_nat k <= pv_grace_elapsed env k.
Proof.
  intros Ht. induction k as [|k IH]; [pose proof (tk_grace_start _ Ht); lia|]. pose proof (tk_grace_step _ Ht k).
  unfold PROCESS_POLL_INTERVAL in *. lia.
Qed.

Lemma termination_ends fuel env k :
  ticking env -> PROCESS_TERMINATION_GRACE <= PROCESS_POLL_INTERVAL * (Z.of_nat fuel + Z.of_nat k) ->
  is_Some (await_termination (S fuel) env k).
Proof.
  intros Ht. revert k. induction fuel as [|fuel IH]; intros k Hf; pose proof (ticking_grace env k Ht) as Hg;
    cbn [await_termination]; destruct (pv_grace_poll env k); try (by eexists);
    destruct (Z.ltb_spec (pv_grace_elapsed env k) PROCESS_TERMINATION_GRACE); try (by eexists).
  - exfalso. unfold PROCESS_POLL_INTERVAL, PROCESS_TERMINATION_GRACE in *. lia.
  - apply IH. lia.
Qed.

(** Fifty polls cover the grace period. *)
Lemma poll_loop_ends n env timeout k :
  ticking env -> timeout <= PROCESS_POLL_INTERVAL * (Z.of_nat n + Z.of_nat k) ->
  is_Some (poll_loop (n + 51) env (Some timeout) k).
Proof.
  intros Ht. revert k. induction n as [|n IH]; intros k Hn; cbn [Nat.add poll_loop].
  all: assert (forall m (e : LoopEnd), is_Some (gone ← terminate_process_tree (S (m + 50)) env; Some (e, negb gone))) as Hterm
    by (intros m e; destruct (termination_ends (m + 50) env 0 Ht) as [g Hg];
        [unfold PROCESS_TERMINATION_GRACE, PROCESS_POLL_INTERVAL; lia|];
        unfold terminate_process_tree; rewrite Hg; by eexists).
  - destruct (pv_poll env k); [by eexists| |apply (Hterm 0%nat)].
    destruct (pv_cancelled _ _); [apply (Hterm 0%nat)|].
    destruct (Z.leb_spec timeout (pv_elapsed env k)); [apply (Hterm 0%nat)|].
    pose proof (ticking_elapsed env k Ht). lia.
  - replace (n + 51)%nat with (S (n + 50)) in * by lia.
    destruct (pv_poll env k); [by eexists| |apply (Hterm (S n))].
    destruct (pv_cancelled _ _); [apply (Hterm (S n))|].
    destruct (Z.leb_spec timeout (pv_elapsed env k)); [apply (Hterm (S n))|]. apply IH. lia.
Qed.

(** A repository operation (a test, a creation, the clean-up before a
    backup, retention) always comes to an outcome, also when restic hangs and
    cannot be killed: with a clock that moves on, the polls that fit into its
    timeout and fifty-one more for the termination are enough. *)
Theorem repository_operations_end (env : ProcessEnv) (invocation : ResticInvocation) (timeout : Z) (polls : nat)
    (Hticking : ticking env) (Hpolls : timeout <= PROCESS_POLL_INTERVAL * Z.of_nat polls) :
  exists o ls, execute_repository_invocation var_os x (polls + 51) env invocation timeout = Some (o, ls)
    /\ (length ls <= 1)%nat.
Proof.
  unfold execute_repository_invocation. pose proof (start_process_launches env invocation timeout) as Hl.
  destruct (start_process _ _ _ _ _) as [l|[[code|] ls]].
  2, 3: eexists _, _; split; [done|]; destruct Hl as [->|(? & -> & _)]; cbn; lia.
  destruct (poll_loop_ends polls env timeout 0 Hticking) as [[ended b] ->]; [lia|].
  destruct b; eexists _, _; (split; [done|]); cbn; lia.
Qed.
(** The process is gone at some poll, or its polling fails, or the run has been cancelled by then. *)
Definition comes_to_an_end (env : ProcessEnv) : Prop :=
  exists k, pv_poll env k <> Poll_Running \/ pv_cancelled env (S k) = true.

Lemma poll_loop_stops n env timeout j k :
  ticking env -> pv_poll env (j + k) <> Poll_Running \/ pv_cancelled env (S (j + k)) = true -> (j + 52 <= n)%nat ->
  is_Some (poll_loop n env timeout k).
Proof.
  intros Ht. revert n k. induction j as [|j IH]; intros n k Hk Hn; (destruct n as [|n]; [lia|]); cbn [poll_loop].
  all: assert (forall e : LoopEnd, is_Some (gone ← terminate_process_tree (S n) env; Some (e, negb gone))) as Hend
    by (intros e; destruct (termination_ends n env 0 Ht) as [g Hg];
        [unfold PROCESS_TERMINATION_GRACE, PROCESS_POLL_INTERVAL; lia|];
        unfold terminate_process_tree; rewrite Hg; by eexists).
  all: destruct (pv_poll env k) eqn:Ep; [by eexists| |apply Hend].
  all: destruct (pv_cancelled env (S k)) eqn:Ec; [apply Hend|].
  - cbn [Nat.add] in Hk. destruct Hk; congruence.
  - destruct (match timeout with Some _ => _ | None => _ end); [apply Hend|].
    apply IH; [|lia]. by replace (j + S k)%nat with (S j + k)%nat by lia.
Qed.

(** The reading of the two output streams always ends as well. *)
Lemma execute_invocation_ends env invocation timeout known :
  ticking env -> comes_to_an_end env ->
  exists enough, forall fuel, (enough <= fuel)%nat ->
    is_Some (execute_invocation var_os x fuel env invocation timeout known).
Proof.
  intros Ht [k Hk]. exists (k + 52)%nat. intros fuel Hf. unfold execute_invocation.
  destruct (start_process _ _ _ _ _) as [l|[[code|] ls]]; [|by eexists..].
  destruct (poll_loop_stops fuel env None k 0 Ht) as [[ended b] ->]; [by rewrite Nat.add_0_r|lia|].
  destruct b; [by eexists|]. unfold read_stderr_output, read_json_output.
  destruct (read_json_loop_total (S (length (received (pv_stdout env)))) (pv_stdout env) ParsedOutput_default [])
    as [[out sent] ->]; [lia|].
  destruct (read_json_loop_total (S (length (received (pv_stderr env)))) (pv_stderr env) ParsedOutput_default [])
    as [[err sent'] ->]; [lia|]. by eexists.
Qed.

Lemma repository_invocation_ends env invocation timeout polls fuel :
  ticking env -> timeout <= PROCESS_POLL_INTERVAL * Z.of_nat polls -> (polls + 51 <= fuel)%nat ->
  is_Some (execute_repository_invocation var_os x fuel env invocation timeout).
Proof.
  intros Ht Hp Hf. unfold execute_repository_invocation.
  destruct (start_process _ _ _ _ _) as [l|[[code|] ls]]; [|by eexists..].
  destruct (poll_loop_ends (fuel - 51) env timeout 0 Ht) as [[ended b] Hl]; [unfold PROCESS_POLL_INTERVAL in *; lia|].
  replace (fuel - 51 + 51)%nat with fuel in Hl by lia. rewrite Hl. destruct b; by eexists.
Qed.

(** ** A backup *)

Lemma executor_backup_ends fs1 fs2 env1 env2 config :
  ticking env1 -> ticking env2 -> comes_to_an_end env2 ->
  exists enough, forall fuel, (enough <= fuel)%nat -> is_Some (executor_backup var_os x fuel fs1 fs2 env1 env2 config).
Proof.
  intros Ht1 Ht2 He. unfold executor_backup.
  destruct (@build_backup_invocations _ fs1 _ _ config) as [[u b]|]; [|exists O; by eexists].
  assert (forall fuel, (1200 + 51 <= fuel)%nat ->
            is_Some (execute_repository_invocation var_os x fuel env1 u STALE_LOCK_CLEANUP_TIMEOUT)) as Hu.
  { intros fuel Hf. eapply repository_invocation_ends; [done| |exact Hf]. unfold STALE_LOCK_CLEANUP_TIMEOUT, PROCESS_POLL_INTERVAL. lia. }
  destruct (@build_backup_invocations _ fs2 _ _ config) as [[u' b']|].
  - destruct (execute_invocation_ends env2 b' (sc_wake_lock_timeout_seconds (ec_schedule config) * 1000) false Ht2 He)
      as [enough Hb].
    exists (enough + (1200 + 51))%nat. intros fuel Hf. destruct (Hu fuel ltac:(lia)) as [[cleanup ls] ->]. cbn [mbind option_bind].
    destruct (backup_outcome_for_lock_cleanup cleanup); [by eexists|].
    destruct (Hb fuel ltac:(lia)) as [[o ls'] ->]. by eexists.
  - exists (1200 + 51)%nat. intros fuel Hf. destruct (Hu fuel Hf) as [[cleanup ls] ->]. cbn [mbind option_bind].
    destruct (backup_outcome_for_lock_cleanup cleanup); by eexists.
Qed.


(** *** Retention *)

Lemma retention_builds config op inv :
  retention (rx_executable x) config op = Ok inv ->
  inv_operation inv = op /\ rc_mode (ec_repository config) = Standard
  /\ parse_cli (inv_arguments inv) = Some (cli_of config [] op).
Proof.
  intros E. split; [|split; [|by eapply retention_words]]; unfold retention in E;
    apply seq_Ok in E as [Hop E]; apply reject_if_Ok, negb_false_iff in Hop;
    apply builder_steps in E as (Ha & _ & url & _ & [= <-]); [done|].
  destruct (rc_mode _); [done|]. by destruct op.
Qed.
Lemma retention_forbids config op :
  rc_mode (ec_repository config) = AppendOnly -> op = Forget \/ op = Prune -> is_ok (retention (rx_executable x) config op) = false.
Proof.
  intros Hm Hop. destruct (retention _ _ _) as [inv|] eqn:E; [|done]. apply retention_builds in E as (_ & ? & _). congruence.
Qed.

(** The commands of retention, by their words. *)
Definition forgets (config : EffectiveConfig) (l : Launch) : Prop :=
  inv_operation (la_invocation l) = Forget
  /\ exists cli, parse_cli (inv_arguments (la_invocation l)) = Some cli /\ cli_positional cli = [lit "forget"]
     /\ (lit "--keep-daily", to_string (tc_daily (ec_retention config))) ∈ cli_values cli
     /\ (lit "--keep-weekly", to_string (tc_weekly (ec_retention config))) ∈ cli_values cli
     /\ (lit "--keep-monthly", to_string (tc_monthly (ec_retention config))) ∈ cli_values cli
     /\ (lit "--keep-yearly", to_string (tc_yearly (ec_retention config))) ∈ cli_values cli.
Definition prunes (l : Launch) : Prop :=
  inv_operation (la_invocation l) = Prune
  /\ exists cli, parse_cli (inv_arguments (la_invocation l)) = Some cli /\ cli_positional cli = [lit "prune"].

Lemma forget_launch config inv l : retention (rx_executable x) config Forget = Ok inv -> launch_of inv l -> forgets config l.
Proof.
  intros (Hop & _ & Hcli)%retention_builds (? & _ & ->). split; [done|]. eexists. split; [exact Hcli|].
  cbn [cli_of cli_positional cli_values]. split; [done|]. split_and!; apply elem_of_app; right;
    [left|right; left|right; right; left|right; right; right; left].
Qed.
Lemma prune_launch config inv l : retention (rx_executable x) config Prune = Ok inv -> launch_of inv l -> prunes l.
Proof. intros (Hop & _ & Hcli)%retention_builds (? & _ & ->). split; [done|]. eexists. split; [exact Hcli|done]. Qed.

Lemma executor_retention_ends env1 env2 config prune_due polls fuel :
  ticking env1 -> ticking env2 ->
  sc_wake_lock_timeout_seconds (ec_schedule config) * 1000 <= PROCESS_POLL_INTERVAL * Z.of_nat polls -> (polls + 51 <= fuel)%nat ->
  is_Some (executor_retention var_os x fuel env1 env2 config prune_due).
Proof.
  intros Ht1 Ht2 Hp Hf. unfold executor_retention. cbv zeta.
  destruct (retention _ config Forget) as [forget|]; [|by eexists].
  destruct (repository_invocation_ends env1 forget _ polls fuel Ht1 Hp Hf) as [[o ls] ->]. cbn [mbind option_bind].
  destruct o; [|by eexists..]. destruct (negb prune_due); [by eexists|].
  destruct (retention _ config Prune) as [prune|]; [|by eexists].
  destruct (repository_invocation_ends env2 prune _ polls fuel Ht2 Hp Hf) as [[o2 ls2] ->]. by eexists.
Qed.

End launches.

(** ** Evaluated examples *)
Module ExecutorWitness.
Import ResticWitness.
#[local] Existing Instances ascii_unicode SourcesWitness.plain_files OutputWitness.one_message.

Definition executor : ResticExecutor :=
  ResticExecutor_new (lit "restic.exe") (lit "C:\ProgramData\resticpal") (fun _ => Ok (lit "secret")).

(** A process that exits with a code at its second poll and prints a summary. *)
Definition exits (code : Z) : ProcessEnv :=
  {| pv_wake_lock := fun _ => true; pv_job := true; pv_spawn := true; pv_assign := true; pv_pipes := (true, true);
     pv_cancelled := fun _ => false;
     pv_poll := fun k => match k with O => Poll_Running | _ => Poll_Exited (Some code) end;
     pv_elapsed := fun k => 100 * Z.of_nat k; pv_grace_poll := fun _ => Poll_Running;
     pv_grace_elapsed := fun k => 100 * Z.of_nat k;
     pv_stdout := [Bytes (utf8 (lit "{summary}") ++ [10])]; pv_stderr := [] |}.
(** One that never exits and cannot be killed. *)
Definition hangs : ProcessEnv :=
  {| pv_wake_lock := fun _ => true; pv_job := true; pv_spawn := true; pv_assign := true; pv_pipes := (true, true);
     pv_cancelled := fun _ => false; pv_poll := fun _ => Poll_Running; pv_elapsed := fun k => 100 * Z.of_nat k;
     pv_grace_poll := fun _ => Poll_Running; pv_grace_elapsed := fun k => 100 * Z.of_nat k;
     pv_stdout := []; pv_stderr := [] |}.

Definition run_backup (code : Z) : option (BackupOutcome * list Launch) :=
  executor_backup (fun _ => None) executor 5 SourcesWitness.plain_files SourcesWitness.plain_files (exits 0) (exits code)
    config.
Definition launches_of {A} (r : option (A * list Launch)) : list Launch := match r with Some (_, ls) => ls | None => [] end.

Lemma exits_ticks code : ticking (exits code).
Proof. split; intros; cbn; unfold PROCESS_POLL_INTERVAL; lia. Qed.


Definition standard : EffectiveConfig :=
  set_ec_repository
    {| rc_display_name := None; rc_url := Some (lit "s3:backup/host"); rc_mode := Standard; rc_options := [];
       rc_secret_refs := [] |} config.
Definition run_retention : option (RetentionOutcome * list Launch) :=
  executor_retention (fun _ => None) executor 5 (exits 0) (exits 0) standard true.


Lemma operations_end_witness :
  exists o ls, execute_repository_invocation (fun _ => None) executor (20 + 51) hangs built 2000 = Some (o, ls)
    /\ (length ls <= 1)%nat.
Proof.
  apply (repository_operations_end (fun _ => None) executor hangs built 2000 20); [|vm_compute; discriminate].
  split; intros; cbn; unfold PROCESS_POLL_INTERVAL; lia.
Defined.

Example hanging_operation :
  execute_repository_invocation (fun _ => None) executor 71 hangs built 2000
  = Some (Repo_Failed (lit "restic_termination_failed"), launches_of (execute_repository_invocation (fun _ => None) executor 71 hangs built 2000)).
Proof. vm_compute. reflexivity. Qed.
End ExecutorWitness.
