(* ===== verification/Jobs.v ===== *)
(** * The job of a restic process ([apps/resticpal-service/src/executor.rs])

    restic may start helpers of its own.  [KillOnDropJob] puts the child into
    a job object of Windows whose members die when its handle is closed, so
    that nothing is left running when an operation ends, is cancelled or
    times out, or when the service itself dies.  The processes run beside the
    service: between any two of its calls they may start others or exit. *)
From stdpp Require Import base option list gmap fin_maps.
From S2P Require Import Prelude.

(** The child; it cannot be reused while [Child] holds a handle of it. *)
Definition root : nat := 0%nat.

(** Where [execute_invocation] and [execute_repository_invocation] are. *)
Inductive JobStage : Type :=
| Jg_Start
| Jg_Job           (* the job exists *)
| Jg_Spawned       (* [command.spawn()] has returned *)
| Jg_Polling       (* the child is in the job *)
| Jg_Joining       (* the child has exited; the readers are joined *)
| Jg_Terminating   (* after [job.terminate()] *)
| Jg_Closed        (* after [drop(job)] *)
| Jg_Done.

(** The live processes with whether each is in the job, and the handle of
    the job with its limit.  The two flags are history: whether the child was
    ever assigned, and whether a process outside the job ever started one. *)
Record Machine : Type := {
  mn_stage : JobStage;
  mn_job : option bool;
  mn_processes : gmap nat bool;
  mn_assigned : bool;
  mn_strayed : bool
}.

(** [KillOnDropJob::new]: a job without its limit is closed again. *)
Definition job_new (created limited : bool) : option bool :=
  if negb created then None else if negb limited then None else Some true.

Definition kill_members (processes : gmap nat bool) : gmap nat bool := filter (fun p => p.2 = false) processes.

(** [CloseHandle] with [JOB_OBJECT_LIMIT_KILL_ON_JOB_CLOSE]: [KillOnDropJob::drop] *)
Definition close_job (job : option bool) (processes : gmap nat bool) : gmap nat bool :=
  match job with Some true => kill_members processes | _ => processes end.
(** [AssignProcessToJobObject] *)
Definition assign (processes : gmap nat bool) : gmap nat bool := alter (fun _ => true) root processes.
(** [TerminateJobObject]; a failure is ignored. *)
Definition terminate (ok : bool) (processes : gmap nat bool) : gmap nat bool :=
  if ok then kill_members processes else processes.
(** [child.kill()] *)
Definition kill_child (ok : bool) (processes : gmap nat bool) : gmap nat bool :=
  if ok then delete root processes else processes.

Definition go (stage : JobStage) (job : option bool) (processes : gmap nat bool) (m : Machine) : Machine :=
  {| mn_stage := stage; mn_job := job; mn_processes := processes; mn_assigned := mn_assigned m; mn_strayed := mn_strayed m |}.

Inductive job_step (m : Machine) : Machine -> Prop :=
(* the service *)
| js_new created limited :
    mn_stage m = Jg_Start ->
    job_step m (match job_new created limited with
                | Some limit => go Jg_Job (Some limit) (mn_processes m) m
                | None => go Jg_Done None (mn_processes m) m
                end)
| js_spawn (ok : bool) :
    mn_stage m = Jg_Job ->
    job_step m (if ok then go Jg_Spawned (mn_job m) {[root := false]} m
                else go Jg_Done None (close_job (mn_job m) (mn_processes m)) m)
| js_assigned :
    mn_stage m = Jg_Spawned ->
    job_step m {| mn_stage := Jg_Polling; mn_job := mn_job m; mn_processes := assign (mn_processes m);
                  mn_assigned := true; mn_strayed := mn_strayed m |}
| js_not_assigned (killed : bool) :
    mn_stage m = Jg_Spawned ->
    job_step m (go Jg_Done None (close_job (mn_job m) (kill_child killed (mn_processes m))) m)
| js_no_pipes :
    mn_stage m = Jg_Polling -> job_step m (go Jg_Done None (close_job (mn_job m) (mn_processes m)) m)
| js_exited :
    mn_stage m = Jg_Polling -> mn_processes m !! root = None -> job_step m (go Jg_Joining (mn_job m) (mn_processes m) m)
| js_joined :
    mn_stage m = Jg_Joining -> job_step m (go Jg_Done None (close_job (mn_job m) (mn_processes m)) m)
(* cancelled, timed out, or waiting failed: [terminate_process_tree] *)
| js_terminate (ok : bool) :
    mn_stage m = Jg_Polling -> job_step m (go Jg_Terminating (mn_job m) (terminate ok (mn_processes m)) m)
| js_drop_job :
    mn_stage m = Jg_Terminating -> job_step m (go Jg_Closed None (close_job (mn_job m) (mn_processes m)) m)
| js_kill_child (ok : bool) :
    mn_stage m = Jg_Closed -> job_step m (go Jg_Done None (kill_child ok (mn_processes m)) m)
(* the service dies, and Windows closes its handles *)
| js_service_dies : job_step m (go Jg_Done None (close_job (mn_job m) (mn_processes m)) m)
(* the processes; what a member starts is a member *)
| js_fork p q member :
    mn_processes m !! p = Some member -> mn_processes m !! q = None -> q <> root ->
    job_step m {| mn_stage := mn_stage m; mn_job := mn_job m; mn_processes := <[q := member]> (mn_processes m);
                  mn_assigned := mn_assigned m; mn_strayed := mn_strayed m || negb member |}
| js_exit p : job_step m (go (mn_stage m) (mn_job m) (delete p (mn_processes m)) m).

Definition job_start : Machine :=
  {| mn_stage := Jg_Start; mn_job := None; mn_processes := ∅; mn_assigned := false; mn_strayed := false |}.

Inductive job_reachable : Machine -> Prop :=
| jr_start : job_reachable job_start
| jr_step m m' : job_reachable m -> job_step m m' -> job_reachable m'.

(** ** What is left behind *)
Lemma kill_members_spec processes p member :
  kill_members processes !! p = Some member <-> processes !! p = Some member /\ member = false.
Proof. unfold kill_members. by rewrite map_lookup_filter_Some. Qed.

(** All processes with a given membership. *)
Definition all_member (b : bool) (processes : gmap nat bool) : Prop := forall p member, processes !! p = Some member -> member = b.

Lemma all_member_kill processes : all_member false (kill_members processes).
Proof. intros p member [_ ?]%kill_members_spec. done. Qed.
Lemma all_member_delete b p processes : all_member b processes -> all_member b (delete p processes).
Proof. intros Ha q member [_ Hq]%lookup_delete_Some. by eapply Ha. Qed.
Lemma all_member_insert p b b' processes :
  all_member b processes -> b' = b -> all_member b (<[p := b']> processes).
Proof. intros Ha -> q member [[_ <-]|[_ Hq]]%lookup_insert_Some; [done|]. by eapply Ha. Qed.
Lemma kill_all_members processes : all_member true processes -> kill_members processes = ∅.
Proof.
  intros Ha. apply map_eq. intros p. rewrite lookup_empty. apply eq_None_not_Some. intros [member [Hp ->]%kill_members_spec].
  by apply Ha in Hp.
Qed.

(** The stages that hold the handle, and those before the assignment. *)
Definition holds_job (s : JobStage) : bool :=
  match s with Jg_Job | Jg_Spawned | Jg_Polling | Jg_Joining | Jg_Terminating => true | _ => false end.
Definition before_assignment (s : JobStage) : bool := match s with Jg_Start | Jg_Job | Jg_Spawned => true | _ => false end.
Definition before_spawn (s : JobStage) : bool := match s with Jg_Start | Jg_Job => true | _ => false end.

(** Before the assignment only the child lives, outside the job; afterwards
    everything is in the job, until its handle is closed. *)
Record job_invariant (m : Machine) : Prop := {
  ji_job : mn_job m = if holds_job (mn_stage m) then Some true else None;
  ji_closed : holds_job (mn_stage m) = false -> all_member false (mn_processes m);
  ji_unassigned : before_assignment (mn_stage m) = true -> mn_assigned m = false;
  ji_none : before_spawn (mn_stage m) = true -> mn_processes m = ∅;
  ji_alone : mn_stage m = Jg_Spawned -> mn_strayed m = false -> forall p member, mn_processes m !! p = Some member -> p = root /\ member = false;
  ji_members : mn_assigned m = true -> mn_strayed m = false -> all_member true (mn_processes m)
}.

Lemma all_member_both processes : all_member true processes -> all_member false processes -> processes = ∅.
Proof.
  intros Ht Hf. apply map_eq. intros p. rewrite lookup_empty. destruct (processes !! p) as [member|] eqn:E; [|done].
  pose proof (Ht _ _ E). by rewrite (Hf _ _ E) in *.
Qed.

Lemma close_job_false m : job_invariant m -> all_member false (close_job (mn_job m) (mn_processes m)).
Proof.
  intros [Hj Hc _ _ _ _]. rewrite Hj. destruct (holds_job (mn_stage m)); cbn; [apply all_member_kill|by apply Hc].
Qed.
Lemma close_job_members b job processes : all_member b processes -> all_member b (close_job job processes).
Proof.
  intros Ha. destruct job as [[]|]; cbn; try done. intros p member [Hp _]%kill_members_spec. by eapply Ha.
Qed.

(** The handle is closed, and perhaps the child killed. *)
Lemma job_invariant_ends m stage processes :
  holds_job stage = false -> before_assignment stage = false -> all_member false processes ->
  (mn_assigned m = true -> mn_strayed m = false -> all_member true processes) -> job_invariant (go stage None processes m).
Proof.
  intros Hh Hb Hf Ht. split; cbn; [by rewrite Hh|done|by rewrite Hb| |by destruct stage|done].
  by destruct stage.
Qed.

Lemma job_invariant_closes m : job_invariant m -> job_invariant (go Jg_Done None (close_job (mn_job m) (mn_processes m)) m).
Proof.
  intros Hi. apply job_invariant_ends; [done|done|by apply close_job_false|].
  intros Ha Hs. by apply close_job_members, (ji_members m Hi).
Qed.

Lemma kill_child_members b ok processes : all_member b processes -> all_member b (kill_child ok processes).
Proof. destruct ok; [apply all_member_delete|done]. Qed.

Lemma job_step_invariant m m' : job_step m m' -> job_invariant m -> job_invariant m'.
Proof.
  intros Hs Hi. pose proof Hi as [Hj Hc Hu Hn Ha Hm].
  destruct Hs as [created limited Est|ok Est|Est|killed Est|Est|Est Hroot|Est|ok Est|Est|ok Est| |p q member Hp Hq Hr|p];
    try rewrite Est in *; cbn in *.
  - rewrite (Hn eq_refl) in *. destruct created, limited; cbn; split; cbn; try done; by rewrite ?Est.
  - destruct ok; [|by apply job_invariant_closes]. split; cbn; try done; [|by rewrite Hu].
    intros _ _ p member [<- <-]%lookup_singleton_Some. done.
  - split; cbn; try done. intros _ Hstray p member. unfold assign. intros Hp. destruct (decide (p = root)) as [->|Hne].
    + rewrite lookup_alter_eq in Hp. by apply fmap_Some in Hp as (? & _ & ->).
    + rewrite lookup_alter_ne in Hp by done. by destruct (Ha eq_refl Hstray _ _ Hp).
  - rewrite Hj. apply job_invariant_ends; [done|done|apply all_member_kill|]. by rewrite Hu.
  - by apply job_invariant_closes.
  - split; cbn; done.
  - by apply job_invariant_closes.
  - split; cbn; try done. intros Hasg Hstray. destruct ok; cbn; [|by apply Hm]. apply (close_job_members true (Some true)). by apply Hm.
  - rewrite Hj. apply job_invariant_ends; [done|done|apply all_member_kill|].
    intros Hasg Hstray. apply (close_job_members true (Some true)). by apply Hm.
  - apply job_invariant_ends; [done|done|apply kill_child_members; by apply Hc|].
    intros Hasg Hstray. apply kill_child_members. by apply Hm.
  - by apply job_invariant_closes.
  - split; cbn; try done.
    + intros Hh. apply all_member_insert; [by apply Hc|]. by apply (Hc Hh) in Hp.
    + intros Hb. rewrite (Hn Hb) in Hp. by rewrite lookup_empty in Hp.
    + intros Est [Hstray ->%negb_false_iff]%orb_false_iff p' member' Hp'.
      by destruct (Ha Est Hstray _ _ Hp).
    + intros Hasg [Hstray ->%negb_false_iff]%orb_false_iff. apply all_member_insert; [by apply Hm|done].
  - split; cbn; try done.
    + intros Hh. apply all_member_delete. by apply Hc.
    + intros Hb. by rewrite (Hn Hb), delete_empty.
    + intros Est Hstray p' member' [_ Hp']%lookup_delete_Some. by eapply Ha.
    + intros Hasg Hstray. apply all_member_delete. by apply Hm.
Qed.

Lemma job_reachable_invariant m : job_reachable m -> job_invariant m.
Proof.
  induction 1 as [|m m' _ IH Hs]; [|by eapply job_step_invariant]. split; cbn; try done; intros ? ? ?; by rewrite lookup_empty in *.
Qed.

(** C23: no member of the job survives an operation.  Whatever helpers restic
    starts and whenever they do, once an operation has ended (normally,
    cancelled, timed out or with an error), or the service has died in the
    middle of it, no process of the job is alive; while the service has the
    child in the job its handle is open and its limit set, so that this also
    holds for a crash.  If the child was assigned before it started anything,
    nothing it or its helpers ever started is alive. *)
Theorem nothing_outlives_its_job (m : Machine) (Hreach : job_reachable m) :
  (mn_stage m = Jg_Done -> forall p, mn_processes m !! p <> Some true)
  /\ (mn_stage m = Jg_Done -> mn_assigned m = true -> mn_strayed m = false -> mn_processes m = ∅)
  /\ (mn_stage m = Jg_Polling -> mn_job m = Some true).
Proof.
  destruct (job_reachable_invariant m Hreach) as [Hj Hc _ _ _ Hm]. split_and!.
  - intros E p Hp. rewrite E in Hc. by apply (Hc eq_refl) in Hp.
  - intros E Ha Hs. rewrite E in Hc. apply all_member_both; [by apply Hm|by apply Hc].
  - intros E. by rewrite E in Hj.
Qed.

Module JobsWitness.
(** restic starts a helper, the helper another one, and the operation is cancelled. *)
Definition cancelled : Machine :=
  {| mn_stage := Jg_Done; mn_job := None; mn_processes := ∅; mn_assigned := true; mn_strayed := false |}.
Definition polling (processes : gmap nat bool) : Machine :=
  {| mn_stage := Jg_Polling; mn_job := Some true; mn_processes := processes; mn_assigned := true; mn_strayed := false |}.

Definition spawned : Machine := go Jg_Spawned (Some true) {[root := false]} job_start.
Lemma spawned_reachable : job_reachable spawned.
Proof.
  eapply jr_step; [|exact (js_spawn (go Jg_Job (Some true) ∅ job_start) true eq_refl)].
  eapply jr_step; [apply jr_start|exact (js_new job_start true true eq_refl)].
Qed.

Lemma cancelled_reachable : job_reachable cancelled.
Proof.
  eapply jr_step; [|exact (js_kill_child (go Jg_Closed None ∅ cancelled) true eq_refl)].
  eapply jr_step; [|exact (js_drop_job (go Jg_Terminating (Some true) {[0%nat := true; 1%nat := true; 2%nat := true]} cancelled) eq_refl)].
  eapply jr_step; [|exact (js_terminate (polling {[0%nat := true; 1%nat := true; 2%nat := true]}) false eq_refl)].
  eapply jr_step; [|refine (js_fork (polling {[0%nat := true; 1%nat := true]}) 1%nat 2%nat true eq_refl eq_refl _); discriminate].
  eapply jr_step; [|refine (js_fork (polling {[0%nat := true]}) 0%nat 1%nat true eq_refl eq_refl _); discriminate].
  eapply jr_step; [apply spawned_reachable|exact (js_assigned spawned eq_refl)].
Qed.

Lemma job_witness : mn_processes cancelled = ∅ /\ forall p, mn_processes cancelled !! p <> Some true.
Proof.
  destruct (nothing_outlives_its_job cancelled cancelled_reachable) as (Hnone & Hempty & _).
  split; [exact (Hempty eq_refl eq_refl eq_refl)|exact (Hnone eq_refl)].
Defined.

(** The child runs before it is assigned: a helper it starts in between is
    outside the job, and survives the operation and the service. *)
Definition escaped : Machine :=
  {| mn_stage := Jg_Done; mn_job := None; mn_processes := {[1%nat := false]}; mn_assigned := true; mn_strayed := true |}.
Theorem early_helper_survives : job_reachable escaped /\ mn_processes escaped !! 1%nat = Some false.
Proof.
  split; [|reflexivity]. eapply jr_step; [|exact (js_service_dies {| mn_stage := Jg_Polling; mn_job := Some true;
    mn_processes := {[0%nat := true; 1%nat := false]}; mn_assigned := true; mn_strayed := true |})].
  eapply jr_step; [|exact (js_assigned {| mn_stage := Jg_Spawned; mn_job := Some true;
    mn_processes := {[0%nat := false; 1%nat := false]}; mn_assigned := false; mn_strayed := true |} eq_refl)].
  eapply jr_step; [apply spawned_reachable|]. refine (js_fork spawned 0%nat 1%nat false eq_refl eq_refl _). discriminate.
Qed.
End JobsWitness.
