(* ===== verification/Runtime.v ===== *)
(** * The service runtime: state and construction

    [apps/resticpal-service/src/runtime/{mod,events,helpers,state}.rs].  A
    [ServiceRuntime] carries, next to the in-memory state, what its stores have
    on disk and the events that wait in the control channel.  Every operation
    is one atomic step from one runtime to the next: the source holds the state
    mutex (and, for configuration changes, [configuration_mutation]) across
    it.  [Env] is what the clock, the disk and the random generator answer
    during one operation; [None] as a result is a panic. *)
From stdpp Require Import base option list gmap strings.
From S2P Require Import Prelude RustStd Chrono Crates Config Status Schedule Policy Protocol Outcome.
From S2P Require Import ServiceState Diagnostics History Credentials.

(** ** Events and plans *)
Inductive RuntimeEvent : Type :=
| Ev_Stop | Ev_Resume | Ev_PowerStatusChanged | Ev_TimeChanged | Ev_RunNow | Ev_Cancel | Ev_Deferred
| Ev_ConfigurationChanged
| Ev_RepositoryOperationRequested (operation : RepositoryOperationKind)
| Ev_RepositoryOperationFinished (operation : RepositoryOperationKind) (outcome : RepositoryOutcome)
| Ev_UpdateInstallRequested (package : UpdatePackage)
| Ev_UpdateInstallFinished (outcome : UpdateInstallOutcome)
| Ev_BackupFinished (outcome : BackupOutcome).
#[global] Instance RuntimeEvent_eq_dec : EqDecision RuntimeEvent.
Proof. solve_decision. Defined.

Inductive ScheduleAction : Type := Action_None | Action_Start (trigger : BackupTrigger).
#[global] Instance ScheduleAction_eq_dec : EqDecision ScheduleAction.
Proof. solve_decision. Defined.

Record RetentionPlan : Type := { prune_due : bool }.

(** ** State *)
Record RuntimeState : Type := {
  rt_status : ServiceStatus;
  rt_resumed_at : option DateTime;
  rt_not_before : option DateTime;
  rt_update_hold_until : option DateTime;
  rt_update_hold_previous_status : option (BackupState * option DateTime);
  rt_update_install_active : bool;
  rt_manual_requested : bool;
  rt_consecutive_failures : Z;
  rt_repository_operation : RepositoryOperationStatus;
  rt_service_state : ServiceStateSnapshot;
  rt_management_operation_active : bool
}.
#[global] Instance RuntimeState_eq_dec : EqDecision RuntimeState.
Proof. solve_decision. Defined.

(** [config.toml]: where it is and what it holds, with
    [managed-policy-cache.json] next to it. *)
Record ConfigStore : Type := { cs_path : rstr; cs_file : FileRead; cs_cache : FileRead }.

Record ServiceRuntime : Type := {
  sr_config : EffectiveConfig;
  sr_local_config : LocalConfig;
  sr_field_resolutions : Fields;
  sr_config_store : option ConfigStore;
  sr_credential_store : option CredentialFiles;
  sr_state : RuntimeState;
  sr_state_store : option FileRead;
  sr_history_store : option (option HistoryDb);
  sr_diagnostics : option LogFiles;
  sr_events : list RuntimeEvent;
  sr_receiver_alive : bool
}.

(** Assignments to one field. *)
Definition set_rt_status (v : ServiceStatus) (r : RuntimeState) : RuntimeState :=
  {| rt_status := v; rt_resumed_at := rt_resumed_at r; rt_not_before := rt_not_before r; rt_update_hold_until := rt_update_hold_until r; rt_update_hold_previous_status := rt_update_hold_previous_status r; rt_update_install_active := rt_update_install_active r; rt_manual_requested := rt_manual_requested r; rt_consecutive_failures := rt_consecutive_failures r; rt_repository_operation := rt_repository_operation r; rt_service_state := rt_service_state r; rt_management_operation_active := rt_management_operation_active r |}.
Definition set_rt_resumed_at (v : option DateTime) (r : RuntimeState) : RuntimeState :=
  {| rt_status := rt_status r; rt_resumed_at := v; rt_not_before := rt_not_before r; rt_update_hold_until := rt_update_hold_until r; rt_update_hold_previous_status := rt_update_hold_previous_status r; rt_update_install_active := rt_update_install_active r; rt_manual_requested := rt_manual_requested r; rt_consecutive_failures := rt_consecutive_failures r; rt_repository_operation := rt_repository_operation r; rt_service_state := rt_service_state r; rt_management_operation_active := rt_management_operation_active r |}.
Definition set_rt_not_before (v : option DateTime) (r : RuntimeState) : RuntimeState :=
  {| rt_status := rt_status r; rt_resumed_at := rt_resumed_at r; rt_not_before := v; rt_update_hold_until := rt_update_hold_until r; rt_update_hold_previous_status := rt_update_hold_previous_status r; rt_update_install_active := rt_update_install_active r; rt_manual_requested := rt_manual_requested r; rt_consecutive_failures := rt_consecutive_failures r; rt_repository_operation := rt_repository_operation r; rt_service_state := rt_service_state r; rt_management_operation_active := rt_management_operation_active r |}.
Definition set_rt_update_hold_until (v : option DateTime) (r : RuntimeState) : RuntimeState :=
  {| rt_status := rt_status r; rt_resumed_at := rt_resumed_at r; rt_not_before := rt_not_before r; rt_update_hold_until := v; rt_update_hold_previous_status := rt_update_hold_previous_status r; rt_update_install_active := rt_update_install_active r; rt_manual_requested := rt_manual_requested r; rt_consecutive_failures := rt_consecutive_failures r; rt_repository_operation := rt_repository_operation r; rt_service_state := rt_service_state r; rt_management_operation_active := rt_management_operation_active r |}.
Definition set_rt_update_hold_previous_status (v : option (BackupState * option DateTime)) (r : RuntimeState) : RuntimeState :=
  {| rt_status := rt_status r; rt_resumed_at := rt_resumed_at r; rt_not_before := rt_not_before r; rt_update_hold_until := rt_update_hold_until r; rt_update_hold_previous_status := v; rt_update_install_active := rt_update_install_active r; rt_manual_requested := rt_manual_requested r; rt_consecutive_failures := rt_consecutive_failures r; rt_repository_operation := rt_repository_operation r; rt_service_state := rt_service_state r; rt_management_operation_active := rt_management_operation_active r |}.
Definition set_rt_update_install_active (v : bool) (r : RuntimeState) : RuntimeState :=
  {| rt_status := rt_status r; rt_resumed_at := rt_resumed_at r; rt_not_before := rt_not_before r; rt_update_hold_until := rt_update_hold_until r; rt_update_hold_previous_status := rt_update_hold_previous_status r; rt_update_install_active := v; rt_manual_requested := rt_manual_requested r; rt_consecutive_failures := rt_consecutive_failures r; rt_repository_operation := rt_repository_operation r; rt_service_state := rt_service_state r; rt_management_operation_active := rt_management_operation_active r |}.
Definition set_rt_manual_requested (v : bool) (r : RuntimeState) : RuntimeState :=
  {| rt_status := rt_status r; rt_resumed_at := rt_resumed_at r; rt_not_before := rt_not_before r; rt_update_hold_until := rt_update_hold_until r; rt_update_hold_previous_status := rt_update_hold_previous_status r; rt_update_install_active := rt_update_install_active r; rt_manual_requested := v; rt_consecutive_failures := rt_consecutive_failures r; rt_repository_operation := rt_repository_operation r; rt_service_state := rt_service_state r; rt_management_operation_active := rt_management_operation_active r |}.
Definition set_rt_consecutive_failures (v : Z) (r : RuntimeState) : RuntimeState :=
  {| rt_status := rt_status r; rt_resumed_at := rt_resumed_at r; rt_not_before := rt_not_before r; rt_update_hold_until := rt_update_hold_until r; rt_update_hold_previous_status := rt_update_hold_previous_status r; rt_update_install_active := rt_update_install_active r; rt_manual_requested := rt_manual_requested r; rt_consecutive_failures := v; rt_repository_operation := rt_repository_operation r; rt_service_state := rt_service_state r; rt_management_operation_active := rt_management_operation_active r |}.
Definition set_rt_repository_operation (v : RepositoryOperationStatus) (r : RuntimeState) : RuntimeState :=
  {| rt_status := rt_status r; rt_resumed_at := rt_resumed_at r; rt_not_before := rt_not_before r; rt_update_hold_until := rt_update_hold_until r; rt_update_hold_previous_status := rt_update_hold_previous_status r; rt_update_install_active := rt_update_install_active r; rt_manual_requested := rt_manual_requested r; rt_consecutive_failures := rt_consecutive_failures r; rt_repository_operation := v; rt_service_state := rt_service_state r; rt_management_operation_active := rt_management_operation_active r |}.
Definition set_rt_service_state (v : ServiceStateSnapshot) (r : RuntimeState) : RuntimeState :=
  {| rt_status := rt_status r; rt_resumed_at := rt_resumed_at r; rt_not_before := rt_not_before r; rt_update_hold_until := rt_update_hold_until r; rt_update_hold_previous_status := rt_update_hold_previous_status r; rt_update_install_active := rt_update_install_active r; rt_manual_requested := rt_manual_requested r; rt_consecutive_failures := rt_consecutive_failures r; rt_repository_operation := rt_repository_operation r; rt_service_state := v; rt_management_operation_active := rt_management_operation_active r |}.
Definition set_rt_management_operation_active (v : bool) (r : RuntimeState) : RuntimeState :=
  {| rt_status := rt_status r; rt_resumed_at := rt_resumed_at r; rt_not_before := rt_not_before r; rt_update_hold_until := rt_update_hold_until r; rt_update_hold_previous_status := rt_update_hold_previous_status r; rt_update_install_active := rt_update_install_active r; rt_manual_requested := rt_manual_requested r; rt_consecutive_failures := rt_consecutive_failures r; rt_repository_operation := rt_repository_operation r; rt_service_state := rt_service_state r; rt_management_operation_active := v |}.
Definition set_sr_config (v : EffectiveConfig) (r : ServiceRuntime) : ServiceRuntime :=
  {| sr_config := v; sr_local_config := sr_local_config r; sr_field_resolutions := sr_field_resolutions r; sr_config_store := sr_config_store r; sr_credential_store := sr_credential_store r; sr_state := sr_state r; sr_state_store := sr_state_store r; sr_history_store := sr_history_store r; sr_diagnostics := sr_diagnostics r; sr_events := sr_events r; sr_receiver_alive := sr_receiver_alive r |}.
Definition set_sr_local_config (v : LocalConfig) (r : ServiceRuntime) : ServiceRuntime :=
  {| sr_config := sr_config r; sr_local_config := v; sr_field_resolutions := sr_field_resolutions r; sr_config_store := sr_config_store r; sr_credential_store := sr_credential_store r; sr_state := sr_state r; sr_state_store := sr_state_store r; sr_history_store := sr_history_store r; sr_diagnostics := sr_diagnostics r; sr_events := sr_events r; sr_receiver_alive := sr_receiver_alive r |}.
Definition set_sr_field_resolutions (v : Fields) (r : ServiceRuntime) : ServiceRuntime :=
  {| sr_config := sr_config r; sr_local_config := sr_local_config r; sr_field_resolutions := v; sr_config_store := sr_config_store r; sr_credential_store := sr_credential_store r; sr_state := sr_state r; sr_state_store := sr_state_store r; sr_history_store := sr_history_store r; sr_diagnostics := sr_diagnostics r; sr_events := sr_events r; sr_receiver_alive := sr_receiver_alive r |}.
Definition set_sr_config_store (v : option ConfigStore) (r : ServiceRuntime) : ServiceRuntime :=
  {| sr_config := sr_config r; sr_local_config := sr_local_config r; sr_field_resolutions := sr_field_resolutions r; sr_config_store := v; sr_credential_store := sr_credential_store r; sr_state := sr_state r; sr_state_store := sr_state_store r; sr_history_store := sr_history_store r; sr_diagnostics := sr_diagnostics r; sr_events := sr_events r; sr_receiver_alive := sr_receiver_alive r |}.
Definition set_sr_credential_store (v : option CredentialFiles) (r : ServiceRuntime) : ServiceRuntime :=
  {| sr_config := sr_config r; sr_local_config := sr_local_config r; sr_field_resolutions := sr_field_resolutions r; sr_config_store := sr_config_store r; sr_credential_store := v; sr_state := sr_state r; sr_state_store := sr_state_store r; sr_history_store := sr_history_store r; sr_diagnostics := sr_diagnostics r; sr_events := sr_events r; sr_receiver_alive := sr_receiver_alive r |}.
Definition set_sr_state (v : RuntimeState) (r : ServiceRuntime) : ServiceRuntime :=
  {| sr_config := sr_config r; sr_local_config := sr_local_config r; sr_field_resolutions := sr_field_resolutions r; sr_config_store := sr_config_store r; sr_credential_store := sr_credential_store r; sr_state := v; sr_state_store := sr_state_store r; sr_history_store := sr_history_store r; sr_diagnostics := sr_diagnostics r; sr_events := sr_events r; sr_receiver_alive := sr_receiver_alive r |}.
Definition set_sr_state_store (v : option FileRead) (r : ServiceRuntime) : ServiceRuntime :=
  {| sr_config := sr_config r; sr_local_config := sr_local_config r; sr_field_resolutions := sr_field_resolutions r; sr_config_store := sr_config_store r; sr_credential_store := sr_credential_store r; sr_state := sr_state r; sr_state_store := v; sr_history_store := sr_history_store r; sr_diagnostics := sr_diagnostics r; sr_events := sr_events r; sr_receiver_alive := sr_receiver_alive r |}.
Definition set_sr_history_store (v : option (option HistoryDb)) (r : ServiceRuntime) : ServiceRuntime :=
  {| sr_config := sr_config r; sr_local_config := sr_local_config r; sr_field_resolutions := sr_field_resolutions r; sr_config_store := sr_config_store r; sr_credential_store := sr_credential_store r; sr_state := sr_state r; sr_state_store := sr_state_store r; sr_history_store := v; sr_diagnostics := sr_diagnostics r; sr_events := sr_events r; sr_receiver_alive := sr_receiver_alive r |}.
Definition set_sr_diagnostics (v : option LogFiles) (r : ServiceRuntime) : ServiceRuntime :=
  {| sr_config := sr_config r; sr_local_config := sr_local_config r; sr_field_resolutions := sr_field_resolutions r; sr_config_store := sr_config_store r; sr_credential_store := sr_credential_store r; sr_state := sr_state r; sr_state_store := sr_state_store r; sr_history_store := sr_history_store r; sr_diagnostics := v; sr_events := sr_events r; sr_receiver_alive := sr_receiver_alive r |}.
Definition set_sr_events (v : list RuntimeEvent) (r : ServiceRuntime) : ServiceRuntime :=
  {| sr_config := sr_config r; sr_local_config := sr_local_config r; sr_field_resolutions := sr_field_resolutions r; sr_config_store := sr_config_store r; sr_credential_store := sr_credential_store r; sr_state := sr_state r; sr_state_store := sr_state_store r; sr_history_store := sr_history_store r; sr_diagnostics := sr_diagnostics r; sr_events := v; sr_receiver_alive := sr_receiver_alive r |}.

(** What the world answers during one operation. *)
Record Env : Type := {
  env_now : nat -> DateTime;                        (* successive [Utc::now()] *)
  env_config_ok : bool;                             (* replacing [config.toml] *)
  env_state_ok : bool;                              (* replacing [state.json] *)
  env_cache_ok : bool;                              (* replacing or removing the policy cache *)
  env_history_ok : bool;
  env_log_now : DateTime;                           (* the timestamp of the diagnostic *)
  env_log_io : nat -> bool;
  env_log_torn : nat;                               (* bytes that a failed write of a diagnostic leaves *)
  env_random : nat -> nat -> option (list Z);       (* per stored credential and attempt *)
  env_put : nat -> nat -> option WriteIo;
  env_remove_ok : rstr -> bool
}.

(** ** Helpers *)
Definition repository_operation_allows_backup (status : RepositoryOperationStatus) : bool :=
  match status with RO_Succeeded _ _ => true | _ => false end.

(** [matches!(status, RepositoryOperationStatus::Running { .. })] *)
Definition repository_operation_running (status : RepositoryOperationStatus) : bool :=
  match status with RO_Running _ => true | _ => false end.

Definition transition_state (next : BackupState) (now : DateTime) (status : ServiceStatus) : ServiceStatus :=
  if bool_decide (ss_state status = next) then status
  else set_ss_state_since now (set_ss_state next status).

Definition rejected (code message : string) : ResponsePayload := Resp_Rejected (lit code) (lit message).
Definition accepted (message : string) : ResponsePayload := Resp_Accepted (lit message).

Definition administrator_required : ResponsePayload :=
  rejected "administrator_required" "Open resticpal as an administrator to change machine backup settings.".

(** [state.status.f = v] *)
Definition on_status (f : ServiceStatus -> ServiceStatus) (state : RuntimeState) : RuntimeState :=
  set_rt_status (f (rt_status state)) state.

(** [update_hold_until.is_some_and(|deadline| deadline > now)] *)
Definition held_at (state : RuntimeState) (now : DateTime) : bool :=
  match rt_update_hold_until state with Some deadline => now <? deadline | None => false end.

(** [if let Some((previous, deadline)) = state.update_hold_previous_status.take()] *)
Definition restore_held_status (now : DateTime) (state : RuntimeState) : RuntimeState :=
  match rt_update_hold_previous_status state with
  | Some (previous, previous_deadline) =>
      on_status (fun s => set_ss_next_deadline previous_deadline (set_ss_state_since now (set_ss_state previous s)))
        (set_rt_update_hold_previous_status None state)
  | None => state
  end.

Section runtime.
Context `{Chrono} `{UrlCrate} `{Serde LocalConfig} `{Serde PersistedScheduleState} `{Serde DiagnosticEntry}.

(** ** Stores and channel *)

(** [true] unless there is a store and it fails to save. *)
Definition save_config (env : Env) (candidate : LocalConfig) (w : ServiceRuntime) : bool * ServiceRuntime :=
  match sr_config_store w with
  | None => (true, w)
  | Some store =>
      let '(saved, file) := config_save (env_config_ok env) candidate (cs_file store) in
      (is_ok saved, set_sr_config_store (Some {| cs_path := cs_path store; cs_file := file; cs_cache := cs_cache store |}) w)
  end.

Definition save_state (env : Env) (snapshot : ServiceStateSnapshot) (w : ServiceRuntime) : bool * ServiceRuntime :=
  match sr_state_store w with
  | None => (true, w)
  | Some store =>
      let '(saved, file) := state_save (env_state_ok env) snapshot store in
      (is_ok saved, set_sr_state_store (Some file) w)
  end.

(** [let _ = store.remove(reference)] for each reference. *)
Definition remove_credentials `{Dpapi} (env : Env) (references : list rstr) (files : CredentialFiles)
    : CredentialFiles :=
  fold_left (fun files reference =>
               match remove (env_remove_ok env reference) reference files with Ok files => files | Err _ => files end)
    references files.

Definition record_diagnostic (env : Env) (level : DiagnosticLevel) (event_id message : string) (code : option rstr)
    (w : ServiceRuntime) : ServiceRuntime :=
  match sr_diagnostics w with
  | None => w
  | Some log =>
      set_sr_diagnostics
        (Some (record (env_log_io env) (env_log_torn env) (diagnostic_entry (env_log_now env) level (lit event_id) (lit message) code) log).2) w
  end.

(** [Sender::send]: [false] once the receiver is gone. *)
Definition send (event : RuntimeEvent) (w : ServiceRuntime) : bool * ServiceRuntime :=
  if sr_receiver_alive w then (true, set_sr_events (sr_events w ++ [event]) w) else (false, w).

Definition send_event (event : RuntimeEvent) (message : string) (w : ServiceRuntime)
    : ResponsePayload * ServiceRuntime :=
  match send event w with
  | (true, w) => (accepted message, w)
  | (false, w) => (rejected "service_stopping" "The backup service is stopping. Try again shortly.", w)
  end.

Definition field_locked (field : PolicyField) (w : ServiceRuntime) : bool :=
  match sr_field_resolutions w !! field with Some resolution => fr_locked resolution | None => false end.

(** ** Status after a configuration change *)
Definition apply_configuration_status (config : EffectiveConfig) (now : DateTime) (state : RuntimeState)
    : option RuntimeState :=
  let state :=
    on_status (fun s => set_ss_repository_mode (rc_mode (ec_repository config))
                          (set_ss_repository_display_name (rc_display_name (ec_repository config)) s)) state in
  if is_configured config then
    if negb (repository_operation_allows_backup (rt_repository_operation state)) then
      Some (on_status (fun s => set_ss_next_deadline None
                                  (transition_state (BS_Waiting WR_RepositoryValidation) now s)) state)
    else
      scheduled_deadline ← completion_deadline (ss_last_success (rt_status state)) now
                             (sc_interval_hours (ec_schedule config));
      let next_deadline :=
        match rt_not_before state with
        | Some not_before => Z.max scheduled_deadline not_before
        | None => scheduled_deadline
        end in
      let state := on_status (set_ss_next_deadline (Some next_deadline)) state in
      Some (match ss_state (rt_status state) with
            | Unconfigured | BS_Waiting WR_RepositoryValidation => on_status (transition_state BS_Idle now) state
            | _ => state
            end)
  else
    Some (set_rt_not_before None (set_rt_manual_requested false
            (on_status (fun s => set_ss_next_deadline None (transition_state Unconfigured now s)) state))).

(** ** Construction *)
Definition initial_state (status : ServiceStatus) (repository_operation : RepositoryOperationStatus)
    (service_state : ServiceStateSnapshot) : RuntimeState :=
  {| rt_status := status; rt_resumed_at := None; rt_not_before := None; rt_update_hold_until := None;
     rt_update_hold_previous_status := None; rt_update_install_active := false; rt_manual_requested := false;
     rt_consecutive_failures := 0; rt_repository_operation := repository_operation;
     rt_service_state := service_state; rt_management_operation_active := false |}.

(** The repository status a loaded state stands for. *)
Definition loaded_repository_operation (service_state : ServiceStateSnapshot) (config : EffectiveConfig)
    : RepositoryOperationStatus :=
  if repository_requires_validation service_state config then RO_ValidationRequired
  else match repository_verified_at service_state config with
       | Some completed_at => RO_Succeeded Kind_Validate completed_at
       | None => RO_NotRun
       end.

Definition from_resolved_with_state (now : DateTime) (resolved : ResolvedConfig) (local_config : LocalConfig)
    (service_state : ServiceStateSnapshot) (config_store : option ConfigStore)
    (credential_store : option CredentialFiles) (state_store : option FileRead)
    (history_store : option (option HistoryDb)) (diagnostics : option LogFiles) : option ServiceRuntime :=
  let effective := rv_effective resolved in
  let configured := is_configured effective in
  let last_success := st_last_success service_state in
  let repository_operation := loaded_repository_operation service_state effective in
  let repository_ready := repository_operation_allows_backup repository_operation in
  next_deadline ←
    (if configured && repository_ready
     then Some <$> completion_deadline last_success now (sc_interval_hours (ec_schedule effective))
     else Some None);
  let status :=
    {| ss_state :=
         if configured && negb repository_ready then BS_Waiting WR_RepositoryValidation
         else if configured then BS_Idle else Unconfigured;
       ss_state_since := now; ss_last_attempt := None; ss_last_success := last_success;
       ss_next_deadline := next_deadline;
       ss_repository_display_name := rc_display_name (ec_repository effective);
       ss_repository_mode := rc_mode (ec_repository effective);
       ss_managed_revision := rv_managed_revision resolved; ss_progress := None |} in
  Some {| sr_config := effective; sr_local_config := local_config; sr_field_resolutions := rv_fields resolved;
          sr_config_store := config_store; sr_credential_store := credential_store;
          sr_state := initial_state status repository_operation service_state;
          sr_state_store := state_store; sr_history_store := history_store; sr_diagnostics := diagnostics;
          sr_events := []; sr_receiver_alive := true |}.

Inductive RuntimeInitError : Type := RI_ConfigStore (e : ConfigStoreError) | RI_Policy (e : PolicyError).

(** What is on disk when the service starts. *)
Record Disk : Type := {
  dk_config : FileRead; dk_cache : FileRead; dk_state : FileRead; dk_history : option HistoryDb; dk_log : LogFiles
}.

Definition load_with_credentials_and_policy (env : Env) (path : rstr) (disk : Disk)
    (credential_store : option CredentialFiles) (managed_policy : option ManagedPolicy)
    : option (result RuntimeInitError ServiceRuntime) :=
  match config_load (dk_config disk) with
  | Err e => Some (Err (RI_ConfigStore e))
  | Ok local =>
      match resolve_config EffectiveConfig_default local managed_policy with
      | Err e => Some (Err (RI_Policy e))
      | Ok resolved =>
          let '(service_state, log) :=
            match state_load (dk_state disk) with
            | Ok state => (state, dk_log disk)
            | Err _ =>
                let log :=
                  (record (env_log_io env) (env_log_torn env)
                     (diagnostic_entry (env_log_now env) Level_Warning (lit "state.load_failed")
                        (lit "Service state could not be loaded; repository validation is required.")
                        (Some (lit "state_load_failed"))) (dk_log disk)).2 in
                (if is_some (rc_url (ec_repository (rv_effective resolved)))
                 then require_repository_validation ServiceStateSnapshot_default
                 else ServiceStateSnapshot_default, log)
            end in
          w ← from_resolved_with_state (env_now env 0) resolved local service_state
                (Some {| cs_path := path; cs_file := dk_config disk; cs_cache := dk_cache disk |}) credential_store (Some (dk_state disk))
                (Some (dk_history disk)) (Some log);
          Some (Ok w)
      end
  end.

Definition configuration_error (env : Env) (path : rstr) (disk : Disk) (credential_store : option CredentialFiles)
    : ServiceRuntime :=
  let now := env_now env 0 in
  let log :=
    (record (env_log_io env) (env_log_torn env)
       (diagnostic_entry (env_log_now env) Level_Error (lit "configuration.invalid")
          (lit "The service configuration is invalid.") (Some (lit "configuration_invalid"))) (dk_log disk)).2 in
  {| sr_config := EffectiveConfig_default; sr_local_config := LocalConfig_default; sr_field_resolutions := ∅;
     sr_config_store := Some {| cs_path := path; cs_file := dk_config disk; cs_cache := dk_cache disk |};
     sr_credential_store := credential_store;
     sr_state := initial_state
       {| ss_state := BS_Failed (lit "configuration_invalid"); ss_state_since := now; ss_last_attempt := None;
          ss_last_success := None; ss_next_deadline := None; ss_repository_display_name := None;
          ss_repository_mode := Standard; ss_managed_revision := None; ss_progress := None |}
       RO_NotRun ServiceStateSnapshot_default;
     sr_state_store := Some (dk_state disk); sr_history_store := Some (dk_history disk);
     sr_diagnostics := Some log; sr_events := []; sr_receiver_alive := true |}.
End runtime.
