(* ===== verification/Scheduler.v ===== *)
(** * Schedule evaluation ([apps/resticpal-service/src/runtime/scheduler.rs])

    The state machine around the pure decision of [Schedule]: when a backup
    starts, what the status shows meanwhile and how long the event loop may
    sleep. *)
From stdpp Require Import base option list gmap strings.
From S2P Require Import Prelude RustStd Chrono Crates Config Status Schedule Policy Protocol Outcome.
From S2P Require Import ServiceState Diagnostics History Credentials Runtime.

Definition CONDITION_RETRY_SECONDS : Z := 60.

(** [conditions.rs] *)
Record SystemConditions : Type := { network_available : bool; on_battery : bool; metered_network : bool }.
Definition conservative : SystemConditions :=
  {| network_available := false; on_battery := true; metered_network := true |}.

(** [SystemConditions::query] on what Windows reports: the AC line status and,
    per connection profile, whether it is connected and whether it is metered. *)
Definition query (ac_line_status : Z) (profiles : list (bool * bool)) : SystemConditions :=
  let active := filter (fun p => p.1 = true) profiles in
  {| network_available := negb (match active with [] => true | _ => false end);
     on_battery := negb (ac_line_status =? 1);
     metered_network := negb (match active with [] => true | _ => false end) && forallb snd active |}.

Definition waiting_reason (blocker : ScheduleBlocker) : WaitingReason :=
  match blocker with
  | WakeGrace => WR_WakeGrace
  | NetworkUnavailable => WR_Network
  | BatteryDisallowed => WR_Battery
  | MeteredNetworkDisallowed => WR_MeteredNetwork
  end.

Definition is_waiting (s : BackupState) : bool := match s with BS_Waiting _ => true | _ => false end.

(** ** Is the repository reached over the network? *)
Definition double_separator (s : rstr) : bool := starts_with [92; 92] s || starts_with [47; 47] s.

(** [repository.as_bytes()[i]] on the UTF-8 bytes. *)
Definition drive_rooted (s : rstr) : bool :=
  match utf8 s with
  | a :: b :: c :: _ => is_ascii_alphabetic a && (b =? 58) && ((c =? 92) || (c =? 47))
  | _ => false
  end.

Definition repository_requires_network (repository : rstr) : bool :=
  let repository := trim repository in
  let local :=
    match strip_prefix (lit "local:") repository with
    | Some path => Some path
    | None => strip_prefix (lit "LOCAL:") repository
    end in
  match local with
  | Some path => double_separator path
  | None =>
      if double_separator repository then true
      else if drive_rooted repository then false
      else contains_char 58 repository
  end.

Section scheduler.
Context `{Chrono}.

Definition record_resume (now : DateTime) (w : ServiceRuntime) : ServiceRuntime :=
  set_sr_state (set_rt_resumed_at (Some now) (sr_state w)) w.

Definition snapshot_of (config : EffectiveConfig) (now : DateTime) (conditions : SystemConditions)
    (state : RuntimeState) : SchedulerSnapshot :=
  {| sn_now := now; sn_last_success := ss_last_success (rt_status state); sn_resumed_at := rt_resumed_at state;
     sn_not_before := rt_not_before state; sn_manual_requested := rt_manual_requested state;
     sn_backup_running := is_running (ss_state (rt_status state));
     sn_network_required := repository_requires_network (default [] (rc_url (ec_repository config)));
     sn_network_available := network_available conditions; sn_on_battery := on_battery conditions;
     sn_metered_network := metered_network conditions |}.

(** The final [match] on the decision. *)
Definition follow_decision (decision : ScheduleDecision) (now : DateTime) (state : RuntimeState)
    : ScheduleAction * RuntimeState :=
  match decision with
  | AlreadyRunning => (Action_None, state)
  | Start trigger =>
      let status :=
        set_ss_next_deadline None (set_ss_progress None (set_ss_last_attempt (Some now)
          (set_ss_state_since now (set_ss_state (BS_Running PreparingSnapshot) (rt_status state))))) in
      (Action_Start trigger,
       set_rt_not_before None (set_rt_resumed_at None (set_rt_manual_requested false (set_rt_status status state))))
  | Idle next_deadline =>
      let state := on_status (set_ss_next_deadline (Some next_deadline)) state in
      let state := if is_waiting (ss_state (rt_status state)) then on_status (transition_state BS_Idle now) state
                   else state in
      (Action_None, set_rt_resumed_at None state)
  | Waiting _ blockers retry_at =>
      (* [blockers[0]]: a [Waiting] decision always has a blocker *)
      let reason := waiting_reason (default WakeGrace (head blockers)) in
      let next_deadline :=
        match retry_at with
        | Some r => Some r
        | None => match rt_not_before state with Some n => Some n | None => Some now end
        end in
      (Action_None,
       on_status (fun s => set_ss_next_deadline next_deadline (transition_state (BS_Waiting reason) now s)) state)
  end.

(** The end of an update hold: the status shown before it comes back. *)
Definition release_hold (now : DateTime) (state : RuntimeState) : RuntimeState :=
  let state := set_rt_update_hold_until None state in
  if bool_decide (ss_state (rt_status state) = BS_Waiting WR_Update) then restore_held_status now state
  else set_rt_update_hold_previous_status None state.

(** [evaluate_schedule] on the state under the mutex. *)
Definition evaluate_state (config : EffectiveConfig) (now : DateTime) (conditions : SystemConditions)
    (state : RuntimeState) : option (ScheduleAction * RuntimeState) :=
  if rt_update_install_active state then
    retry ← duration_seconds CONDITION_RETRY_SECONDS;
    deadline ← datetime_add now retry;
    Some (Action_None,
          on_status (fun s => set_ss_next_deadline (Some deadline) (transition_state (BS_Waiting WR_Update) now s)) state)
  else if held_at state now then
    Some (Action_None,
          on_status (fun s => set_ss_next_deadline (rt_update_hold_until state)
                                (transition_state (BS_Waiting WR_Update) now s)) state)
  else
    let state := release_hold now state in
    if negb (is_configured config) then Some (Action_None, state)
    else if rt_management_operation_active state then Some (Action_None, state)
    else if negb (repository_operation_allows_backup (rt_repository_operation state)) then Some (Action_None, state)
    else
      decision ← decide_schedule (ec_schedule config) (snapshot_of config now conditions state);
      Some (follow_decision decision now state).

Definition evaluate_schedule (now : DateTime) (conditions : SystemConditions) (w : ServiceRuntime)
    : option (ScheduleAction * ServiceRuntime) :=
  '(action, state) ← evaluate_state (sr_config w) now conditions (sr_state w);
  Some (action, set_sr_state state w).

(** Milliseconds. *)
Definition next_evaluation_delay (now : DateTime) (w : ServiceRuntime) : Z :=
  let state := sr_state w in
  if rt_management_operation_active state then CONDITION_RETRY_SECONDS * 1000
  else match ss_state (rt_status state) with
       | BS_Waiting WR_Network | BS_Waiting WR_Battery | BS_Waiting WR_MeteredNetwork => CONDITION_RETRY_SECONDS * 1000
       | _ =>
           match ss_next_deadline (rt_status state) with
           | None => 60 * 60 * 1000
           | Some deadline => Z.max (num_milliseconds (deadline - now)) 0
           end
       end.
End scheduler.
