(* ===== verification/Lifecycle.v ===== *)
(** * Bookkeeping when work finishes ([apps/resticpal-service/src/runtime/lifecycle.rs])

    Backups, retention, repository operations and update installations report
    back here; the failure backoff and the persistent state are updated. *)
From stdpp Require Import base option list gmap strings.
From S2P Require Import Prelude RustStd Chrono Crates Config Status Schedule Policy Protocol Outcome.
From S2P Require Import ServiceState Diagnostics History Credentials Runtime Scheduler.

Definition INITIAL_FAILURE_RETRY_MINUTES : Z := 5.
Definition MAX_FAILURE_BACKOFF_EXPONENT : Z := 6.

(** [outcome.failure_details] and the summary, as the history stores them. *)
Definition run_of_outcome (started_at now : DateTime) (outcome : BackupOutcome) : CompletedBackupRun :=
  let '(run_outcome, error_code) :=
    match bo_kind outcome with
    | OK_Succeeded => (Run_Succeeded, None)
    | OK_SucceededWithWarnings => (Run_SucceededWithWarnings, bo_warning_code outcome)
    | OK_Failed code => (Run_Failed, Some code)
    | OK_Cancelled => (Run_Cancelled, None)
    end in
  {| cr_started_at := started_at; cr_completed_at := now; cr_outcome := run_outcome; cr_error_code := error_code;
     cr_files_processed := bs_files_processed <$> bo_summary outcome;
     cr_bytes_processed := bs_bytes_processed <$> bo_summary outcome;
     cr_data_added := bs_data_added <$> bo_summary outcome;
     cr_snapshot_id := bo_summary outcome ≫= bs_snapshot_id;
     cr_failed_items := bfd_items (bo_failure_details outcome);
     cr_failed_items_omitted := bfd_omitted (bo_failure_details outcome) |}.

Definition state_of_outcome (outcome : BackupOutcome) : BackupState :=
  match bo_kind outcome with
  | OK_Succeeded => BS_Succeeded
  | OK_SucceededWithWarnings => BS_SucceededWithWarnings
  | OK_Failed code => BS_Failed code
  | OK_Cancelled => BS_Cancelled
  end.

(** [INITIAL_FAILURE_RETRY_MINUTES * i64::from(1_u32 << exponent)] *)
Definition retry_minutes (consecutive_failures : Z) : Z :=
  let exponent := Z.min (saturating_sub consecutive_failures 1) MAX_FAILURE_BACKOFF_EXPONENT in
  INITIAL_FAILURE_RETRY_MINUTES * Z.shiftl 1 exponent.

Section lifecycle.
Context `{Chrono} `{UrlCrate} `{Serde LocalConfig} `{Serde PersistedScheduleState} `{Serde DiagnosticEntry}.

Definition finish_update_install (env : Env) (outcome : UpdateInstallOutcome) (w : ServiceRuntime) : ServiceRuntime :=
  let now := env_now env 0 in
  let state := sr_state w in
  match outcome with
  | Upd_Completed _ =>
      record_diagnostic env Level_Information "update.installer_completed"
        "The signed resticpal update installer completed." None
        (set_sr_state (set_rt_update_install_active false state) w)
  | Upd_Failed code =>
      record_diagnostic env Level_Error "update.failed" "The signed resticpal update could not be installed."
        (Some code)
        (set_sr_state (restore_held_status now
                         (set_rt_update_hold_until None (set_rt_update_install_active false state))) w)
  | Upd_Indeterminate code =>
      record_diagnostic env Level_Error "update.installer_indeterminate"
        "The update installer could not be confirmed stopped; backups remain paused." (Some code)
        (set_sr_state (set_rt_update_install_active true state) w)
  end.

Definition update_progress (progress : BackupProgress) (w : ServiceRuntime) : ServiceRuntime :=
  let state := sr_state w in
  if is_running (ss_state (rt_status state))
  then set_sr_state (on_status (fun s => set_ss_progress (Some progress) (set_ss_state (BS_Running Uploading) s)) state) w
  else w.

(** The outer [option] is a panic of [Duration::days]. *)
Definition begin_retention (env : Env) (now : DateTime) (w : ServiceRuntime)
    : option (option RetentionPlan * ServiceRuntime) :=
  if negb (bool_decide (rc_mode (ec_repository (sr_config w)) = Standard)) then Some (None, w)
  else
    prune_interval ← duration_days (tc_prune_interval_days (ec_retention (sr_config w)));
    let state :=
      on_status (fun s => set_ss_progress None (set_ss_state_since now (set_ss_state (BS_Running Retention) s)))
        (sr_state w) in
    let due := match st_last_prune (rt_service_state state) with
               | None => true
               | Some last_prune => prune_interval <=? now - last_prune
               end in
    Some (Some {| prune_due := due |},
          record_diagnostic env Level_Information "retention.started" "Snapshot retention started." None
            (set_sr_state state w)).

Definition finish_retention (env : Env) (backup : BackupOutcome) (retention : RetentionOutcome) (now : DateTime)
    (w : ServiceRuntime) : BackupOutcome * ServiceRuntime :=
  let service_state := rt_service_state (sr_state w) in
  let '(service_state, warning) :=
    match retention with
    | Ret_Succeeded pruned =>
        let s := set_st_last_retention (Some now) service_state in
        let s := if pruned then set_st_last_prune (Some now) s else s in
        (set_st_last_retention_error None s, None)
    | Ret_Failed code => (set_st_last_retention_error (Some code) service_state, Some code)
    | Ret_Cancelled =>
        (set_st_last_retention_error (Some (lit "retention_cancelled")) service_state, Some (lit "retention_cancelled"))
    end in
  let w := set_sr_state (set_rt_service_state service_state (sr_state w)) w in
  let '(saved, w) := save_state env service_state w in
  match warning with
  | Some code =>
      (with_warning backup code,
       record_diagnostic env Level_Warning "retention.failed" "Snapshot retention did not complete." (Some code) w)
  | None =>
      if negb saved
      then (with_warning backup (lit "retention_state_save_failed"),
            record_diagnostic env Level_Warning "retention.state_save_failed"
              "Retention completed but its state could not be saved." (Some (lit "retention_state_save_failed")) w)
      else (backup,
            record_diagnostic env Level_Information "retention.succeeded"
              "Snapshot retention completed successfully." None w)
  end.

(** The part of [finish_backup_at] under the state mutex. *)
Definition finish_backup_state (now : DateTime) (interval_hours : Z) (outcome : BackupOutcome) (state : RuntimeState)
    : option RuntimeState :=
  let state := on_status (set_ss_state (state_of_outcome outcome)) state in
  state ←
    (if outcome_is_success outcome then
       deadline ← completion_deadline (Some now) now interval_hours;
       let state := on_status (set_ss_last_success (Some now)) state in
       let state := set_rt_service_state (set_st_last_success (Some now) (rt_service_state state)) state in
       let state := on_status (set_ss_next_deadline (Some deadline)) state in
       Some (set_rt_consecutive_failures 0 (set_rt_not_before None state))
     else
       let state :=
         match bo_kind outcome with
         | OK_Failed _ =>
             set_rt_consecutive_failures (u32_saturating_add (rt_consecutive_failures state) 1) state
         | _ => state
         end in
       retry ← duration_minutes (retry_minutes (rt_consecutive_failures state));
       retry_at ← datetime_add now retry;
       Some (on_status (set_ss_next_deadline (Some retry_at)) (set_rt_not_before (Some retry_at) state)));
  Some (on_status (fun s => set_ss_progress None (set_ss_state_since now s)) (set_rt_resumed_at None state)).

Definition finish_backup_at (env : Env) (now : DateTime) (outcome : BackupOutcome) (w : ServiceRuntime)
    : option ServiceRuntime :=
  let started_at := default now (ss_last_attempt (rt_status (sr_state w))) in
  state ← finish_backup_state now (sc_interval_hours (ec_schedule (sr_config w))) outcome (sr_state w);
  let w := set_sr_state state w in
  let w :=
    match sr_history_store w with
    | None => w
    | Some db =>
        set_sr_history_store (Some (append (env_history_ok env) (run_of_outcome started_at now outcome) db).2) w
    end in
  let w := if outcome_is_success outcome then (save_state env (rt_service_state state) w).2 else w in
  Some (match bo_kind outcome with
        | OK_Succeeded =>
            record_diagnostic env Level_Information "backup.succeeded" "Backup completed successfully." None w
        | OK_SucceededWithWarnings =>
            record_diagnostic env Level_Warning "backup.warning" "Backup completed with warnings."
              (bo_warning_code outcome) w
        | OK_Failed code => record_diagnostic env Level_Error "backup.failed" "Backup failed." (Some code) w
        | OK_Cancelled => record_diagnostic env Level_Information "backup.cancelled" "Backup was cancelled." None w
        end).

Definition finish_repository_operation (env : Env) (operation : RepositoryOperationKind) (outcome : RepositoryOutcome)
    (w : ServiceRuntime) : option ServiceRuntime :=
  let completed_at := env_now env 0 in
  let config := sr_config w in
  let state := sr_state w in
  if negb (bool_decide (rt_repository_operation state = RO_Running operation)) then Some w
  else
    let '(status, service_state, w) :=
      match outcome with
      | Repo_Succeeded =>
          let service_state := mark_repository_verified (rt_service_state state) config completed_at in
          let '(saved, w) := save_state env service_state w in
          (if saved then RO_Succeeded operation completed_at
           else RO_Failed operation completed_at (lit "state_save_failed"), service_state, w)
      | Repo_Failed code => (RO_Failed operation completed_at code, rt_service_state state, w)
      | Repo_Cancelled =>
          (RO_Failed operation completed_at (lit "repository_operation_cancelled"), rt_service_state state, w)
      end in
    state ← apply_configuration_status config completed_at
              (set_rt_repository_operation status (set_rt_service_state service_state state));
    let w := set_sr_state state w in
    Some (match outcome with
          | Repo_Succeeded =>
              record_diagnostic env Level_Information "repository.operation_succeeded"
                "Repository operation completed successfully." None w
          | Repo_Failed code =>
              record_diagnostic env Level_Error "repository.operation_failed" "Repository operation failed."
                (Some code) w
          | Repo_Cancelled =>
              record_diagnostic env Level_Information "repository.operation_cancelled"
                "Repository operation was cancelled." None w
          end).
End lifecycle.
