(* ===== verification/Enrollment.v ===== *)
(** * Enrollment and managed policy ([apps/resticpal-service/src/runtime/enrollment.rs])

    Enrollment spans a network exchange, so it is three atomic steps:
    [begin_enrollment] marks the runtime, [commit_enrollment] installs what
    the server answered, [end_enrollment] clears the mark; [enroll] is their
    composition.  Unenrollment and the application of a refreshed policy are
    one step each.  Error texts are not modelled. *)
From stdpp Require Import base option list gmap strings.
From S2P Require Import Prelude RustStd Chrono Crates Config Status Schedule Policy Protocol Outcome.
From S2P Require Import ServiceState Diagnostics History Credentials Management PolicyCache Runtime.

Record ClientIdentity : Type := { is_elevated_administrator : bool }.

Inductive ManagedPolicyApplyOutcome : Type := Applied | RuntimeBusy | SourceChanged.

Definition management_view (w : ServiceRuntime) : ManagementView :=
  let management := lc_management (sr_local_config w) in
  {| mv_mode := lm_mode management;
     mv_enrolled := bool_decide (lm_mode management = SignedManifest) && is_some (lm_status_token_ref management)
                    && is_some (lm_enrollment_key_ref management);
     mv_device_id := lm_device_id management;
     mv_manifest_url := lm_manifest_url management |}.

(** The condition under which enrollment and unenrollment are refused. *)
Definition operation_active (state : RuntimeState) (now : DateTime) : bool :=
  is_running (ss_state (rt_status state)) || repository_operation_running (rt_repository_operation state)
  || rt_management_operation_active state || rt_update_install_active state || held_at state now.

(** The server answered: which repository credentials replace older ones. *)
Definition retired_references (old_local new_local : LocalConfig)
    (secrets : list (SecretEnvironmentVariable * rstr)) : list rstr :=
  option_list (lm_status_token_ref (lc_management old_local))
  ++ option_list (lm_enrollment_key_ref (lc_management old_local))
  ++ omap (fun variable =>
             let ref_of (l : LocalConfig) := lr_secret_refs (lc_repository l) ≫= btree_get variable in
             match ref_of old_local with
             | Some reference => if bool_decide (ref_of new_local = Some reference) then None else Some reference
             | None => None
             end) (btree_keys secrets).

Section enrollment.
Context `{Chrono} `{UrlCrate} `{CryptoCrates} `{Dpapi}.
Context `{Serde LocalConfig} `{Serde PersistedScheduleState} `{Serde DiagnosticEntry} `{Serde CachedManifest}.

(** *** Storing the delivered credentials *)
Definition put_credential (env : Env) (k : nat) (prefix : rstr) (secret : list Z) (files : CredentialFiles)
    : option rstr * CredentialFiles :=
  match put_new (env_random env k) (env_put env k) prefix secret files with
  | (Ok reference, files) => (Some reference, files)
  | (Err _, files) => (None, files)
  end.

(** The loop over [repository_secrets]; the created references come last
    first. *)
Fixpoint put_repository_secrets (env : Env) (k : nat) (secrets : list (SecretEnvironmentVariable * rstr))
    (refs : SecretRefs) (created : list rstr) (files : CredentialFiles)
    : option SecretRefs * list rstr * CredentialFiles :=
  match secrets with
  | [] => (Some refs, created, files)
  | (variable, secret) :: secrets =>
      match put_credential env k (reference_prefix variable) (utf8 secret) files with
      | (None, files) => (None, created, files)
      | (Some reference, files) =>
          put_repository_secrets env (S k) secrets (btree_insert variable reference refs) (reference :: created) files
      end
  end.

(** Up to the candidate configuration. *)
Definition store_enrollment (env : Env) (pending : PendingEnrollment) (local : LocalConfig) (files : CredentialFiles)
    : option LocalConfig * list rstr * CredentialFiles :=
  let material := pe_material pending in
  match put_credential env 0 (lit "management-token") (utf8 (em_status_token material)) files with
  | (None, files) => (None, [], files)
  | (Some status_ref, files) =>
      match put_credential env 1 (lit "management-key") (pe_private_key pending) files with
      | (None, files) => (None, [status_ref], files)
      | (Some key_ref, files) =>
          let '(refs, created, files) :=
            put_repository_secrets env 2 (em_repository_secrets material)
              (default [] (lr_secret_refs (lc_repository local))) [key_ref; status_ref] files in
          match refs with
          | None => (None, created, files)
          | Some refs =>
              let repository :=
                {| lr_display_name := lr_display_name (lc_repository local); lr_url := lr_url (lc_repository local);
                   lr_mode := lr_mode (lc_repository local); lr_options := lr_options (lc_repository local);
                   lr_secret_refs := Some refs |} in
              let management :=
                {| lm_mode := SignedManifest; lm_manifest_url := Some (em_manifest_url material);
                   lm_signing_public_key := Some (pe_public_key pending);
                   lm_refresh_interval_minutes := Some (em_refresh_interval_minutes material);
                   lm_status_url := Some (em_status_url material); lm_device_id := Some (em_device_id material);
                   lm_status_token_ref := Some status_ref; lm_enrollment_key_ref := Some key_ref |} in
              (Some (set_lc_management management (set_lc_repository repository local)), created, files)
          end
      end
  end.

(** *** Switching to a resolved configuration *)
Definition save_cache (env : Env) (management : LocalManagementConfig) (document : list Z) (w : ServiceRuntime)
    : ServiceRuntime :=
  match sr_config_store w with
  | None => w
  | Some store =>
      let '(_, cache) := cache_save (env_cache_ok env) management document (env_now env 0) (cs_cache store) in
      set_sr_config_store (Some {| cs_path := cs_path store; cs_file := cs_file store; cs_cache := cache |}) w
  end.

(** The validation requirement when the connection changes; a failed save is only reported. *)
Definition require_validation_for (env : Env) (next_config : EffectiveConfig) (w : ServiceRuntime) : ServiceRuntime :=
  let state := sr_state w in
  if repository_requires_validation (rt_service_state state) next_config then
    let service_state := require_repository_validation (rt_service_state state) in
    let '(_, w) := save_state env service_state w in
    set_sr_state (set_rt_repository_operation RO_ValidationRequired (set_rt_service_state service_state state)) w
  else w.

Definition install_resolved (resolved : ResolvedConfig) (now : DateTime) (w : ServiceRuntime) : option ServiceRuntime :=
  state ← apply_configuration_status (rv_effective resolved) now
            (on_status (set_ss_managed_revision (rv_managed_revision resolved)) (sr_state w));
  Some (set_sr_state state (set_sr_field_resolutions (rv_fields resolved) (set_sr_config (rv_effective resolved) w))).

Definition commit_enrollment (env : Env) (pending : PendingEnrollment) (w : ServiceRuntime)
    : option (result unit unit * ServiceRuntime) :=
  match sr_credential_store w, sr_config_store w with
  | None, _ | _, None => Some (Err tt, w)
  | Some files, Some store =>
      let old_local := sr_local_config w in
      let material := pe_material pending in
      let policy := pl_policy (vm_payload (em_initial_manifest material)) in
      let '(candidate, created, files) := store_enrollment env pending old_local files in
      let abandon (w : ServiceRuntime) := Some (Err tt, set_sr_credential_store (Some (remove_credentials env (reverse created) files)) w) in
      match candidate with
      | None => abandon w
      | Some candidate =>
          if negb (is_ok (validate_management (lc_management candidate))) then abandon w
          else if is_some (mr_secret_refs (mp_repository policy)) then abandon w
          else match resolve_config EffectiveConfig_default candidate (Some policy) with
          | Err _ => abandon w
          | Ok resolved =>
              let '(saved, w) := save_config env candidate w in
              if negb saved then abandon w
              else
                let w := save_cache env (lc_management candidate) (em_initial_manifest_document material) w in
                let w := require_validation_for env (rv_effective resolved) w in
                w ← install_resolved resolved (env_now env 1) w;
                let w := set_sr_local_config candidate w in
                let retired := retired_references old_local candidate (em_repository_secrets material) in
                let w := set_sr_credential_store (Some (remove_credentials env retired files)) w in
                Some (Ok tt, (send Ev_ConfigurationChanged w).2)
          end
      end
  end.

(** *** The steps of an enrollment *)
Definition begin_enrollment (env : Env) (w : ServiceRuntime) : bool * ServiceRuntime :=
  if operation_active (sr_state w) (env_now env 0) then (false, w)
  else (true, set_sr_state (set_rt_management_operation_active true (sr_state w)) w).

Definition end_enrollment (w : ServiceRuntime) : ServiceRuntime :=
  set_sr_state (set_rt_management_operation_active false (sr_state w)) w.

(** [client] is [ManagementClient::enroll]; [env'] is what the commit sees. *)
Definition enroll_bootstrap (env env' : Env) (client : rstr -> option PendingEnrollment) (bootstrap_url : rstr)
    (w : ServiceRuntime) : option (result unit unit * ServiceRuntime) :=
  match begin_enrollment env w with
  | (false, w) => Some (Err tt, w)
  | (true, w) =>
      '(outcome, w) ←
        match client bootstrap_url with
        | None => Some (Err tt, w)
        | Some pending => commit_enrollment env' pending w
        end;
      Some (outcome, end_enrollment w)
  end.

Definition enroll (env env' : Env) (client : rstr -> option PendingEnrollment) (bootstrap_url : list Z)
    (identity : ClientIdentity) (w : ServiceRuntime) : option (ResponsePayload * ServiceRuntime) :=
  if negb (is_elevated_administrator identity) then Some (administrator_required, w)
  else match from_utf8 bootstrap_url with
  | None => Some (rejected "invalid_bootstrap_url" "The bootstrap URL is not valid UTF-8.", w)
  | Some bootstrap_url =>
      match begin_enrollment env w with
      | (false, w) =>
          Some (rejected "operation_running"
                  "Wait for the current backup, repository, or enrollment operation to finish.", w)
      | (true, w) =>
          '(outcome, w) ←
            match client bootstrap_url with
            | None => Some (Err tt, w)
            | Some pending => commit_enrollment env' pending w
            end;
          let w := end_enrollment w in
          Some (match outcome with
                | Ok _ => accepted "This device is now enrolled and its signed policy is active."
                | Err _ => rejected "enrollment_failed"
                             "Enrollment failed. Check that the one-time URL is current and try again."
                end, w)
      end
  end.

(** *** Unenrollment *)
Definition remove_cache (env : Env) (w : ServiceRuntime) : ServiceRuntime :=
  match sr_config_store w with
  | None => w
  | Some store =>
      let '(_, cache) := remove_management_cache (env_cache_ok env) (cs_cache store) in
      set_sr_config_store (Some {| cs_path := cs_path store; cs_file := cs_file store; cs_cache := cache |}) w
  end.

(** From the check on: the state mutex is released after it, so other threads
    may come in between. *)
Definition unenroll_commit (env : Env) (w : ServiceRuntime) : option (ResponsePayload * ServiceRuntime) :=
  match sr_config_store w with
  | None => Some (rejected "configuration_unavailable" "Local configuration storage is unavailable.", w)
  | Some _ =>
      let old_local := sr_local_config w in
      if bool_decide (lm_mode (lc_management old_local) = Disabled)
      then Some (accepted "This device is already unmanaged.", w)
      else
        let candidate := set_lc_management LocalManagementConfig_default old_local in
        match resolve_config EffectiveConfig_default candidate None with
        | Err _ => Some (rejected "configuration_invalid" "The remaining local configuration is invalid.", w)
        | Ok resolved =>
            let '(saved, w) := save_config env candidate w in
            if negb saved
            then Some (rejected "configuration_save_failed" "The unmanaged configuration could not be saved.", w)
            else
              let w := set_sr_local_config candidate (remove_cache env w) in
              let w := set_sr_field_resolutions (rv_fields resolved) (set_sr_config (rv_effective resolved) w) in
              state ← apply_configuration_status (rv_effective resolved) (env_now env 1)
                        (on_status (set_ss_managed_revision None) (sr_state w));
              let w := set_sr_state state w in
              let w :=
                match sr_credential_store w with
                | None => w
                | Some files =>
                    set_sr_credential_store
                      (Some (remove_credentials env
                               (option_list (lm_status_token_ref (lc_management old_local))
                                ++ option_list (lm_enrollment_key_ref (lc_management old_local))) files)) w
                end in
              Some (accepted "Managed policy and reporting were removed; repository credentials remain protected locally.",
                    (send Ev_ConfigurationChanged w).2)
        end
  end.

Definition unenroll (env : Env) (identity : ClientIdentity) (w : ServiceRuntime)
    : option (ResponsePayload * ServiceRuntime) :=
  if negb (is_elevated_administrator identity) then Some (administrator_required, w)
  else if operation_active (sr_state w) (env_now env 0) then
    Some (rejected "operation_running" "Wait for the current backup, repository, or enrollment operation to finish.", w)
  else unenroll_commit env w.

(** *** A refreshed policy *)
Definition apply_managed_policy_inner (env : Env) (policy : ManagedPolicy)
    (expected_management : option LocalManagementConfig) (w : ServiceRuntime)
    : option (result PolicyError ManagedPolicyApplyOutcome * ServiceRuntime) :=
  let local := sr_local_config w in
  if match expected_management with
     | Some expected => negb (bool_decide (lc_management local = expected))
     | None => false
     end then Some (Ok SourceChanged, w)
  else match resolve_config EffectiveConfig_default local (Some policy) with
  | Err e => Some (Err e, w)
  | Ok resolved =>
      let state := sr_state w in
      if is_running (ss_state (rt_status state)) || repository_operation_running (rt_repository_operation state)
         || rt_update_install_active state || held_at state (env_now env 1)
      then Some (Ok RuntimeBusy, w)
      else
        let w := require_validation_for env (rv_effective resolved) w in
        w ← install_resolved resolved (env_now env 0) w;
        Some (Ok Applied, (send Ev_ConfigurationChanged w).2)
  end.

Definition apply_managed_policy_if_current (env : Env) (policy : ManagedPolicy)
    (expected_management : LocalManagementConfig) (w : ServiceRuntime)
    : option (result PolicyError ManagedPolicyApplyOutcome * ServiceRuntime) :=
  apply_managed_policy_inner env policy (Some expected_management) w.
End enrollment.
