(* ===== verification/Ipc.v ===== *)
(** * Requests ([apps/resticpal-service/src/runtime/ipc.rs])

    The dispatch of every named-pipe request, the views and the configuration
    updates.  The [configuration_mutation] lock serialises the updates, so
    each handler is one step. *)
From stdpp Require Import base option list gmap strings.
From S2P Require Import Prelude RustStd Chrono Crates Config Status Schedule Policy Restic Protocol Outcome.
From S2P Require Import ServiceState Diagnostics History Credentials Management Updater Sources PolicyCache.
From S2P Require Import Runtime Enrollment.

Definition MAX_SECRET_UPDATES : Z := 16.
Definition MIN_UPDATE_HOLD_SECONDS : Z := 60.
Definition MAX_UPDATE_HOLD_SECONDS : Z := UPDATE_INSTALL_TIMEOUT_SECONDS.

(** The texts [thiserror] derives for validation errors. *)
Class Messages := {
  config_error_text : ConfigValidationError -> rstr;
  invocation_error_text : InvocationError -> rstr
}.

(** [filter(|x| seen.insert(key(x)))] with a set of the keys seen so far *)
Fixpoint deduplicate_by (key : rstr -> rstr) (seen l : list rstr) : list rstr :=
  match l with
  | [] => []
  | x :: l =>
      if existsb (str_eqb (key x)) seen then deduplicate_by key seen l
      else x :: deduplicate_by key (key x :: seen) l
  end.
Definition deduplicate_paths `{UnicodeData} (paths : list rstr) : list rstr :=
  deduplicate_by (fun path => str_to_lowercase (to_string_lossy path)) [] paths.
Definition deduplicate_exclusions (exclusions : list rstr) : list rstr :=
  deduplicate_by (fun exclusion => exclusion) [] exclusions.

Definition nonempty_trimmed (value : rstr) : option rstr :=
  let value := trim value in
  if str_is_empty value then None else Some value.

(** ** Views *)
Definition backup_sources_view (w : ServiceRuntime) : BackupSourcesView :=
  {| bv_paths := bc_paths (ec_backup (sr_config w)); bv_exclusions := bc_exclusions (ec_backup (sr_config w));
     bv_paths_locked := field_locked F_BackupPaths w; bv_exclusions_locked := field_locked F_BackupExclusions w |}.

Definition repository_secrets_locked (w : ServiceRuntime) : bool :=
  field_locked F_RepositorySecretRefs w || mv_enrolled (management_view w).

Definition repository_view (w : ServiceRuntime) : RepositoryView :=
  let r := ec_repository (sr_config w) in
  {| rpv_display_name := rc_display_name r; rpv_url := rc_url r; rpv_mode := rc_mode r; rpv_options := rc_options r;
     rpv_configured_secrets := btree_keys (rc_secret_refs r);
     rpv_operation_status := rt_repository_operation (sr_state w);
     rpv_display_name_locked := field_locked F_RepositoryDisplayName w;
     rpv_url_locked := field_locked F_RepositoryUrl w; rpv_mode_locked := field_locked F_RepositoryMode w;
     rpv_options_locked := field_locked F_RepositoryOptions w; rpv_secrets_locked := repository_secrets_locked w |}.

Definition update_settings_view (w : ServiceRuntime) : UpdateSettingsView :=
  {| uv_automatic_install := uc_automatic_install (ec_updates (sr_config w));
     uv_automatic_install_locked := field_locked F_UpdateAutomaticInstall w |}.

Definition schedule_view (w : ServiceRuntime) : ScheduleView :=
  let s := ec_schedule (sr_config w) in
  {| sv_interval_hours := sc_interval_hours s; sv_wake_grace_seconds := sc_wake_grace_seconds s;
     sv_wake_lock_timeout_seconds := sc_wake_lock_timeout_seconds s; sv_allow_on_battery := sc_allow_on_battery s;
     sv_allow_metered_network := sc_allow_metered_network s;
     sv_interval_hours_locked := field_locked F_ScheduleIntervalHours w;
     sv_wake_grace_seconds_locked := field_locked F_ScheduleWakeGraceSeconds w;
     sv_wake_lock_timeout_seconds_locked := field_locked F_ScheduleWakeLockTimeoutSeconds w;
     sv_allow_on_battery_locked := field_locked F_ScheduleAllowOnBattery w;
     sv_allow_metered_network_locked := field_locked F_ScheduleAllowMeteredNetwork w |}.

Definition retention_view (w : ServiceRuntime) : RetentionView :=
  let t := ec_retention (sr_config w) in
  let s := rt_service_state (sr_state w) in
  {| tv_repository_mode := rc_mode (ec_repository (sr_config w)); tv_daily := tc_daily t; tv_weekly := tc_weekly t;
     tv_monthly := tc_monthly t; tv_yearly := tc_yearly t; tv_prune_interval_days := tc_prune_interval_days t;
     tv_daily_locked := field_locked F_RetentionDaily w; tv_weekly_locked := field_locked F_RetentionWeekly w;
     tv_monthly_locked := field_locked F_RetentionMonthly w; tv_yearly_locked := field_locked F_RetentionYearly w;
     tv_prune_interval_days_locked := field_locked F_RetentionPruneIntervalDays w;
     tv_last_retention := st_last_retention s; tv_last_prune := st_last_prune s;
     tv_last_error := st_last_retention_error s |}.

(** [update_blocks_configuration_mutation] *)
Definition update_blocks_configuration_mutation (now : DateTime) (w : ServiceRuntime) : bool :=
  rt_update_install_active (sr_state w) || held_at (sr_state w) now.

(** A request that changes a locked field: [value.is_some() && self.field_locked(field)]. *)
Definition touches_locked {A} (value : option A) (field : PolicyField) (w : ServiceRuntime) : bool :=
  is_some value && field_locked field w.

(** ** Repository operations and updates of the program itself *)
Section operations.
Context `{Chrono} `{UrlCrate} `{Serde LocalConfig} `{Serde PersistedScheduleState} `{Base64Standard}.

Definition begin_repository_operation (env : Env) (operation : RepositoryOperationKind) (identity : ClientIdentity)
    (w : ServiceRuntime) : ResponsePayload * ServiceRuntime :=
  if negb (is_elevated_administrator identity) then (administrator_required, w) else
  let config := sr_config w in
  if negb (is_some (rc_url (ec_repository config))) then
    (rejected "repository_not_configured" "Save a repository URL before testing the connection.", w) else
  if negb (btree_contains_key ResticPassword (rc_secret_refs (ec_repository config))) then
    (rejected "repository_password_required" "Store the repository password before testing the connection.", w) else
  if bool_decide (operation = Kind_Initialize) && negb (allowed_in Initialize (rc_mode (ec_repository config))) then
    (rejected "append_only_initialization_forbidden" "Repository creation is disabled in append-only mode.", w) else
  let state := sr_state w in
  if rt_update_install_active state || held_at state (env_now env 0) then
    (rejected "update_pending" "A resticpal update is about to start. Try again after it finishes.", w) else
  if is_running (ss_state (rt_status state)) then
    (rejected "backup_running" "Wait for the active backup to finish before testing its repository.", w) else
  if repository_operation_running (rt_repository_operation state) then
    (rejected "repository_operation_running" "A repository operation is already running.", w) else
  let state := set_rt_repository_operation (RO_Running operation) state in
  let state :=
    if is_configured config
    then on_status (fun s => set_ss_next_deadline None
                               (transition_state (BS_Waiting WR_RepositoryValidation) (env_now env 1) s)) state
    else state in
  let state := set_rt_service_state (require_repository_validation (rt_service_state state)) state in
  let '(saved, w) := save_state env (rt_service_state state) w in
  if negb saved then
    (rejected "state_save_failed" "Repository validation state could not be saved.",
     set_sr_state (set_rt_repository_operation (RO_Failed operation (env_now env 2) (lit "state_save_failed")) state) w)
  else match send (Ev_RepositoryOperationRequested operation) (set_sr_state state w) with
  | (false, w) =>
      (rejected "service_stopping" "The backup service is stopping. Try again shortly.",
       set_sr_state (set_rt_repository_operation (RO_Failed operation (env_now env 2) (lit "service_stopping")) state) w)
  | (true, w) =>
      (match operation with
       | Kind_Validate => accepted "Repository connection test started."
       | Kind_Initialize => accepted "Repository creation started."
       end, w)
  end.

(** The hold both update requests place on backup work. *)
Definition place_hold (now deadline : DateTime) (state : RuntimeState) : RuntimeState :=
  let state :=
    match rt_update_hold_previous_status state with
    | None =>
        set_rt_update_hold_previous_status
          (Some (ss_state (rt_status state), ss_next_deadline (rt_status state))) state
    | Some _ => state
    end in
  on_status (fun s => set_ss_next_deadline (Some deadline) (transition_state (BS_Waiting WR_Update) now s))
    (set_rt_resumed_at None (set_rt_manual_requested false (set_rt_update_hold_until (Some deadline) state))).

Definition hold_deadline (now : DateTime) (hold_seconds : Z) : option DateTime :=
  hold ← duration_seconds hold_seconds;
  Some (default now (checked_add_signed now hold)).

Definition prepare_for_update (env : Env) (hold_seconds : Z) (identity : ClientIdentity) (w : ServiceRuntime)
    : option (ResponsePayload * ServiceRuntime) :=
  if negb (is_elevated_administrator identity) then Some (administrator_required, w) else
  if uc_automatic_install (ec_updates (sr_config w)) then
    Some (rejected "automatic_updates_enabled"
      "This device's effective policy requires the protected service to install updates silently.", w) else
  if negb (in_range MIN_UPDATE_HOLD_SECONDS MAX_UPDATE_HOLD_SECONDS hold_seconds) then
    Some (rejected "invalid_update_hold" "The update hold must be between one and 30 minutes.", w) else
  let now := env_now env 0 in
  let state := sr_state w in
  if rt_update_install_active state then
    Some (rejected "update_already_running" "The protected service is already installing an update.", w) else
  if held_at state now then
    Some (rejected "update_pending" "Another update request is already holding backup work.", w) else
  if is_running (ss_state (rt_status state)) then
    Some (rejected "backup_running" "Wait for the active backup to finish before installing the update.", w) else
  if repository_operation_running (rt_repository_operation state) || rt_management_operation_active state then
    Some (rejected "operation_running" "Wait for the current repository or management operation to finish.", w) else
  deadline ← hold_deadline now hold_seconds;
  Some (accepted "Backups are held briefly while the update starts.",
        set_sr_state (place_hold now deadline state) w).

Definition update_update_settings (env : Env) (automatic_install : bool) (identity : ClientIdentity)
    (w : ServiceRuntime) : ResponsePayload * ServiceRuntime :=
  if negb (is_elevated_administrator identity) then (administrator_required, w) else
  if field_locked F_UpdateAutomaticInstall w then
    (rejected "managed_field_locked" "Automatic update installation is locked by managed policy.", w) else
  if update_blocks_configuration_mutation (env_now env 0) w then
    (rejected "update_pending" "Automatic-update mode cannot change while an update is in progress.", w) else
  let candidate := set_lc_updates {| lu_automatic_install := Some automatic_install |} (sr_local_config w) in
  let '(saved, w) := save_config env candidate w in
  if negb saved then (rejected "configuration_save_failed" "The automatic-update setting could not be saved.", w) else
  (if automatic_install
   then accepted "Signed resticpal updates will install automatically in the background."
   else accepted "resticpal will ask before installing updates.",
   set_sr_config (set_ec_updates {| uc_automatic_install := automatic_install |} (sr_config w))
     (set_sr_local_config candidate w)).

(** Any client may announce an update: [_identity] is not looked at. *)
Definition begin_update_install (env : Env) (package : UpdatePackage) (identity : ClientIdentity)
    (w : ServiceRuntime) : option (ResponsePayload * ServiceRuntime) :=
  if negb (uc_automatic_install (ec_updates (sr_config w))) then
    Some (rejected "automatic_updates_disabled"
      "Automatic update installation is disabled by this device's effective policy.", w) else
  if negb (is_ok (validate_package package)) then
    Some (rejected "update_metadata_invalid"
      "The signed update metadata is invalid or does not describe a newer resticpal MSI.", w) else
  let now := env_now env 0 in
  let state := sr_state w in
  if rt_update_install_active state then
    Some (rejected "update_already_running" "An update is already being installed.", w) else
  if held_at state now then
    Some (rejected "update_pending" "A prompted update is already holding backup work.", w) else
  if is_running (ss_state (rt_status state)) then
    Some (rejected "backup_running" "The update will be retried after the active backup finishes.", w) else
  if repository_operation_running (rt_repository_operation state) || rt_management_operation_active state then
    Some (rejected "operation_running" "The update will be retried after the current service operation finishes.", w) else
  deadline ← hold_deadline now MAX_UPDATE_HOLD_SECONDS;
  let state := place_hold now deadline (set_rt_update_install_active true state) in
  Some (match send (Ev_UpdateInstallRequested package) (set_sr_state state w) with
        | (false, w) =>
            (rejected "service_stopping" "The backup service is stopping. Try again shortly.",
             set_sr_state (restore_held_status now
                             (set_rt_update_hold_until None (set_rt_update_install_active false state))) w)
        | (true, w) =>
            (Resp_Accepted (lit "resticpal " ++ up_version package
                            ++ lit " will download and install silently after signature verification."), w)
        end).
End operations.

(** ** Configuration updates *)

(** [if let Some(value) = new { target = Some(value) }] *)
Definition replace_opt {A} (new old : option A) : option A := match new with Some _ => new | None => old end.

(** The candidates of each request. *)
Definition retention_candidate (daily weekly monthly yearly prune_interval_days : option Z) (local : LocalConfig)
    : LocalConfig :=
  let t := lc_retention local in
  set_lc_retention
    {| lt_daily := replace_opt daily (lt_daily t); lt_weekly := replace_opt weekly (lt_weekly t);
       lt_monthly := replace_opt monthly (lt_monthly t); lt_yearly := replace_opt yearly (lt_yearly t);
       lt_prune_interval_days := replace_opt prune_interval_days (lt_prune_interval_days t) |} local.
Definition retention_effective (daily weekly monthly yearly prune_interval_days : option Z) (config : EffectiveConfig)
    : EffectiveConfig :=
  let t := ec_retention config in
  set_ec_retention
    {| tc_daily := default (tc_daily t) daily; tc_weekly := default (tc_weekly t) weekly;
       tc_monthly := default (tc_monthly t) monthly; tc_yearly := default (tc_yearly t) yearly;
       tc_prune_interval_days := default (tc_prune_interval_days t) prune_interval_days |} config.

Definition schedule_candidate (interval_hours wake_grace_seconds wake_lock_timeout_seconds : option Z)
    (allow_on_battery allow_metered_network : option bool) (local : LocalConfig) : LocalConfig :=
  let s := lc_schedule local in
  set_lc_schedule
    {| ls_interval_hours := replace_opt interval_hours (ls_interval_hours s);
       ls_wake_grace_seconds := replace_opt wake_grace_seconds (ls_wake_grace_seconds s);
       ls_wake_lock_timeout_seconds := replace_opt wake_lock_timeout_seconds (ls_wake_lock_timeout_seconds s);
       ls_allow_on_battery := replace_opt allow_on_battery (ls_allow_on_battery s);
       ls_allow_metered_network := replace_opt allow_metered_network (ls_allow_metered_network s) |} local.
Definition schedule_effective (interval_hours wake_grace_seconds wake_lock_timeout_seconds : option Z)
    (allow_on_battery allow_metered_network : option bool) (config : EffectiveConfig) : EffectiveConfig :=
  let s := ec_schedule config in
  set_ec_schedule
    {| sc_interval_hours := default (sc_interval_hours s) interval_hours;
       sc_wake_grace_seconds := default (sc_wake_grace_seconds s) wake_grace_seconds;
       sc_wake_lock_timeout_seconds := default (sc_wake_lock_timeout_seconds s) wake_lock_timeout_seconds;
       sc_allow_on_battery := default (sc_allow_on_battery s) allow_on_battery;
       sc_allow_metered_network := default (sc_allow_metered_network s) allow_metered_network |} config.

Definition sources_candidate (paths exclusions : option (list rstr)) (local : LocalConfig) : LocalConfig :=
  let b := lc_backup local in
  set_lc_backup {| lb_paths := replace_opt paths (lb_paths b); lb_exclusions := replace_opt exclusions (lb_exclusions b) |} local.
Definition sources_effective (paths exclusions : option (list rstr)) (config : EffectiveConfig) : EffectiveConfig :=
  let b := ec_backup config in
  set_ec_backup {| bc_paths := default (bc_paths b) paths; bc_exclusions := default (bc_exclusions b) exclusions |} config.

(** Display name and URL can be cleared, hence the outer option. *)
Definition repository_candidate (display_name url : option (option rstr)) (mode : option RepositoryMode)
    (options : option Options) (local : LocalConfig) : LocalConfig :=
  let r := lc_repository local in
  set_lc_repository
    {| lr_display_name := default (lr_display_name r) display_name; lr_url := default (lr_url r) url;
       lr_mode := replace_opt mode (lr_mode r); lr_options := replace_opt options (lr_options r);
       lr_secret_refs := lr_secret_refs r |} local.
Definition repository_effective (display_name url : option (option rstr)) (mode : option RepositoryMode)
    (options : option Options) (config : EffectiveConfig) : EffectiveConfig :=
  let r := ec_repository config in
  set_ec_repository
    {| rc_display_name := default (rc_display_name r) display_name; rc_url := default (rc_url r) url;
       rc_mode := default (rc_mode r) mode; rc_options := default (rc_options r) options;
       rc_secret_refs := rc_secret_refs r |} config.
Definition with_local_refs (refs : SecretRefs) (local : LocalConfig) : LocalConfig :=
  let r := lc_repository local in
  set_lc_repository
    {| lr_display_name := lr_display_name r; lr_url := lr_url r; lr_mode := lr_mode r; lr_options := lr_options r;
       lr_secret_refs := Some refs |} local.
Definition with_effective_refs (refs : SecretRefs) (config : EffectiveConfig) : EffectiveConfig :=
  let r := ec_repository config in
  set_ec_repository
    {| rc_display_name := rc_display_name r; rc_url := rc_url r; rc_mode := rc_mode r; rc_options := rc_options r;
       rc_secret_refs := refs |} config.

Definition update_variable (update : RepositorySecretUpdate) : SecretEnvironmentVariable :=
  match update with SecretSet variable _ | SecretRemove variable => variable end.

(** [any(|update| !seen.insert(variable))] *)
Fixpoint has_duplicate_variable (seen : list SecretEnvironmentVariable) (updates : list RepositorySecretUpdate) : bool :=
  match updates with
  | [] => false
  | u :: updates =>
      if bool_decide (update_variable u ∈ seen) then true
      else has_duplicate_variable (update_variable u :: seen) updates
  end.

Section updates.
Context `{Chrono} `{UrlCrate} `{Dpapi} `{UnicodeData} `{Filesystem} `{Messages}.
Context `{Serde LocalConfig} `{Serde PersistedScheduleState}.

Definition update_pending : ResponsePayload :=
  rejected "update_pending" "Wait for the resticpal update to finish before changing configuration.".
Definition configuration_save_failed : ResponsePayload :=
  rejected "configuration_save_failed" "The local configuration could not be saved.".

(** The commit every update ends with: [local_config], [config], status and event. *)
Definition commit_configuration (env : Env) (candidate : LocalConfig) (effective : EffectiveConfig) (message : string)
    (state : RuntimeState) (w : ServiceRuntime) : option (ResponsePayload * ServiceRuntime) :=
  let w := set_sr_config effective (set_sr_local_config candidate w) in
  state ← apply_configuration_status effective (env_now env 1) state;
  Some (accepted message, (send Ev_ConfigurationChanged (set_sr_state state w)).2).

Definition update_retention (env : Env) (daily weekly monthly yearly prune_interval_days : option Z)
    (identity : ClientIdentity) (w : ServiceRuntime) : ResponsePayload * ServiceRuntime :=
  if negb (is_elevated_administrator identity) then (administrator_required, w) else
  if update_blocks_configuration_mutation (env_now env 0) w then (update_pending, w) else
  if bool_decide (rc_mode (ec_repository (sr_config w)) = AppendOnly) then
    (rejected "retention_managed_by_server" "Retention for an append-only repository is managed by the server.", w) else
  if negb (is_some daily || is_some weekly || is_some monthly || is_some yearly || is_some prune_interval_days) then
    (rejected "no_configuration_changes" "No retention changes were supplied.", w) else
  if touches_locked daily F_RetentionDaily w || touches_locked weekly F_RetentionWeekly w
     || touches_locked monthly F_RetentionMonthly w || touches_locked yearly F_RetentionYearly w
     || touches_locked prune_interval_days F_RetentionPruneIntervalDays w then
    (rejected "managed_field_locked" "One or more retention fields are locked by managed policy.", w) else
  let candidate := retention_candidate daily weekly monthly yearly prune_interval_days (sr_local_config w) in
  let effective := retention_effective daily weekly monthly yearly prune_interval_days (sr_config w) in
  match validate effective with
  | Err e => (Resp_Rejected (lit "invalid_retention") (config_error_text e), w)
  | Ok _ =>
      if is_running (ss_state (rt_status (sr_state w))) then
        (rejected "backup_running" "Wait for the active backup to finish before changing retention.", w) else
      if repository_operation_running (rt_repository_operation (sr_state w)) then
        (rejected "repository_operation_running"
           "Wait for the repository operation to finish before changing retention.", w) else
      let '(saved, w) := save_config env candidate w in
      if negb saved then (configuration_save_failed, w) else
      (accepted "Retention policy updated.",
       (send Ev_ConfigurationChanged (set_sr_config effective (set_sr_local_config candidate w))).2)
  end.

Definition update_schedule (env : Env) (interval_hours wake_grace_seconds wake_lock_timeout_seconds : option Z)
    (allow_on_battery allow_metered_network : option bool) (identity : ClientIdentity) (w : ServiceRuntime)
    : option (ResponsePayload * ServiceRuntime) :=
  if negb (is_elevated_administrator identity) then Some (administrator_required, w) else
  if update_blocks_configuration_mutation (env_now env 0) w then Some (update_pending, w) else
  if negb (is_some interval_hours || is_some wake_grace_seconds || is_some wake_lock_timeout_seconds
           || is_some allow_on_battery || is_some allow_metered_network) then
    Some (rejected "no_configuration_changes" "No schedule changes were supplied.", w) else
  if touches_locked interval_hours F_ScheduleIntervalHours w
     || touches_locked wake_grace_seconds F_ScheduleWakeGraceSeconds w
     || touches_locked wake_lock_timeout_seconds F_ScheduleWakeLockTimeoutSeconds w
     || touches_locked allow_on_battery F_ScheduleAllowOnBattery w
     || touches_locked allow_metered_network F_ScheduleAllowMeteredNetwork w then
    Some (rejected "managed_field_locked" "One or more schedule fields are locked by managed policy.", w) else
  let candidate := schedule_candidate interval_hours wake_grace_seconds wake_lock_timeout_seconds
                     allow_on_battery allow_metered_network (sr_local_config w) in
  let effective := schedule_effective interval_hours wake_grace_seconds wake_lock_timeout_seconds
                     allow_on_battery allow_metered_network (sr_config w) in
  match validate effective with
  | Err e => Some (Resp_Rejected (lit "invalid_schedule") (config_error_text e), w)
  | Ok _ =>
      if is_running (ss_state (rt_status (sr_state w))) then
        Some (rejected "backup_running" "Wait for the active backup to finish before changing its schedule.", w) else
      if repository_operation_running (rt_repository_operation (sr_state w)) then
        Some (rejected "repository_operation_running"
                "Wait for the repository operation to finish before changing the schedule.", w) else
      let '(saved, w) := save_config env candidate w in
      if negb saved then Some (configuration_save_failed, w) else
      commit_configuration env candidate effective "Backup schedule updated." (sr_state w) w
  end.

Definition source_rejection (error : InvocationError) : ResponsePayload :=
  match error with
  | UnsupportedNetworkBackupSource =>
      rejected "unsupported_network_backup_source"
        "Network folders cannot be used as backup sources yet. Choose a folder on a local Windows drive."
  | UnsupportedBackupSourceNamespace =>
      rejected "unsupported_backup_source_namespace"
        "Backup sources must use an ordinary local Windows drive path, without junction or device aliases."
  | ProtectedBackupSource =>
      rejected "protected_backup_source"
        "The resticpal service-data folder cannot be selected as a backup source."
  | _ => Resp_Rejected (lit "invalid_backup_sources") (invocation_error_text error)
  end.

Definition update_backup_sources (env : Env) (paths exclusions : option (list rstr)) (identity : ClientIdentity)
    (w : ServiceRuntime) : option (ResponsePayload * ServiceRuntime) :=
  if negb (is_elevated_administrator identity) then Some (administrator_required, w) else
  if update_blocks_configuration_mutation (env_now env 0) w then Some (update_pending, w) else
  if negb (is_some paths || is_some exclusions) then
    Some (rejected "no_configuration_changes" "No backup-source changes were supplied.", w) else
  if touches_locked paths F_BackupPaths w || touches_locked exclusions F_BackupExclusions w then
    Some (rejected "managed_field_locked" "Backup sources are locked by managed policy.", w) else
  let paths := deduplicate_paths <$> paths in
  let exclusions := deduplicate_exclusions <$> exclusions in
  let candidate := sources_candidate paths exclusions (sr_local_config w) in
  let effective := sources_effective paths exclusions (sr_config w) in
  let data_directory := sr_config_store w ≫= fun store => WinPath.parent (cs_path store) in
  match validate_backup_source_paths (bc_paths (ec_backup effective)) data_directory with
  | Err error => Some (source_rejection error, w)
  | Ok _ =>
      match validate effective with
      | Err e => Some (Resp_Rejected (lit "invalid_backup_sources") (config_error_text e), w)
      | Ok _ =>
          if is_running (ss_state (rt_status (sr_state w))) then
            Some (rejected "backup_running" "Wait for the active backup to finish before changing its sources.", w) else
          let '(saved, w) := save_config env candidate w in
          if negb saved then Some (configuration_save_failed, w) else
          commit_configuration env candidate effective "Backup sources updated." (sr_state w) w
      end
  end.
End updates.

(** ** Repository settings *)

(** What the loop over [secret_updates] accumulates. *)
Record SecretChanges : Type := {
  sx_effective : SecretRefs; sx_local : SecretRefs; sx_created : list rstr; sx_retired : list rstr;
  sx_files : CredentialFiles
}.

(** [BTreeSet::insert]; the order of removal is immaterial. *)
Definition retire (old : option rstr) (retired : list rstr) : list rstr :=
  match old with
  | Some old => if existsb (str_eqb old) retired then retired else retired ++ [old]
  | None => retired
  end.

Section repository.
Context `{Chrono} `{UrlCrate} `{Dpapi} `{Messages}.
Context `{Serde LocalConfig} `{Serde PersistedScheduleState}.

(** [Err] carries what must be cleaned up. *)
Fixpoint apply_secret_updates (env : Env) (k : nat) (updates : list RepositorySecretUpdate) (s : SecretChanges)
    : result SecretChanges SecretChanges :=
  match updates with
  | [] => Ok s
  | SecretSet variable value :: updates =>
      match put_credential env k (reference_prefix variable) (secret_as_bytes value) (sx_files s) with
      | (None, files) =>
          Err {| sx_effective := sx_effective s; sx_local := sx_local s; sx_created := sx_created s;
                 sx_retired := sx_retired s; sx_files := files |}
      | (Some reference, files) =>
          apply_secret_updates env (S k) updates
            {| sx_effective := btree_insert variable reference (sx_effective s);
               sx_local := btree_insert variable reference (sx_local s);
               sx_created := sx_created s ++ [reference];
               sx_retired := retire (btree_get variable (sx_effective s)) (sx_retired s);
               sx_files := files |}
      end
  | SecretRemove variable :: updates =>
      apply_secret_updates env (S k) updates
        {| sx_effective := btree_remove variable (sx_effective s); sx_local := btree_remove variable (sx_local s);
           sx_created := sx_created s; sx_retired := retire (btree_get variable (sx_effective s)) (sx_retired s);
           sx_files := sx_files s |}
  end.

Definition start_changes (candidate : LocalConfig) (effective : EffectiveConfig) (files : CredentialFiles)
    : SecretChanges :=
  {| sx_effective := rc_secret_refs (ec_repository effective);
     sx_local := default [] (lr_secret_refs (lc_repository candidate));
     sx_created := []; sx_retired := []; sx_files := files |}.

(** The outcome of the credential step: the new candidates with the created
    and the retired references. *)
Definition store_secrets (env : Env) (updates : list RepositorySecretUpdate) (candidate : LocalConfig)
    (effective : EffectiveConfig) (w : ServiceRuntime)
    : result ServiceRuntime (LocalConfig * EffectiveConfig * list rstr * list rstr * ServiceRuntime) :=
  match updates, sr_credential_store w with
  | [], _ => Ok (candidate, effective, [], [], w)
  | _, None => Err w                              (* availability was checked *)
  | _, Some files =>
      match apply_secret_updates env 0 updates (start_changes candidate effective files) with
      | Err s => Err (set_sr_credential_store (Some (remove_credentials env (sx_created s) (sx_files s))) w)
      | Ok s =>
          Ok (with_local_refs (sx_local s) candidate, with_effective_refs (sx_effective s) effective, sx_created s,
              filter (fun reference => reference ∉ btree_values (sx_effective s)) (sx_retired s),
              set_sr_credential_store (Some (sx_files s)) w)
      end
  end.

Definition cleanup_credentials (env : Env) (created : list rstr) (w : ServiceRuntime) : ServiceRuntime :=
  match sr_credential_store w with
  | None => w
  | Some files => set_sr_credential_store (Some (remove_credentials env created files)) w
  end.

(** From the second validation on. *)
Definition commit_repository (env : Env) (connection_changed : bool) (candidate : LocalConfig)
    (effective : EffectiveConfig) (created retired : list rstr) (w : ServiceRuntime)
    : option (ResponsePayload * ServiceRuntime) :=
  match validate effective with
  | Err e => Some (Resp_Rejected (lit "invalid_repository") (config_error_text e), cleanup_credentials env created w)
  | Ok _ =>
      let next_service_state :=
        if connection_changed then require_repository_validation (rt_service_state (sr_state w))
        else rt_service_state (sr_state w) in
      let '(saved, w) := if connection_changed then save_state env next_service_state w else (true, w) in
      if negb saved then
        Some (rejected "state_save_failed" "Repository validation state could not be saved.",
              cleanup_credentials env created w) else
      let '(saved, w) := save_config env candidate w in
      if negb saved then Some (configuration_save_failed, cleanup_credentials env created w) else
      let state :=
        if connection_changed
        then set_rt_service_state next_service_state (set_rt_repository_operation RO_ValidationRequired (sr_state w))
        else sr_state w in
      let w := set_sr_config effective (set_sr_local_config candidate w) in
      state ← apply_configuration_status effective (env_now env 1) state;
      let w := cleanup_credentials env retired (set_sr_state state w) in
      Some (accepted "Repository settings updated.", (send Ev_ConfigurationChanged w).2)
  end.

Definition update_repository (env : Env) (display_name url : option rstr) (mode : option RepositoryMode)
    (options : option Options) (secret_updates : list RepositorySecretUpdate) (identity : ClientIdentity)
    (w : ServiceRuntime) : option (ResponsePayload * ServiceRuntime) :=
  let has_secrets := negb (bool_decide (length secret_updates = 0%nat)) in
  let connection_changed := is_some url || is_some options || has_secrets in
  if negb (is_elevated_administrator identity) then Some (administrator_required, w) else
  if update_blocks_configuration_mutation (env_now env 0) w then Some (update_pending, w) else
  if negb (is_some display_name || is_some url || is_some mode || is_some options || has_secrets) then
    Some (rejected "no_configuration_changes" "No repository changes were supplied.", w) else
  if touches_locked display_name F_RepositoryDisplayName w || touches_locked url F_RepositoryUrl w
     || touches_locked mode F_RepositoryMode w || touches_locked options F_RepositoryOptions w
     || (has_secrets && repository_secrets_locked w) then
    Some (rejected "managed_field_locked" "One or more repository fields are locked by managed policy.", w) else
  if MAX_SECRET_UPDATES <? Z.of_nat (length secret_updates) then
    Some (rejected "too_many_secret_updates" "Too many credential changes were supplied in one request.", w) else
  if has_duplicate_variable [] secret_updates then
    Some (rejected "duplicate_secret_update" "Each credential may be changed at most once per request.", w) else
  if has_secrets && negb (is_some (sr_credential_store w)) then
    Some (rejected "credential_store_unavailable" "The protected credential store is unavailable.", w) else
  let display_name := nonempty_trimmed <$> display_name in
  let url := nonempty_trimmed <$> url in
  let candidate := repository_candidate display_name url mode options (sr_local_config w) in
  let effective := repository_effective display_name url mode options (sr_config w) in
  match validate effective with
  | Err e => Some (Resp_Rejected (lit "invalid_repository") (config_error_text e), w)
  | Ok _ =>
      if is_running (ss_state (rt_status (sr_state w))) then
        Some (rejected "backup_running" "Wait for the active backup to finish before changing its repository.", w) else
      if repository_operation_running (rt_repository_operation (sr_state w)) then
        Some (rejected "repository_operation_running"
                "Wait for the repository operation to finish before changing its settings.", w) else
      match store_secrets env secret_updates candidate effective w with
      | Err w =>
          Some (rejected "credential_save_failed" "A repository credential could not be stored securely.", w)
      | Ok (candidate, effective, created, retired, w) =>
          commit_repository env connection_changed candidate effective created retired w
      end
  end.
End repository.

(** ** Dispatch *)
Section dispatch.
Context `{Chrono} `{UrlCrate} `{CryptoCrates} `{Dpapi} `{UnicodeData} `{Filesystem} `{Messages} `{Base64Standard}.
Context `{Serde LocalConfig} `{Serde PersistedScheduleState} `{Serde DiagnosticEntry} `{Serde CachedManifest}.
(** [discover_backup_sources] and [ManagementClient::enroll] *)
Context (discover_backup_sources : option (list DiscoveredBackupSource)).
Context (client : rstr -> option PendingEnrollment).

Definition admin_view (identity : ClientIdentity) (view : ResponsePayload) : ResponsePayload :=
  if is_elevated_administrator identity then view else administrator_required.

Definition history_unavailable : ResponsePayload :=
  rejected "history_unavailable" "Backup history storage is not available.".

Definition get_run_history (env : Env) (limit : Z) (w : ServiceRuntime) : ResponsePayload :=
  if negb (in_range 1 MAX_HISTORY_RESULTS limit) then
    rejected "invalid_history_limit" "History requests must contain a limit from 1 through 100."
  else match sr_history_store w with
  | None => history_unavailable
  | Some db =>
      match recent_runs (env_history_ok env) limit db with
      | Ok runs => Resp_RunHistory runs
      | Err _ => rejected "history_unavailable" "Backup history could not be read from local storage."
      end
  end.

Definition get_run_failure_details (env : Env) (run_id : Z) (identity : ClientIdentity) (w : ServiceRuntime)
    : ResponsePayload :=
  if negb (is_elevated_administrator identity) then administrator_required
  else match sr_history_store w with
  | None => history_unavailable
  | Some db =>
      match failure_details (env_history_ok env) run_id db with
      | Ok (Some details) =>
          Resp_RunFailureDetails {| fd_run_id := run_id; fd_items := sf_items details; fd_omitted := sf_omitted details |}
      | Ok None => rejected "history_run_not_found" "The requested backup history entry does not exist."
      | Err _ => rejected "history_unavailable" "Backup failure details could not be read from local storage."
      end
  end.

Definition get_diagnostics (env : Env) (limit : Z) (identity : ClientIdentity) (w : ServiceRuntime) : ResponsePayload :=
  if negb (is_elevated_administrator identity) then administrator_required
  else if negb (in_range 1 MAX_DIAGNOSTIC_RESULTS limit) then
    rejected "invalid_diagnostics_limit" "Diagnostics requests must contain a limit from 1 through 200."
  else match sr_diagnostics w with
  | None => rejected "diagnostics_unavailable" "Operational diagnostics storage is not available."
  | Some log =>
      match recent (env_log_io env) limit log with
      | Some entries => Resp_Diagnostics entries
      | None => rejected "diagnostics_unavailable" "Operational diagnostics could not be read from local storage."
      end
  end.

Definition run_backup_now (env : Env) (w : ServiceRuntime) : ResponsePayload * ServiceRuntime :=
  let state := sr_state w in
  if negb (is_configured (sr_config w)) then
    (rejected "not_configured" "Configure backup sources and a repository first.", w) else
  if negb (repository_operation_allows_backup (rt_repository_operation state)) then
    (rejected "repository_not_ready" "Validate or initialize the repository before starting a backup.", w) else
  if is_running (ss_state (rt_status state)) then (rejected "already_running" "A backup is already running.", w) else
  if rt_update_install_active state || held_at state (env_now env 0) then
    (rejected "update_pending" "A resticpal update is about to start. Try again after it finishes.", w) else
  let state := set_rt_not_before None (set_rt_manual_requested true state) in
  match send Ev_RunNow (set_sr_state state w) with
  | (true, w) => (accepted "Backup requested. Waiting for the service to start.", w)
  | (false, w) =>
      (rejected "service_stopping" "The backup service is stopping. Try again shortly.",
       set_sr_state (set_rt_manual_requested false state) w)
  end.

Definition cancel_backup (w : ServiceRuntime) : ResponsePayload * ServiceRuntime :=
  if is_running (ss_state (rt_status (sr_state w))) then send_event Ev_Cancel "Cancellation requested." w
  else (rejected "not_running" "There is no running backup to cancel.", w).

Definition defer_backup (env : Env) (minutes : Z) (w : ServiceRuntime) : option (ResponsePayload * ServiceRuntime) :=
  let state := sr_state w in
  if negb (in_range 1 (24 * 60) minutes) then
    Some (rejected "invalid_deferral" "A deferral must be between one minute and 24 hours.", w) else
  if negb (is_configured (sr_config w)) then
    Some (rejected "not_configured" "Configure backup sources and a repository first.", w) else
  if negb (repository_operation_allows_backup (rt_repository_operation state)) then
    Some (rejected "repository_not_ready" "Validate or initialize the repository before deferring backups.", w) else
  if is_running (ss_state (rt_status state)) then
    Some (rejected "already_running" "A running backup cannot be deferred.", w) else
  deferral ← duration_minutes minutes;
  let now := env_now env 0 in
  let deadline := default now (checked_add_signed now deferral) in
  let state := on_status (set_ss_next_deadline (Some deadline))
                 (set_rt_not_before (Some deadline) (set_rt_manual_requested false state)) in
  Some (send_event Ev_Deferred "Backup deferred." (set_sr_state state w)).

(** A read: the runtime is unchanged. *)
Definition answer (payload : ResponsePayload) (w : ServiceRuntime) : option (ResponsePayload * ServiceRuntime) :=
  Some (payload, w).

(** [env'] is the environment of the second half of an enrollment. *)
Definition handle_command (env env' : Env) (command : RequestCommand) (identity : ClientIdentity) (w : ServiceRuntime)
    : option (ResponsePayload * ServiceRuntime) :=
  match command with
  | GetStatus => answer (Resp_Status (rt_status (sr_state w))) w
  | GetManagement => answer (admin_view identity (Resp_Management (management_view w))) w
  | Enroll bootstrap_url => enroll env env' client (secret_as_bytes bootstrap_url) identity w
  | Unenroll => unenroll env identity w
  | GetRunHistory limit => answer (get_run_history env limit w) w
  | GetRunFailureDetails run_id => answer (get_run_failure_details env run_id identity w) w
  | GetDiagnostics limit => answer (get_diagnostics env limit identity w) w
  | GetBackupSources => answer (admin_view identity (Resp_BackupSources (backup_sources_view w))) w
  | DiscoverBackupSources =>
      answer (admin_view identity
                (match discover_backup_sources with
                 | Some sources => Resp_DiscoveredBackupSources sources
                 | None => rejected "source_discovery_failed" "Windows user folders could not be discovered."
                 end)) w
  | UpdateBackupSources paths exclusions => update_backup_sources env paths exclusions identity w
  | GetRepository => answer (admin_view identity (Resp_Repository (repository_view w))) w
  | UpdateRepository display_name url mode options secret_updates =>
      update_repository env display_name url mode options secret_updates identity w
  | ValidateRepository => Some (begin_repository_operation env Kind_Validate identity w)
  | InitializeRepository => Some (begin_repository_operation env Kind_Initialize identity w)
  | GetSchedule => answer (admin_view identity (Resp_Schedule (schedule_view w))) w
  | UpdateSchedule interval_hours wake_grace_seconds wake_lock_timeout_seconds allow_on_battery allow_metered_network =>
      update_schedule env interval_hours wake_grace_seconds wake_lock_timeout_seconds allow_on_battery
        allow_metered_network identity w
  | GetRetention => answer (admin_view identity (Resp_Retention (retention_view w))) w
  | UpdateRetention daily weekly monthly yearly prune_interval_days =>
      Some (update_retention env daily weekly monthly yearly prune_interval_days identity w)
  | RunBackupNow => Some (run_backup_now env w)
  | CancelBackup => Some (cancel_backup w)
  | DeferBackup minutes => defer_backup env minutes w
  | PrepareForUpdate hold_seconds => prepare_for_update env hold_seconds identity w
  | GetUpdateSettings => answer (Resp_UpdateSettings (update_settings_view w)) w
  | UpdateUpdateSettings automatic_install => Some (update_update_settings env automatic_install identity w)
  | InstallUpdate package => begin_update_install env package identity w
  end.

Definition handle_request (env env' : Env) (request : Request) (identity : ClientIdentity) (w : ServiceRuntime)
    : option (Response * ServiceRuntime) :=
  '(payload, w) ← handle_command env env' (rq_command request) identity w;
  Some (Response_new (rq_request_id request) payload, w).
End dispatch.
