(* ===== verification/Profiles.v ===== *)
(** * User profiles ([crates/resticpal-windows/src/user_profiles.rs])

    The folders of local user profiles that are offered as backup sources:
    the profile list read from the registry, and the standard folders that
    exist in them.  What the registry, the expansion of environment variables
    and the file system answer are arguments. *)
From stdpp Require Import base option list strings.
From S2P Require Import Prelude RustStd WinPath Config Protocol Restic Sources Ipc.

Definition MAX_PROFILE_KEYS : nat := 256.
Definition MAX_REGISTRY_STRING_BYTES : Z := 64 * 1024.

Inductive ProfileDiscoveryError : Type :=
| PD_Windows (error : Z)
| PD_Utf16
| PD_InvalidRegistryString.

(** What [RegEnumKeyExW] answers: the name's UTF-16 units, the end of the
    list, or another code. *)
Inductive EnumKey : Type := Enum_Name (name : list Z) | Enum_NoMoreItems | Enum_Fails (error : Z).

(** The calls into Windows.  [RegGetValueW] is made twice, for the size of a
    value and for its bytes; so is [ExpandEnvironmentStringsW], which answers
    a count of units and what it wrote. *)
Class ProfileApi := {
  reg_open : option Z;
  reg_enum : nat -> EnumKey;
  reg_value_size : list Z -> result Z Z;
  reg_value : list Z -> Z -> result Z (list Z);
  expand_size : list Z -> Z;
  expand_into : list Z -> Z -> Z * list Z;
  last_error : Z;
  is_dir : rstr -> bool
}.

(** [&value[..position of the first null, or the end]] *)
Fixpoint trim_null (value : list Z) : list Z :=
  match value with
  | [] => []
  | unit :: value => if unit =? 0 then [] else unit :: trim_null value
  end.

Definition wide_null (value : rstr) : list Z := encode_utf16 value ++ [0].

(** [(byte_count as usize).div_ceil(2)] *)
Definition units_of_bytes (byte_count : Z) : nat := Z.to_nat ((byte_count + 1) / 2).

Definition standard_folders : list (DiscoveredSourceKind * rstr) :=
  [(Desktop, lit "Desktop"); (Documents, lit "Documents"); (Pictures, lit "Pictures"); (Videos, lit "Videos");
   (Music, lit "Music")].

(** [slice::sort_by_key], which is stable *)
Fixpoint insert_by_key {A} (key : A -> rstr) (x : A) (l : list A) : list A :=
  match l with
  | [] => [x]
  | y :: l' => if key_ltb (key y) (key x) then y :: insert_by_key key x l' else x :: l
  end.
Definition sort_by_key {A} (key : A -> rstr) (l : list A) : list A := foldr (insert_by_key key) [] l.

Section profiles.
Context `{UnicodeData} `{ProfileApi}.

Definition is_candidate_profile (path : rstr) : bool :=
  if negb (is_absolute path) then false
  else
    let value := str_to_lowercase (normalize_seps (to_string_lossy path)) in
    negb (starts_with (lit "\\") value)
    && negb (str_contains (lit "\windows\system32\config\systemprofile") value)
    && negb (str_contains (lit "\windows\serviceprofiles\") value)
    && negb match lossy_lower <$> file_name path with
            | Some name => str_eqb name (lit "default") || str_eqb name (lit "default user") || str_eqb name (lit "public")
            | None => false
            end.

Definition expand_environment (value : rstr) : result ProfileDiscoveryError rstr :=
  let required := expand_size (wide_null value) in
  if (required =? 0) || (MAX_REGISTRY_STRING_BYTES / 2 <? required) then Err (PD_Windows last_error)
  else
    let expanded := replicate (Z.to_nat required) 0 in
    let '(written, units) := expand_into (wide_null value) required in
    if (written =? 0) || (required <? written) then Err (PD_Windows last_error)
    else ok_or (from_utf16 (trim_null (overwrite expanded units))) PD_Utf16.

Definition read_profile_path (subkey : rstr) : result ProfileDiscoveryError rstr :=
  byte_count ← map_err PD_Windows (reg_value_size (wide_null subkey));
  if (byte_count =? 0) || (MAX_REGISTRY_STRING_BYTES <? byte_count) then Err PD_InvalidRegistryString
  else
    let value := replicate (units_of_bytes byte_count) 0 in
    units ← map_err PD_Windows (reg_value (wide_null subkey) byte_count);
    value ← ok_or (from_utf16 (trim_null (overwrite value units))) PD_Utf16;
    expand_environment value.

(** The loop over [index in 0..MAX_PROFILE_KEYS] *)
Fixpoint enumerate_from (remaining index : nat) : result ProfileDiscoveryError (list rstr) :=
  match remaining with
  | O => Ok []
  | S remaining =>
      match reg_enum index with
      | Enum_NoMoreItems => Ok []
      | Enum_Fails error => Err (PD_Windows error)
      | Enum_Name units =>
          name ← ok_or (from_utf16 units) PD_Utf16;
          profiles ← enumerate_from remaining (S index);
          Ok match read_profile_path name with
             | Ok value => if is_candidate_profile value then value :: profiles else profiles
             | Err _ => profiles
             end
      end
  end.

Definition enumerate_profile_paths : result ProfileDiscoveryError (list rstr) :=
  match reg_open with
  | Some error => Err (PD_Windows error)
  | None => enumerate_from MAX_PROFILE_KEYS 0
  end.

(** [path.to_string_lossy().to_lowercase()] *)
Definition source_key (s : DiscoveredBackupSource) : rstr := lossy_lower (ds_path s).

Definition profile_name_of (profile : rstr) : rstr :=
  match file_name profile with Some name => to_string_lossy name | None => lit "User" end.

Definition folder_source (profile : rstr) (folder : DiscoveredSourceKind * rstr) : DiscoveredBackupSource :=
  {| ds_profile_name := profile_name_of profile; ds_kind := folder.1; ds_path := path_push profile folder.2 |}.

Definition usable_folder (path : rstr) : bool :=
  is_dir path && (utf16_count (to_string_lossy path) <=? MAX_PATH_CHARACTERS).

(** [seen] and [sources], the latter in order *)
Record Discovery : Type := { dv_seen : list rstr; dv_sources : list DiscoveredBackupSource }.

(** One folder; [true] is [break 'profiles]. *)
Definition discover_folder (profile : rstr) (folder : DiscoveredSourceKind * rstr) (d : Discovery) : bool * Discovery :=
  let source := folder_source profile folder in
  let key := source_key source in
  if usable_folder (ds_path source) && negb (existsb (str_eqb key) (dv_seen d)) then
    let d := {| dv_seen := key :: dv_seen d; dv_sources := dv_sources d ++ [source] |} in
    (Z.of_nat (length (dv_sources d)) =? MAX_BACKUP_PATHS, d)
  else (false, d).

Fixpoint discover_folders (profile : rstr) (folders : list (DiscoveredSourceKind * rstr)) (d : Discovery)
    : bool * Discovery :=
  match folders with
  | [] => (false, d)
  | folder :: folders =>
      match discover_folder profile folder d with
      | (true, d) => (true, d)
      | (false, d) => discover_folders profile folders d
      end
  end.

Fixpoint discover_profiles (profiles : list rstr) (d : Discovery) : Discovery :=
  match profiles with
  | [] => d
  | profile :: profiles =>
      if negb (is_candidate_profile profile) || negb (is_dir profile) then discover_profiles profiles d
      else
        match discover_folders profile standard_folders d with
        | (true, d) => d
        | (false, d) => discover_profiles profiles d
        end
  end.

Definition discover_from_profiles (profiles : list rstr) : list DiscoveredBackupSource :=
  dv_sources (discover_profiles (sort_by_key lossy_lower profiles) {| dv_seen := []; dv_sources := [] |}).

Definition discover_backup_sources : result ProfileDiscoveryError (list DiscoveredBackupSource) :=
  profiles ← enumerate_profile_paths;
  Ok (discover_from_profiles profiles).

(** ** The reference: every usable folder, the first of each spelling, at most [MAX_BACKUP_PATHS] *)
Definition profile_usable (profile : rstr) : bool := is_candidate_profile profile && is_dir profile.

Definition sources_of_profile (profile : rstr) : list DiscoveredBackupSource :=
  if profile_usable profile
  then filter (fun s => usable_folder (ds_path s) = true) (folder_source profile <$> standard_folders) else [].

Fixpoint first_of_each (seen : list rstr) (l : list DiscoveredBackupSource) : list DiscoveredBackupSource :=
  match l with
  | [] => []
  | s :: l =>
      if bool_decide (source_key s ∈ seen) then first_of_each seen l
      else s :: first_of_each (source_key s :: seen) l
  end.

Definition offered_sources (profiles : list rstr) : list DiscoveredBackupSource :=
  take (Z.to_nat MAX_BACKUP_PATHS) (first_of_each [] (sort_by_key lossy_lower profiles ≫= sources_of_profile)).
End profiles.

(** ** The loops as one pass over the usable folders *)
Section reference.
Context `{UnicodeData} `{ProfileApi}.

Fixpoint collect (l : list DiscoveredBackupSource) (d : Discovery) : bool * Discovery :=
  match l with
  | [] => (false, d)
  | s :: l =>
      if bool_decide (source_key s ∈ dv_seen d) then collect l d
      else
        let d := {| dv_seen := source_key s :: dv_seen d; dv_sources := dv_sources d ++ [s] |} in
        if Z.of_nat (length (dv_sources d)) =? MAX_BACKUP_PATHS then (true, d) else collect l d
  end.

Lemma collect_app a b d :
  collect (a ++ b) d = match collect a d with (true, d) => (true, d) | (false, d) => collect b d end.
Proof.
  revert d; induction a as [|s a IH]; intros d; cbn; [done|].
  destruct (bool_decide _); [apply IH|]. destruct (_ =? _); [done|apply IH].
Qed.

Lemma seen_elem_of key seen : existsb (str_eqb key) seen = bool_decide (key ∈ seen).
Proof.
  induction seen as [|k seen IH]; cbn; [done|]. rewrite IH. unfold str_eqb.
  repeat case_bool_decide; cbn; set_solver.
Qed.

Lemma discover_folders_collect profile folders d :
  discover_folders profile folders d =
  collect (filter (fun s => usable_folder (ds_path s) = true) (folder_source profile <$> folders)) d.
Proof.
  revert d; induction folders as [|f folders IH]; intros d; cbn [discover_folders fmap list_fmap]; [done|].
  rewrite filter_cons. unfold discover_folder.
  destruct (usable_folder (ds_path (folder_source profile f))) eqn:Hu; cbn [andb].
  - rewrite decide_True by done. cbn [collect]. rewrite seen_elem_of.
    destruct (bool_decide _); cbn [negb]; [apply IH|].
    cbn [dv_sources]. destruct (_ =? _); [done|apply IH].
  - rewrite decide_False by done. apply IH.
Qed.

Lemma discover_profiles_collect profiles d :
  discover_profiles profiles d = (collect (profiles ≫= sources_of_profile) d).2.
Proof.
  revert d; induction profiles as [|p profiles IH]; intros d; cbn [discover_profiles mbind list_bind]; [done|].
  rewrite collect_app. unfold sources_of_profile at 1, profile_usable.
  rewrite <- negb_andb. destruct (is_candidate_profile p && is_dir p); cbn [negb]; [|apply IH].
  rewrite discover_folders_collect. destruct (collect _ d) as [[|] d']; [done|apply IH].
Qed.

Lemma collect_first_of_each l d :
  (length (dv_sources d) < Z.to_nat MAX_BACKUP_PATHS)%nat ->
  dv_sources (collect l d).2 = take (Z.to_nat MAX_BACKUP_PATHS) (dv_sources d ++ first_of_each (dv_seen d) l).
Proof.
  revert d; induction l as [|s l IH]; intros d Hd; cbn [collect first_of_each].
  { rewrite app_nil_r, take_ge by lia. done. }
  destruct (bool_decide _); [by apply IH|]. cbn [dv_sources].
  destruct (Z.eqb_spec (Z.of_nat (length (dv_sources d ++ [s]))) MAX_BACKUP_PATHS) as [E|E].
  - cbn [snd dv_sources]. rewrite (cons_middle s (dv_sources d) (first_of_each _ l)), app_assoc.
    rewrite take_app_le, take_ge by lia. done.
  - rewrite IH; cbn [dv_sources dv_seen]; rewrite ?length_app in *; cbn [length] in *; [|lia].
    by rewrite <- app_assoc.
Qed.

Lemma discover_is_offered profiles : discover_from_profiles profiles = offered_sources profiles.
Proof.
  unfold discover_from_profiles. rewrite discover_profiles_collect, collect_first_of_each by (apply Nat.ltb_lt; reflexivity). done.
Qed.

(** ** The reference in terms of the folders *)
Lemma first_of_each_sublist seen l : sublist (first_of_each seen l) l.
Proof.
  revert seen; induction l as [|s l IH]; intros seen; cbn; [done|].
  destruct (bool_decide _); by constructor.
Qed.

Lemma first_of_each_NoDup seen l :
  NoDup (source_key <$> first_of_each seen l) /\ forall s, s ∈ first_of_each seen l -> source_key s ∉ seen.
Proof.
  revert seen; induction l as [|s l IH]; intros seen; cbn; [split; [constructor|set_solver]|].
  case_bool_decide as Hs; [apply IH|]. destruct (IH (source_key s :: seen)) as [Hn Hk]. split.
  - cbn. constructor; [|done]. intros (t & Ht & Hin)%list_elem_of_fmap. specialize (Hk t Hin). set_solver.
  - intros t [->|Ht]%elem_of_cons; [done|]. specialize (Hk t Ht). set_solver.
Qed.

Lemma first_of_each_complete seen l s :
  s ∈ l -> source_key s ∉ seen -> source_key s ∈ source_key <$> first_of_each seen l.
Proof.
  revert seen; induction l as [|t l IH]; intros seen Hs Hk; cbn; [set_solver|].
  apply elem_of_cons in Hs as [<-|Hs]; case_bool_decide; cbn; [done|set_solver|by apply IH|].
  destruct (decide (source_key s = source_key t)) as [->|Hne]; [set_solver|].
  apply elem_of_cons; right. apply IH; [done|set_solver].
Qed.

Lemma insert_by_key_Permutation {A} (key : A -> rstr) x l : insert_by_key key x l ≡ₚ x :: l.
Proof.
  induction l as [|y l IH]; cbn; [done|]. case_match; [|done]. rewrite IH. constructor.
Qed.

Lemma sort_by_key_Permutation {A} (key : A -> rstr) (l : list A) : sort_by_key key l ≡ₚ l.
Proof. induction l as [|x l IH]; cbn; [done|]. by rewrite insert_by_key_Permutation, IH. Qed.
End reference.

(** ** Profile paths and the folders in them *)

(** [to_lowercase] keeps a separator in place: it is not cased, and the only
    rule that looks at neighbours, the final sigma, does not look past it.
    A leading ASCII letter becomes its small letter. *)
Class LowercaseSeparators `{UnicodeData} : Prop :=
  { to_lowercase_backslash s : str_to_lowercase (backslash :: s) = backslash :: str_to_lowercase s;
    to_lowercase_letter c s : is_ascii_alphabetic c = true ->
      exists r, str_to_lowercase (c :: s) = to_ascii_lowercase c :: r }.

Lemma trim_null_no_null value : 0 ∉ trim_null value.
Proof.
  induction value as [|u value IH]; cbn; [set_solver|]. destruct (Z.eqb_spec u 0); set_solver.
Qed.

Lemma from_utf16_no_null units : 0 ∉ units -> forall s, from_utf16 units = Some s -> 0 ∉ s.
Proof.
  intros Hu. assert ((forall s, from_utf16 units = Some s -> 0 ∉ s)
                     /\ forall u s, u <> 0 -> from_utf16 (u :: units) = Some s -> 0 ∉ s) as [Hgoal _]; [|done].
  induction units as [|v units IH].
  { split; cbn; [intros s [= <-]; set_solver|]. intros u s Hne. repeat case_match; naive_solver set_solver. }
  apply not_elem_of_cons in Hu as [Hv Hu]. destruct (IH Hu) as [IH1 IH2]. split; [eauto|].
  intros u s Hne. cbn [from_utf16].
  destruct (in_range 0xD800 0xDBFF u) eqn:E1.
  - destruct (in_range 0xDC00 0xDFFF v) eqn:E2; [|done]. apply in_range_true in E1, E2.
    intros (r & Hr & ->)%fmap_Some. apply not_elem_of_cons. split; [lia|eauto].
  - destruct (in_range 0xDC00 0xDFFF u); [done|]. intros (r & Hr & ->)%fmap_Some.
    apply not_elem_of_cons. split; [done|]. apply (IH2 v); done.
Qed.

Lemma to_string_lossy_no_null s : 0 ∉ s -> 0 ∉ to_string_lossy s.
Proof.
  intros Hs (c & Hc & Hin)%list_elem_of_fmap. destruct (is_surrogate c); [done|]. by subst.
Qed.

Lemma standard_folder_relative f :
  f ∈ standard_folders ->
  is_absolute f.2 = false /\ parse_prefix f.2 = None /\ has_root f.2 = false /\ 0 ∉ f.2.
Proof.
  intros Hf. rewrite <- (bool_decide_eq_true (0 ∉ f.2)). revert Hf.
  unfold standard_folders. rewrite !elem_of_cons, elem_of_nil. naive_solver.
Qed.

(** Joining a standard folder only appends to the profile's path. *)
Lemma push_standard_folder base f :
  f ∈ standard_folders -> exists t, path_push base f.2 = base ++ t /\ 0 ∉ t.
Proof.
  intros (Ha & Hp & Hr & H0)%standard_folder_relative. unfold path_push. rewrite Ha, Hp, Hr. cbn.
  destruct (_ && _); [|by exists f.2]. exists (backslash :: f.2). set_solver.
Qed.

Definition as_backslash (c : Z) : Z := if c =? slash then backslash else c.

Lemma scan_share a b r :
  scan (lit "\\") (a :: b :: r) =
  if (backslash =? as_backslash a) && ((backslash =? as_backslash b) && true) then Some r else None.
Proof. reflexivity. Qed.

Lemma scan_share_single a : scan (lit "\\") [a] = None.
Proof.
  change (scan (lit "\\") [a]) with (if (backslash =? as_backslash a) && false then Some (@nil Z) else None).
  by rewrite andb_false_r.
Qed.

(** A path that starts with a drive letter, a colon and a separator. *)
Lemma drive_path d c r :
  is_ascii_alphabetic d = true -> is_sep c = true ->
  is_absolute (d :: 58 :: c :: r) = true /\ parse_prefix (d :: 58 :: c :: r) = Some (Disk (to_ascii_uppercase d)).
Proof.
  intros Hd Hc. assert (parse_prefix (d :: 58 :: c :: r) = Some (Disk (to_ascii_uppercase d))) as Hp.
  { unfold parse_prefix, parse_drive. rewrite scan_share, Hd. unfold as_backslash.
    destruct (Z.eqb_spec d slash) as [->|]; [done|].
    by destruct (Z.eqb_spec backslash d) as [<-|]. }
  split; [|done]. unfold is_absolute, has_root. rewrite Hp. cbn. by rewrite Hc.
Qed.

Lemma parse_drive_Some s x :
  parse_drive s = Some x -> exists d r, s = d :: 58 :: r /\ is_ascii_alphabetic d = true.
Proof.
  unfold parse_drive. repeat case_match; naive_solver.
Qed.

Section candidates.
Context `{UnicodeData} `{ProfileApi} `{!LowercaseSeparators}.

Lemma candidate_on_drive path :
  is_candidate_profile path = true ->
  exists d c r, path = d :: 58 :: c :: r /\ is_ascii_alphabetic d = true /\ is_sep c = true.
Proof.
  unfold is_candidate_profile. destruct (is_absolute path) eqn:Ha; [|done]. cbn [negb].
  intros [[[Hs%negb_true_iff _]%andb_true_iff _]%andb_true_iff _]%andb_true_iff.
  destruct (scan (lit "\\") path) as [rest|] eqn:Hscan.
  - exfalso. revert Hscan.
    destruct path as [|a [|b path]]; [done|by rewrite scan_share_single|].
    rewrite scan_share, andb_true_r. destruct (_ && _) eqn:E; [intros _|done].
    apply andb_true_iff in E as [Ea%Z.eqb_eq Eb%Z.eqb_eq]. revert Hs.
    enough (normalize_seps (to_string_lossy (a :: b :: path)) =
            backslash :: backslash :: normalize_seps (to_string_lossy path)) as ->
      by by rewrite !to_lowercase_backslash.
    unfold as_backslash in *. cbn. f_equal; [|f_equal].
    + destruct (Z.eqb_spec a slash) as [->|]; [done|]. by subst.
    + destruct (Z.eqb_spec b slash) as [->|]; [done|]. by subst.
  - revert Ha. unfold is_absolute, has_root, parse_prefix. rewrite Hscan. clear.
    destruct (parse_drive path) as [x|] eqn:Hd; cbn; [|by rewrite andb_false_r].
    apply parse_drive_Some in Hd as (d & r & -> & Halpha). rewrite orb_false_r, andb_true_r.
    destruct r as [|c r]; [done|]. intros Hc. by exists d, c, r.
Qed.

(** *** What a user profile is, without the code's test *)

(** [word] occurs in the small letters of a path, with either separator. *)
Definition mentions (path word : rstr) : Prop :=
  exists before after, str_to_lowercase (normalize_seps (to_string_lossy path)) = before ++ word ++ after.

(** On a drive letter, not one of the accounts Windows runs services
    under, and not a folder shared by all users. *)
Record user_profile (path : rstr) : Prop := {
  up_drive : exists drive sep rest, path = drive :: 58 :: sep :: rest /\ is_ascii_alphabetic drive = true /\ is_sep sep = true;
  up_system : ~ mentions path (lit "\windows\system32\config\systemprofile");
  up_service : ~ mentions path (lit "\windows\serviceprofiles\");
  up_name : forall name, file_name path = Some name ->
    str_to_lowercase (to_string_lossy name) ∉ [lit "default"; lit "default user"; lit "public"]
}.

Lemma str_contains_iff w s : str_contains w s = true <-> exists before after, s = before ++ w ++ after.
Proof.
  induction s as [|c s IH]; cbn [str_contains]; rewrite orb_true_iff, starts_with_true.
  - split; [intros [[r ->]|?]; [by exists [], r|done]|]. intros (before & after & E). left. destruct before; [|done]. by exists after.
  - rewrite IH. split.
    + intros [[r ->]|(before & after & ->)]; [by exists [], r|by exists (c :: before), after].
    + intros ([|d before] & after & E); [left; by exists after|right]. injection E as _ ->. eauto.
Qed.

Lemma drive_not_share drive sep rest :
  is_ascii_alphabetic drive = true ->
  starts_with (lit "\\") (str_to_lowercase (normalize_seps (to_string_lossy (drive :: 58 :: sep :: rest)))) = false.
Proof.
  intros Hd. assert (exists t, normalize_seps (to_string_lossy (drive :: 58 :: sep :: rest)) = drive :: t) as [t ->].
  { cbn. eexists. f_equal.
    assert (65 <= drive <= 90 \/ 97 <= drive <= 122) as Hr
      by (unfold is_ascii_alphabetic in Hd; apply orb_true_iff in Hd as [Hd|Hd]; apply in_range_true in Hd; lia).
    unfold is_surrogate, in_range, slash. repeat case_match; lia. }
  destruct (to_lowercase_letter drive t Hd) as [r ->].
  assert (backslash <> to_ascii_lowercase drive) as Hne.
  { unfold is_ascii_alphabetic in Hd. unfold to_ascii_lowercase, backslash.
    apply orb_true_iff in Hd as [Hd|Hd]; apply in_range_true in Hd; case_match; lia. }
  apply not_true_is_false. intros [q Hq]%starts_with_true. by injection Hq as ?.
Qed.

Lemma is_candidate_profile_iff path : is_candidate_profile path = true <-> user_profile path.
Proof.
  assert (forall w, negb (str_contains w (str_to_lowercase (normalize_seps (to_string_lossy path)))) = true
                    <-> ~ mentions path w) as Hw
    by (intros w; unfold mentions; by rewrite negb_true_iff, <- str_contains_iff, not_true_iff_false).
  assert (negb match lossy_lower <$> file_name path with
               | Some name => str_eqb name (lit "default") || str_eqb name (lit "default user") || str_eqb name (lit "public")
               | None => false
               end = true
          <-> forall name, file_name path = Some name ->
                str_to_lowercase (to_string_lossy name) ∉ [lit "default"; lit "default user"; lit "public"]) as Hn.
  { rewrite negb_true_iff. destruct (file_name path) as [name|]; cbn [fmap option_fmap option_map]; [|naive_solver].
    fold (lossy_lower name). rewrite !orb_false_iff. unfold str_eqb. rewrite !bool_decide_eq_false. split.
    - intros [[? ?] ?] ? [= <-]. fold (lossy_lower name). rewrite !elem_of_cons, elem_of_nil. naive_solver.
    - intros Hnot. specialize (Hnot name eq_refl). fold (lossy_lower name) in Hnot.
      rewrite !elem_of_cons, elem_of_nil in Hnot. naive_solver. }
  split.
  - intros Hc. pose proof (candidate_on_drive _ Hc) as (d & c & r & Hpath & Hd & Hsep).
    unfold is_candidate_profile in Hc. destruct (is_absolute path); [|done]. cbn [negb] in Hc.
    rewrite !andb_true_iff, !Hw, Hn in Hc. destruct Hc as [[[_ ?] ?] ?]. split; eauto 8.
  - intros [(d & c & r & -> & Hd & Hsep) Hs Hv Hname]. unfold is_candidate_profile.
    rewrite (proj1 (drive_path d c r Hd Hsep)). cbn [negb]. rewrite !andb_true_iff, !Hw, Hn.
    rewrite drive_not_share by done. done.
Qed.

Lemma usable_folder_is_valid profile f :
  is_candidate_profile profile = true -> 0 ∉ profile -> f ∈ standard_folders ->
  usable_folder (path_push profile f.2) = true -> validate_backup_path (path_push profile f.2) = Ok ().
Proof.
  intros (d & c & r & -> & Hd & Hc)%candidate_on_drive Hnull Hf [_ Hlen%Z.leb_le]%andb_true_iff.
  destruct (push_standard_folder (d :: 58 :: c :: r) f Hf) as (t & Ht & Htn). rewrite Ht in *.
  destruct (drive_path d c (r ++ t) Hd Hc) as [Habs Hp]. apply validate_backup_path_Ok.
  split_and!; [done|done|done| |by eauto]. apply to_string_lossy_no_null. set_solver.
Qed.

(** ** What the registry can name *)
Lemma read_profile_path_no_null subkey path : read_profile_path subkey = Ok path -> 0 ∉ path.
Proof.
  unfold read_profile_path, expand_environment. intros (n & _ & Hr)%bind_Ok.
  destruct (_ || _); [done|]. apply bind_Ok in Hr as (units & _ & (value & _ & Hr)%bind_Ok).
  destruct (_ || _); [done|]. destruct (expand_into _ _) as [written expanded]. destruct (_ || _); [done|].
  apply ok_or_Ok in Hr. eapply from_utf16_no_null; [|exact Hr]. apply trim_null_no_null.
Qed.

Lemma enumerate_from_Ok remaining index profiles :
  enumerate_from remaining index = Ok profiles ->
  (length profiles <= remaining)%nat
  /\ Forall (fun p => is_candidate_profile p = true /\ exists name, read_profile_path name = Ok p) profiles.
Proof.
  revert index profiles; induction remaining as [|remaining IH]; intros index profiles; cbn;
    [intros [= <-]; by split|].
  destruct (reg_enum index) as [units| |e]; [|intros [= <-]; split; [cbn; lia|done]|done].
  intros (name & _ & (rest & (Hlen & Hall)%IH & Hr)%bind_Ok)%bind_Ok.
  destruct (read_profile_path name) as [value|e] eqn:Hv; simplify_eq/=; [|split; [lia|done]].
  destruct (is_candidate_profile value) eqn:Hc; simplify_eq/=; (split; [cbn; lia|]); [|done].
  constructor; [|done]. eauto.
Qed.
End candidates.

(** ** The offered folders *)
Section properties.
Context `{UnicodeData} `{ProfileApi}.

(** What makes a source a folder that discovery offers for these profiles. *)
Definition code_source (profiles : list rstr) (s : DiscoveredBackupSource) : Prop :=
  exists profile f, profile ∈ profiles /\ profile_usable profile = true /\ f ∈ standard_folders
    /\ s = folder_source profile f /\ usable_folder (ds_path s) = true.

(** The same, without the code's own tests and lists. *)
Definition standard_source (profiles : list rstr) (s : DiscoveredBackupSource) : Prop :=
  exists profile folder, profile ∈ profiles /\ user_profile profile /\ is_dir profile = true
    /\ (ds_kind s, folder) ∈ [(Desktop, lit "Desktop"); (Documents, lit "Documents"); (Pictures, lit "Pictures");
                              (Videos, lit "Videos"); (Music, lit "Music")]
    /\ ds_profile_name s = from_option to_string_lossy (lit "User") (file_name profile)
    /\ ds_path s = path_push profile folder
    /\ is_dir (ds_path s) = true /\ utf16_count (to_string_lossy (ds_path s)) <= 32767.

Lemma standard_source_iff `{!LowercaseSeparators} profiles s : code_source profiles s <-> standard_source profiles s.
Proof.
  unfold code_source, standard_source, profile_usable, usable_folder, folder_source, profile_name_of. split.
  - intros (profile & [kind folder] & Hp & [Hc%is_candidate_profile_iff Hdir]%andb_true_iff & Hf & -> & [Hd Hl]%andb_true_iff).
    exists profile, folder. cbn in *. apply Z.leb_le in Hl. split_and!; try done; by destruct (file_name profile).
  - intros (profile & folder & Hp & Hc%is_candidate_profile_iff & Hdir & Hf & Hn & Hpath & Hd & Hl).
    exists profile, (ds_kind s, folder). destruct s as [name kind path]. cbn in *. subst.
    rewrite Hc, Hdir, Hd, (proj2 (Z.leb_le _ MAX_PATH_CHARACTERS)) by (unfold MAX_PATH_CHARACTERS; lia).
    split_and!; try done; by destruct (file_name profile).
Qed.

Lemma elem_of_sources_of_profile profiles s :
  s ∈ profiles ≫= sources_of_profile <-> code_source profiles s.
Proof.
  rewrite list_elem_of_bind. unfold sources_of_profile, code_source. split.
  - intros (profile & Hs & Hp). destruct (profile_usable profile) eqn:Hu; [|set_solver].
    apply list_elem_of_filter in Hs as [Hus (f & -> & Hf)%list_elem_of_fmap]. by exists profile, f.
  - intros (profile & f & Hp & Hu & Hf & -> & Hus). exists profile. rewrite Hu. split; [|done].
    apply list_elem_of_filter. split; [done|]. apply list_elem_of_fmap. eauto.
Qed.

Lemma code_source_sorted profiles s :
  code_source (sort_by_key lossy_lower profiles) s <-> code_source profiles s.
Proof. unfold code_source. by setoid_rewrite sort_by_key_Permutation. Qed.

Lemma offered_NoDup profiles : NoDup (source_key <$> offered_sources profiles).
Proof.
  unfold offered_sources. rewrite fmap_take. eapply sublist_NoDup; [|apply sublist_take].
  apply first_of_each_NoDup.
Qed.

Lemma offered_standard profiles s : s ∈ offered_sources profiles -> code_source profiles s.
Proof.
  intros Hs. apply code_source_sorted, elem_of_sources_of_profile.
  eapply elem_of_sublist; [exact Hs|]. etrans; [apply sublist_take|apply first_of_each_sublist].
Qed.

(** C39: of the given profile paths, discovery offers exactly the folders
    Desktop, Documents, Pictures, Videos and Music that exist (and whose
    path is not too long) in every existing profile that is on a drive
    letter, does not lie in the system's or a service's profile directory
    and is not named Default, Default User or Public; at most 128 of them,
    no path twice up to letter case, and none left out, up to letter case,
    unless that limit was reached. *)
Theorem discovery_offers_every_folder `{!LowercaseSeparators} profiles :
  let sources := discover_from_profiles profiles in
  let key s := str_to_lowercase (to_string_lossy (ds_path s)) in
  (forall s, s ∈ sources -> standard_source profiles s)
  /\ (length sources <= 128)%nat
  /\ NoDup (key <$> sources)
  /\ ((length sources < 128)%nat -> forall s, standard_source profiles s -> key s ∈ key <$> sources).
Proof.
  cbn. rewrite discover_is_offered. split_and!; [intros s Hs; by apply standard_source_iff, offered_standard| |apply offered_NoDup|].
  - unfold offered_sources, MAX_BACKUP_PATHS. rewrite length_take. lia.
  - unfold offered_sources, MAX_BACKUP_PATHS. rewrite length_take. intros Hlen s Hs%standard_source_iff.
    rewrite take_ge by lia. apply first_of_each_complete; [|set_solver].
    by apply elem_of_sources_of_profile, code_source_sorted.
Qed.

Lemma deduplicate_by_id key seen l :
  NoDup (key <$> l) -> (forall x, x ∈ l -> key x ∉ seen) -> deduplicate_by key seen l = l.
Proof.
  revert seen; induction l as [|x l IH]; intros seen Hn Hs; cbn in *; [done|].
  apply NoDup_cons in Hn as [Hx Hn]. rewrite seen_elem_of, bool_decide_eq_false_2 by (apply Hs; set_solver).
  f_equal. apply IH; [done|]. intros y Hy [E|Hin]%elem_of_cons; [|apply (Hs y); set_solver].
  apply Hx. rewrite <- E. by apply list_elem_of_fmap_2.
Qed.

(** A client that takes over every folder the service offers sends an
    acceptable change: each path passes the validation of backup paths, they
    fit in the configuration, and the service's removal of duplicates keeps
    the list as it is. *)
Theorem discovered_sources_are_acceptable `{!LowercaseSeparators} sources :
  discover_backup_sources = Ok sources ->
  Forall (fun s => validate_backup_path (ds_path s) = Ok ()) sources
  /\ Z.of_nat (length sources) <= MAX_BACKUP_PATHS
  /\ deduplicate_paths (ds_path <$> sources) = ds_path <$> sources.
Proof.
  unfold discover_backup_sources, enumerate_profile_paths. destruct reg_open; [done|].
  intros (profiles & [_ Hall]%enumerate_from_Ok & [= <-])%bind_Ok. rewrite discover_is_offered. split_and!.
  - apply Forall_forall. intros s (profile & f & Hp & _ & Hf & -> & Hu)%offered_standard.
    rewrite Forall_forall in Hall. destruct (Hall profile) as [Hc [name Hr]]; [done|].
    eapply usable_folder_is_valid; eauto using read_profile_path_no_null.
  - unfold offered_sources, MAX_BACKUP_PATHS. rewrite length_take. lia.
  - apply deduplicate_by_id; [|set_solver]. rewrite <- list_fmap_compose. apply offered_NoDup.
Qed.
End properties.

(** ** A machine with the profiles of a user, of the system and of guests *)
Module ProfilesWitness.
#[local] Existing Instance ResticWitness.ascii_unicode.
#[local] Instance ascii_separators : LowercaseSeparators.
Proof. split; [done|]. intros c s _. by eexists. Qed.

Definition keys : list rstr := [lit "S-1-5-18"; lit "S-1-5-21-1001"; lit "S-1-5-21-1002"; lit "S-1-5-21-1003"].
Definition image_path (subkey : list Z) : list Z :=
  if bool_decide (subkey = wide_null (lit "S-1-5-18")) then wide_null (lit "%SystemRoot%\system32\config\systemprofile")
  else if bool_decide (subkey = wide_null (lit "S-1-5-21-1001")) then wide_null (lit "D:\Profiles\Yann")
  else if bool_decide (subkey = wide_null (lit "S-1-5-21-1002")) then wide_null (lit "C:\Users\Public")
  else wide_null (lit "D:/PROFILES/YANN").
Definition expansion (value : list Z) : list Z :=
  if bool_decide (value = wide_null (lit "%SystemRoot%\system32\config\systemprofile"))
  then wide_null (lit "C:\Windows\System32\config\systemprofile") else value.

#[local] Instance machine : ProfileApi := {|
  reg_open := None;
  reg_enum index := match keys !! index with Some name => Enum_Name (encode_utf16 name) | None => Enum_NoMoreItems end;
  reg_value_size subkey := Ok (2 * Z.of_nat (length (image_path subkey)));
  reg_value subkey _ := Ok (image_path subkey);
  expand_size value := Z.of_nat (length (expansion value));
  expand_into value _ := (Z.of_nat (length (expansion value)), expansion value);
  last_error := 0;
  is_dir path := negb (str_contains (lit "Music") path) |}.

(** Paths are compared up to case, not up to the separator they are spelled with. *)
Example offered :
  ds_path <$> match discover_backup_sources with Ok sources => sources | Err _ => [] end =
  lit <$> ["D:/PROFILES/YANN\Desktop"; "D:/PROFILES/YANN\Documents"; "D:/PROFILES/YANN\Pictures";
           "D:/PROFILES/YANN\Videos"; "D:\Profiles\Yann\Desktop"; "D:\Profiles\Yann\Documents";
           "D:\Profiles\Yann\Pictures"; "D:\Profiles\Yann\Videos"].
Proof. vm_compute. reflexivity. Qed.

(** The user's documents are offered, the music that is not there is not. *)
Lemma discovery_witness :
  let sources := discover_from_profiles [lit "D:\Profiles\Yann"; lit "C:\Users\Public"] in
  (lit "d:\profiles\yann\documents") ∈ (fun s => str_to_lowercase (to_string_lossy (ds_path s))) <$> sources
  /\ NoDup ((fun s => str_to_lowercase (to_string_lossy (ds_path s))) <$> sources).
Proof.
  destruct (discovery_offers_every_folder [lit "D:\Profiles\Yann"; lit "C:\Users\Public"]) as (_ & _ & Hn & Hall).
  split; [|exact Hn].
  apply (Hall ltac:(vm_compute; lia)
           {| ds_profile_name := lit "Yann"; ds_kind := Documents; ds_path := lit "D:\Profiles\Yann\Documents" |}).
  exists (lit "D:\Profiles\Yann"), (lit "Documents"). split; [left|]. split.
  { split.
    - eexists 68, 92, _. split; [reflexivity|]. split; reflexivity.
    - intros Hm. apply (str_contains_iff (lit "\windows\system32\config\systemprofile")) in Hm. vm_compute in Hm. discriminate Hm.
    - intros Hm. apply (str_contains_iff (lit "\windows\serviceprofiles\")) in Hm. vm_compute in Hm. discriminate Hm.
    - intros name E. vm_compute in E. injection E as <-. apply (bool_decide_unpack _). vm_compute. exact I. }
  split; [reflexivity|]. split; [right; left|]. split; [reflexivity|]. split; [reflexivity|].
  split; [reflexivity|]. vm_compute. discriminate.
Defined.

(** The hypothesis of [discovered_sources_are_acceptable] holds there. *)
Lemma discovered_sources_witness :
  exists sources, discover_backup_sources = Ok sources
  /\ Forall (fun s => validate_backup_path (ds_path s) = Ok ()) sources
  /\ Z.of_nat (length sources) <= MAX_BACKUP_PATHS
  /\ deduplicate_paths (ds_path <$> sources) = ds_path <$> sources.
Proof.
  eexists. split; [vm_compute; reflexivity|]. apply discovered_sources_are_acceptable. vm_compute. reflexivity.
Defined.
End ProfilesWitness.
