(* ===== verification/Service.v ===== *)
(** * The service as a state machine

    Every operation of the runtime as a step of one transition system
    ([apps/resticpal-service/src/runtime/*.rs], driven by [main.rs]), what
    holds in every reachable state, and what each request may change. *)
From stdpp Require Import base option list gmap strings.
From S2P Require Import Prelude RustStd Chrono Crates Config Status Schedule Policy Restic Protocol Outcome.
From S2P Require Import ServiceState Diagnostics History Credentials Management Updater Sources PolicyCache.
From S2P Require Import Runtime Scheduler Lifecycle Enrollment Ipc.

(** ** What the helpers leave alone *)
Section frames.
Context `{Chrono} `{UrlCrate} `{CryptoCrates} `{Dpapi} `{UnicodeData} `{Filesystem} `{Messages} `{Base64Standard}.
Context `{Serde LocalConfig} `{Serde PersistedScheduleState} `{Serde DiagnosticEntry} `{Serde CachedManifest}.

(** The parts of a runtime that decide what a backup would do. *)
Record same_core (w w' : ServiceRuntime) : Prop := {
  sc_config : sr_config w' = sr_config w;
  sc_local : sr_local_config w' = sr_local_config w;
  sc_fields : sr_field_resolutions w' = sr_field_resolutions w;
  sc_state : sr_state w' = sr_state w
}.

#[global] Instance same_core_preorder : PreOrder same_core.
Proof. split; [done|]. intros w1 w2 w3 [] []. split; congruence. Qed.

Lemma record_diagnostic_core env level id message code w : same_core w (record_diagnostic env level id message code w).
Proof. unfold record_diagnostic. by destruct (sr_diagnostics w). Qed.
Lemma send_core event w : same_core w (send event w).2.
Proof. unfold send. by destruct (sr_receiver_alive w). Qed.
Lemma save_config_core env c w : same_core w (save_config env c w).2.
Proof. unfold save_config. destruct (sr_config_store w); [|done]. by destruct (config_save _ _ _). Qed.
Lemma save_state_core env s w : same_core w (save_state env s w).2.
Proof. unfold save_state. destruct (sr_state_store w); [|done]. by destruct (state_save _ _ _). Qed.
Lemma save_cache_core env m d w : same_core w (save_cache env m d w).
Proof. unfold save_cache. destruct (sr_config_store w); [|done]. by destruct (cache_save _ _ _ _ _). Qed.
Lemma remove_cache_core env w : same_core w (remove_cache env w).
Proof. unfold remove_cache. destruct (sr_config_store w); [|done]. by destruct (remove_management_cache _ _). Qed.
Lemma cleanup_credentials_core env refs w : same_core w (cleanup_credentials env refs w).
Proof. unfold cleanup_credentials. by destruct (sr_credential_store w). Qed.
Lemma credential_store_core files w : same_core w (set_sr_credential_store files w).
Proof. done. Qed.

Lemma save_state_eq env s w b w' : save_state env s w = (b, w') -> same_core w w'.
Proof. intros E. pose proof (save_state_core env s w) as Hs. by rewrite E in Hs. Qed.
Lemma save_config_eq env c w b w' : save_config env c w = (b, w') -> same_core w w'.
Proof. intros E. pose proof (save_config_core env c w) as Hs. by rewrite E in Hs. Qed.
Lemma send_eq event w b w' : send event w = (b, w') -> same_core w w'.
Proof. intros E. pose proof (send_core event w) as Hs. by rewrite E in Hs. Qed.

Lemma store_secrets_core env updates candidate effective w :
  match store_secrets env updates candidate effective w with
  | Ok (_, _, _, _, w') => same_core w w'
  | Err w' => same_core w w'
  end.
Proof.
  unfold store_secrets. destruct updates as [|u updates]; [done|]. destruct (sr_credential_store w); [|done].
  by destruct (apply_secret_updates _ _ _ _).
Qed.

(** [apply_configuration_status] only touches the status and the pending requests. *)
Record same_work (s s' : RuntimeState) : Prop := {
  sw_operation : rt_repository_operation s' = rt_repository_operation s;
  sw_service : rt_service_state s' = rt_service_state s;
  sw_management : rt_management_operation_active s' = rt_management_operation_active s;
  sw_install : rt_update_install_active s' = rt_update_install_active s
}.
#[global] Instance same_work_preorder : PreOrder same_work.
Proof. split; [done|]. intros s1 s2 s3 [] []. split; congruence. Qed.

Lemma apply_configuration_status_work config now s s' :
  apply_configuration_status config now s = Some s' -> same_work s s'.
Proof.
  unfold apply_configuration_status. destruct (is_configured config); [|by intros [= <-]].
  destruct (negb _); [by intros [= <-]|]. destruct (completion_deadline _ _ _); cbn; [|done].
  intros [= <-]. by repeat case_match.
Qed.

Lemma restore_held_status_work now s : same_work s (restore_held_status now s).
Proof. unfold restore_held_status. by destruct (rt_update_hold_previous_status s) as [[]|]. Qed.

(** ** The invariant

    The configuration is valid, and a repository that counts as ready has
    been verified for exactly the connection in use, unless that is a
    connection which is exempt, see [reachable]. *)
Class Exempt := exempt : option RepositoryIdentity.
Context {exemption : Exempt}.
Definition verified_connection (s : RuntimeState) (config : EffectiveConfig) : Prop :=
  repository_operation_allows_backup (rt_repository_operation s) = true ->
  repository_requires_validation (rt_service_state s) config = false \/ exempt = Some (identity_of config).

Record service_ok (w : ServiceRuntime) : Prop := {
  ok_config : validate (sr_config w) = Ok ();
  ok_verified : verified_connection (sr_state w) (sr_config w)
}.

Lemma service_ok_core w w' : same_core w w' -> service_ok w -> service_ok w'.
Proof. intros [Hc _ _ Hs] [? ?]. split; by rewrite ?Hs, ?Hc. Qed.

Lemma verified_same_work s s' config : same_work s s' -> verified_connection s config -> verified_connection s' config.
Proof. intros [Ho Hs _ _]. unfold verified_connection. by rewrite Ho, Hs. Qed.

(** Only the connection matters. *)
Lemma requires_validation_connection s c c' :
  ec_repository c' = ec_repository c -> repository_requires_validation s c' = repository_requires_validation s c.
Proof. unfold repository_requires_validation, identity_of. by intros ->. Qed.

Lemma verified_connection_config s c c' :
  identity_of c' = identity_of c -> verified_connection s c -> verified_connection s c'.
Proof.
  unfold verified_connection, repository_requires_validation. intros Hid Hv Ho. rewrite Hid.
  destruct (Hv Ho) as [E|E]; [left|by right]. rewrite <- E. injection Hid as Hu _ _. by rewrite Hu.
Qed.

(** A validation requirement satisfies it trivially. *)
Lemma validation_required_ok s config :
  rt_repository_operation s = RO_ValidationRequired -> verified_connection s config.
Proof. unfold verified_connection. by intros ->. Qed.

Lemma validated_interval c : validate c = Ok () -> 0 <= sc_interval_hours (ec_schedule c) <= u32_max.
Proof. intros Hv%validate_iff. destruct Hv. unfold u32_max. lia. Qed.

Lemma validate_updates u c : validate (set_ec_updates u c) = validate c.
Proof. done. Qed.
End frames.
#[export] Hint Resolve record_diagnostic_core send_core save_config_core save_state_core save_cache_core remove_cache_core
  cleanup_credentials_core credential_store_core : resticpal.

(** ** Every operation preserves the invariant *)
Section preservation.
Context `{Chrono} `{UrlCrate} `{CryptoCrates} `{Dpapi} `{UnicodeData} `{Filesystem} `{Messages} `{Base64Standard}.
Context `{Serde LocalConfig} `{Serde PersistedScheduleState} `{Serde DiagnosticEntry} `{Serde CachedManifest}.
Context {exemption : Exempt}.

Lemma service_ok_state w s :
  service_ok w -> same_work (sr_state w) s -> service_ok (set_sr_state s w).
Proof. intros [Hc Hv] Hs. split; [done|]. by eapply verified_same_work. Qed.

(** *** Scheduling *)
Lemma evaluate_state_work config now conditions s a s' :
  evaluate_state config now conditions s = Some (a, s') -> same_work s s'.
Proof.
  unfold evaluate_state. destruct (rt_update_install_active s).
  { destruct (duration_seconds _); cbn; [|done]. destruct (datetime_add _ _); cbn; [|done]. by intros [= <- <-]. }
  destruct (held_at s now); [by intros [= <- <-]|].
  assert (same_work s (release_hold now s)) as Hr.
  { unfold release_hold. case_bool_decide; [|done]. transitivity (set_rt_update_hold_until None s); [done|].
    apply restore_held_status_work. }
  set (s1 := release_hold now s) in *.
  destruct (negb (is_configured config)); [by intros [= <- <-]|].
  destruct (rt_management_operation_active s1); [by intros [= <- <-]|].
  destruct (negb _); [by intros [= <- <-]|].
  destruct (decide_schedule _ _) as [d|]; cbn; [|done]. intros [= Hf]. transitivity s1; [done|].
  destruct d; cbn in Hf; injection Hf as <- <-; try done. by destruct (is_waiting _).
Qed.

Lemma evaluate_schedule_ok now conditions w a w' :
  service_ok w -> evaluate_schedule now conditions w = Some (a, w') -> service_ok w'.
Proof.
  intros Hw. unfold evaluate_schedule. destruct (evaluate_state _ _ _ _) as [[a' s]|] eqn:E; cbn; [|done].
  intros [= <- <-]. apply service_ok_state; [done|]. by eapply evaluate_state_work.
Qed.

(** *** Finished work *)
Lemma finish_update_install_ok env outcome w : service_ok w -> service_ok (finish_update_install env outcome w).
Proof.
  intros Hw. unfold finish_update_install.
  destruct outcome; (eapply service_ok_core; [apply record_diagnostic_core|]); destruct Hw as [Hc Hv];
    (split; [exact Hc|]); unfold verified_connection; cbn.
  - exact Hv.
  - destruct (restore_held_status_work (env_now env 0)
      (set_rt_update_hold_until None (set_rt_update_install_active false (sr_state w)))) as [-> -> _ _]. exact Hv.
  - exact Hv.
Qed.

Lemma update_progress_ok progress w : service_ok w -> service_ok (update_progress progress w).
Proof. intros Hw. unfold update_progress. destruct (is_running _); [|done]. by apply service_ok_state. Qed.

Lemma begin_retention_ok env now w plan w' :
  service_ok w -> begin_retention env now w = Some (plan, w') -> service_ok w'.
Proof.
  intros Hw. unfold begin_retention. destruct (negb _); [by intros [= <- <-]|].
  destruct (duration_days _); cbn; [|done]. intros [= <- <-].
  eapply service_ok_core; [apply record_diagnostic_core|]. by apply service_ok_state.
Qed.

Lemma finish_retention_ok env backup retention now w o w' :
  service_ok w -> finish_retention env backup retention now w = (o, w') -> service_ok w'.
Proof.
  intros Hw. unfold finish_retention.
  assert (forall ss, repository_requires_validation ss (sr_config w)
            = repository_requires_validation (rt_service_state (sr_state w)) (sr_config w) ->
          service_ok (set_sr_state (set_rt_service_state ss (sr_state w)) w)) as Hss.
  { intros ss Heq. destruct Hw as [Hc Hv]. split; [done|]. unfold verified_connection in *. cbn. by rewrite Heq. }
  destruct retention as [pruned|code|]; destruct (save_state _ _ _) as [saved w1] eqn:E;
    apply save_state_eq in E; (eapply service_ok_core in E; [|apply Hss; by try destruct pruned]).
  - destruct (negb saved); intros [= <- <-]; by eapply service_ok_core; [apply record_diagnostic_core|].
  - intros [= <- <-]. by eapply service_ok_core; [apply record_diagnostic_core|].
  - intros [= <- <-]. by eapply service_ok_core; [apply record_diagnostic_core|].
Qed.

Lemma finish_backup_state_work now hours outcome s s' :
  finish_backup_state now hours outcome s = Some s' ->
  rt_repository_operation s' = rt_repository_operation s
  /\ forall config, repository_requires_validation (rt_service_state s') config
                    = repository_requires_validation (rt_service_state s) config.
Proof.
  unfold finish_backup_state. destruct (outcome_is_success outcome).
  - destruct (completion_deadline _ _ _); cbn; [|done]. by intros [= <-].
  - destruct (duration_minutes _); cbn; [|done]. destruct (datetime_add _ _); cbn; [|done].
    intros [= <-]. by destruct (bo_kind outcome).
Qed.

Lemma finish_backup_ok env now outcome w w' :
  service_ok w -> finish_backup_at env now outcome w = Some w' -> service_ok w'.
Proof.
  intros [Hc Hv]. unfold finish_backup_at.
  destruct (finish_backup_state _ _ _ _) as [s|] eqn:E; cbn [mbind option_bind]; [|done].
  apply finish_backup_state_work in E as [Ho Hr]. intros [= <-].
  assert (service_ok (set_sr_state s w)) as Hs.
  { split; [done|]. unfold verified_connection in *. cbn. by rewrite Ho, Hr. }
  set (w1 := match sr_history_store _ with None => _ | Some _ => _ end).
  assert (same_core (set_sr_state s w) w1) as Hw1.
  { subst w1. by destruct (sr_history_store _). }
  set (w2 := if outcome_is_success outcome then _ else w1).
  assert (same_core w1 w2) as Hw2.
  { subst w2. destruct (outcome_is_success outcome); [apply save_state_core|done]. }
  apply (service_ok_core w2); [|by eapply service_ok_core; [exact Hw2|]; eapply service_ok_core].
  destruct (bo_kind outcome); apply record_diagnostic_core.
Qed.

Lemma marked_verified s config t :
  repository_requires_validation (mark_repository_verified s config t) config = false.
Proof. apply requires_validation_spec. by right. Qed.

Lemma finish_repository_operation_ok env operation outcome w w' :
  service_ok w -> finish_repository_operation env operation outcome w = Some w' -> service_ok w'.
Proof.
  intros [Hc Hv]. unfold finish_repository_operation. case_bool_decide; cbn [negb]; [|by intros [= <-]].
  assert (forall status service w1, same_core w w1 ->
    verified_connection (set_rt_repository_operation status (set_rt_service_state service (sr_state w))) (sr_config w) ->
    (s ← apply_configuration_status (sr_config w) (env_now env 0)
           (set_rt_repository_operation status (set_rt_service_state service (sr_state w)));
     Some (match outcome with
           | Repo_Succeeded => record_diagnostic env Level_Information "repository.operation_succeeded"
               "Repository operation completed successfully." None (set_sr_state s w1)
           | Repo_Failed code => record_diagnostic env Level_Error "repository.operation_failed"
               "Repository operation failed." (Some code) (set_sr_state s w1)
           | Repo_Cancelled => record_diagnostic env Level_Information "repository.operation_cancelled"
               "Repository operation was cancelled." None (set_sr_state s w1)
           end)) = Some w' -> service_ok w') as Hfinish.
  { intros status service w1 [Hc1 _ _ _] Hver. destruct (apply_configuration_status _ _ _) as [s|] eqn:E; cbn; [|done].
    apply apply_configuration_status_work in E. intros [= <-].
    apply (service_ok_core (set_sr_state s w1)); [destruct outcome; apply record_diagnostic_core|].
    split; cbn; rewrite Hc1; [done|]. by eapply verified_same_work. }
  destruct outcome as [|code|].
  - destruct (save_state _ _ _) as [saved w1] eqn:E. apply save_state_eq in E. apply Hfinish; [done|].
    destruct saved; intros Ho; [left; apply marked_verified|done].
  - by apply Hfinish.
  - by apply Hfinish.
Qed.
End preservation.

(** [skip_guards E] goes past the early returns of a handler that leave the
    runtime unchanged. *)
Ltac skip_guards E :=
  repeat (cbv zeta in E;
          match type of E with
          | (if ?c then Some (_, _) else _) = _ => destruct c; [injection E as <- <-; assumption|]
          | (if ?c then (_, _) else _) = _ => destruct c; [injection E as <- <-; assumption|]
          end).

Section requests.
Context `{Chrono} `{UrlCrate} `{CryptoCrates} `{Dpapi} `{UnicodeData} `{Filesystem} `{Messages} `{Base64Standard}.
Context `{Serde LocalConfig} `{Serde PersistedScheduleState} `{Serde DiagnosticEntry} `{Serde CachedManifest}.
Context {exemption : Exempt}.

Lemma begin_repository_operation_ok env operation identity w p w' :
  service_ok w -> begin_repository_operation env operation identity w = (p, w') -> service_ok w'.
Proof.
  intros Hw E. unfold begin_repository_operation in E. skip_guards E.
  destruct (save_state _ _ _) as [saved w1] eqn:Es in E. apply save_state_eq in Es as [Hc _ _ _].
  assert (forall s, repository_operation_allows_backup (rt_repository_operation s) = false ->
                    service_ok (set_sr_state s w1)) as Hs.
  { intros s Hs. split; cbn; [rewrite Hc; apply Hw|]. intros Ho. by rewrite Ho in Hs. }
  destruct (negb saved); [injection E as <- <-; by apply Hs|].
  match type of E with context [send ?e ?x] => destruct (send e x) as [[] w2] eqn:Ee in E end;
    apply send_eq in Ee as Hcore; injection E as <- <-.
  - eapply service_ok_core; [exact Hcore|]. apply Hs. by destruct (is_configured _).
  - destruct Hcore as [Hc2 _ _ _]. split; cbn; [rewrite Hc2; cbn; rewrite Hc; apply Hw|done].
Qed.

Lemma place_hold_work now deadline s : same_work s (place_hold now deadline s).
Proof. unfold place_hold. by destruct (rt_update_hold_previous_status s). Qed.

Lemma prepare_for_update_ok env hold identity w p w' :
  service_ok w -> prepare_for_update env hold identity w = Some (p, w') -> service_ok w'.
Proof.
  intros Hw E. unfold prepare_for_update in E. skip_guards E.
  destruct (hold_deadline _ _); cbn in E; [|done]. injection E as <- <-. apply service_ok_state; [done|].
  apply place_hold_work.
Qed.

(** Installing the update flag does not concern the repository. *)
Lemma service_ok_repository w s :
  service_ok w -> rt_repository_operation s = rt_repository_operation (sr_state w) ->
  rt_service_state s = rt_service_state (sr_state w) -> service_ok (set_sr_state s w).
Proof. intros [Hc Hv] Ho Hs. split; [done|]. unfold verified_connection in *. cbn. by rewrite Ho, Hs. Qed.

Lemma begin_update_install_ok env package identity w p w' :
  service_ok w -> begin_update_install env package identity w = Some (p, w') -> service_ok w'.
Proof.
  intros Hw E. unfold begin_update_install in E. skip_guards E.
  destruct (hold_deadline _ _) as [d|]; cbn [mbind option_bind] in E; [|done].
  pose proof (place_hold_work (env_now env 0) d (set_rt_update_install_active true (sr_state w))) as [Ho Hs _ _].
  set (held := place_hold _ _ _) in *. clearbody held.
  destruct (send _ _) as [[] w1] eqn:Ee in E; apply send_eq in Ee as Hcore; injection E as <- <-.
  - eapply service_ok_core; [exact Hcore|]. by apply service_ok_repository.
  - pose proof (restore_held_status_work (env_now env 0)
      (set_rt_update_hold_until None (set_rt_update_install_active false held))) as [Ho' Hs' _ _].
    destruct Hcore as [Hc _ _ _]. split; cbn; rewrite Hc; [apply Hw|]. unfold verified_connection. cbn.
    rewrite Ho', Hs'. cbn. rewrite Ho, Hs. apply Hw.
Qed.

Lemma update_update_settings_ok env b identity w p w' :
  service_ok w -> update_update_settings env b identity w = (p, w') -> service_ok w'.
Proof.
  intros Hw E. unfold update_update_settings in E. skip_guards E.
  destruct (save_config _ _ _) as [saved w1] eqn:Es in E. apply save_config_eq in Es as Hcore.
  eapply service_ok_core in Hw; [|exact Hcore]. destruct (negb saved); injection E as <- <-; [done|].
  destruct Hw as [Hc Hv]. split; [exact Hc|]. eapply verified_connection_config; [|exact Hv]. done.
Qed.

(** Switching to a valid configuration with the same connection. *)
Lemma service_ok_switch w candidate effective s :
  service_ok w -> validate effective = Ok () -> verified_connection s effective ->
  service_ok (set_sr_state s (set_sr_config effective (set_sr_local_config candidate w))).
Proof. by intros _ Hv Hs. Qed.

Lemma commit_configuration_ok env candidate effective message s w p w' :
  service_ok w -> validate effective = Ok () -> verified_connection s effective ->
  commit_configuration env candidate effective message s w = Some (p, w') -> service_ok w'.
Proof.
  intros Hw Hv Hs. unfold commit_configuration.
  destruct (apply_configuration_status _ _ _) as [s'|] eqn:Ea; cbn; [|done]. intros [= <- <-].
  eapply service_ok_core; [apply send_core|]. apply service_ok_switch; [done..|].
  apply apply_configuration_status_work in Ea. by eapply verified_same_work.
Qed.

Lemma update_retention_ok env a b c d e identity w p w' :
  service_ok w -> update_retention env a b c d e identity w = (p, w') -> service_ok w'.
Proof.
  intros Hw E. unfold update_retention in E. skip_guards E.
  destruct (validate _) as [[]|] eqn:Hv in E; [|injection E as <- <-; done]. skip_guards E.
  destruct (save_config _ _ _) as [saved w1] eqn:Es in E. apply save_config_eq in Es as Hcore.
  eapply service_ok_core in Hw as Hw1; [|exact Hcore]. destruct (negb saved); injection E as <- <-; [done|].
  eapply service_ok_core; [apply send_core|]. split; [exact Hv|].
  destruct Hcore as [Hc _ _ Hs]. eapply verified_connection_config; [|exact (ok_verified _ Hw1)]. cbn. by rewrite Hc.
Qed.

Lemma update_schedule_ok env a b c d e identity w p w' :
  service_ok w -> update_schedule env a b c d e identity w = Some (p, w') -> service_ok w'.
Proof.
  intros Hw E. unfold update_schedule in E. skip_guards E.
  destruct (validate _) as [[]|] eqn:Hv in E; [|injection E as <- <-; done]. skip_guards E.
  destruct (save_config _ _ _) as [saved w1] eqn:Es in E. apply save_config_eq in Es as Hcore.
  eapply service_ok_core in Hw as Hw1; [|exact Hcore]. destruct (negb saved); [injection E as <- <-; done|].
  eapply commit_configuration_ok in E; [done|done|done|].
  destruct Hcore as [Hc _ _ Hs]. eapply verified_connection_config; [|exact (ok_verified _ Hw1)]. cbn. by rewrite Hc.
Qed.

Lemma update_backup_sources_ok env paths exclusions identity w p w' :
  service_ok w -> update_backup_sources env paths exclusions identity w = Some (p, w') -> service_ok w'.
Proof.
  intros Hw E. unfold update_backup_sources in E. skip_guards E.
  destruct (validate_backup_source_paths _ _) in E; [|injection E as <- <-; done].
  destruct (validate _) as [[]|] eqn:Hv in E; [|injection E as <- <-; done]. skip_guards E.
  destruct (save_config _ _ _) as [saved w1] eqn:Es in E. apply save_config_eq in Es as Hcore.
  eapply service_ok_core in Hw as Hw1; [|exact Hcore]. destruct (negb saved); [injection E as <- <-; done|].
  eapply commit_configuration_ok in E; [done|done|done|].
  destruct Hcore as [Hc _ _ Hs]. eapply verified_connection_config; [|exact (ok_verified _ Hw1)]. cbn. by rewrite Hc.
Qed.

Lemma store_secrets_effective env updates candidate effective w c e created retired w1 :
  store_secrets env updates candidate effective w = Ok (c, e, created, retired, w1) ->
  updates = [] -> e = effective.
Proof. intros E ->. cbn in E. by injection E as <- <- <- <- <-. Qed.

Lemma commit_repository_ok env changed candidate effective created retired w p w' :
  service_ok w -> (changed = false -> identity_of effective = identity_of (sr_config w)) ->
  commit_repository env changed candidate effective created retired w = Some (p, w') -> service_ok w'.
Proof.
  intros Hw Hid E. unfold commit_repository in E.
  assert (forall w1, same_core w w1 -> service_ok (cleanup_credentials env created w1)) as Hclean.
  { intros w1 Hcore. eapply service_ok_core; [apply cleanup_credentials_core|]. by eapply service_ok_core. }
  destruct (validate effective) as [[]|] eqn:Hv; [|injection E as <- <-; by apply Hclean].
  set (next := if changed then require_repository_validation _ else _) in E.
  destruct (if changed then save_state env next w else (true, w)) as [saved w1] eqn:Es.
  assert (same_core w w1) as Hcore1.
  { destruct changed; [by eapply save_state_eq|by injection Es as <- <-]. }
  destruct (negb saved); [injection E as <- <-; by apply Hclean|].
  destruct (save_config _ _ _) as [saved' w2] eqn:Ec in E. apply save_config_eq in Ec.
  assert (same_core w w2) as Hcore2 by (by transitivity w1).
  destruct (negb saved'); [injection E as <- <-; by apply Hclean|].
  destruct (apply_configuration_status _ _ _) as [s|] eqn:Ea in E; cbn [mbind option_bind] in E; [|done].
  injection E as <- <-. eapply service_ok_core; [apply send_core|].
  eapply service_ok_core; [apply cleanup_credentials_core|]. split; [exact Hv|]. cbn.
  apply apply_configuration_status_work in Ea. eapply verified_same_work; [exact Ea|].
  destruct changed; [by apply validation_required_ok|]. destruct Hcore2 as [Hc _ _ ->].
  eapply verified_connection_config; [by apply Hid|apply Hw].
Qed.

Lemma update_repository_ok env display_name url mode options updates identity w p w' :
  service_ok w -> update_repository env display_name url mode options updates identity w = Some (p, w') -> service_ok w'.
Proof.
  intros Hw E. unfold update_repository in E. skip_guards E.
  destruct (validate _) as [[]|] in E; [|injection E as <- <-; done]. skip_guards E.
  pose proof (store_secrets_core env updates
    (repository_candidate (nonempty_trimmed <$> display_name) (nonempty_trimmed <$> url) mode options (sr_local_config w))
    (repository_effective (nonempty_trimmed <$> display_name) (nonempty_trimmed <$> url) mode options (sr_config w)) w) as Hcore.
  destruct (store_secrets _ _ _ _ _) as [[[[[c e] created] retired] w1]|w1] eqn:Es in E, Hcore;
    [|injection E as <- <-; by eapply service_ok_core].
  eapply commit_repository_ok in E; [done|by eapply service_ok_core|].
  rewrite !orb_false_iff, negb_false_iff, bool_decide_eq_true. intros [[Hu Ho] Hs].
  apply store_secrets_effective in Es; [|by destruct updates]. rewrite Es. destruct Hcore as [-> _ _ _].
  by destruct url, options.
Qed.

Lemma run_backup_now_ok env w p w' : service_ok w -> run_backup_now env w = (p, w') -> service_ok w'.
Proof.
  intros Hw E. unfold run_backup_now in E. skip_guards E.
  destruct (send _ _) as [[] w1] eqn:Ee in E; apply send_eq in Ee as Hcore; injection E as <- <-.
  - eapply service_ok_core; [exact Hcore|]. by apply service_ok_repository.
  - apply service_ok_repository; [by eapply service_ok_core; [exact Hcore|]; apply service_ok_repository|..];
      destruct Hcore as [_ _ _ ->]; done.
Qed.

Lemma send_event_ok event message w p w' : service_ok w -> send_event event message w = (p, w') -> service_ok w'.
Proof.
  intros Hw. unfold send_event. destruct (send event w) as [[] w1] eqn:Ee; apply send_eq in Ee;
    intros [= <- <-]; by eapply service_ok_core.
Qed.

Lemma cancel_backup_ok w p w' : service_ok w -> cancel_backup w = (p, w') -> service_ok w'.
Proof.
  intros Hw. unfold cancel_backup. destruct (is_running _); [|by intros [= <- <-]]. by apply send_event_ok.
Qed.

Lemma defer_backup_ok env minutes w p w' : service_ok w -> defer_backup env minutes w = Some (p, w') -> service_ok w'.
Proof.
  intros Hw E. unfold defer_backup in E. skip_guards E. destruct (duration_minutes _); cbn in E; [|done].
  injection E as E. eapply send_event_ok; [|exact E]. by apply service_ok_repository.
Qed.

(** *** Enrollment and policy *)
Lemma require_validation_for_spec env next w :
  sr_config (require_validation_for env next w) = sr_config w
  /\ verified_connection (sr_state (require_validation_for env next w)) next
     \/ (require_validation_for env next w = w /\ repository_requires_validation (rt_service_state (sr_state w)) next = false).
Proof.
  unfold require_validation_for. destruct (repository_requires_validation _ next) eqn:E; [|by right].
  left. destruct (save_state _ _ _) as [b w1] eqn:Es. apply save_state_eq in Es as [Hc _ _ _].
  split; [exact Hc|]. by apply validation_required_ok.
Qed.

Lemma require_validation_for_ok env next w : verified_connection (sr_state (require_validation_for env next w)) next.
Proof. destruct (require_validation_for_spec env next w) as [[_ ?]|[-> ?]]; [done|]. by left. Qed.

Lemma resolve_config_valid d l m r : resolve_config d l m = Ok r -> validate (rv_effective r) = Ok ().
Proof.
  unfold resolve_config. intros E. apply seq_Ok in E as [_ E]. apply seq_Ok in E as [_ E].
  destruct (resolve_fields d l m) as [e f]. apply seq_Ok in E as [Hv [= <-]]. by apply map_err_Ok in Hv.
Qed.

Lemma install_resolved_ok resolved now w w' :
  validate (rv_effective resolved) = Ok () -> verified_connection (sr_state w) (rv_effective resolved) ->
  install_resolved resolved now w = Some w' -> service_ok w'.
Proof.
  intros Hv Hs. unfold install_resolved.
  destruct (apply_configuration_status _ _ _) as [s|] eqn:E; cbn; [|done]. intros [= <-].
  apply apply_configuration_status_work in E. split; [exact Hv|]. cbn. by eapply verified_same_work.
Qed.

Lemma commit_enrollment_ok env pending w r w' :
  service_ok w -> commit_enrollment env pending w = Some (r, w') -> service_ok w'.
Proof.
  intros Hw E. unfold commit_enrollment in E.
  destruct (sr_credential_store w) as [files|]; [|by injection E as <- <-].
  destruct (sr_config_store w) as [store|]; [|by injection E as <- <-].
  destruct (store_enrollment _ _ _ _) as [[candidate created] files'].
  assert (forall w1 f, same_core w w1 -> service_ok (set_sr_credential_store f w1)) as Habandon.
  { intros w1 f Hcore. eapply service_ok_core; [apply credential_store_core|]. by eapply service_ok_core. }
  destruct candidate as [candidate|]; [|injection E as <- <-; by apply Habandon].
  destruct (negb _); [injection E as <- <-; by apply Habandon|].
  destruct (is_some _); [injection E as <- <-; by apply Habandon|].
  destruct (resolve_config _ _ _) as [resolved|] eqn:Hr; [|injection E as <- <-; by apply Habandon].
  destruct (save_config _ _ _) as [saved w1] eqn:Es. apply save_config_eq in Es.
  destruct (negb saved); [injection E as <- <-; by apply Habandon|].
  destruct (install_resolved _ _ _) as [w2|] eqn:Ei in E; cbn [mbind option_bind] in E; [|done].
  injection E as <- <-. eapply service_ok_core; [apply send_core|].
  apply install_resolved_ok in Ei as [? ?]; [by split|by eapply resolve_config_valid|apply require_validation_for_ok].
Qed.

Lemma begin_enrollment_ok env w b w' : service_ok w -> begin_enrollment env w = (b, w') -> service_ok w'.
Proof.
  intros Hw. unfold begin_enrollment. destruct (operation_active _ _); intros [= <- <-]; [done|].
  by apply service_ok_repository.
Qed.
Lemma end_enrollment_ok w : service_ok w -> service_ok (end_enrollment w).
Proof. intros Hw. by apply service_ok_repository. Qed.

Lemma apply_managed_policy_ok env policy expected w r w' :
  service_ok w -> apply_managed_policy_inner env policy expected w = Some (r, w') -> service_ok w'.
Proof.
  intros Hw E. unfold apply_managed_policy_inner in E. skip_guards E.
  destruct (resolve_config _ _ _) as [resolved|] eqn:Hr; [|by injection E as <- <-]. skip_guards E.
  destruct (install_resolved _ _ _) as [w1|] eqn:Ei; cbn [mbind option_bind] in E; [|done].
  injection E as <- <-. eapply service_ok_core; [apply send_core|].
  eapply install_resolved_ok; [|apply require_validation_for_ok|exact Ei]. by eapply resolve_config_valid.
Qed.
End requests.

(** ** Reachable states *)
Section reachable.
Context `{Chrono} `{UrlCrate} `{CryptoCrates} `{Dpapi} `{UnicodeData} `{Filesystem} `{Messages} `{Base64Standard}.
Context `{Serde LocalConfig} `{Serde PersistedScheduleState} `{Serde DiagnosticEntry} `{Serde CachedManifest}.
Context (discover : option (list DiscoveredBackupSource)) (client : rstr -> option PendingEnrollment).

(** One operation of the running service, in any environment, but for
    [Unenroll], which [reachable] adds; an enrollment is its three steps, so
    that other operations may come between them. *)
Inductive step : ServiceRuntime -> ServiceRuntime -> Prop :=
| step_request env env' command identity payload w w' :
    command <> Unenroll -> (forall url, command <> Enroll url) ->
    handle_command discover client env env' command identity w = Some (payload, w') -> step w w'
| step_evaluate now conditions action w w' : evaluate_schedule now conditions w = Some (action, w') -> step w w'
| step_resume now w : step w (record_resume now w)
| step_progress progress w : step w (update_progress progress w)
| step_begin_retention env now plan w w' : begin_retention env now w = Some (plan, w') -> step w w'
| step_finish_retention env backup retention now outcome w w' :
    finish_retention env backup retention now w = (outcome, w') -> step w w'
| step_finish_backup env now outcome w w' : finish_backup_at env now outcome w = Some w' -> step w w'
| step_finish_repository env operation outcome w w' :
    finish_repository_operation env operation outcome w = Some w' -> step w w'
| step_finish_update env outcome w : step w (finish_update_install env outcome w)
| step_begin_enrollment env b w w' : begin_enrollment env w = (b, w') -> step w w'
| step_commit_enrollment env pending r w w' : commit_enrollment env pending w = Some (r, w') -> step w w'
| step_end_enrollment w : step w (end_enrollment w)
| step_apply_policy env policy expected r w w' :
    apply_managed_policy_inner env policy expected w = Some (r, w') -> step w w'.

(** The connection of a repository that counts as ready although it would
    require a validation. *)
Definition exempted (w : ServiceRuntime) : option RepositoryIdentity :=
  if repository_operation_allows_backup (rt_repository_operation (sr_state w))
     && repository_requires_validation (rt_service_state (sr_state w)) (sr_config w)
  then Some (identity_of (sr_config w)) else None.
(** An exemption ends as soon as the connection changes, is verified, or is to be. *)
Definition lapse (e : option RepositoryIdentity) (w : ServiceRuntime) : option RepositoryIdentity :=
  if decide (e = exempted w) then e else None.

(** The states of the service, each with the connection that is exempt from
    verification.  Only [Unenroll] exempts one. *)
Inductive reachable : option RepositoryIdentity -> ServiceRuntime -> Prop :=
| reachable_load env path disk credentials policy w :
    load_with_credentials_and_policy env path disk credentials policy = Some (Ok w) -> reachable None w
| reachable_error env path disk credentials : reachable None (configuration_error env path disk credentials)
| reachable_step e w w' : reachable e w -> step w w' -> reachable (lapse e w') w'
| reachable_unenroll e env env' identity payload w w' :
    reachable e w -> handle_command discover client env env' Unenroll identity w = Some (payload, w') ->
    reachable (exempted w') w'.

(** Some request to unenroll led to this connection, before the state [w]. *)
Definition advances (w w' : ServiceRuntime) : Prop :=
  step w w' \/ exists env env' identity payload, handle_command discover client env env' Unenroll identity w = Some (payload, w').
Definition unenrolled_to (id : RepositoryIdentity) (w : ServiceRuntime) : Prop :=
  exists env env' identity payload w0 w1,
    handle_command discover client env env' Unenroll identity w0 = Some (payload, w1)
    /\ identity_of (sr_config w1) = id /\ rtc advances w1 w.

Lemma exemption_origin e w : reachable e w -> forall id, e = Some id -> unenrolled_to id w.
Proof.
  induction 1 as [|?|e w w' _ IH Hs|e env env' identity payload w w' _ IH E]; intros id He; try done.
  - unfold lapse in He. destruct (decide _); [|done].
    destruct (IH id He) as (env & env' & identity & payload & w0 & w1 & E & Hid & Hrtc).
    exists env, env', identity, payload, w0, w1. split_and!; [done..|]. eapply rtc_r; [exact Hrtc|by left].
  - exists env, env', identity, payload, w, w'. split; [done|]. split; [|done].
    unfold exempted in He. destruct (_ && _); [|done]. by injection He.
Qed.

Section invariant.
Context {exemption : Exempt}.

Lemma handle_command_ok env env' command identity w p w' :
  service_ok w -> command <> Unenroll -> (forall url, command <> Enroll url) ->
  handle_command discover client env env' command identity w = Some (p, w') -> service_ok w'.
Proof.
  intros Hw Hu He E.
  destruct command; cbn [handle_command answer] in E;
    try (injection E as <- <-; exact Hw); try congruence.
  - by eapply update_backup_sources_ok.
  - by eapply update_repository_ok.
  - injection E as E. by eapply begin_repository_operation_ok.
  - injection E as E. by eapply begin_repository_operation_ok.
  - by eapply update_schedule_ok.
  - injection E as E. by eapply update_retention_ok.
  - injection E as E. by eapply run_backup_now_ok.
  - injection E as E. by eapply cancel_backup_ok.
  - by eapply defer_backup_ok.
  - by eapply prepare_for_update_ok.
  - injection E as E. by eapply update_update_settings_ok.
  - by eapply begin_update_install_ok.
Qed.

Lemma step_ok w w' : step w w' -> service_ok w -> service_ok w'.
Proof.
  intros Hs Hw. destruct Hs.
  - by eapply handle_command_ok.
  - by eapply evaluate_schedule_ok.
  - by apply service_ok_repository.
  - by apply update_progress_ok.
  - by eapply begin_retention_ok.
  - by eapply finish_retention_ok.
  - by eapply finish_backup_ok.
  - by eapply finish_repository_operation_ok.
  - by apply finish_update_install_ok.
  - by eapply begin_enrollment_ok.
  - by eapply commit_enrollment_ok.
  - by apply end_enrollment_ok.
  - by eapply apply_managed_policy_ok.
Qed.

Lemma loaded_operation_verified s config :
  repository_operation_allows_backup (loaded_repository_operation s config) = true ->
  repository_requires_validation s config = false.
Proof. unfold loaded_repository_operation. by destruct (repository_requires_validation s config). Qed.

Lemma from_resolved_ok now resolved local s cs cr ss hs d w :
  validate (rv_effective resolved) = Ok () ->
  from_resolved_with_state now resolved local s cs cr ss hs d = Some w -> service_ok w.
Proof.
  intros Hv E. unfold from_resolved_with_state in E. apply bind_Some in E as (deadline & _ & [= <-]).
  split; [exact Hv|]. unfold verified_connection. cbn. intros Ho. left. by apply loaded_operation_verified.
Qed.

Lemma load_ok env path disk credentials policy w :
  load_with_credentials_and_policy env path disk credentials policy = Some (Ok w) -> service_ok w.
Proof.
  unfold load_with_credentials_and_policy. destruct (config_load _) as [local|]; [|done].
  destruct (resolve_config _ _ _) as [resolved|] eqn:Hr; [|done].
  destruct (state_load _) as [s|]; intros E; apply bind_Some in E as (w1 & E & [= <-]);
    (eapply from_resolved_ok; [|exact E]); by eapply resolve_config_valid.
Qed.

Lemma unenroll_valid env identity w p w' :
  service_ok w -> unenroll env identity w = Some (p, w') -> validate (sr_config w') = Ok ().
Proof.
  intros Hw E. unfold unenroll in E. destruct (negb _); [injection E as _ <-; apply Hw|].
  destruct (operation_active _ _); [injection E as _ <-; apply Hw|]. unfold unenroll_commit in E. cbv zeta in E.
  destruct (sr_config_store w); [|injection E as _ <-; apply Hw].
  case_bool_decide; [injection E as _ <-; apply Hw|].
  destruct (resolve_config _ _ _) as [resolved|] eqn:Hr; [|injection E as _ <-; apply Hw].
  destruct (save_config _ _ _) as [saved w1] eqn:Es. apply save_config_eq in Es as [Hc _ _ _].
  destruct (negb saved); [injection E as _ <-; rewrite Hc; apply Hw|].
  destruct (apply_configuration_status _ _ _) as [s|]; cbn [mbind option_bind] in E; [|done]. injection E as _ <-.
  match goal with |- context [send ?e ?x] => destruct (send_core e x) as [-> _ _ _] end.
  apply resolve_config_valid in Hr. case_match; exact Hr.
Qed.
End invariant.

Lemma service_ok_exempted (e : option RepositoryIdentity) w : @service_ok e w -> @service_ok (exempted w) w.
Proof.
  intros [Hc Hv]. split; [done|]. intros Ho. unfold exempt, exempted. rewrite Ho. cbn [andb].
  destruct (repository_requires_validation _ _); [by right|by left].
Qed.
Lemma service_ok_lapse (e : option RepositoryIdentity) w : @service_ok e w -> @service_ok (lapse e w) w.
Proof.
  intros Hw. unfold lapse. destruct (decide (e = exempted w)) as [Heq|Hn]; [done|]. destruct Hw as [Hc Hv]. split; [done|].
  intros Ho. left. destruct (Hv Ho) as [Hr|He]; [done|].
  destruct (repository_requires_validation _ _) eqn:Hr; [|done]. exfalso. apply Hn. unfold exempted. by rewrite Ho, Hr.
Qed.

Lemma reachable_ok e w : reachable e w -> @service_ok e w.
Proof.
  induction 1 as [env path disk credentials policy w E|env path disk credentials|e w w' _ IH Hs
    |e env env' identity payload w w' _ IH E].
  - by eapply load_ok.
  - split; [reflexivity|done].
  - apply service_ok_lapse. by eapply step_ok.
  - cbn [handle_command] in E. pose (exemption := e : Exempt). apply unenroll_valid in E; [|exact IH].
    apply (service_ok_exempted (exempted w')). split; [exact E|].
    intros Ho. unfold exempt, exempted. rewrite Ho. cbn [andb]. destruct (repository_requires_validation _ _); [by right|by left].
Qed.

(** What has to hold for a backup to start. *)
Record may_start (e : option RepositoryIdentity) (w : ServiceRuntime) (now : DateTime) : Prop := {
  ms_valid : validate (sr_config w) = Ok ();
  ms_configured : is_configured (sr_config w) = true;
  ms_verified :
    st_repository_validation_required (rt_service_state (sr_state w)) = false
    /\ st_verified_repository (rt_service_state (sr_state w)) = Some (identity_of (sr_config w))
    \/ e = Some (identity_of (sr_config w)) /\ unenrolled_to (identity_of (sr_config w)) w;
  ms_idle : is_running (ss_state (rt_status (sr_state w))) = false;
  ms_no_install : rt_update_install_active (sr_state w) = false;
  ms_no_hold : held_at (sr_state w) now = false;
  ms_no_management : rt_management_operation_active (sr_state w) = false
}.

Lemma release_hold_state now s :
  is_running (ss_state (rt_status s)) = true -> ss_state (rt_status (release_hold now s)) = ss_state (rt_status s).
Proof. unfold release_hold. intros Hr. case_bool_decide as E; [cbn in E; by rewrite E in Hr|done]. Qed.

Lemma start_conditions config now conditions s t s' :
  evaluate_state config now conditions s = Some (Action_Start t, s') ->
  is_configured config = true /\ repository_operation_allows_backup (rt_repository_operation s) = true
  /\ is_running (ss_state (rt_status s)) = false /\ rt_update_install_active s = false /\ held_at s now = false
  /\ rt_management_operation_active s = false
  /\ ss_state (rt_status s') = BS_Running PreparingSnapshot /\ ss_last_attempt (rt_status s') = Some now.
Proof.
  unfold evaluate_state. destruct (rt_update_install_active s).
  { destruct (duration_seconds _); cbn; [|done]. by destruct (datetime_add _ _). }
  destruct (held_at s now); [done|].
  assert (rt_management_operation_active (release_hold now s) = rt_management_operation_active s
          /\ rt_repository_operation (release_hold now s) = rt_repository_operation s) as [Hm Ho].
  { unfold release_hold. case_bool_decide; [|done].
    destruct (restore_held_status_work now (set_rt_update_hold_until None s)) as [-> _ -> _]. done. }
  pose proof (release_hold_state now s) as Hrun.
  destruct (is_configured config) eqn:Hc; cbn [negb]; [|done]. rewrite Hm.
  destruct (rt_management_operation_active s); [done|]. rewrite Ho.
  destruct (repository_operation_allows_backup _) eqn:Hr; cbn [negb]; [|done].
  destruct (decide_schedule _ _) as [d|] eqn:Hd; cbn [mbind option_bind]; [|done].
  destruct d; cbn; try (by intros [=]). intros [= <- <-]. cbn. split_and!; try done.
  destruct (is_running (ss_state (rt_status s))) eqn:E; [|done]. exfalso.
  unfold decide_schedule, snapshot_of in Hd. cbn in Hd. rewrite (Hrun eq_refl), E in Hd. done.
Qed.

(** C1: whatever sequence of requests (also to unenroll), evaluations,
    completions, policy refreshes and enrollments the service has gone
    through, with any clock and any I/O failures, a backup starts only for a
    valid and complete configuration, with no backup, update or enrollment
    in progress, whose repository connection is exactly the one that was
    last verified; with one exception, the connection an earlier Unenroll
    switched to, which the code does not verify, and only while it is still
    the one in use.  The start is recorded. *)
Theorem backups_start_only_when_verified (e : option RepositoryIdentity) (w w' : ServiceRuntime) (now : DateTime)
    (conditions : SystemConditions) (trigger : BackupTrigger) (Hreach : reachable e w)
    (Hstart : evaluate_schedule now conditions w = Some (Action_Start trigger, w')) :
  may_start e w now
  /\ ss_state (rt_status (sr_state w')) = BS_Running PreparingSnapshot
  /\ ss_last_attempt (rt_status (sr_state w')) = Some now.
Proof.
  pose proof (exemption_origin e w Hreach) as Horigin.
  apply reachable_ok in Hreach as [Hv Hver]. unfold evaluate_schedule in Hstart.
  destruct (evaluate_state _ _ _ _) as [[a s]|] eqn:E; cbn in Hstart; [|done]. injection Hstart as -> <-.
  apply start_conditions in E as (Hc & Ho & Hi & Hin & Hh & Hm & Hs & Hl).
  cbn. split_and!; [|done|done]. constructor; try done.
  destruct (Hver Ho) as [Hr|He]; [left|right; split; [exact He|exact (Horigin _ He)]].
  apply requires_validation_spec in Hr as [Hu|[Hq Hvr]]; [unfold is_configured in Hc; by rewrite Hu in Hc|done].
Qed.
End reachable.

(** ** Evaluated examples *)
Module ServiceWitness.
Import ChronoExample UrlExample.
#[local] Existing Instances ManagementWitness.toy_crypto ResticWitness.ascii_unicode UpdaterWitness.toy_base64
  SourcesWitness.plain_files PolicyCacheWitness.no_dpapi PolicyCacheWitness.entry_serde.
#[local] Instance no_messages : Messages := {| config_error_text := fun _ => []; invocation_error_text := fun _ => [] |}.

(** A device that follows a managed policy, with a repository of its own below it. *)
Definition local : LocalConfig :=
  set_lc_backup {| lb_paths := Some [lit "C:\Users"]; lb_exclusions := None |}
    (set_lc_repository
       {| lr_display_name := None; lr_url := Some (lit "s3:local/bucket"); lr_mode := None; lr_options := None;
          lr_secret_refs := None |} PolicyCacheWitness.local).
Definition policy : ManagedPolicy :=
  {| mp_schema_version := 2; mp_revision := lit "r1"; mp_backup := no_backup;
     mp_repository :=
       {| mr_display_name := None; mr_url := Some {| m_value := Some (lit "s3:managed/bucket"); m_locked := true |};
          mr_mode := None; mr_options := None; mr_secret_refs := None |};
     mp_schedule := no_schedule; mp_retention := no_retention; mp_updates := None |}.
(** The managed repository has been verified. *)
Definition persisted : PersistedScheduleState :=
  {| ps_schema_version := 2; ps_last_success := None; ps_last_retention := None; ps_last_prune := None;
     ps_last_retention_error := None; ps_repository_validation_required := false;
     ps_verified_repository :=
       Some {| ri_url := Some (lit "s3:managed/bucket"); ri_options := []; ri_secret_refs := [] |};
     ps_repository_verified_at := Some (seconds 500) |}.

#[local] Instance local_serde : Serde LocalConfig :=
  {| serialize := fun _ => Some [35]; deserialize := fun _ => Some local |}.
#[local] Instance persisted_serde : Serde PersistedScheduleState :=
  {| serialize := fun _ => Some [35]; deserialize := fun _ => Some persisted |}.
#[local] Instance entries_serde : Serde DiagnosticEntry :=
  {| serialize := fun _ => Some [35]; deserialize := fun _ => None |}.

Definition env : Env := {|
  env_now := fun k => seconds (1000 + Z.of_nat k); env_config_ok := true; env_state_ok := true; env_cache_ok := true;
  env_history_ok := true; env_log_now := seconds 1000; env_log_io := fun _ => true; env_log_torn := O;
  env_random := fun _ _ => None; env_put := fun _ _ => Some Write_Done; env_remove_ok := fun _ => true
|}.
Definition disk : Disk :=
  {| dk_config := Contents [35]; dk_cache := NotFound; dk_state := Contents [35]; dk_history := None; dk_log := no_log |}.
Definition online : SystemConditions := {| network_available := true; on_battery := false; metered_network := false |}.

Definition managed : ServiceRuntime :=
  match load_with_credentials_and_policy env (lit "C:\ProgramData\resticpal\config.toml") disk None (Some policy) with
  | Some (Ok w) => w
  | _ => configuration_error env [] disk None
  end.

(** A check of a computed value without computing all of it. *)
Ltac check b := assert (b = true) as Hcheck by (vm_compute; reflexivity).

Lemma managed_reachable discover client : reachable discover client None managed.
Proof.
  apply (reachable_load discover client env (lit "C:\ProgramData\resticpal\config.toml") disk None (Some policy)).
  unfold managed.
  check (match load_with_credentials_and_policy env (lit "C:\ProgramData\resticpal\config.toml") disk None (Some policy) with
         | Some (Ok _) => true | _ => false end).
  destruct (load_with_credentials_and_policy _ _ _ _ _) as [[w|]|]; [reflexivity|discriminate Hcheck..].
Qed.

(** The runtime after an evaluation that starts a backup. *)
Definition started (w : ServiceRuntime) : ServiceRuntime :=
  match evaluate_schedule (seconds 2000) online w with Some (Action_Start Scheduled, w') => w' | _ => w end.
Definition starts (w : ServiceRuntime) : bool :=
  match evaluate_schedule (seconds 2000) online w with Some (Action_Start Scheduled, _) => true | _ => false end.
Lemma starts_started w : starts w = true -> evaluate_schedule (seconds 2000) online w = Some (Action_Start Scheduled, started w).
Proof.
  unfold starts, started. destruct (evaluate_schedule _ _ w) as [[[|[]] w']|]; first [reflexivity|discriminate].
Qed.

Lemma backups_start_witness :
  evaluate_schedule (seconds 2000) online managed = Some (Action_Start Scheduled, started managed)
  /\ may_start None (fun _ => None) None managed (seconds 2000).
Proof.
  assert (evaluate_schedule (seconds 2000) online managed = Some (Action_Start Scheduled, started managed)) as E.
  { apply starts_started. vm_compute. reflexivity. }
  split; [exact E|].
  exact (proj1 (backups_start_only_when_verified None (fun _ => None) None managed (started managed) (seconds 2000) online
                  Scheduled (managed_reachable None (fun _ => None)) E)).
Defined.

Definition administrator : ClientIdentity := {| is_elevated_administrator := true |}.
Definition unenrolled : ServiceRuntime :=
  match unenroll env administrator managed with Some (_, w) => w | None => managed end.

(** Unenrollment is the exception of [may_start]: it switches the connection without
    requiring a validation.  Here a device whose managed repository was
    verified is unenrolled; the request is accepted and the next evaluation
    starts a backup to the local repository, which has never been verified
    and would require a validation after a restart. *)
Theorem unenrollment_skips_validation :
  exists message w w' w'',
    reachable None (fun _ => None) None w
    /\ unenroll env administrator w = Some (Resp_Accepted message, w')
    /\ rc_url (ec_repository (sr_config w')) = Some (lit "s3:local/bucket")
    /\ repository_requires_validation (rt_service_state (sr_state w')) (sr_config w') = true
    /\ evaluate_schedule (seconds 2000) online w' = Some (Action_Start Scheduled, w'').
Proof.
  assert (exists message, unenroll env administrator managed = Some (Resp_Accepted message, unenrolled)) as [message E].
  { unfold unenrolled.
    check (match unenroll env administrator managed with Some (Resp_Accepted _, _) => true | _ => false end).
    destruct (unenroll env administrator managed) as [[[] w]|]; try discriminate Hcheck. by eexists. }
  exists message, managed, unenrolled, (started unenrolled).
  split; [apply managed_reachable|]. split; [exact E|].
  split; [vm_compute; reflexivity|]. split; [vm_compute; reflexivity|]. apply starts_started. vm_compute. reflexivity.
Qed.
End ServiceWitness.
