(* ===== verification/Locks.v ===== *)
(** * Locks and threads

    The Rust vocabulary of [std::sync] as the runtime uses it: programs that
    take and release mutexes and reader-writer locks around accesses to a
    shared state, the guards that release a lock at the end of their scope,
    and threads that run such programs interleaved.  The file holds no code of
    the repository; [Guards] writes the operations of [runtime/] in it. *)
From stdpp Require Import base option list relations.
From S2P Require Import Prelude.

(** The locks of [ServiceRuntime] and of [DiagnosticLog], in the order in
    which a thread may take them. *)
Inductive Lock : Type :=
| L_ConfigurationMutation | L_State | L_Config | L_FieldResolutions | L_LocalConfig | L_WriteLock.
Inductive LockMode : Type := Shared | Exclusive.
#[global] Instance Lock_eq_dec : EqDecision Lock.
Proof. solve_decision. Defined.
#[global] Instance LockMode_eq_dec : EqDecision LockMode.
Proof. solve_decision. Defined.

Definition rank (l : Lock) : nat :=
  match l with
  | L_ConfigurationMutation => 0 | L_State => 1 | L_Config => 2 | L_FieldResolutions => 3 | L_LocalConfig => 4
  | L_WriteLock => 5
  end.

Notation Held := (list (Lock * LockMode)).
Definition release (l : Lock) (held : Held) : Held := filter (fun h => h.1 <> l) held.

(** ** Programs *)
Section programs.
Context {W : Type}.

Inductive Prog (A : Type) : Type :=
| Ret (a : A)
| Acquire (l : Lock) (m : LockMode) (k : Prog A)
| Release (l : Lock) (k : Prog A)
| Access {X : Type} (f : W -> X * W) (k : X -> Prog A).

Fixpoint prog_bind {A B} (f : A -> Prog B) (p : Prog A) : Prog B :=
  match p with
  | Ret _ a => f a
  | Acquire _ l m k => Acquire _ l m (prog_bind f k)
  | Release _ l k => Release _ l (prog_bind f k)
  | Access _ g k => Access _ g (fun x => prog_bind f (k x))
  end.

(** Without other threads the locks make no difference. *)
Fixpoint run {A} (p : Prog A) (w : W) : A * W :=
  match p with
  | Ret _ a => (a, w)
  | Acquire _ _ _ k | Release _ _ k => run k w
  | Access _ f k => run (k (f w).1) (f w).2
  end.

(** A guard: the lock is released when its scope ends, however it ends. *)
Definition guarded {A} (l : Lock) (m : LockMode) (p : Prog A) : Prog A :=
  Acquire _ l m (prog_bind (fun a => Release _ l (Ret _ a)) p).
Definition peek {X} (f : W -> X) : Prog X := Access _ (fun w => (f w, w)) (fun x => Ret _ x).
Definition poke (f : W -> W) : Prog unit := Access _ (fun w => (tt, f w)) (fun x => Ret _ x).
Definition act {X} (f : W -> X * W) : Prog X := Access _ f (fun x => Ret _ x).

Lemma run_bind {A B} (f : A -> Prog B) (p : Prog A) (w : W) :
  run (prog_bind f p) w = run (f (run p w).1) (run p w).2.
Proof. revert w. induction p as [a|l m k IH|l k IH|X g k IH]; intros w; cbn; auto. Qed.

Lemma run_guarded {A} l m (p : Prog A) (w : W) : run (guarded l m p) w = run p w.
Proof. unfold guarded. cbn. rewrite run_bind. cbn. by destruct (run p w). Qed.

(** ** The order of acquisition

    [ordered held p final]: a thread that holds [held] and runs [p] takes
    every lock after all it holds in the order, and ends with [final]. *)
Definition above (held : Held) (l : Lock) : bool := forallb (fun h => (rank h.1 <? rank l)%nat) held.

Fixpoint ordered {A} (held : Held) (p : Prog A) (final : Held) : Prop :=
  match p with
  | Ret _ _ => held = final
  | Acquire _ l m k => above held l = true /\ ordered ((l, m) :: held) k final
  | Release _ l k => ordered (release l held) k final
  | Access _ f k => forall x, ordered held (k x) final
  end.

Lemma ordered_bind {A B} (f : A -> Prog B) (p : Prog A) held mid final :
  ordered held p mid -> (forall a, ordered mid (f a) final) -> ordered held (prog_bind f p) final.
Proof.
  revert held. induction p as [a|l m k IH|l k IH|X g k IH]; intros held; cbn; intros Hp Hf; [by subst|naive_solver..].
Qed.

Lemma release_above held l m : above held l = true -> release l ((l, m) :: held) = held.
Proof.
  intros Ha. unfold release. rewrite filter_cons_False by (cbn; congruence).
  induction held as [|[l' m'] held IH]; [done|]. cbn in Ha. apply andb_true_iff in Ha as [Hr Ha].
  rewrite filter_cons_True; [by rewrite IH|]. apply Nat.ltb_lt in Hr. cbn in *. intros ->. lia.
Qed.

Lemma ordered_guarded {A} l m (p : Prog A) held :
  above held l = true -> ordered ((l, m) :: held) p ((l, m) :: held) -> ordered held (guarded l m p) held.
Proof.
  intros Ha Hp. split; [done|]. eapply ordered_bind; [exact Hp|]. intros a. cbn. by apply release_above.
Qed.
End programs.

Arguments Ret {W A}. Arguments Acquire {W A}. Arguments Release {W A}. Arguments Access {W A X}.
Arguments Prog : clear implicits.
#[global] Instance prog_mret {W} : MRet (Prog W) := fun A a => Ret a.
#[global] Instance prog_mbind {W} : MBind (Prog W) := fun A B f p => prog_bind f p.
#[global] Instance prog_fmap {W} : FMap (Prog W) := fun A B f p => prog_bind (fun a => Ret (f a)) p.

(** ** Threads *)
Section threads.
Context {W R : Type}.

Record Thread : Type := { td_held : Held; td_prog : Prog W R }.

(** A thread's next instruction. *)
Inductive advance : Thread -> W -> Thread -> W -> Prop :=
| ad_acquire held l m k w :
    advance {| td_held := held; td_prog := Acquire l m k |} w {| td_held := (l, m) :: held; td_prog := k |} w
| ad_release held l k w :
    advance {| td_held := held; td_prog := Release l k |} w {| td_held := release l held; td_prog := k |} w
| ad_access held X (f : W -> X * W) k w :
    advance {| td_held := held; td_prog := Access f k |} w {| td_held := held; td_prog := k (f w).1 |} (f w).2.

Definition waits_for (l : Lock) (m : LockMode) (t : Thread) : Prop :=
  exists k, td_prog t = Acquire l m k.

#[global] Instance waits_for_dec l m t : Decision (waits_for l m t).
Proof.
  destruct t as [held [r|l' m' k|l' k|X f k]]; try (right; by intros [k' Hk]).
  destruct (decide (l' = l)) as [->|]; [|right; intros [k' Hk]; cbn in Hk; congruence].
  destruct (decide (m' = m)) as [->|]; [|right; intros [k' Hk]; cbn in Hk; congruence].
  left. by exists k.
Defined.

(** Whether the locks let the thread go on: an exclusive lock must be free,
    also of the thread itself, and a shared one not held exclusively.  With
    [preference] a reader is also held up by a writer that waits. *)
Definition admitted (preference : bool) (threads : list Thread) (t : Thread) : Prop :=
  match td_prog t with
  | Acquire l Exclusive _ => Forall (fun o => forall m, (l, m) ∉ td_held o) threads
  | Acquire l Shared _ =>
      Forall (fun o => (l, Exclusive) ∉ td_held o /\ (preference = true -> ~ waits_for l Exclusive o)) threads
  | _ => True
  end.

Inductive pool_step (preference : bool) : list Thread * W -> list Thread * W -> Prop :=
| pool_advance threads i t t' w w' :
    threads !! i = Some t -> admitted preference threads t -> advance t w t' w' ->
    pool_step preference (threads, w) (<[i := t']> threads, w').

Definition done (t : Thread) : Prop := exists r, td_prog t = Ret r.
#[global] Instance done_dec t : Decision (done t).
Proof. destruct t as [held [r| | |]]; [left; by exists r|right; by intros [r Hr]..]. Defined.
Definition well_ordered (t : Thread) : Prop := ordered (td_held t) (td_prog t) [].

Lemma advance_ordered t w t' w' : advance t w t' w' -> well_ordered t -> well_ordered t'.
Proof. by destruct 1; unfold well_ordered; cbn; [intros []|..]. Qed.

Lemma pool_ordered b s s' : pool_step b s s' -> Forall well_ordered s.1 -> Forall well_ordered s'.1.
Proof.
  destruct 1 as [threads i t t' w w' Ht _ Ha]; cbn. intros Ho. apply Forall_insert; [done|].
  eapply advance_ordered; [exact Ha|]. by eapply Forall_lookup in Ht.
Qed.

Lemma held_waits t l m : well_ordered t -> (l, m) ∈ td_held t ->
  (exists l' m', waits_for l' m' t /\ (rank l < rank l')%nat)
  \/ forall b threads w, admitted b threads t /\ exists t' w', advance t w t' w'.
Proof.
  destruct t as [held [r|l' m' k|l' k|X f k]]; unfold well_ordered; cbn; intros Ho Hin.
  - subst. by apply not_elem_of_nil in Hin.
  - left. exists l', m'. split; [by exists k|]. destruct Ho as [Ha _]. unfold above in Ha.
    rewrite forallb_forall in Ha. apply list_elem_of_In, Ha in Hin. by apply Nat.ltb_lt in Hin.
  - right. split; [done|]. do 2 eexists. constructor.
  - right. split; [done|]. do 2 eexists. constructor.
Qed.

Definition can_step (threads : list Thread) (w : W) : Prop := exists s, pool_step true (threads, w) s.

Lemma admitted_steps threads i t w :
  threads !! i = Some t -> admitted true threads t -> (exists t' w', advance t w t' w') -> can_step threads w.
Proof. intros Ht Ha (t' & w' & Hs). eexists. by econstructor. Qed.

Lemma waits_advance l m t w : waits_for l m t -> exists t' w', advance t w t' w'.
Proof. destruct t as [held p]. intros [k Hk]. cbn in Hk. subst. do 2 eexists. constructor. Qed.

(** Whoever waits for a lock, somebody can go on: a thread that holds it
    waits, if at all, for a lock further up in the order. *)
Lemma waiting_progress threads w n i t l m :
  Forall well_ordered threads -> (5 - rank l <= n)%nat -> threads !! i = Some t -> waits_for l m t ->
  can_step threads w.
Proof.
  intros Ho. revert i t l m. induction n as [n IH] using lt_wf_ind. intros i t l m Hn Ht Hw.
  destruct (decide (Exists (fun o => Exists (fun h => h.1 = l) (td_held o)) threads)) as [He|He].
  - apply Exists_exists in He as (o & Hino & ([l' m'] & Hinh & Heq)%Exists_exists). cbn in Heq. subst l'.
    apply list_elem_of_lookup in Hino as [j Hj].
    destruct (held_waits o l m') as [(l'' & m'' & Hw' & Hr)|Hgo]; [by eapply Forall_lookup in Hj|done|..].
    + refine (IH (5 - rank l'')%nat _ j o l'' m'' _ Hj Hw'); [|lia].
      assert (rank l'' <= 5)%nat by (destruct l''; cbn; lia). lia.
    + destruct (Hgo true threads w) as [Ha Hs]. by eapply admitted_steps.
  - assert (forall o m', o ∈ threads -> (l, m') ∉ td_held o) as Hfree.
    { intros o m' Ho' Hin. apply He, Exists_exists. exists o. split; [done|]. apply Exists_exists. by exists (l, m'). }
    assert (forall j o, threads !! j = Some o -> waits_for l Exclusive o -> can_step threads w) as Hwriter.
    { intros j o Hj Hwo. eapply admitted_steps; [exact Hj| |by eapply waits_advance].
      destruct Hwo as [k Hk]. unfold admitted. rewrite Hk. apply Forall_forall. intros o' Ho' m'. by apply Hfree. }
    destruct m; [|by eapply Hwriter].
    destruct (decide (Exists (waits_for l Exclusive) threads)) as [Hx|Hx].
    { apply Exists_exists in Hx as (o & Hino & Hm). apply list_elem_of_lookup in Hino as [j Hj]. by apply (Hwriter j o). }
    eapply admitted_steps; [exact Ht| |by eapply waits_advance]. destruct Hw as [k Hk]. unfold admitted. rewrite Hk.
    apply Forall_forall. intros o Hino. split; [by apply Hfree|]. intros _ Hwo. apply Hx, Exists_exists. by exists o.
Qed.

Lemma pool_progress threads w : Forall well_ordered threads -> Forall done threads \/ can_step threads w.
Proof.
  intros Ho. destruct (decide (Forall done threads)) as [|Hx]; [by left|right].
  apply not_Forall_Exists, Exists_exists in Hx as (o & Hino & Hm); [|apply _]. apply list_elem_of_lookup in Hino as [i Hi].
  destruct o as [held [r|l m k|l k|X f k]].
  - destruct Hm. by exists r.
  - eapply (waiting_progress threads w 5 i _ l m); [done|lia|exact Hi|]. by exists k.
  - eapply admitted_steps; [exact Hi|done|]. do 2 eexists. constructor.
  - eapply admitted_steps; [exact Hi|done|]. do 2 eexists. constructor.
Qed.

(** ** Termination: every thread's program is finite *)
Definition follows (p' p : Prog W R) : Prop :=
  match p with
  | Ret _ => False
  | Acquire _ _ k | Release _ k => p' = k
  | Access _ k => exists x, p' = k x
  end.

Lemma follows_wf p : Acc follows p.
Proof. induction p; constructor; intros p' Hf; cbn in Hf; [done|by subst..|]. by destruct Hf as [x ->]. Qed.

Definition pool_follows (threads' threads : list Thread) : Prop :=
  exists i t t', threads !! i = Some t /\ follows (td_prog t') (td_prog t) /\ threads' = <[i := t']> threads.

Lemma pool_follows_cons p : Acc follows p -> forall threads, Acc pool_follows threads ->
  forall held, Acc pool_follows ({| td_held := held; td_prog := p |} :: threads).
Proof.
  induction 1 as [p Hp IHp]. induction 1 as [threads Ht IHt]. intros held. constructor.
  intros threads' ([|i] & t & t' & Hi & Hf & ->); cbn in *.
  - injection Hi as <-. destruct t' as [held' p']. apply IHp; [done|]. by constructor.
  - apply IHt. by exists i, t, t'.
Qed.

Lemma pool_follows_wf threads : Acc pool_follows threads.
Proof.
  induction threads as [|[held p] threads IH]; [|apply pool_follows_cons; [apply follows_wf|done]].
  constructor. intros ? (i & t & t' & Hi & _). by rewrite lookup_nil in Hi.
Qed.

Lemma advance_follows t w t' w' : advance t w t' w' -> follows (td_prog t') (td_prog t).
Proof. destruct 1; cbn; try done. by eexists. Qed.

Lemma pool_terminates b threads w : sn (pool_step b) (threads, w).
Proof.
  revert w. induction (pool_follows_wf threads) as [threads _ IH]. intros w. constructor.
  intros s' Hs. unfold flip in Hs. inversion Hs as [? i t t' ? w' Ht _ Ha]; subst. apply IH.
  exists i, t, t'. split; [done|]. split; [by eapply advance_follows|done].
Qed.

(** ** Mutual exclusion *)
Definition excluded (threads : list Thread) : Prop :=
  forall i j t o l m, threads !! i = Some t -> threads !! j = Some o -> i <> j ->
    (l, Exclusive) ∈ td_held t -> (l, m) ∉ td_held o.

Lemma advance_held t w t' w' l m : advance t w t' w' -> (l, m) ∈ td_held t' ->
  (l, m) ∈ td_held t \/ waits_for l m t.
Proof.
  destruct 1 as [held l' m' k w|held l' k w|held X f k w]; cbn; intros Hin.
  - apply elem_of_cons in Hin as [[= -> ->]|Hin]; [right; by exists k|by left].
  - left. by apply list_elem_of_filter in Hin as [_ Hin].
  - by left.
Qed.

Lemma pool_excluded b s s' : pool_step b s s' -> excluded s.1 -> excluded s'.1.
Proof.
  destruct 1 as [threads i t t' w w' Ht Ha Hs]; cbn. intros He j k u o l m Hj Hk Hjk Hu Ho.
  assert (forall n x, <[i:=t']> threads !! n = Some x -> n = i /\ x = t' \/ n <> i /\ threads !! n = Some x) as Hlook.
  { intros n x Hn. apply list_lookup_insert_Some in Hn as [(-> & -> & _)|[Hne Hn]]; [by left|right; by split]. }
  destruct (Hlook j u Hj) as [[-> ->]|[Hji Hju]], (Hlook k o Hk) as [[-> ->]|[Hki Hko]]; [done| | |exact (He j k u o l m Hju Hko Hjk Hu Ho)].
  - destruct (advance_held _ _ _ _ _ _ Hs Hu) as [Hin|[k0 Hw]]; [exact (He i k t o l m Ht Hko Hjk Hin Ho)|].
    unfold admitted in Ha. rewrite Hw in Ha. by eapply Forall_lookup in Ha; [|exact Hko]; eapply Ha.
  - destruct (advance_held _ _ _ _ _ _ Hs Ho) as [Hin|[k0 Hw]]; [exact (He j i u t l m Hju Ht Hjk Hu Hin)|].
    unfold admitted in Ha. rewrite Hw in Ha. destruct m; (eapply Forall_lookup in Ha; [|exact Hju]); [by destruct Ha|by eapply Ha].
Qed.

(** ** Schedules that can be executed *)
Definition blocks (l : Lock) (m : LockMode) (h : Lock * LockMode) : bool :=
  bool_decide (h.1 = l) && match m with Exclusive => true | Shared => bool_decide (h.2 = Exclusive) end.

Definition turn (i : nat) (s : list Thread * W) : option (list Thread * W) :=
  t ← s.1 !! i;
  match td_prog t with
  | Ret _ => None
  | Acquire l m k =>
      if existsb (fun o => existsb (blocks l m) (td_held o)) s.1 then None
      else Some (<[i := {| td_held := (l, m) :: td_held t; td_prog := k |}]> s.1, s.2)
  | Release l k => Some (<[i := {| td_held := release l (td_held t); td_prog := k |}]> s.1, s.2)
  | Access f k => let '(x, w) := f s.2 in Some (<[i := {| td_held := td_held t; td_prog := k x |}]> s.1, w)
  end.

Fixpoint turns (schedule : list nat) (s : list Thread * W) : option (list Thread * W) :=
  match schedule with [] => Some s | i :: schedule => turn i s ≫= turns schedule end.

Lemma unblocked l m threads :
  existsb (fun o => existsb (blocks l m) (td_held o)) threads = false ->
  match m with
  | Exclusive => Forall (fun o => forall m', (l, m') ∉ td_held o) threads
  | Shared => Forall (fun o => (l, Exclusive) ∉ td_held o) threads
  end.
Proof.
  intros Hb. assert (forall o h, o ∈ threads -> h ∈ td_held o -> blocks l m h = false) as Hno.
  { intros o h Ho Hh. destruct (blocks l m h) eqn:E; [|done]. rewrite <- Hb. symmetry. apply existsb_exists. exists o.
    split; [by apply list_elem_of_In|]. apply existsb_exists. exists h. split; [by apply list_elem_of_In|done]. }
  unfold blocks in Hno. destruct m; apply Forall_forall; intros o Ho.
  - intros Hin. specialize (Hno o _ Ho Hin). cbn in Hno. by rewrite !bool_decide_eq_true_2 in Hno.
  - intros m' Hin. specialize (Hno o _ Ho Hin). cbn in Hno. by rewrite bool_decide_eq_true_2 in Hno.
Qed.

Lemma turn_sound i s s' : turn i s = Some s' -> pool_step false s s'.
Proof.
  destruct s as [threads w]. unfold turn. cbn. destruct (threads !! i) as [[held p]|] eqn:Hi; [|done]. cbn.
  destruct p as [r|l m k|l k|X f k]; cbn.
  - done.
  - destruct (existsb _ threads) eqn:Hb; [done|]. intros [= <-]. apply unblocked in Hb.
    econstructor; [exact Hi| |constructor]. unfold admitted. cbn. destruct m; [|done].
    eapply Forall_impl; [exact Hb|]. intros o Ho. split; [done|discriminate].
  - intros [= <-]. econstructor; [exact Hi|done|constructor].
  - destruct (f w) as [x w'] eqn:E. intros [= <-].
    assert (w' = (f w).2) as -> by (by rewrite E). assert (x = (f w).1) as -> by (by rewrite E).
    econstructor; [exact Hi|done|constructor].
Qed.

Lemma turns_sound schedule s s' : turns schedule s = Some s' -> rtc (pool_step false) s s'.
Proof.
  revert s. induction schedule as [|i schedule IH]; intros s; cbn.
  - by intros [= <-].
  - destruct (turn i s) as [s1|] eqn:E; cbn; [|done]. intros Hs. eapply rtc_l; [by eapply turn_sound|by apply IH].
Qed.
End threads.
Arguments Thread : clear implicits.
