(* ===== verification/Interference.v ===== *)
(** * What a lock protects

    Reasoning about one program at a time while other threads interfere.  A
    lock protects a part of the shared state, given by the relation [same]
    that holds between states that agree on it, and an invariant [settled] of
    that part.  [keeps] is the discipline: without the lock a program leaves
    the part alone; with it, nobody else touches the part, and the invariant
    holds again when the lock is released.  Programs that keep it can be
    interleaved in any way ([interleaved_settled]).  The file holds no code of
    the repository; [Settled] applies it to the mutation lock of [runtime/]. *)
From stdpp Require Import base option list relations.
From S2P Require Import Prelude Locks.

(** What a thread knows of the protected part: nothing without the lock, its
    contents up to [same] with it.  A thread is lost when it has released the
    lock without restoring the invariant, as a panic does. *)
Inductive Knowledge (W : Type) : Type := Outside | Inside (w : W) | Lost.
Arguments Outside {W}. Arguments Inside {W}. Arguments Lost {W}.

Section interference.
Context {W : Type} (lock : Lock) (same : W -> W -> Prop) `{!PreOrder same} (settled : W -> Prop).
Context (settled_same : forall w w', same w w' -> settled w -> settled w').

Fixpoint keeps {A} (known : Knowledge W) (p : Prog W A) (post : Knowledge W -> A -> Prop) : Prop :=
  match p with
  | Ret a => post known a
  | Acquire l m k =>
      if decide (l = lock) then known = Outside /\ m = Exclusive /\ forall w, settled w -> keeps (Inside w) k post
      else known <> Lost /\ keeps known k post
  | Release l k =>
      if decide (l = lock) then
        match known with
        | Inside w => (settled w /\ keeps Outside k post) \/ keeps Lost k post
        | _ => False
        end
      else known <> Lost /\ keeps known k post
  | Access f k =>
      match known with
      | Outside => forall w, same w (f w).2 /\ keeps Outside (k (f w).1) post
      | Inside w => forall w', same w w' -> exists w1, same w1 (f w').2 /\ keeps (Inside w1) (k (f w').1) post
      | Lost => False
      end
  end.

Lemma keeps_prog_bind {A B} known (p : Prog W A) (f : A -> Prog W B) mid post :
  keeps known p mid -> (forall known a, mid known a -> keeps known (f a) post) -> keeps known (prog_bind f p) post.
Proof.
  revert known. induction p as [a|l m k IH|l k IH|X g k IH]; intros known; cbn; intros Hp Hf; [by apply Hf|..].
  - case_decide; [|naive_solver]. naive_solver.
  - case_decide; [|naive_solver]. destruct known as [|w|]; [done| |done]. naive_solver.
  - destruct known as [|w|]; [| |done].
    + intros w. destruct (Hp w). split; [done|]. by apply IH.
    + intros w' Hw'. destruct (Hp w' Hw') as (w1 & ? & ?). exists w1. split; [done|]. by apply IH.
Qed.

Lemma keeps_impl {A} known (p : Prog W A) (post post' : Knowledge W -> A -> Prop) :
  keeps known p post -> (forall known a, post known a -> post' known a) -> keeps known p post'.
Proof.
  revert known. induction p as [a|l m k IH|l k IH|X g k IH]; intros known; cbn; intros Hp Hf; [by apply Hf|..].
  - case_decide; naive_solver.
  - case_decide; [|naive_solver]. destruct known; naive_solver.
  - destruct known as [|w|]; [| |done].
    + intros w. destruct (Hp w). split; [done|]. by apply IH.
    + intros w' Hw'. destruct (Hp w' Hw') as (w1 & ? & ?). exists w1. split; [done|]. by apply IH.
Qed.

(** ** The rules *)
Lemma keeps_mbind {A B} known (p : Prog W A) (f : A -> Prog W B) post :
  keeps known p (fun known a => keeps known (f a) post) -> keeps known (p ≫= f) post.
Proof. intros Hp. eapply keeps_prog_bind; [exact Hp|]. auto. Qed.
Lemma keeps_fmap {A B} known (p : Prog W A) (f : A -> B) post :
  keeps known p (fun known a => post known (f a)) -> keeps known (f <$> p) post.
Proof. intros Hp. eapply keeps_prog_bind; [exact Hp|]. auto. Qed.

(** Another lock. *)
Lemma keeps_guarded {A} known l m (p : Prog W A) post :
  l <> lock -> known <> Lost -> keeps known p (fun known a => known <> Lost /\ post known a) -> keeps known (guarded l m p) post.
Proof.
  intros Hl Hk Hp. unfold guarded. cbn. rewrite decide_False by done. split; [done|]. eapply keeps_prog_bind; [exact Hp|].
  cbn. intros known' a. by rewrite decide_False.
Qed.

(** The end of the scope of the lock. *)
Definition ends {A} (post : Knowledge W -> A -> Prop) (known : Knowledge W) (a : A) : Prop :=
  match known with
  | Inside w => (settled w /\ post Outside a) \/ post Lost a
  | _ => False
  end.
Lemma keeps_section {A} (p : Prog W A) post :
  (forall w, settled w -> keeps (Inside w) p (ends post)) -> keeps Outside (guarded lock Exclusive p) post.
Proof.
  intros Hp. unfold guarded. cbn. rewrite decide_True by done. split; [done|]. split; [done|]. intros w Hw.
  eapply keeps_prog_bind; [by apply Hp|]. cbn. intros known a. by rewrite decide_True.
Qed.

Lemma keeps_peek_inside {X} w (f : W -> X) post :
  (forall w', same w w' -> post (Inside w) (f w')) -> keeps (Inside w) (peek f) post.
Proof. intros Hp w' Hw'. cbn. exists w. split; [done|]. by apply Hp. Qed.
Lemma keeps_poke_inside w w1 (f : W -> W) post :
  (forall w', same w w' -> same w1 (f w')) -> post (Inside w1) tt -> keeps (Inside w) (poke f) post.
Proof. intros Hf Hp w' Hw'. cbn. exists w1. auto. Qed.
Lemma keeps_act_inside {X} w (f : W -> X * W) post :
  (forall w', same w w' -> exists w1, same w1 (f w').2 /\ post (Inside w1) (f w').1) -> keeps (Inside w) (act f) post.
Proof. intros Hf w' Hw'. cbn. by apply Hf. Qed.

(** ** Programs that leave the protected part alone *)
Fixpoint quiet {A} (p : Prog W A) : Prop :=
  match p with
  | Ret _ => True
  | Acquire l _ k | Release l k => l <> lock /\ quiet k
  | Access f k => forall w, same w (f w).2 /\ quiet (k (f w).1)
  end.

Lemma quiet_mbind {A B} (p : Prog W A) (f : A -> Prog W B) :
  quiet p -> (forall a, quiet (f a)) -> quiet (p ≫= f).
Proof.
  unfold mbind, prog_mbind. induction p as [a|l m k IH|l k IH|X g k IH]; cbn; intros Hp Hf; [done|naive_solver..|].
  intros w. destruct (Hp w). split; [done|]. by apply IH.
Qed.
Lemma quiet_fmap {A B} (p : Prog W A) (f : A -> B) : quiet p -> quiet (f <$> p).
Proof. intros Hp. change (quiet (p ≫= fun a => mret (f a))). by apply quiet_mbind. Qed.
Lemma quiet_guarded {A} l m (p : Prog W A) : l <> lock -> quiet p -> quiet (guarded l m p).
Proof. intros Hl Hp. split; [done|]. apply (quiet_mbind p (fun a => Release l (Ret a))); [done|]. by intros a. Qed.

Lemma quiet_keeps {A} known (p : Prog W A) (post : Knowledge W -> A -> Prop) :
  quiet p -> known <> Lost -> (forall a, post known a) -> keeps known p post.
Proof.
  induction p as [a|l m k IH|l k IH|X g k IH]; cbn; intros Hp Hk Ha; [done|rewrite decide_False; naive_solver..|].
  destruct known as [|w|]; [| |done].
  - intros w. destruct (Hp w). split; [done|]. by apply IH.
  - intros w' Hw'. exists w. destruct (Hp w'). split; [by etransitivity|]. by apply IH.
Qed.

(** ** Threads *)
Context {R : Type} (dead : R -> Prop).

Definition finishes (known : Knowledge W) (r : R) : Prop := known = Outside \/ (known = Lost /\ dead r).
Definition knows (w : W) (t : Thread W R) (known : Knowledge W) : Prop :=
  match known with
  | Inside w0 => (lock, Exclusive) ∈ td_held t /\ same w0 w
  | _ => forall m, (lock, m) ∉ td_held t
  end.
Definition keeping (w : W) (t : Thread W R) : Prop := exists known, keeps known (td_prog t) finishes /\ knows w t known.
Definition has_died (t : Thread W R) : Prop := exists r, td_prog t = Ret r /\ dead r.
Definition unlocked (threads : list (Thread W R)) : Prop := Forall (fun t => forall m, (lock, m) ∉ td_held t) threads.

Definition disciplined (s : list (Thread W R) * W) : Prop :=
  Exists has_died s.1 \/ (Forall (keeping s.2) s.1 /\ (unlocked s.1 -> settled s.2)).

Lemma lost_has_died held (p : Prog W R) :
  keeps Lost p finishes -> has_died {| td_held := held; td_prog := p |} .
Proof.
  destruct p as [r|l m k|l k|X f k]; cbn.
  - intros [[=]|[_ Hr]]. by exists r.
  - case_decide; [by intros [[=] _]|by intros [? _]].
  - case_decide; [done|by intros [? _]].
  - done.
Qed.

Lemma not_held_release l m held : (l, m) ∉ release l held.
Proof. intros [Hl _]%list_elem_of_filter. by apply Hl. Qed.
Lemma held_release l m l' (held : Held) : l <> l' -> (l, m) ∈ release l' held <-> (l, m) ∈ held.
Proof. intros Hl. unfold release. rewrite list_elem_of_filter. cbn. naive_solver. Qed.

(** A step of one thread that keeps the discipline: it dies, or it keeps the
    discipline; what it did to the protected part, it did with the lock. *)
Lemma advance_keeping threads i t t' w w' :
  threads !! i = Some t -> admitted false threads t -> advance t w t' w' -> (unlocked threads -> settled w) ->
  Forall (keeping w) threads ->
  has_died t' \/
  (keeping w' t' /\ (same w w' \/ (lock, Exclusive) ∈ td_held t)
   /\ ((forall m, (lock, m) ∉ td_held t') -> settled w' \/ forall m, (lock, m) ∉ td_held t)).
Proof.
  intros Ht Ha Hs Hset Hk. pose proof (proj1 (Forall_lookup _ _) Hk i t Ht) as (known & Hp & Hkn).
  destruct Hs as [held l m k w|held l k w|held X f k w]; cbn in Hp.
  - case_decide as Hl.
    + destruct Hp as (-> & -> & Hp). subst l. right.
      assert (settled w) as Hw by (apply Hset; unfold admitted in Ha; by cbn in Ha).
      split; [|split; [by left|by right]]. exists (Inside w). split; [by apply Hp|]. split; [by left|done].
    + destruct Hp as [Hlost Hp]. right. split; [|split; [by left|]].
      * exists known. split; [done|]. destruct known as [|w0|]; cbn in *; [|destruct Hkn; split; [by right|done]|done].
        intros m' [[= -> ->]|?]%elem_of_cons; [done|]. by eapply Hkn.
      * intros Hno. right. intros m' Hin. apply (Hno m'). cbn. by right.
  - case_decide as Hl.
    + subst l. destruct known as [|w0|]; [done| |done]. destruct Hkn as [Hin Hw0].
      destruct Hp as [[Hw Hp]|Hp]; [|left; by apply lost_has_died]. right.
      split; [|split; [by left|]].
      * exists Outside. split; [done|]. intros m. apply not_held_release.
      * intros _. left. by eapply settled_same.
    + destruct Hp as [Hlost Hp]. right. split; [|split; [by left|]].
      * exists known. split; [done|]. destruct known as [|w0|]; cbn in *; [| |done].
        -- intros m. rewrite held_release by done. apply Hkn.
        -- by rewrite held_release.
      * intros Hno. right. intros m. cbn in *. specialize (Hno m). by rewrite held_release in Hno.
  - destruct known as [|w0|]; [| |done].
    + destruct (Hp w) as [Hsame Hp']. right. split; [by exists Outside|]. split; [by left|]. by right.
    + destruct Hkn as [Hin Hw0]. destruct (Hp w Hw0) as (w1 & Hsame & Hp'). right.
      split; [exists (Inside w1); by split|]. split; [by right|]. by right.
Qed.

Lemma keeping_same w w' t : same w w' -> keeping w t -> keeping w' t.
Proof.
  intros Hw (known & Hp & Hk). exists known. split; [done|]. destruct known; [done| |done]. destruct Hk. split; [done|].
  by etransitivity.
Qed.
Lemma keeping_outside w w' t : (forall m, (lock, m) ∉ td_held t) -> keeping w t -> keeping w' t.
Proof.
  intros Hno (known & Hp & Hk). exists known. split; [done|]. destruct known; [done| |done]. destruct Hk as [Hin _].
  by apply Hno in Hin.
Qed.

Lemma pool_disciplined s s' : pool_step false s s' -> excluded s.1 -> disciplined s -> disciplined s'.
Proof.
  intros Hstep He. revert He.
  destruct Hstep as [threads i t t' w w' Ht Ha Hs]. unfold disciplined. cbn. intros He [Hd|[Hk Hset]].
  { left. apply Exists_exists in Hd as (o & Ho & Hd). apply list_elem_of_lookup in Ho as [j Hj].
    apply Exists_exists. exists o. split; [|done]. apply list_elem_of_lookup. exists j.
    rewrite list_lookup_insert_ne; [done|]. intros ->. rewrite Ht in Hj. injection Hj as ->.
    destruct Hd as (r & Hr & _). by inversion Hs; subst. }
  destruct (advance_keeping threads i t t' w w' Ht Ha Hs Hset Hk) as [Hd|(Ht' & Hw & Hrel)].
  { left. apply Exists_exists. exists t'. split; [|done]. apply list_elem_of_lookup. exists i.
    apply list_lookup_insert_eq. by eapply lookup_lt_Some. }
  right. split.
  - apply Forall_lookup. intros j o Hj. apply list_lookup_insert_Some in Hj as [(-> & -> & _)|[Hne Hj]]; [done|].
    pose proof (proj1 (Forall_lookup _ _) Hk j o Hj) as Ho. destruct Hw as [Hw|Hin]; [by eapply keeping_same|].
    eapply keeping_outside; [|done]. intros m. by apply (He i j t o lock m).
  - intros Hun. assert (forall m, (lock, m) ∉ td_held t') as Hno.
    { eapply (proj1 (Forall_lookup _ _) Hun i). apply list_lookup_insert_eq. by eapply lookup_lt_Some. }
    destruct (Hrel Hno) as [|Hold]; [done|].
    assert (settled w) as Hsw.
    { apply Hset. apply Forall_lookup. intros j o Hj. destruct (decide (i = j)) as [->|Hne].
      - rewrite Ht in Hj. by injection Hj as <-.
      - eapply (proj1 (Forall_lookup _ _) Hun j). by rewrite list_lookup_insert_ne. }
    destruct Hw as [Hw|Hin]; [by eapply settled_same|]. by apply Hold in Hin.
Qed.

(** Whatever the interleaving: unless a thread has died, the invariant holds
    whenever nobody has the lock. *)
Lemma interleaved_settled s s' :
  rtc (pool_step false) s s' -> excluded s.1 -> Forall (keeping s.2) s.1 -> settled s.2 ->
  Exists has_died s'.1 \/ (unlocked s'.1 -> settled s'.2).
Proof.
  intros Hr He Hk Hs. assert (disciplined s) as Hi by by right.
  assert (excluded s'.1 /\ disciplined s') as [_ Hi'].
  { clear Hk Hs. induction Hr as [s|s s1 s2 Hs1 _ IH]; [done|]. apply IH; [by eapply pool_excluded|by eapply pool_disciplined]. }
  destruct Hi' as [|[_ ?]]; [by left|by right].
Qed.
End interference.
