(* ===== verification/Guards.v ===== *)
(** * The runtime's operations with their locks ([apps/resticpal-service/src/runtime/])

    Every operation of [ServiceRuntime] again, this time as a program that
    takes and releases the locks the code takes, with the scope of every
    guard.  Run by itself each program is the operation of the other files
    ([programs_compute_operations]); run by several threads it can be
    interrupted wherever the code can.  A panic is [None]. *)
From stdpp Require Import base option list gmap strings relations.
From S2P Require Import Prelude RustStd Chrono Crates Config Status Schedule Policy Restic Protocol Outcome.
From S2P Require Import ServiceState Diagnostics History Credentials Management Updater Sources PolicyCache.
From S2P Require Import Runtime Scheduler Lifecycle Enrollment Ipc Locks.

Notation Guarded := (Prog ServiceRuntime).

(** [state_guard], [config_read], [config_write], [local_config_guard] and
    the mutation lock: a lock taken for the scope [p]. *)
Definition state_guard {A} (p : Guarded A) : Guarded A := guarded L_State Exclusive p.
Definition config_read {A} (p : Guarded A) : Guarded A := guarded L_Config Shared p.
Definition config_write {A} (p : Guarded A) : Guarded A := guarded L_Config Exclusive p.
Definition local_config_guard {A} (p : Guarded A) : Guarded A := guarded L_LocalConfig Exclusive p.
Definition configuration_mutation {A} (p : Guarded A) : Guarded A := guarded L_ConfigurationMutation Exclusive p.
Definition field_locked (field : PolicyField) : Guarded bool :=
  guarded L_FieldResolutions Shared (peek (Runtime.field_locked field)).
Definition field_resolutions_write (fields : Fields) : Guarded unit :=
  guarded L_FieldResolutions Exclusive (poke (set_sr_field_resolutions fields)).
Definition config : Guarded EffectiveConfig := config_read (peek sr_config).
Definition local_config : Guarded LocalConfig := local_config_guard (peek sr_local_config).
Definition status : Guarded ServiceStatus := state_guard (peek (fun w => rt_status (sr_state w))).
Definition send_locked (event : RuntimeEvent) : Guarded bool := act (send event).

(** [value.is_some() && self.field_locked(field) || ...], lazily *)
Fixpoint any_locked (fields : list (bool * PolicyField)) : Guarded bool :=
  match fields with
  | [] => mret false
  | (supplied, field) :: fields =>
      if negb supplied then any_locked fields
      else locked ← field_locked field; if (locked : bool) then mret true else any_locked fields
  end.

(** An early return out of a scope, or the value it goes on with. *)
Inductive Flow (X : Type) : Type := Returns (r : option ResponsePayload) | Goes (x : X).
Arguments Returns {X}. Arguments Goes {X}.
Definition continue {X} (p : Guarded (Flow X)) (k : X -> Guarded (option ResponsePayload))
    : Guarded (option ResponsePayload) :=
  flow ← p; match (flow : Flow X) with Returns r => mret r | Goes x => k x end.
Definition respond (r : ResponsePayload) : Guarded (option ResponsePayload) := mret (Some r).

(** ** Views *)
Definition management_view : Guarded ManagementView := local_config_guard (peek Enrollment.management_view).

Definition backup_sources_view : Guarded BackupSourcesView :=
  config_read (
    config ← peek sr_config;
    paths_locked ← field_locked F_BackupPaths;
    exclusions_locked ← field_locked F_BackupExclusions;
    mret {| bv_paths := bc_paths (ec_backup config); bv_exclusions := bc_exclusions (ec_backup config);
            bv_paths_locked := paths_locked; bv_exclusions_locked := exclusions_locked |}).

Definition repository_secrets_locked : Guarded bool :=
  locked ← field_locked F_RepositorySecretRefs;
  if (locked : bool) then mret true else view ← management_view; mret (mv_enrolled view).

Definition repository_view : Guarded RepositoryView :=
  operation_status ← state_guard (peek (fun w => rt_repository_operation (sr_state w)));
  config_read (
    config ← peek sr_config;
    display_name_locked ← field_locked F_RepositoryDisplayName;
    url_locked ← field_locked F_RepositoryUrl;
    mode_locked ← field_locked F_RepositoryMode;
    options_locked ← field_locked F_RepositoryOptions;
    secrets_locked ← repository_secrets_locked;
    let r := ec_repository config in
    mret {| rpv_display_name := rc_display_name r; rpv_url := rc_url r; rpv_mode := rc_mode r;
            rpv_options := rc_options r; rpv_configured_secrets := btree_keys (rc_secret_refs r);
            rpv_operation_status := operation_status; rpv_display_name_locked := display_name_locked;
            rpv_url_locked := url_locked; rpv_mode_locked := mode_locked; rpv_options_locked := options_locked;
            rpv_secrets_locked := secrets_locked |}).

Definition update_settings_view : Guarded UpdateSettingsView :=
  configuration_mutation (
    automatic_install ← config_read (peek (fun w => uc_automatic_install (ec_updates (sr_config w))));
    automatic_install_locked ← field_locked F_UpdateAutomaticInstall;
    mret {| uv_automatic_install := automatic_install; uv_automatic_install_locked := automatic_install_locked |}).

Definition schedule_view : Guarded ScheduleView :=
  config_read (
    config ← peek sr_config;
    interval_hours_locked ← field_locked F_ScheduleIntervalHours;
    wake_grace_seconds_locked ← field_locked F_ScheduleWakeGraceSeconds;
    wake_lock_timeout_seconds_locked ← field_locked F_ScheduleWakeLockTimeoutSeconds;
    allow_on_battery_locked ← field_locked F_ScheduleAllowOnBattery;
    allow_metered_network_locked ← field_locked F_ScheduleAllowMeteredNetwork;
    let s := ec_schedule config in
    mret {| sv_interval_hours := sc_interval_hours s; sv_wake_grace_seconds := sc_wake_grace_seconds s;
            sv_wake_lock_timeout_seconds := sc_wake_lock_timeout_seconds s;
            sv_allow_on_battery := sc_allow_on_battery s; sv_allow_metered_network := sc_allow_metered_network s;
            sv_interval_hours_locked := interval_hours_locked;
            sv_wake_grace_seconds_locked := wake_grace_seconds_locked;
            sv_wake_lock_timeout_seconds_locked := wake_lock_timeout_seconds_locked;
            sv_allow_on_battery_locked := allow_on_battery_locked;
            sv_allow_metered_network_locked := allow_metered_network_locked |}).

Definition retention_view : Guarded RetentionView :=
  s ← state_guard (peek (fun w => rt_service_state (sr_state w)));
  config_read (
    config ← peek sr_config;
    daily_locked ← field_locked F_RetentionDaily;
    weekly_locked ← field_locked F_RetentionWeekly;
    monthly_locked ← field_locked F_RetentionMonthly;
    yearly_locked ← field_locked F_RetentionYearly;
    prune_interval_days_locked ← field_locked F_RetentionPruneIntervalDays;
    let t := ec_retention config in
    mret {| tv_repository_mode := rc_mode (ec_repository config); tv_daily := tc_daily t; tv_weekly := tc_weekly t;
            tv_monthly := tc_monthly t; tv_yearly := tc_yearly t; tv_prune_interval_days := tc_prune_interval_days t;
            tv_daily_locked := daily_locked; tv_weekly_locked := weekly_locked; tv_monthly_locked := monthly_locked;
            tv_yearly_locked := yearly_locked; tv_prune_interval_days_locked := prune_interval_days_locked;
            tv_last_retention := st_last_retention s; tv_last_prune := st_last_prune s;
            tv_last_error := st_last_retention_error s |}).

Definition update_blocks_configuration_mutation (now : DateTime) : Guarded bool :=
  state_guard (peek (Ipc.update_blocks_configuration_mutation now)).

(** ** Requests *)
Section requests.
Context `{Chrono} `{UrlCrate} `{CryptoCrates} `{Dpapi} `{UnicodeData} `{Filesystem} `{Messages} `{Base64Standard}.
Context `{Serde LocalConfig} `{Serde PersistedScheduleState} `{Serde DiagnosticEntry} `{Serde CachedManifest}.

(** A step on the state under its mutex that may panic. *)
Definition on_state (f : RuntimeState -> option RuntimeState) : Guarded bool :=
  act (fun w => match f (sr_state w) with Some state => (true, set_sr_state state w) | None => (false, w) end).

Definition begin_repository_operation (env : Env) (operation : RepositoryOperationKind) (identity : ClientIdentity)
    : Guarded (option ResponsePayload) :=
  if negb (is_elevated_administrator identity) then respond administrator_required else
  config ← config;
  if negb (is_some (rc_url (ec_repository config))) then
    respond (rejected "repository_not_configured" "Save a repository URL before testing the connection.") else
  if negb (btree_contains_key ResticPassword (rc_secret_refs (ec_repository config))) then
    respond (rejected "repository_password_required" "Store the repository password before testing the connection.") else
  if bool_decide (operation = Kind_Initialize) && negb (allowed_in Initialize (rc_mode (ec_repository config))) then
    respond (rejected "append_only_initialization_forbidden" "Repository creation is disabled in append-only mode.") else
  state_guard (
    state ← peek sr_state;
    if rt_update_install_active state || held_at state (env_now env 0) then
      respond (rejected "update_pending" "A resticpal update is about to start. Try again after it finishes.") else
    if is_running (ss_state (rt_status state)) then
      respond (rejected "backup_running" "Wait for the active backup to finish before testing its repository.") else
    if repository_operation_running (rt_repository_operation state) then
      respond (rejected "repository_operation_running" "A repository operation is already running.") else
    let state := set_rt_repository_operation (RO_Running operation) state in
    let state :=
      if is_configured config
      then on_status (fun s => set_ss_next_deadline None
                                 (transition_state (BS_Waiting WR_RepositoryValidation) (env_now env 1) s)) state
      else state in
    let state := set_rt_service_state (require_repository_validation (rt_service_state state)) state in
    poke (set_sr_state state);;
    saved ← act (save_state env (rt_service_state state));
    if negb saved then
      poke (set_sr_state
              (set_rt_repository_operation (RO_Failed operation (env_now env 2) (lit "state_save_failed")) state));;
      respond (rejected "state_save_failed" "Repository validation state could not be saved.")
    else
      sent ← send_locked (Ev_RepositoryOperationRequested operation);
      if negb sent then
        poke (set_sr_state
                (set_rt_repository_operation (RO_Failed operation (env_now env 2) (lit "service_stopping")) state));;
        respond (rejected "service_stopping" "The backup service is stopping. Try again shortly.")
      else
        respond (match operation with
                 | Kind_Validate => accepted "Repository connection test started."
                 | Kind_Initialize => accepted "Repository creation started."
                 end)).

Definition prepare_for_update (env : Env) (hold_seconds : Z) (identity : ClientIdentity)
    : Guarded (option ResponsePayload) :=
  if negb (is_elevated_administrator identity) then respond administrator_required else
  configuration_mutation (
    automatic_install ← config_read (peek (fun w => uc_automatic_install (ec_updates (sr_config w))));
    if (automatic_install : bool) then
      respond (rejected "automatic_updates_enabled"
        "This device's effective policy requires the protected service to install updates silently.") else
    if negb (in_range MIN_UPDATE_HOLD_SECONDS MAX_UPDATE_HOLD_SECONDS hold_seconds) then
      respond (rejected "invalid_update_hold" "The update hold must be between one and 30 minutes.") else
    let now := env_now env 0 in
    state_guard (
      state ← peek sr_state;
      if rt_update_install_active state then
        respond (rejected "update_already_running" "The protected service is already installing an update.") else
      if held_at state now then
        respond (rejected "update_pending" "Another update request is already holding backup work.") else
      if is_running (ss_state (rt_status state)) then
        respond (rejected "backup_running" "Wait for the active backup to finish before installing the update.") else
      if repository_operation_running (rt_repository_operation state) || rt_management_operation_active state then
        respond (rejected "operation_running" "Wait for the current repository or management operation to finish.") else
      match hold_deadline now hold_seconds with
      | None => mret None
      | Some deadline =>
          poke (set_sr_state (place_hold now deadline state));;
          respond (accepted "Backups are held briefly while the update starts.")
      end)).

Definition update_update_settings (env : Env) (automatic_install : bool) (identity : ClientIdentity)
    : Guarded (option ResponsePayload) :=
  if negb (is_elevated_administrator identity) then respond administrator_required else
  configuration_mutation (
    locked ← field_locked F_UpdateAutomaticInstall;
    if (locked : bool) then
      respond (rejected "managed_field_locked" "Automatic update installation is locked by managed policy.") else
    blocked ← update_blocks_configuration_mutation (env_now env 0);
    if (blocked : bool) then
      respond (rejected "update_pending" "Automatic-update mode cannot change while an update is in progress.") else
    local ← local_config;
    let candidate := set_lc_updates {| lu_automatic_install := Some automatic_install |} local in
    saved ← act (save_config env candidate);
    if negb saved then
      respond (rejected "configuration_save_failed" "The automatic-update setting could not be saved.") else
    local_config_guard (poke (set_sr_local_config candidate));;
    config_write (poke (fun w =>
      set_sr_config (set_ec_updates {| uc_automatic_install := automatic_install |} (sr_config w)) w));;
    respond (if automatic_install
             then accepted "Signed resticpal updates will install automatically in the background."
             else accepted "resticpal will ask before installing updates.")).

Definition begin_update_install (env : Env) (package : UpdatePackage) (identity : ClientIdentity)
    : Guarded (option ResponsePayload) :=
  configuration_mutation (
    automatic_install ← config_read (peek (fun w => uc_automatic_install (ec_updates (sr_config w))));
    if negb automatic_install then
      respond (rejected "automatic_updates_disabled"
        "Automatic update installation is disabled by this device's effective policy.") else
    if negb (is_ok (validate_package package)) then
      respond (rejected "update_metadata_invalid"
        "The signed update metadata is invalid or does not describe a newer resticpal MSI.") else
    let now := env_now env 0 in
    state_guard (
      state ← peek sr_state;
      if rt_update_install_active state then
        respond (rejected "update_already_running" "An update is already being installed.") else
      if held_at state now then
        respond (rejected "update_pending" "A prompted update is already holding backup work.") else
      if is_running (ss_state (rt_status state)) then
        respond (rejected "backup_running" "The update will be retried after the active backup finishes.") else
      if repository_operation_running (rt_repository_operation state) || rt_management_operation_active state then
        respond (rejected "operation_running" "The update will be retried after the current service operation finishes.") else
      match hold_deadline now MAX_UPDATE_HOLD_SECONDS with
      | None => mret None
      | Some deadline =>
          let state := place_hold now deadline (set_rt_update_install_active true state) in
          poke (set_sr_state state);;
          sent ← send_locked (Ev_UpdateInstallRequested package);
          if negb sent then
            poke (set_sr_state (restore_held_status now
                                  (set_rt_update_hold_until None (set_rt_update_install_active false state))));;
            respond (rejected "service_stopping" "The backup service is stopping. Try again shortly.")
          else
            respond (Resp_Accepted (lit "resticpal " ++ up_version package
                                    ++ lit " will download and install silently after signature verification."))
      end)).

Definition run_backup_now (env : Env) : Guarded (option ResponsePayload) :=
  configured ← config_read (peek (fun w => is_configured (sr_config w)));
  if negb configured then
    respond (rejected "not_configured" "Configure backup sources and a repository first.") else
  ready ← state_guard (peek (fun w => repository_operation_allows_backup (rt_repository_operation (sr_state w))));
  if negb ready then
    respond (rejected "repository_not_ready" "Validate or initialize the repository before starting a backup.") else
  state_guard (
    state ← peek sr_state;
    if is_running (ss_state (rt_status state)) then
      respond (rejected "already_running" "A backup is already running.") else
    if rt_update_install_active state || held_at state (env_now env 0) then
      respond (rejected "update_pending" "A resticpal update is about to start. Try again after it finishes.") else
    let state := set_rt_not_before None (set_rt_manual_requested true state) in
    poke (set_sr_state state);;
    sent ← send_locked Ev_RunNow;
    if negb sent then
      poke (set_sr_state (set_rt_manual_requested false state));;
      respond (rejected "service_stopping" "The backup service is stopping. Try again shortly.")
    else respond (accepted "Backup requested. Waiting for the service to start.")).

Definition cancel_backup : Guarded (option ResponsePayload) :=
  running ← state_guard (peek (fun w => is_running (ss_state (rt_status (sr_state w)))));
  if negb running then respond (rejected "not_running" "There is no running backup to cancel.")
  else Some <$> act (send_event Ev_Cancel "Cancellation requested.").

Definition defer_backup (env : Env) (minutes : Z) : Guarded (option ResponsePayload) :=
  if negb (in_range 1 (24 * 60) minutes) then
    respond (rejected "invalid_deferral" "A deferral must be between one minute and 24 hours.") else
  configured ← config_read (peek (fun w => is_configured (sr_config w)));
  if negb configured then
    respond (rejected "not_configured" "Configure backup sources and a repository first.") else
  continue
    (state_guard (
      state ← peek sr_state;
      if negb (repository_operation_allows_backup (rt_repository_operation state)) then
        mret (Returns (Some
          (rejected "repository_not_ready" "Validate or initialize the repository before deferring backups."))) else
      if is_running (ss_state (rt_status state)) then
        mret (Returns (Some (rejected "already_running" "A running backup cannot be deferred."))) else
      match duration_minutes minutes with
      | None => mret (Returns None)
      | Some deferral =>
          let now := env_now env 0 in
          let deadline := default now (checked_add_signed now deferral) in
          poke (set_sr_state (on_status (set_ss_next_deadline (Some deadline))
                                (set_rt_not_before (Some deadline) (set_rt_manual_requested false state))));;
          mret (Goes tt)
      end))
    (fun _ => Some <$> act (send_event Ev_Deferred "Backup deferred.")).

(** ** Configuration updates *)
Definition data_directory (w : ServiceRuntime) : option rstr :=
  match sr_config_store w with Some store => WinPath.parent (cs_path store) | None => None end.

(** The end of an update under the state mutex, and the event after it. *)
Definition commit_configuration (env : Env) (candidate : LocalConfig) (effective : EffectiveConfig)
    : Guarded (Flow unit) :=
  local_config_guard (poke (set_sr_local_config candidate));;
  config_write (poke (set_sr_config effective));;
  applied ← on_state (apply_configuration_status effective (env_now env 1));
  mret (if (applied : bool) then Goes tt else Returns None).
Definition announce (message : string) : Guarded (option ResponsePayload) :=
  send_locked Ev_ConfigurationChanged;; respond (accepted message).

Definition update_retention (env : Env) (daily weekly monthly yearly prune_interval_days : option Z)
    (identity : ClientIdentity) : Guarded (option ResponsePayload) :=
  if negb (is_elevated_administrator identity) then respond administrator_required else
  configuration_mutation (
    blocked ← update_blocks_configuration_mutation (env_now env 0);
    if (blocked : bool) then respond update_pending else
    mode ← config_read (peek (fun w => rc_mode (ec_repository (sr_config w))));
    if bool_decide (mode = AppendOnly) then
      respond (rejected "retention_managed_by_server" "Retention for an append-only repository is managed by the server.") else
    if negb (is_some daily || is_some weekly || is_some monthly || is_some yearly || is_some prune_interval_days) then
      respond (rejected "no_configuration_changes" "No retention changes were supplied.") else
    locked ← any_locked [(is_some daily, F_RetentionDaily); (is_some weekly, F_RetentionWeekly);
                         (is_some monthly, F_RetentionMonthly); (is_some yearly, F_RetentionYearly);
                         (is_some prune_interval_days, F_RetentionPruneIntervalDays)];
    if (locked : bool) then
      respond (rejected "managed_field_locked" "One or more retention fields are locked by managed policy.") else
    local ← local_config;
    config ← config;
    let candidate := retention_candidate daily weekly monthly yearly prune_interval_days local in
    let effective := retention_effective daily weekly monthly yearly prune_interval_days config in
    match validate effective with
    | Err e => respond (Resp_Rejected (lit "invalid_retention") (config_error_text e))
    | Ok _ =>
        continue
          (state_guard (
            state ← peek sr_state;
            if is_running (ss_state (rt_status state)) then
              mret (Returns (Some
                (rejected "backup_running" "Wait for the active backup to finish before changing retention."))) else
            if repository_operation_running (rt_repository_operation state) then
              mret (Returns (Some (rejected "repository_operation_running"
                "Wait for the repository operation to finish before changing retention."))) else
            saved ← act (save_config env candidate);
            mret (if (saved : bool) then Goes tt else Returns (Some configuration_save_failed))))
          (fun _ =>
            local_config_guard (poke (set_sr_local_config candidate));;
            config_write (poke (set_sr_config effective));;
            announce "Retention policy updated.")
    end).

Definition update_schedule (env : Env) (interval_hours wake_grace_seconds wake_lock_timeout_seconds : option Z)
    (allow_on_battery allow_metered_network : option bool) (identity : ClientIdentity)
    : Guarded (option ResponsePayload) :=
  if negb (is_elevated_administrator identity) then respond administrator_required else
  configuration_mutation (
    blocked ← update_blocks_configuration_mutation (env_now env 0);
    if (blocked : bool) then respond update_pending else
    if negb (is_some interval_hours || is_some wake_grace_seconds || is_some wake_lock_timeout_seconds
             || is_some allow_on_battery || is_some allow_metered_network) then
      respond (rejected "no_configuration_changes" "No schedule changes were supplied.") else
    locked ← any_locked [(is_some interval_hours, F_ScheduleIntervalHours);
                         (is_some wake_grace_seconds, F_ScheduleWakeGraceSeconds);
                         (is_some wake_lock_timeout_seconds, F_ScheduleWakeLockTimeoutSeconds);
                         (is_some allow_on_battery, F_ScheduleAllowOnBattery);
                         (is_some allow_metered_network, F_ScheduleAllowMeteredNetwork)];
    if (locked : bool) then
      respond (rejected "managed_field_locked" "One or more schedule fields are locked by managed policy.") else
    local ← local_config;
    config ← config;
    let candidate := schedule_candidate interval_hours wake_grace_seconds wake_lock_timeout_seconds
                       allow_on_battery allow_metered_network local in
    let effective := schedule_effective interval_hours wake_grace_seconds wake_lock_timeout_seconds
                       allow_on_battery allow_metered_network config in
    match validate effective with
    | Err e => respond (Resp_Rejected (lit "invalid_schedule") (config_error_text e))
    | Ok _ =>
        continue
          (state_guard (
            state ← peek sr_state;
            if is_running (ss_state (rt_status state)) then
              mret (Returns (Some
                (rejected "backup_running" "Wait for the active backup to finish before changing its schedule."))) else
            if repository_operation_running (rt_repository_operation state) then
              mret (Returns (Some (rejected "repository_operation_running"
                "Wait for the repository operation to finish before changing the schedule."))) else
            saved ← act (save_config env candidate);
            if negb saved then mret (Returns (Some configuration_save_failed)) else
            commit_configuration env candidate effective))
          (fun _ => announce "Backup schedule updated.")
    end).

Definition update_backup_sources (env : Env) (paths exclusions : option (list rstr)) (identity : ClientIdentity)
    : Guarded (option ResponsePayload) :=
  if negb (is_elevated_administrator identity) then respond administrator_required else
  configuration_mutation (
    blocked ← update_blocks_configuration_mutation (env_now env 0);
    if (blocked : bool) then respond update_pending else
    if negb (is_some paths || is_some exclusions) then
      respond (rejected "no_configuration_changes" "No backup-source changes were supplied.") else
    locked ← any_locked [(is_some paths, F_BackupPaths); (is_some exclusions, F_BackupExclusions)];
    if (locked : bool) then
      respond (rejected "managed_field_locked" "Backup sources are locked by managed policy.") else
    local ← local_config;
    config ← config;
    let paths : option (list rstr) := deduplicate_paths <$> paths in
    let exclusions : option (list rstr) := deduplicate_exclusions <$> exclusions in
    let candidate := sources_candidate paths exclusions local in
    let effective := sources_effective paths exclusions config in
    (* the path of the store never changes and needs no lock *)
    directory ← peek data_directory;
    match validate_backup_source_paths (bc_paths (ec_backup effective)) directory with
    | Err error => respond (source_rejection error)
    | Ok _ =>
        match validate effective with
        | Err e => respond (Resp_Rejected (lit "invalid_backup_sources") (config_error_text e))
        | Ok _ =>
            continue
              (state_guard (
                state ← peek sr_state;
                if is_running (ss_state (rt_status state)) then
                  mret (Returns (Some
                    (rejected "backup_running" "Wait for the active backup to finish before changing its sources."))) else
                saved ← act (save_config env candidate);
                if negb saved then mret (Returns (Some configuration_save_failed)) else
                commit_configuration env candidate effective))
              (fun _ => announce "Backup sources updated.")
        end
    end).

(** [store_secrets] on the credential store, which only holders of the
    mutation lock touch. *)
Definition store_secrets (env : Env) (updates : list RepositorySecretUpdate) (candidate : LocalConfig)
    (effective : EffectiveConfig) : Guarded (option (LocalConfig * EffectiveConfig * list rstr * list rstr)) :=
  act (fun w =>
    match Ipc.store_secrets env updates candidate effective w with
    | Err w => (None, w)
    | Ok (candidate, effective, created, retired, w) => (Some (candidate, effective, created, retired), w)
    end).

(** From the second validation to the end of the state mutex. *)
Definition commit_repository (env : Env) (connection_changed : bool) (candidate : LocalConfig)
    (effective : EffectiveConfig) (created : list rstr) : Guarded (Flow unit) :=
  let abandon (r : ResponsePayload) : Guarded (Flow unit) :=
    poke (cleanup_credentials env created);; mret (Returns (Some r)) in
  match validate effective with
  | Err e => abandon (Resp_Rejected (lit "invalid_repository") (config_error_text e))
  | Ok _ =>
      service_state ← peek (fun w => rt_service_state (sr_state w));
      let next_service_state :=
        if connection_changed then require_repository_validation service_state else service_state in
      saved ← (if connection_changed then act (save_state env next_service_state) else mret true);
      if negb saved then abandon (rejected "state_save_failed" "Repository validation state could not be saved.") else
      saved ← act (save_config env candidate);
      if negb saved then abandon configuration_save_failed else
      local_config_guard (poke (set_sr_local_config candidate));;
      config_write (poke (set_sr_config effective));;
      (if connection_changed then
         poke (fun w => set_sr_state (set_rt_service_state next_service_state
                                        (set_rt_repository_operation RO_ValidationRequired (sr_state w))) w)
       else mret tt);;
      applied ← on_state (apply_configuration_status effective (env_now env 1));
      mret (if (applied : bool) then Goes tt else Returns None)
  end.

Definition update_repository (env : Env) (display_name url : option rstr) (mode : option RepositoryMode)
    (options : option Options) (secret_updates : list RepositorySecretUpdate) (identity : ClientIdentity)
    : Guarded (option ResponsePayload) :=
  let has_secrets := negb (bool_decide (length secret_updates = 0%nat)) in
  let connection_changed := is_some url || is_some options || has_secrets in
  if negb (is_elevated_administrator identity) then respond administrator_required else
  configuration_mutation (
    blocked ← update_blocks_configuration_mutation (env_now env 0);
    if (blocked : bool) then respond update_pending else
    if negb (is_some display_name || is_some url || is_some mode || is_some options || has_secrets) then
      respond (rejected "no_configuration_changes" "No repository changes were supplied.") else
    locked ← any_locked [(is_some display_name, F_RepositoryDisplayName); (is_some url, F_RepositoryUrl);
                         (is_some mode, F_RepositoryMode); (is_some options, F_RepositoryOptions)];
    locked ← (if (locked : bool) then mret true
              else if has_secrets then repository_secrets_locked else mret false);
    if (locked : bool) then
      respond (rejected "managed_field_locked" "One or more repository fields are locked by managed policy.") else
    if MAX_SECRET_UPDATES <? Z.of_nat (length secret_updates) then
      respond (rejected "too_many_secret_updates" "Too many credential changes were supplied in one request.") else
    if has_duplicate_variable [] secret_updates then
      respond (rejected "duplicate_secret_update" "Each credential may be changed at most once per request.") else
    available ← peek (fun w => is_some (sr_credential_store w));
    if has_secrets && negb available then
      respond (rejected "credential_store_unavailable" "The protected credential store is unavailable.") else
    local ← local_config;
    config ← config;
    let display_name : option (option rstr) := nonempty_trimmed <$> display_name in
    let url : option (option rstr) := nonempty_trimmed <$> url in
    let candidate := repository_candidate display_name url mode options local in
    let effective := repository_effective display_name url mode options config in
    match validate effective with
    | Err e => respond (Resp_Rejected (lit "invalid_repository") (config_error_text e))
    | Ok _ =>
        continue
          (state_guard (
            state ← peek sr_state;
            if is_running (ss_state (rt_status state)) then
              mret (Returns (Some
                (rejected "backup_running" "Wait for the active backup to finish before changing its repository."))) else
            if repository_operation_running (rt_repository_operation state) then
              mret (Returns (Some (rejected "repository_operation_running"
                "Wait for the repository operation to finish before changing its settings."))) else
            stored ← store_secrets env secret_updates candidate effective;
            match (stored : option (LocalConfig * EffectiveConfig * list rstr * list rstr)) with
            | None =>
                mret (Returns (Some (rejected "credential_save_failed"
                                       "A repository credential could not be stored securely.")))
            | Some (candidate, effective, created, retired) =>
                flow ← commit_repository env connection_changed candidate effective created;
                mret (match (flow : Flow unit) with Returns r => Returns r | Goes _ => Goes retired end)
            end))
          (fun retired =>
            poke (cleanup_credentials env retired);;
            announce "Repository settings updated.")
    end).

(** ** Enrollment and managed policy *)

(** The switch to a resolved configuration, under the state mutex. *)
Definition install_resolved (env : Env) (resolved : ResolvedConfig) (now : DateTime) : Guarded bool :=
  poke (require_validation_for env (rv_effective resolved));;
  config_write (poke (set_sr_config (rv_effective resolved)));;
  field_resolutions_write (rv_fields resolved);;
  on_state (fun state => apply_configuration_status (rv_effective resolved) now
                           (on_status (set_ss_managed_revision (rv_managed_revision resolved)) state)).

(** [store_enrollment] on the credential store. *)
Definition store_enrollment (env : Env) (pending : PendingEnrollment) (local : LocalConfig)
    : Guarded (option LocalConfig * list rstr) :=
  act (fun w =>
    match sr_credential_store w with
    | None => ((None, []), w)
    | Some files =>
        let '(candidate, created, files) := Enrollment.store_enrollment env pending local files in
        ((candidate, created), set_sr_credential_store (Some files) w)
    end).

Definition commit_enrollment (env : Env) (pending : PendingEnrollment) : Guarded (option (result unit unit)) :=
  configuration_mutation (
    available ← peek (fun w => is_some (sr_credential_store w) && is_some (sr_config_store w));
    if negb available then mret (Some (Err tt)) else
    old_local ← local_config;
    let material := pe_material pending in
    let policy := pl_policy (vm_payload (em_initial_manifest material)) in
    stored ← store_enrollment env pending old_local;
    let abandon : Guarded (option (result unit unit)) :=
      poke (cleanup_credentials env (reverse stored.2));; mret (Some (Err tt)) in
    match stored.1 with
    | None => abandon
    | Some candidate =>
        if negb (is_ok (validate_management (lc_management candidate))) then abandon
        else if is_some (mr_secret_refs (mp_repository policy)) then abandon
        else match resolve_config EffectiveConfig_default candidate (Some policy) with
        | Err _ => abandon
        | Ok resolved =>
            saved ← act (save_config env candidate);
            if negb saved then abandon else
            poke (save_cache env (lc_management candidate) (em_initial_manifest_document material));;
            installed ← state_guard (install_resolved env resolved (env_now env 1));
            if negb installed then mret None else
            local_config_guard (poke (set_sr_local_config candidate));;
            new_local ← local_config;
            poke (cleanup_credentials env
                    (retired_references old_local new_local (em_repository_secrets material)));;
            send_locked Ev_ConfigurationChanged;;
            mret (Some (Ok tt))
        end
    end).

Definition begin_enrollment (env : Env) : Guarded bool := state_guard (act (Enrollment.begin_enrollment env)).
Definition end_enrollment : Guarded unit := state_guard (poke Enrollment.end_enrollment).

Section client.
(** [ManagementClient::enroll] *)
Context (client : rstr -> option PendingEnrollment).

(** [enroll_bootstrap], and [enroll] after its first two checks *)
Definition enroll_bootstrap (env env' : Env) (bootstrap_url : rstr) : Guarded (option (result unit unit)) :=
  begun ← begin_enrollment env;
  if negb begun then mret (Some (Err tt)) else
  outcome ← match client bootstrap_url with
            | None => mret (Some (Err tt))
            | Some pending => commit_enrollment env' pending
            end;
  match (outcome : option (result unit unit)) with
  | None => mret None
  | Some outcome => end_enrollment;; mret (Some outcome)
  end.

Definition enroll (env env' : Env) (bootstrap_url : list Z) (identity : ClientIdentity)
    : Guarded (option ResponsePayload) :=
  if negb (is_elevated_administrator identity) then respond administrator_required
  else match from_utf8 bootstrap_url with
  | None => respond (rejected "invalid_bootstrap_url" "The bootstrap URL is not valid UTF-8.")
  | Some bootstrap_url =>
      begun ← begin_enrollment env;
      if negb begun then
        respond (rejected "operation_running"
                   "Wait for the current backup, repository, or enrollment operation to finish.") else
      outcome ← match client bootstrap_url with
                | None => mret (Some (Err tt))
                | Some pending => commit_enrollment env' pending
                end;
      match (outcome : option (result unit unit)) with
      | None => mret None
      | Some outcome =>
          end_enrollment;;
          respond (match outcome with
                   | Ok _ => accepted "This device is now enrolled and its signed policy is active."
                   | Err _ => rejected "enrollment_failed"
                                "Enrollment failed. Check that the one-time URL is current and try again."
                   end)
      end
  end.
End client.

Definition unenroll (env : Env) (identity : ClientIdentity) : Guarded (option ResponsePayload) :=
  if negb (is_elevated_administrator identity) then respond administrator_required else
  configuration_mutation (
    active ← state_guard (peek (fun w => operation_active (sr_state w) (env_now env 0)));
    if (active : bool) then
      respond (rejected "operation_running"
                 "Wait for the current backup, repository, or enrollment operation to finish.") else
    available ← peek (fun w => is_some (sr_config_store w));
    if negb available then
      respond (rejected "configuration_unavailable" "Local configuration storage is unavailable.") else
    old_local ← local_config;
    if bool_decide (lm_mode (lc_management old_local) = Disabled) then
      respond (accepted "This device is already unmanaged.") else
    let candidate := set_lc_management LocalManagementConfig_default old_local in
    match resolve_config EffectiveConfig_default candidate None with
    | Err _ => respond (rejected "configuration_invalid" "The remaining local configuration is invalid.")
    | Ok resolved =>
        saved ← act (save_config env candidate);
        if negb saved then
          respond (rejected "configuration_save_failed" "The unmanaged configuration could not be saved.") else
        poke (remove_cache env);;
        local_config_guard (poke (set_sr_local_config candidate));;
        config_write (poke (set_sr_config (rv_effective resolved)));;
        field_resolutions_write (rv_fields resolved);;
        applied ← state_guard (on_state (fun state =>
          apply_configuration_status (rv_effective resolved) (env_now env 1)
            (on_status (set_ss_managed_revision None) state)));
        if negb applied then mret None else
        poke (cleanup_credentials env
                (option_list (lm_status_token_ref (lc_management old_local))
                 ++ option_list (lm_enrollment_key_ref (lc_management old_local))));;
        announce "Managed policy and reporting were removed; repository credentials remain protected locally."
    end).

Definition apply_managed_policy_inner (env : Env) (policy : ManagedPolicy)
    (expected_management : option LocalManagementConfig)
    : Guarded (option (result PolicyError ManagedPolicyApplyOutcome)) :=
  configuration_mutation (
    local ← local_config;
    if match expected_management with
       | Some expected => negb (bool_decide (lc_management local = expected))
       | None => false
       end then mret (Some (Ok SourceChanged))
    else match resolve_config EffectiveConfig_default local (Some policy) with
    | Err e => mret (Some (Err e))
    | Ok resolved =>
        installed ← state_guard (
          state ← peek sr_state;
          if is_running (ss_state (rt_status state)) || repository_operation_running (rt_repository_operation state)
             || rt_update_install_active state || held_at state (env_now env 1)
          then mret None
          else Some <$> install_resolved env resolved (env_now env 0));
        match (installed : option bool) with
        | None => mret (Some (Ok RuntimeBusy))
        | Some false => mret None
        | Some true => send_locked Ev_ConfigurationChanged;; mret (Some (Ok Applied))
        end
    end).

(** ** Scheduling and results of work *)

(** [DiagnosticLog::record] takes the store's own lock. *)
Definition record_diagnostic (env : Env) (level : DiagnosticLevel) (event_id message : string) (code : option rstr)
    : Guarded unit :=
  present ← peek (fun w => is_some (sr_diagnostics w));
  if negb present then mret tt
  else guarded L_WriteLock Exclusive (poke (Runtime.record_diagnostic env level event_id message code)).

Definition record_resume (now : DateTime) : Guarded unit := state_guard (poke (Scheduler.record_resume now)).

Definition evaluate_schedule (now : DateTime) (conditions : SystemConditions) : Guarded (option ScheduleAction) :=
  config ← config;
  state_guard (act (fun w =>
    match evaluate_state config now conditions (sr_state w) with
    | Some (action, state) => (Some action, set_sr_state state w)
    | None => (None, w)
    end)).

Definition next_evaluation_delay (now : DateTime) : Guarded Z :=
  state_guard (peek (Scheduler.next_evaluation_delay now)).

Definition finish_update_install (env : Env) (outcome : UpdateInstallOutcome) : Guarded unit :=
  let now := env_now env 0 in
  state_guard (poke (fun w =>
    let state := sr_state w in
    set_sr_state
      (match outcome with
       | Upd_Completed _ => set_rt_update_install_active false state
       | Upd_Failed _ =>
           restore_held_status now (set_rt_update_hold_until None (set_rt_update_install_active false state))
       | Upd_Indeterminate _ => set_rt_update_install_active true state
       end) w));;
  match outcome with
  | Upd_Completed _ =>
      record_diagnostic env Level_Information "update.installer_completed"
        "The signed resticpal update installer completed." None
  | Upd_Failed code =>
      record_diagnostic env Level_Error "update.failed" "The signed resticpal update could not be installed." (Some code)
  | Upd_Indeterminate code =>
      record_diagnostic env Level_Error "update.installer_indeterminate"
        "The update installer could not be confirmed stopped; backups remain paused." (Some code)
  end.

Definition update_progress (progress : BackupProgress) : Guarded unit :=
  state_guard (poke (Lifecycle.update_progress progress)).

Definition begin_retention (env : Env) (now : DateTime) : Guarded (option (option RetentionPlan)) :=
  config ← config_read (peek sr_config);
  if negb (bool_decide (rc_mode (ec_repository config) = Standard)) then mret (Some None)
  else match duration_days (tc_prune_interval_days (ec_retention config)) with
  | None => mret None
  | Some prune_interval =>
      due ← state_guard (act (fun w =>
        let state :=
          on_status (fun s => set_ss_progress None (set_ss_state_since now (set_ss_state (BS_Running Retention) s)))
            (sr_state w) in
        (match st_last_prune (rt_service_state state) with
         | None => true
         | Some last_prune => prune_interval <=? now - last_prune
         end, set_sr_state state w)));
      record_diagnostic env Level_Information "retention.started" "Snapshot retention started." None;;
      mret (Some (Some {| prune_due := due |}))
  end.

(** What retention did, in the persistent state, and the warning for the run. *)
Definition retention_result (retention : RetentionOutcome) (now : DateTime) (service_state : ServiceStateSnapshot)
    : ServiceStateSnapshot * option rstr :=
  match retention with
  | Ret_Succeeded pruned =>
      let s := set_st_last_retention (Some now) service_state in
      let s := if pruned then set_st_last_prune (Some now) s else s in
      (set_st_last_retention_error None s, None)
  | Ret_Failed code => (set_st_last_retention_error (Some code) service_state, Some code)
  | Ret_Cancelled =>
      (set_st_last_retention_error (Some (lit "retention_cancelled")) service_state, Some (lit "retention_cancelled"))
  end.

(** The state is saved after its mutex has been released. *)
Definition finish_retention (env : Env) (backup : BackupOutcome) (retention : RetentionOutcome) (now : DateTime)
    : Guarded BackupOutcome :=
  result ← state_guard (act (fun w =>
    let result := retention_result retention now (rt_service_state (sr_state w)) in
    (result, set_sr_state (set_rt_service_state result.1 (sr_state w)) w)));
  saved ← act (save_state env result.1);
  match result.2 with
  | Some code =>
      record_diagnostic env Level_Warning "retention.failed" "Snapshot retention did not complete." (Some code);;
      mret (with_warning backup code)
  | None =>
      if negb saved then
        record_diagnostic env Level_Warning "retention.state_save_failed"
          "Retention completed but its state could not be saved." (Some (lit "retention_state_save_failed"));;
        mret (with_warning backup (lit "retention_state_save_failed"))
      else
        record_diagnostic env Level_Information "retention.succeeded" "Snapshot retention completed successfully." None;;
        mret backup
  end.

(** History and state are written after the mutex has been released. *)
Definition finish_backup_at (env : Env) (now : DateTime) (outcome : BackupOutcome) : Guarded bool :=
  interval_hours ← config_read (peek (fun w => sc_interval_hours (ec_schedule (sr_config w))));
  finished ← state_guard (act (fun w =>
    let started_at := default now (ss_last_attempt (rt_status (sr_state w))) in
    match finish_backup_state now interval_hours outcome (sr_state w) with
    | Some state => (Some (started_at, rt_service_state state), set_sr_state state w)
    | None => (None, w)
    end));
  match (finished : option (DateTime * ServiceStateSnapshot)) with
  | None => mret false
  | Some (started_at, service_state) =>
      poke (fun w =>
        match sr_history_store w with
        | None => w
        | Some db =>
            set_sr_history_store (Some (append (env_history_ok env) (run_of_outcome started_at now outcome) db).2) w
        end);;
      (if outcome_is_success outcome then poke (fun w => (save_state env service_state w).2) else mret tt);;
      match bo_kind outcome with
      | OK_Succeeded =>
          record_diagnostic env Level_Information "backup.succeeded" "Backup completed successfully." None
      | OK_SucceededWithWarnings =>
          record_diagnostic env Level_Warning "backup.warning" "Backup completed with warnings." (bo_warning_code outcome)
      | OK_Failed code => record_diagnostic env Level_Error "backup.failed" "Backup failed." (Some code)
      | OK_Cancelled => record_diagnostic env Level_Information "backup.cancelled" "Backup was cancelled." None
      end;;
      mret true
  end.

Definition finish_repository_operation (env : Env) (operation : RepositoryOperationKind) (outcome : RepositoryOutcome)
    : Guarded bool :=
  let completed_at := env_now env 0 in
  config ← config;
  finished ← state_guard (
    state ← peek sr_state;
    if negb (bool_decide (rt_repository_operation state = RO_Running operation)) then mret None else
    status ←
      match outcome with
      | Repo_Succeeded =>
          let service_state := mark_repository_verified (rt_service_state state) config completed_at in
          poke (fun w => set_sr_state (set_rt_service_state service_state (sr_state w)) w);;
          saved ← act (save_state env service_state);
          mret (if (saved : bool) then RO_Succeeded operation completed_at
                else RO_Failed operation completed_at (lit "state_save_failed"))
      | Repo_Failed code => mret (RO_Failed operation completed_at code)
      | Repo_Cancelled => mret (RO_Failed operation completed_at (lit "repository_operation_cancelled"))
      end;
    Some <$> on_state (fun state =>
      apply_configuration_status config completed_at (set_rt_repository_operation status state)));
  match (finished : option bool) with
  | None => mret true
  | Some false => mret false
  | Some true =>
      match outcome with
      | Repo_Succeeded =>
          record_diagnostic env Level_Information "repository.operation_succeeded"
            "Repository operation completed successfully." None
      | Repo_Failed code =>
          record_diagnostic env Level_Error "repository.operation_failed" "Repository operation failed." (Some code)
      | Repo_Cancelled =>
          record_diagnostic env Level_Information "repository.operation_cancelled" "Repository operation was cancelled." None
      end;;
      mret true
  end.

(** ** Dispatch *)
Section dispatch.
(** [discover_backup_sources] and [ManagementClient::enroll] *)
Context (discover_backup_sources : option (list DiscoveredBackupSource)).
Context (client : rstr -> option PendingEnrollment).

Definition admin_view (identity : ClientIdentity) (view : Guarded ResponsePayload) : Guarded (option ResponsePayload) :=
  if is_elevated_administrator identity then Some <$> view else respond administrator_required.

(** [DiagnosticLog::recent] takes the store's lock as well. *)
Definition get_diagnostics (env : Env) (limit : Z) (identity : ClientIdentity) : Guarded (option ResponsePayload) :=
  if negb (is_elevated_administrator identity) then respond administrator_required
  else if negb (in_range 1 MAX_DIAGNOSTIC_RESULTS limit) then
    respond (rejected "invalid_diagnostics_limit" "Diagnostics requests must contain a limit from 1 through 200.")
  else
    present ← peek (fun w => is_some (sr_diagnostics w));
    if negb present then
      respond (rejected "diagnostics_unavailable" "Operational diagnostics storage is not available.")
    else guarded L_WriteLock Exclusive (peek (fun w => Some (Ipc.get_diagnostics env limit identity w))).

Definition handle_command (env env' : Env) (command : RequestCommand) (identity : ClientIdentity)
    : Guarded (option ResponsePayload) :=
  match command with
  | GetStatus => status ← status; respond (Resp_Status status)
  | GetManagement => admin_view identity (Resp_Management <$> management_view)
  | Enroll bootstrap_url => enroll client env env' (secret_as_bytes bootstrap_url) identity
  | Unenroll => unenroll env identity
  (* SQLite serialises its connections itself *)
  | GetRunHistory limit => peek (fun w => Some (get_run_history env limit w))
  | GetRunFailureDetails run_id => peek (fun w => Some (get_run_failure_details env run_id identity w))
  | GetDiagnostics limit => get_diagnostics env limit identity
  | GetBackupSources => admin_view identity (Resp_BackupSources <$> backup_sources_view)
  | DiscoverBackupSources =>
      admin_view identity
        (mret (match discover_backup_sources with
               | Some sources => Resp_DiscoveredBackupSources sources
               | None => rejected "source_discovery_failed" "Windows user folders could not be discovered."
               end))
  | UpdateBackupSources paths exclusions => update_backup_sources env paths exclusions identity
  | GetRepository => admin_view identity (Resp_Repository <$> repository_view)
  | UpdateRepository display_name url mode options secret_updates =>
      update_repository env display_name url mode options secret_updates identity
  | ValidateRepository => begin_repository_operation env Kind_Validate identity
  | InitializeRepository => begin_repository_operation env Kind_Initialize identity
  | GetSchedule => admin_view identity (Resp_Schedule <$> schedule_view)
  | UpdateSchedule interval_hours wake_grace_seconds wake_lock_timeout_seconds allow_on_battery allow_metered_network =>
      update_schedule env interval_hours wake_grace_seconds wake_lock_timeout_seconds allow_on_battery
        allow_metered_network identity
  | GetRetention => admin_view identity (Resp_Retention <$> retention_view)
  | UpdateRetention daily weekly monthly yearly prune_interval_days =>
      update_retention env daily weekly monthly yearly prune_interval_days identity
  | RunBackupNow => run_backup_now env
  | CancelBackup => cancel_backup
  | DeferBackup minutes => defer_backup env minutes
  | PrepareForUpdate hold_seconds => prepare_for_update env hold_seconds identity
  | GetUpdateSettings => Some ∘ Resp_UpdateSettings <$> update_settings_view
  | UpdateUpdateSettings automatic_install => update_update_settings env automatic_install identity
  | InstallUpdate package => begin_update_install env package identity
  end.
End dispatch.
End requests.
