(* ===== verification/GuardsRun.v ===== *)
(** * The guarded programs compute the operations

    Run by itself, without other threads, each program of [Guards] returns and
    changes exactly what the operation of [Ipc], [Enrollment], [Scheduler] or
    [Lifecycle] does, whatever fails on the way. *)
From stdpp Require Import base option list gmap strings relations.
From S2P Require Import Prelude RustStd Chrono Crates Config Status Schedule Policy Restic Protocol Outcome.
From S2P Require Import ServiceState Diagnostics History Credentials Management Updater Sources PolicyCache.
From S2P Require Import Runtime Scheduler Lifecycle Enrollment Ipc Locks Guards.

Section runs.
Context `{Chrono} `{UrlCrate} `{CryptoCrates} `{Dpapi} `{UnicodeData} `{Filesystem} `{Messages} `{Base64Standard}.
Context `{Serde LocalConfig} `{Serde PersistedScheduleState} `{Serde DiagnosticEntry} `{Serde CachedManifest}.
Context (discover : option (list DiscoveredBackupSource)) (client : rstr -> option PendingEnrollment).

Definition completed {A} (o : option A * ServiceRuntime) : option (A * ServiceRuntime) :=
  match o with (Some a, w) => Some (a, w) | (None, _) => None end.

Lemma run_mret {A} (a : A) (w : ServiceRuntime) : run (mret a) w = (a, w).
Proof. done. Qed.
Lemma run_mbind {A B} (p : Guarded A) (k : A -> Guarded B) w : run (p ≫= k) w = run (k (run p w).1) (run p w).2.
Proof. apply run_bind. Qed.
Lemma run_fmap {A B} (p : Guarded A) (f : A -> B) w : run (f <$> p) w = (f (run p w).1, (run p w).2).
Proof. unfold fmap, prog_fmap. by rewrite run_bind. Qed.
Lemma run_peek {X} (f : ServiceRuntime -> X) w : run (peek f) w = (f w, w).
Proof. done. Qed.
Lemma run_poke (f : ServiceRuntime -> ServiceRuntime) w : run (poke f) w = (tt, f w).
Proof. done. Qed.
Lemma run_act {X} (f : ServiceRuntime -> X * ServiceRuntime) w : run (act f) w = f w.
Proof. unfold act. cbn. by destruct (f w). Qed.
Lemma run_field_locked field w : run (field_locked field) w = (Runtime.field_locked field w, w).
Proof. done. Qed.

Definition any_touched (fields : list (bool * PolicyField)) (w : ServiceRuntime) (b : bool) : bool :=
  foldl (fun b f => b || (f.1 && Runtime.field_locked f.2 w)) b fields.

Lemma any_touched_true fields w : any_touched fields w true = true.
Proof. by induction fields. Qed.
Lemma run_any_locked fields w : run (any_locked fields) w = (any_touched fields w false, w).
Proof.
  induction fields as [|[[] field] fields IH]; [done| |done]. cbn [any_locked negb].
  rewrite run_mbind, run_field_locked. cbn [fst snd]. unfold any_touched. cbn [foldl fst snd andb orb].
  destruct (Runtime.field_locked field w); [|done]. rewrite run_mret. f_equal. symmetry. exact (any_touched_true fields w).
Qed.

Lemma run_repository_secrets_locked w :
  run Guards.repository_secrets_locked w = (Ipc.repository_secrets_locked w, w).
Proof.
  unfold Guards.repository_secrets_locked, Ipc.repository_secrets_locked. rewrite run_mbind, run_field_locked. cbn [fst snd].
  destruct (Runtime.field_locked F_RepositorySecretRefs w); [done|]. rewrite run_mbind. unfold Guards.management_view, local_config_guard.
  by rewrite run_guarded.
Qed.

Lemma run_guard {A} l m (p : Guarded A) w : run (guarded l m p) w = run p w.
Proof. apply run_guarded. Qed.

(** Run the program until its next decision, which the operation takes too. *)
Ltac run_steps :=
  repeat (first [ rewrite run_mret | rewrite run_mbind | rewrite run_fmap | rewrite run_peek | rewrite run_poke
                | rewrite run_act | rewrite run_any_locked | rewrite run_field_locked | rewrite run_repository_secrets_locked | rewrite run_guard
                | progress unfold respond, continue, state_guard, config_read, config_write, local_config_guard,
                    configuration_mutation, send_locked, local_config, config, status, announce, on_state,
                    Guards.update_blocks_configuration_mutation, field_resolutions_write ];
          cbn [fst snd negb any_touched foldl]; rewrite ?orb_false_l; cbv beta zeta).
Lemma save_state_commutes env snapshot state w :
  save_state env snapshot (set_sr_state state w)
  = ((save_state env snapshot w).1, set_sr_state state (save_state env snapshot w).2).
Proof. unfold save_state. cbn. destruct (sr_state_store w); [|done]. by destruct (state_save _ _ _). Qed.

(** A field is not touched by the update of another. *)
Ltac project :=
  repeat match goal with
  | |- context [sr_state (set_sr_state ?v ?r)] => change (sr_state (set_sr_state v r)) with v
  | |- context [sr_local_config (set_sr_local_config ?v ?r)] => change (sr_local_config (set_sr_local_config v r)) with v
  | |- context [sr_credential_store (set_sr_credential_store ?v ?r)] =>
      change (sr_credential_store (set_sr_credential_store v r)) with v
  | |- context [?p (?s ?v ?r)] =>
      match p with sr_state => idtac | sr_credential_store => idtac | sr_config_store => idtac | sr_config => idtac
              | sr_local_config => idtac | sr_diagnostics => idtac | sr_history_store => idtac end;
      match s with set_sr_state => idtac | set_sr_config => idtac | set_sr_local_config => idtac
              | set_sr_field_resolutions => idtac | set_sr_credential_store => idtac | set_sr_state_store => idtac
              | set_sr_config_store => idtac | set_sr_history_store => idtac | set_sr_events => idtac
              | set_sr_diagnostics => idtac end;
      change (p (s v r)) with (p r)
  end.
Ltac decide_on x :=
  lazymatch x with
  | context [run (match ?y with _ => _ end) _] => decide_on y
  | negb ?c => decide_on c
  | (if ?c then _ else _) => decide_on c
  | (match ?y with _ => _ end) => decide_on y
  | _ => destruct x
  end.
Ltac decide_next :=
  rewrite ?save_state_commutes; cbn [fst snd negb]; project;
  match goal with
  | |- context [(save_config ?e ?c ?w).1] => destruct (save_config e c w) as [[] ?] eqn:?
  | |- context [(save_state ?e ?c ?w).1] => destruct (save_state e c w) as [[] ?] eqn:?
  | |- context [(send ?e ?w).1] => destruct (send e w) as [[] ?] eqn:?
  | |- context [apply_configuration_status ?c ?n ?s] => destruct (apply_configuration_status c n s)
  | |- context [run (match ?x with _ => _ end) _] => decide_on x
  | |- context [match ?x with _ => _ end] => decide_on x
  end.
Ltac computes :=
  repeat (run_steps; try reflexivity; try (rewrite <- surjective_pairing; reflexivity); try decide_next; cbn [completed fst snd negb mbind option_bind]; cbv beta).

Lemma update_retention_computes env a b c d e identity w :
  completed (run (Guards.update_retention env a b c d e identity) w) = Some (Ipc.update_retention env a b c d e identity w).
Proof.
  unfold Guards.update_retention, Ipc.update_retention, touches_locked.
  computes.
Qed.

Lemma update_schedule_computes env a b c d e identity w :
  completed (run (Guards.update_schedule env a b c d e identity) w) = Ipc.update_schedule env a b c d e identity w.
Proof.
  unfold Guards.update_schedule, Ipc.update_schedule, touches_locked, Guards.commit_configuration, Ipc.commit_configuration.
  computes.
Qed.

Lemma update_backup_sources_computes env paths exclusions identity w :
  completed (run (Guards.update_backup_sources env paths exclusions identity) w)
  = Ipc.update_backup_sources env paths exclusions identity w.
Proof.
  unfold Guards.update_backup_sources, Ipc.update_backup_sources, touches_locked.
  unfold Guards.commit_configuration, Ipc.commit_configuration.
  change (sr_config_store w ≫= _) with (data_directory w). computes.
Qed.

Lemma update_update_settings_computes env a identity w :
  completed (run (Guards.update_update_settings env a identity) w) = Some (Ipc.update_update_settings env a identity w).
Proof. unfold Guards.update_update_settings, Ipc.update_update_settings. computes. Qed.

Lemma begin_repository_operation_computes env operation identity w :
  completed (run (Guards.begin_repository_operation env operation identity) w)
  = Some (Ipc.begin_repository_operation env operation identity w).
Proof. unfold Guards.begin_repository_operation, Ipc.begin_repository_operation. computes. Qed.

Lemma prepare_for_update_computes env hold identity w :
  completed (run (Guards.prepare_for_update env hold identity) w) = Ipc.prepare_for_update env hold identity w.
Proof. unfold Guards.prepare_for_update, Ipc.prepare_for_update. computes. Qed.

Lemma begin_update_install_computes env package identity w :
  completed (run (Guards.begin_update_install env package identity) w) = Ipc.begin_update_install env package identity w.
Proof. unfold Guards.begin_update_install, Ipc.begin_update_install. computes. Qed.

Lemma run_backup_now_computes env w : completed (run (Guards.run_backup_now env) w) = Some (Ipc.run_backup_now env w).
Proof. unfold Guards.run_backup_now, Ipc.run_backup_now. computes. Qed.

Lemma cancel_backup_computes w : completed (run Guards.cancel_backup w) = Some (Ipc.cancel_backup w).
Proof. unfold Guards.cancel_backup, Ipc.cancel_backup. computes. Qed.

Lemma defer_backup_computes env minutes w : completed (run (Guards.defer_backup env minutes) w) = Ipc.defer_backup env minutes w.
Proof. unfold Guards.defer_backup, Ipc.defer_backup. computes. Qed.

Lemma run_store_secrets env updates candidate effective w :
  run (Guards.store_secrets env updates candidate effective) w
  = match Ipc.store_secrets env updates candidate effective w with
    | Err w => (None, w)
    | Ok (candidate, effective, created, retired, w) => (Some (candidate, effective, created, retired), w)
    end.
Proof. apply run_act. Qed.

Lemma store_secrets_state env updates candidate effective w :
  match Ipc.store_secrets env updates candidate effective w with
  | Err w' => sr_state w' = sr_state w
  | Ok (_, _, _, _, w') => sr_state w' = sr_state w
  end.
Proof.
  unfold Ipc.store_secrets. destruct updates, (sr_credential_store w); try done. by destruct (apply_secret_updates _ _ _ _).
Qed.

(** From the commit under the state mutex to the answer. *)
Lemma commit_repository_computes env changed candidate effective created retired w :
  completed (run (flow ← Guards.commit_repository env changed candidate effective created;
                  match (flow : Flow unit) with
                  | Returns r => mret r
                  | Goes _ => poke (cleanup_credentials env retired);; announce "Repository settings updated."
                  end) w)
  = Ipc.commit_repository env changed candidate effective created retired w.
Proof. unfold Guards.commit_repository, Ipc.commit_repository. computes. Qed.

Lemma update_repository_computes env a b c d updates identity w :
  completed (run (Guards.update_repository env a b c d updates identity) w)
  = Ipc.update_repository env a b c d updates identity w.
Proof.
  unfold Guards.update_repository, Ipc.update_repository, touches_locked.
  repeat (run_steps; rewrite ?run_store_secrets; cbn [fst snd negb]; try reflexivity;
          match goal with
          | |- context [run (Guards.commit_repository ?e ?x ?l ?f ?r) ?v] =>
              rewrite <- commit_repository_computes, run_mbind; destruct (run (Guards.commit_repository e x l f r) v) as [[?|[]] ?]
          | |- context [(match Ipc.store_secrets ?e ?u ?l ?f ?v with _ => _ end).1] =>
              destruct (Ipc.store_secrets e u l f v) as [((((? & ?) & ?) & ?) & ?)|?]
          | _ => decide_next
          end; cbn [completed fst snd negb orb andb]; cbv beta).
Qed.

Lemma run_install_resolved env resolved now w :
  run (Guards.install_resolved env resolved now) w
  = match Enrollment.install_resolved resolved now (require_validation_for env (rv_effective resolved) w) with
    | Some w' => (true, w')
    | None => (false, set_sr_field_resolutions (rv_fields resolved) (set_sr_config (rv_effective resolved)
                        (require_validation_for env (rv_effective resolved) w)))
    end.
Proof. unfold Guards.install_resolved, Enrollment.install_resolved. computes. Qed.

Lemma apply_managed_policy_computes env policy expected w :
  completed (run (Guards.apply_managed_policy_inner env policy expected) w)
  = Enrollment.apply_managed_policy_inner env policy expected w.
Proof.
  unfold Guards.apply_managed_policy_inner, Enrollment.apply_managed_policy_inner.
  repeat (run_steps; rewrite ?run_install_resolved; cbn [fst snd negb]; try reflexivity;
          match goal with
          | |- context [(match Enrollment.install_resolved ?r ?n ?v with _ => _ end).1] =>
              destruct (Enrollment.install_resolved r n v)
          | _ => decide_next
          end; cbn [completed fst snd negb mbind option_bind]; cbv beta).
Qed.

Ltac computes_with E :=
  repeat (run_steps; rewrite ?E; cbn [is_some negb andb]; run_steps; try reflexivity; try decide_next;
          cbn [completed fst snd negb mbind option_bind]; cbv beta).

Lemma unenroll_computes env identity w :
  completed (run (Guards.unenroll env identity) w) = Enrollment.unenroll env identity w.
Proof.
  unfold Guards.unenroll, Enrollment.unenroll, unenroll_commit, cleanup_credentials.
  destruct (sr_config_store w) eqn:E; computes_with E.
Qed.

(** The credential store is written before the configuration here and after
    it there. *)
Lemma save_config_credentials env candidate v w :
  save_config env candidate (set_sr_credential_store v w)
  = ((save_config env candidate w).1, set_sr_credential_store v (save_config env candidate w).2).
Proof. unfold save_config. cbn. destruct (sr_config_store w); [|done]. by destruct (config_save _ _ _). Qed.
Lemma save_cache_credentials env management document v w :
  save_cache env management document (set_sr_credential_store v w)
  = set_sr_credential_store v (save_cache env management document w).
Proof. unfold save_cache. cbn. destruct (sr_config_store w); [|done]. by destruct (cache_save _ _ _ _ _). Qed.
Lemma require_validation_credentials env config v w :
  require_validation_for env config (set_sr_credential_store v w)
  = set_sr_credential_store v (require_validation_for env config w).
Proof.
  unfold require_validation_for, save_state. cbn. destruct (repository_requires_validation _ _); [|done].
  destruct (sr_state_store w); [|done]. by destruct (state_save _ _ _).
Qed.
Lemma install_resolved_credentials resolved now v w :
  Enrollment.install_resolved resolved now (set_sr_credential_store v w)
  = set_sr_credential_store v <$> Enrollment.install_resolved resolved now w.
Proof. unfold Enrollment.install_resolved. cbn. by destruct (apply_configuration_status _ _ _). Qed.

Lemma cleanup_replaces env references files w :
  cleanup_credentials env references (set_sr_credential_store (Some files) w)
  = set_sr_credential_store (Some (remove_credentials env references files)) w.
Proof. done. Qed.
Lemma local_credentials local v w :
  set_sr_local_config local (set_sr_credential_store v w) = set_sr_credential_store v (set_sr_local_config local w).
Proof. done. Qed.

Lemma commit_enrollment_computes env pending w :
  completed (run (Guards.commit_enrollment env pending) w) = Enrollment.commit_enrollment env pending w.
Proof.
  unfold Guards.commit_enrollment, Enrollment.commit_enrollment, Guards.store_enrollment.
  destruct (sr_credential_store w) as [files|] eqn:E1, (sr_config_store w) eqn:E2.
  all: run_steps; rewrite ?E1, ?E2; cbn [is_some negb andb]; try reflexivity.
  run_steps. rewrite E1. destruct (Enrollment.store_enrollment _ _ _ _) as [[candidate created] files']. cbn [fst snd].
  repeat (run_steps; rewrite ?run_install_resolved, ?save_config_credentials, ?save_cache_credentials,
            ?require_validation_credentials, ?install_resolved_credentials, ?local_credentials, ?cleanup_replaces;
          cbn [fst snd negb]; try reflexivity;
          match goal with
          | |- context [(match (_ <$> Enrollment.install_resolved ?r ?n ?v) with _ => _ end).1] =>
              destruct (Enrollment.install_resolved r n v)
          | _ => decide_next
          end; cbn [completed fst snd negb mbind fmap option_bind option_fmap option_map]; cbv beta).
Qed.

(** A program that returns without a panic, or panics, as the operation. *)
Lemma completed_run {A} (p : Guarded (option A)) w r :
  completed (run p w) = r -> match run p w with (Some a, w') => r = Some (a, w') | (None, _) => r = None end.
Proof. intros <-. by destruct (run p w) as [[a|] w']. Qed.

Lemma enroll_bootstrap_computes env env' url w :
  completed (run (Guards.enroll_bootstrap client env env' url) w) = Enrollment.enroll_bootstrap env env' client url w.
Proof.
  unfold Guards.enroll_bootstrap, Enrollment.enroll_bootstrap, Guards.begin_enrollment, Guards.end_enrollment.
  run_steps. destruct (Enrollment.begin_enrollment env w) as [[] w1]; cbn [fst snd negb]; [|done]. run_steps.
  destruct (client url) as [pending|]; [|done].
  pose proof (completed_run _ _ _ (commit_enrollment_computes env' pending w1)) as Hc.
  destruct (run (Guards.commit_enrollment env' pending) w1) as [[o|] w2]; rewrite Hc; [|done]. cbn [fst snd mbind option_bind].
  run_steps. done.
Qed.

Lemma enroll_computes env env' url identity w :
  completed (run (Guards.enroll client env env' url identity) w) = Enrollment.enroll env env' client url identity w.
Proof.
  unfold Guards.enroll, Enrollment.enroll, Guards.begin_enrollment, Guards.end_enrollment.
  destruct (negb _); [done|]. destruct (from_utf8 url) as [u|]; [|done].
  run_steps. destruct (Enrollment.begin_enrollment env w) as [[] w1]; cbn [fst snd negb]; [|done]. run_steps.
  destruct (client u) as [pending|]; [|done].
  pose proof (completed_run _ _ _ (commit_enrollment_computes env' pending w1)) as Hc.
  destruct (run (Guards.commit_enrollment env' pending) w1) as [[o|] w2]; rewrite Hc; [|done]. cbn [fst snd mbind option_bind].
  run_steps. done.
Qed.

Lemma run_record_diagnostic env level event_id message code w :
  run (Guards.record_diagnostic env level event_id message code) w
  = (tt, Runtime.record_diagnostic env level event_id message code w).
Proof.
  unfold Guards.record_diagnostic. run_steps. destruct (sr_diagnostics w) as [log|] eqn:E; cbn [is_some negb]; run_steps; [done|].
  unfold Runtime.record_diagnostic. by rewrite E.
Qed.

Lemma get_diagnostics_computes env limit identity w :
  completed (run (Guards.get_diagnostics env limit identity) w) = Some (Ipc.get_diagnostics env limit identity w, w).
Proof.
  unfold Guards.get_diagnostics, Ipc.get_diagnostics. destruct (negb (is_elevated_administrator identity)) eqn:Ei; [done|].
  destruct (negb (in_range _ _ _)) eqn:El; [done|]. run_steps. destruct (sr_diagnostics w) as [log|] eqn:E; cbn [is_some negb]; [|done].
  run_steps. cbn [completed]. by rewrite ?Ei, ?El, ?E.
Qed.

Theorem handle_command_computes env env' command identity w :
  completed (run (Guards.handle_command discover client env env' command identity) w)
  = Ipc.handle_command discover client env env' command identity w.
Proof.
  destruct command; cbn [Guards.handle_command Ipc.handle_command]; unfold Guards.admin_view, Ipc.admin_view, answer.
  all: try first [ apply enroll_computes | apply unenroll_computes | apply get_diagnostics_computes
                 | apply update_backup_sources_computes | apply update_repository_computes
                 | apply begin_repository_operation_computes | apply update_schedule_computes
                 | apply update_retention_computes | apply run_backup_now_computes | apply cancel_backup_computes
                 | apply defer_backup_computes | apply prepare_for_update_computes
                 | apply update_update_settings_computes | apply begin_update_install_computes ].
  all: try (destruct (is_elevated_administrator identity); [|done]).
  all: unfold Guards.management_view, Guards.backup_sources_view, Guards.repository_view, Guards.schedule_view,
         Guards.retention_view, Guards.update_settings_view; run_steps; done.
Qed.

Lemma finish_retention_computes env backup retention now w :
  run (Guards.finish_retention env backup retention now) w = Lifecycle.finish_retention env backup retention now w.
Proof.
  unfold Guards.finish_retention, Lifecycle.finish_retention. run_steps.
  unfold retention_result. destruct retention as [pruned|code|]; cbn [fst snd]; rewrite ?save_state_commutes.
  all: destruct (save_state env _ w) as [[] w1]; cbn [fst snd negb]; run_steps; by rewrite ?run_record_diagnostic.
Qed.

Lemma finish_backup_computes env now outcome w :
  run (Guards.finish_backup_at env now outcome) w
  = match Lifecycle.finish_backup_at env now outcome w with
    | Some w' => (true, w')
    | None => (false, w)
    end.
Proof.
  unfold Guards.finish_backup_at, Lifecycle.finish_backup_at. run_steps.
  destruct (finish_backup_state _ _ _ _) as [state|]; cbn [mbind option_bind fst snd]; [|done]. run_steps.
  destruct (outcome_is_success outcome), (bo_kind outcome); run_steps; by rewrite run_record_diagnostic.
Qed.

Lemma finish_repository_computes env operation outcome w :
  (if (run (Guards.finish_repository_operation env operation outcome) w).1
   then Some (run (Guards.finish_repository_operation env operation outcome) w).2 else None)
  = Lifecycle.finish_repository_operation env operation outcome w.
Proof.
  unfold Guards.finish_repository_operation, Lifecycle.finish_repository_operation. run_steps.
  destruct (negb (bool_decide _)); [done|]. run_steps.
  assert (forall state, set_rt_service_state (rt_service_state state) state = state) as Heta by (by intros []).
  destruct outcome; run_steps; rewrite ?save_state_commutes, ?Heta; cbn [fst snd]; project.
  1: destruct (save_state env _ w) as [[] w1].
  all: cbn [fst snd]; destruct (apply_configuration_status _ _ _); cbn [fst snd mbind option_bind]; run_steps;
    rewrite ?run_record_diagnostic; done.
Qed.

Lemma begin_retention_computes env now w :
  completed (run (Guards.begin_retention env now) w) = Lifecycle.begin_retention env now w.
Proof.
  unfold Guards.begin_retention, Lifecycle.begin_retention. run_steps. destruct (negb (bool_decide _)); [done|].
  destruct (duration_days _); [|done]. run_steps. by rewrite run_record_diagnostic.
Qed.

Lemma finish_update_computes env outcome w :
  run (Guards.finish_update_install env outcome) w = (tt, Lifecycle.finish_update_install env outcome w).
Proof.
  unfold Guards.finish_update_install, Lifecycle.finish_update_install. run_steps.
  destruct outcome; by rewrite run_record_diagnostic.
Qed.

Lemma evaluate_schedule_computes now conditions w :
  completed (run (Guards.evaluate_schedule now conditions) w) = Scheduler.evaluate_schedule now conditions w.
Proof.
  unfold Guards.evaluate_schedule, Scheduler.evaluate_schedule. run_steps.
  by destruct (evaluate_state _ _ _ _) as [[action state]|].
Qed.
End runs.
