(* ===== verification/Threads.v ===== *)
(** * The service's threads ([apps/resticpal-service/src/runtime/], [main.rs])

    The operations that the threads of [main.rs] call on the shared runtime,
    as the programs of [Guards]: each computes what the other files say of it
    ([programs_compute_operations]), and any number of threads calling any of
    them can neither block each other for good nor run forever. *)
From stdpp Require Import base option list gmap strings relations.
From S2P Require Import Prelude RustStd Chrono Crates Config Status Schedule Policy Restic Protocol Outcome.
From S2P Require Import ServiceState Diagnostics History Credentials Management Updater Sources PolicyCache.
From S2P Require Import Runtime Scheduler Lifecycle Enrollment Ipc Service Locks Guards GuardsRun.

(** What the threads call. *)
Inductive Operation : Type :=
| Op_HandleRequest (env env' : Env) (command : RequestCommand) (identity : ClientIdentity)
| Op_EnrollBootstrap (env env' : Env) (bootstrap_url : rstr)
| Op_ApplyManagedPolicy (env : Env) (policy : ManagedPolicy) (expected_management : LocalManagementConfig)
| Op_EvaluateSchedule (now : DateTime) (conditions : SystemConditions)
| Op_NextEvaluationDelay (now : DateTime)
| Op_RecordResume (now : DateTime)
| Op_UpdateProgress (progress : BackupProgress)
| Op_BeginRetention (env : Env) (now : DateTime)
| Op_FinishRetention (env : Env) (backup : BackupOutcome) (retention : RetentionOutcome) (now : DateTime)
| Op_FinishBackup (env : Env) (now : DateTime) (outcome : BackupOutcome)
| Op_FinishRepositoryOperation (env : Env) (operation : RepositoryOperationKind) (outcome : RepositoryOutcome)
| Op_FinishUpdateInstall (env : Env) (outcome : UpdateInstallOutcome)
| Op_RecordDiagnostic (env : Env) (level : DiagnosticLevel) (event_id message : string) (code : option rstr)
| Op_Config
| Op_Status.

Inductive Answer : Type :=
| An_Response (payload : ResponsePayload)
| An_Enrolled (outcome : result unit unit)
| An_Applied (outcome : result PolicyError ManagedPolicyApplyOutcome)
| An_Action (action : ScheduleAction)
| An_Delay (milliseconds : Z)
| An_Retention (plan : option RetentionPlan)
| An_Backup (outcome : BackupOutcome)
| An_Config (config : EffectiveConfig)
| An_Status (status : ServiceStatus)
| An_Nothing.

Section threads.
Context `{Chrono} `{UrlCrate} `{CryptoCrates} `{Dpapi} `{UnicodeData} `{Filesystem} `{Messages} `{Base64Standard}.
Context `{Serde LocalConfig} `{Serde PersistedScheduleState} `{Serde DiagnosticEntry} `{Serde CachedManifest}.
Context (discover : option (list DiscoveredBackupSource)) (client : rstr -> option PendingEnrollment).

(** The call with its locks; [None] is a panic. *)
Definition perform (op : Operation) : Guarded (option Answer) :=
  match op with
  | Op_HandleRequest env env' command identity =>
      fmap (M:=option) An_Response <$> Guards.handle_command discover client env env' command identity
  | Op_EnrollBootstrap env env' bootstrap_url =>
      fmap (M:=option) An_Enrolled <$> Guards.enroll_bootstrap client env env' bootstrap_url
  | Op_ApplyManagedPolicy env policy expected =>
      fmap (M:=option) An_Applied <$> Guards.apply_managed_policy_inner env policy (Some expected)
  | Op_EvaluateSchedule now conditions => fmap (M:=option) An_Action <$> Guards.evaluate_schedule now conditions
  | Op_NextEvaluationDelay now => Some ∘ An_Delay <$> Guards.next_evaluation_delay now
  | Op_RecordResume now => Guards.record_resume now;; mret (Some An_Nothing)
  | Op_UpdateProgress progress => Guards.update_progress progress;; mret (Some An_Nothing)
  | Op_BeginRetention env now => fmap (M:=option) An_Retention <$> Guards.begin_retention env now
  | Op_FinishRetention env backup retention now => Some ∘ An_Backup <$> Guards.finish_retention env backup retention now
  | Op_FinishBackup env now outcome =>
      (fun b : bool => if b then Some An_Nothing else None) <$> Guards.finish_backup_at env now outcome
  | Op_FinishRepositoryOperation env operation outcome =>
      (fun b : bool => if b then Some An_Nothing else None) <$> Guards.finish_repository_operation env operation outcome
  | Op_FinishUpdateInstall env outcome => Guards.finish_update_install env outcome;; mret (Some An_Nothing)
  | Op_RecordDiagnostic env level event_id message code =>
      Guards.record_diagnostic env level event_id message code;; mret (Some An_Nothing)
  | Op_Config => Some ∘ An_Config <$> Guards.config
  | Op_Status => Some ∘ An_Status <$> Guards.status
  end.

(** The same call in the model without threads. *)
Definition meaning (op : Operation) (w : ServiceRuntime) : option (Answer * ServiceRuntime) :=
  match op with
  | Op_HandleRequest env env' command identity =>
      '(payload, w) ← Ipc.handle_command discover client env env' command identity w; Some (An_Response payload, w)
  | Op_EnrollBootstrap env env' bootstrap_url =>
      '(outcome, w) ← Enrollment.enroll_bootstrap env env' client bootstrap_url w; Some (An_Enrolled outcome, w)
  | Op_ApplyManagedPolicy env policy expected =>
      '(outcome, w) ← Enrollment.apply_managed_policy_if_current env policy expected w; Some (An_Applied outcome, w)
  | Op_EvaluateSchedule now conditions =>
      '(action, w) ← Scheduler.evaluate_schedule now conditions w; Some (An_Action action, w)
  | Op_NextEvaluationDelay now => Some (An_Delay (Scheduler.next_evaluation_delay now w), w)
  | Op_RecordResume now => Some (An_Nothing, Scheduler.record_resume now w)
  | Op_UpdateProgress progress => Some (An_Nothing, Lifecycle.update_progress progress w)
  | Op_BeginRetention env now =>
      '(plan, w) ← Lifecycle.begin_retention env now w; Some (An_Retention plan, w)
  | Op_FinishRetention env backup retention now =>
      let '(outcome, w) := Lifecycle.finish_retention env backup retention now w in Some (An_Backup outcome, w)
  | Op_FinishBackup env now outcome => w ← Lifecycle.finish_backup_at env now outcome w; Some (An_Nothing, w)
  | Op_FinishRepositoryOperation env operation outcome =>
      w ← Lifecycle.finish_repository_operation env operation outcome w; Some (An_Nothing, w)
  | Op_FinishUpdateInstall env outcome => Some (An_Nothing, Lifecycle.finish_update_install env outcome w)
  | Op_RecordDiagnostic env level event_id message code =>
      Some (An_Nothing, Runtime.record_diagnostic env level event_id message code w)
  | Op_Config => Some (An_Config (sr_config w), w)
  | Op_Status => Some (An_Status (rt_status (sr_state w)), w)
  end.

(** A thread calls operations one after the other and ends at a panic: whether
    it has come through. *)
Fixpoint perform_all (ops : list Operation) : Guarded bool :=
  match ops with
  | [] => mret true
  | op :: ops =>
      answer ← perform op;
      match (answer : option Answer) with Some _ => perform_all ops | None => mret false end
  end.

(** ** The order of the locks *)
Lemma ordered_mret {A} held (a : A) : ordered held (mret a : Guarded A) held.
Proof. done. Qed.
Lemma ordered_peek {X} held (f : ServiceRuntime -> X) : ordered held (peek f) held.
Proof. by intros x. Qed.
Lemma ordered_poke held (f : ServiceRuntime -> ServiceRuntime) : ordered held (poke f) held.
Proof. by intros x. Qed.
Lemma ordered_act {X} held (f : ServiceRuntime -> X * ServiceRuntime) : ordered held (act f) held.
Proof. by intros x. Qed.
Lemma ordered_mbind {A B} held (p : Guarded A) (k : A -> Guarded B) :
  ordered held p held -> (forall a, ordered held (k a) held) -> ordered held (p ≫= k) held.
Proof. apply ordered_bind. Qed.
Lemma ordered_fmap {A B} held (p : Guarded A) (f : A -> B) : ordered held p held -> ordered held (f <$> p) held.
Proof. intros Hp. by eapply ordered_bind. Qed.

Lemma any_locked_ordered held fields : above held L_FieldResolutions = true -> ordered held (any_locked fields) held.
Proof.
  intros Ha. induction fields as [|[[] field] fields IH]; [done| |done]. cbn [any_locked negb].
  apply ordered_mbind; [|by intros []]. unfold field_locked. apply ordered_guarded; [done|]. apply ordered_peek.
Qed.

Ltac head_of t := match t with ?f _ => head_of f | _ => t end.
Ltac lock_order :=
  repeat first
    [ progress intros
    | progress cbv zeta
    | apply ordered_mret | apply ordered_peek | apply ordered_poke | apply ordered_act
    | apply ordered_mbind | apply ordered_fmap
    | apply any_locked_ordered; reflexivity | apply ordered_guarded; [reflexivity|]
    | match goal with
      | |- ordered _ (match ?x with _ => _ end) _ => destruct x
      | |- ordered _ ?p _ => let h := head_of p in progress unfold h
      end ].

Lemma perform_ordered op : ordered [] (perform op) [].
Proof.
  destruct op as [env env' command identity| | | | | | | | | | | | | |]; [|unfold perform; lock_order..].
  destruct command; unfold perform, Guards.handle_command; lock_order.
Qed.

Lemma perform_all_ordered ops : ordered [] (perform_all ops) [].
Proof.
  induction ops as [|op ops IH]; [done|]. cbn [perform_all]. apply ordered_mbind; [apply perform_ordered|]. by intros [].
Qed.

(** ** The programs compute the operations *)
Theorem programs_compute_operations op w : completed (run (perform op) w) = meaning op w.
Proof.
  destruct op; cbn [perform meaning]; rewrite ?run_fmap, ?run_mbind.
  - rewrite <- handle_command_computes. by destruct (run _ w) as [[] ?].
  - rewrite <- enroll_bootstrap_computes. by destruct (run _ w) as [[] ?].
  - unfold apply_managed_policy_if_current. rewrite <- apply_managed_policy_computes. by destruct (run _ w) as [[] ?].
  - rewrite <- evaluate_schedule_computes. by destruct (run _ w) as [[] ?].
  - done.
  - done.
  - done.
  - rewrite <- begin_retention_computes. by destruct (run _ w) as [[] ?].
  - rewrite finish_retention_computes. by destruct (Lifecycle.finish_retention _ _ _ _ _).
  - rewrite finish_backup_computes. by destruct (Lifecycle.finish_backup_at _ _ _ _).
  - rewrite <- finish_repository_computes. by destruct (run _ w) as [[] ?].
  - by rewrite finish_update_computes.
  - by rewrite run_record_diagnostic.
  - done.
  - done.
Qed.

(** ** No deadlock *)
Definition start (ops : list Operation) : Thread ServiceRuntime bool := {| td_held := []; td_prog := perform_all ops |}.

Lemma started_ordered schedule : Forall well_ordered (start <$> schedule).
Proof. apply Forall_fmap, Forall_true. intros ops. apply perform_all_ordered. Qed.

Lemma started_excluded schedule : excluded (start <$> schedule).
Proof.
  intros i j t o l m Hi _ _ Hin. apply list_lookup_fmap_Some in Hi as (ops & -> & _). by apply not_elem_of_nil in Hin.
Qed.

Lemma reached_ordered schedule w s :
  rtc (pool_step false) (start <$> schedule, w) s -> Forall well_ordered s.1 /\ excluded s.1.
Proof.
  intros Hr. assert (Forall well_ordered (start <$> schedule, w).1 /\ excluded (start <$> schedule, w).1) as Hs
    by (split; [apply started_ordered|apply started_excluded]).
  induction Hr as [|s s1 s2 Hs1 _ IH]; [done|]. apply IH. destruct Hs. split; [by eapply pool_ordered|by eapply pool_excluded].
Qed.

(** C20: the service's threads cannot block each other for good.  Let any
    number of threads call any operations of the runtime, in any order and
    interleaved in any way: at every moment all have finished or one of them
    can go on, even where a waiting writer holds readers up; they cannot go on
    for ever; a thread that has finished, or died of a panic, holds no lock;
    and a lock taken exclusively is held by nobody else. *)
Theorem threads_never_deadlock (schedule : list (list Operation)) (w w' : ServiceRuntime)
    (threads : list (Thread ServiceRuntime bool))
    (Hreach : rtc (pool_step false) (start <$> schedule, w) (threads, w')) :
  (Forall done threads \/ exists s, pool_step true (threads, w') s)
  /\ sn (pool_step false) (threads, w')
  /\ (forall t, t ∈ threads -> done t -> td_held t = [])
  /\ excluded threads.
Proof.
  apply reached_ordered in Hreach as [Ho He]. split; [by apply pool_progress|]. split; [apply pool_terminates|].
  split; [|done]. intros t Ht [r Hr]. eapply Forall_forall in Ho; [|exact Ht]. unfold well_ordered in Ho. by rewrite Hr in Ho.
Qed.
End threads.

Module ThreadsWitness.
Import ChronoExample UrlExample ServiceWitness.
#[local] Existing Instances ManagementWitness.toy_crypto ResticWitness.ascii_unicode UpdaterWitness.toy_base64
  SourcesWitness.plain_files PolicyCacheWitness.no_dpapi PolicyCacheWitness.entry_serde no_messages entries_serde
  persisted_serde local_serde.

(** A settings window changes the schedule while the event loop evaluates it. *)
Definition window : list Operation :=
  [Op_HandleRequest env env (UpdateSchedule (Some 48) None None None None) administrator].
Definition event_loop : list Operation := [Op_EvaluateSchedule (seconds 3000) online].
Definition started : list (Thread ServiceRuntime bool) * ServiceRuntime :=
  (start None (fun _ => None) <$> [window; event_loop], managed).
(** The event loop has read the configuration and wants the state, which the
    window's request has by then. *)
Definition contended : option (list (Thread ServiceRuntime bool) * ServiceRuntime) :=
  turns ([1; 1; 1] ++ replicate 14 0)%nat started.
Definition holdings : list Held := match contended with Some (threads, _) => td_held <$> threads | None => [] end.

Lemma threads_witness :
  holdings = [[(L_State, Exclusive); (L_ConfigurationMutation, Exclusive)]; []]
  /\ contended ≫= turn 1 = None
  /\ exists threads w s, contended = Some (threads, w) /\ pool_step true (threads, w) s.
Proof.
  split; [vm_compute; reflexivity|]. split; [check (negb (is_some (contended ≫= turn 1))); by destruct (contended ≫= turn 1)|].
  check (match contended with Some (threads, _) => negb (bool_decide (Forall done threads)) | None => false end).
  destruct contended as [[threads w]|] eqn:E; [|discriminate Hcheck]. exists threads, w.
  apply negb_true_iff, bool_decide_eq_false in Hcheck.
  destruct (proj1 (threads_never_deadlock None (fun _ => None) [window; event_loop] managed w threads
    (turns_sound _ started _ E))) as [Hd|[s Hs]]; [exact (False_ind _ (Hcheck Hd))|].
  exists s. split; [reflexivity|exact Hs].
Defined.
End ThreadsWitness.

(** ** A state that is saved too late

    [finish_backup_at] (and [finish_retention]) save a copy of the state after
    they have let go of the mutex. *)
Module LateSaveWitness.
Import ChronoExample UrlExample ServiceWitness.
#[local] Existing Instances ManagementWitness.toy_crypto ResticWitness.ascii_unicode UpdaterWitness.toy_base64
  SourcesWitness.plain_files PolicyCacheWitness.no_dpapi PolicyCacheWitness.entry_serde no_messages entries_serde.

Definition local : LocalConfig :=
  set_lc_backup {| lb_paths := Some [lit "C:\Users"]; lb_exclusions := None |}
    (set_lc_repository
       {| lr_display_name := None; lr_url := Some (lit "s3:local/bucket"); lr_mode := None; lr_options := None;
          lr_secret_refs := Some [(ResticPassword, lit "password")] |} LocalConfig_default).
#[local] Instance local_text : Serde LocalConfig :=
  {| serialize := fun _ => Some [35]; deserialize := fun _ => Some local |}.

(** Of the state file only the requirement matters. *)
Definition state (required : bool) : PersistedScheduleState :=
  {| ps_schema_version := 2; ps_last_success := None; ps_last_retention := None; ps_last_prune := None;
     ps_last_retention_error := None; ps_repository_validation_required := required;
     ps_verified_repository :=
       if required then None
       else Some {| ri_url := Some (lit "s3:local/bucket"); ri_options := [];
                    ri_secret_refs := [(ResticPassword, lit "password")] |};
     ps_repository_verified_at := if required then None else Some (seconds 500) |}.
#[local] Instance state_text : Serde PersistedScheduleState :=
  {| serialize := fun s => Some [if ps_repository_validation_required s then 49 else 48];
     deserialize := fun b : list Z =>
       if bool_decide (b = [49; 10]) then Some (state true) else if bool_decide (b = [48; 10]) then Some (state false) else None |}.

Definition load (contents : list Z) : option (result RuntimeInitError ServiceRuntime) :=
  load_with_credentials_and_policy env (lit "C:\ProgramData\resticpal\config.toml")
    {| dk_config := Contents [35]; dk_cache := NotFound; dk_state := Contents contents; dk_history := None; dk_log := no_log |}
    None None.
Definition loaded (contents : list Z) : ServiceRuntime :=
  match load contents with Some (Ok w) => w | _ => configuration_error env [] disk None end.

Definition summary : BackupSummary :=
  {| bs_files_processed := 1; bs_bytes_processed := 1; bs_data_added := 1; bs_snapshot_id := None |}.
Definition finish : Operation := Op_FinishBackup env (seconds 4000) (outcome_succeeded summary).
Definition validate_request : Operation := Op_HandleRequest env env ValidateRepository administrator.
Definition event_loop : list Operation := [Op_EvaluateSchedule (seconds 3000) online; finish].
Definition window : list Operation := [validate_request].

(** The request comes after the backup's result has been entered and before
    it is saved. *)
Definition race : option (list (Thread ServiceRuntime bool) * ServiceRuntime) :=
  turns (replicate 13 0 ++ replicate 9 1 ++ replicate 5 0)%nat
    (start None (fun _ => None) <$> [event_loop; window], loaded [48; 10]).
Definition raced : ServiceRuntime := match race with Some (_, w) => w | None => loaded [48; 10] end.
(** The two operations one after the other. *)
Definition in_order (ops : list Operation) : option ServiceRuntime :=
  foldl (fun w op => w ≫= fun w => '(_, w) ← meaning None (fun _ => None) op w; Some w) (Some (loaded [48; 10])) ops.
Definition required (w : ServiceRuntime) : bool := st_repository_validation_required (rt_service_state (sr_state w)).

(** A connection test that is requested in between is required in memory and
    forgotten on disk: when it fails and the service restarts, the connection
    counts as verified.  With whole calls, one after the other, the file says
    what the memory says. *)
Theorem late_save_forgets_validation :
  (exists threads, race = Some (threads, raced) /\ Forall done threads)
  /\ required raced = true /\ sr_state_store raced = Some (Contents [48; 10])
  /\ rt_repository_operation (sr_state (loaded [48; 10])) = RO_Succeeded Kind_Validate (seconds 500)
  /\ (required <$> in_order (event_loop ++ window)) = Some true
  /\ (sr_state_store <$> in_order (event_loop ++ window)) = Some (Some (Contents [49; 10]))
  /\ rt_repository_operation (sr_state (loaded [49; 10])) = RO_ValidationRequired.
Proof.
  split; [|repeat split; vm_compute; reflexivity].
  check (match race with Some (threads, _) => bool_decide (Forall done threads) | None => false end).
  unfold raced. destruct race as [[threads w]|]; [|discriminate Hcheck]. exists threads.
  split; [reflexivity|]. exact (bool_decide_eq_true_1 _ Hcheck).
Qed.
End LateSaveWitness.
