(* ===== verification/Authority.v ===== *)
(** * What a request may change

    The authority of clients over the runtime: commands reserved to elevated
    administrators, fields a managed policy locks, and requests that are
    refused ([apps/resticpal-service/src/runtime/ipc.rs]). *)
From stdpp Require Import base option list gmap strings.
From S2P Require Import Prelude RustStd Chrono Crates Config Status Schedule Policy Restic Protocol Outcome.
From S2P Require Import ServiceState Diagnostics History Credentials Management Updater Sources PolicyCache.
From S2P Require Import Runtime Scheduler Lifecycle Enrollment Ipc Service.

(** The commands that reveal or change machine settings. *)
Definition admin_only (command : RequestCommand) : bool :=
  match command with
  | GetStatus | GetRunHistory _ | RunBackupNow | CancelBackup | DeferBackup _ | GetUpdateSettings | InstallUpdate _ => false
  | _ => true
  end.

(** Everything but the status, the pending requests and the event queue. *)
Record same_settings (w w' : ServiceRuntime) : Prop := {
  se_config : sr_config w' = sr_config w;
  se_local : sr_local_config w' = sr_local_config w;
  se_fields : sr_field_resolutions w' = sr_field_resolutions w;
  se_config_store : sr_config_store w' = sr_config_store w;
  se_credential_store : sr_credential_store w' = sr_credential_store w;
  se_state_store : sr_state_store w' = sr_state_store w;
  se_history_store : sr_history_store w' = sr_history_store w;
  se_diagnostics : sr_diagnostics w' = sr_diagnostics w;
  se_operation : rt_repository_operation (sr_state w') = rt_repository_operation (sr_state w);
  se_service : rt_service_state (sr_state w') = rt_service_state (sr_state w)
}.
#[global] Instance same_settings_preorder : PreOrder same_settings.
Proof. split; [done|]. intros w1 w2 w3 [] []. split; congruence. Qed.

Lemma send_settings event w b w' : send event w = (b, w') -> same_settings w w'.
Proof. unfold send. destruct (sr_receiver_alive w); by intros [= <- <-]. Qed.

Lemma state_settings s w :
  rt_repository_operation s = rt_repository_operation (sr_state w) -> rt_service_state s = rt_service_state (sr_state w) ->
  same_settings w (set_sr_state s w).
Proof. by split. Qed.

Section authority.
Context `{Chrono} `{UrlCrate} `{CryptoCrates} `{Dpapi} `{UnicodeData} `{Filesystem} `{Messages} `{Base64Standard}.
Context `{Serde LocalConfig} `{Serde PersistedScheduleState} `{Serde DiagnosticEntry} `{Serde CachedManifest}.
Context (discover : option (list DiscoveredBackupSource)) (client : rstr -> option PendingEnrollment).

Definition user : ClientIdentity := {| is_elevated_administrator := false |}.

Lemma send_event_settings event message w p w' : send_event event message w = (p, w') -> same_settings w w'.
Proof.
  unfold send_event. destruct (send event w) as [[] w1] eqn:E; apply send_settings in E; by intros [= <- <-].
Qed.

Lemma run_backup_now_settings env w p w' : run_backup_now env w = (p, w') -> same_settings w w'.
Proof.
  intros E. unfold run_backup_now in E.
  repeat (cbv zeta in E; match type of E with (if ?c then _ else _) = _ => destruct c; [by injection E as <- <-|] end).
  destruct (send _ _) as [[] w1] eqn:Es in E; apply send_settings in Es; injection E as <- <-.
  - by transitivity (set_sr_state (set_rt_not_before None (set_rt_manual_requested true (sr_state w))) w).
  - transitivity w1; [|by apply state_settings; destruct Es].
    by transitivity (set_sr_state (set_rt_not_before None (set_rt_manual_requested true (sr_state w))) w).
Qed.

Lemma cancel_backup_settings w p w' : cancel_backup w = (p, w') -> same_settings w w'.
Proof. unfold cancel_backup. destruct (is_running _); [apply send_event_settings|by intros [= <- <-]]. Qed.

Lemma defer_backup_settings env minutes w p w' : defer_backup env minutes w = Some (p, w') -> same_settings w w'.
Proof.
  intros E. unfold defer_backup in E.
  repeat (cbv zeta in E; match type of E with (if ?c then _ else _) = _ => destruct c; [by injection E as <- <-|] end).
  destruct (duration_minutes _); cbn in E; [|done]. injection E as E. apply send_event_settings in E.
  etransitivity; [|exact E]. by apply state_settings.
Qed.

Lemma begin_update_install_settings env package identity w p w' :
  begin_update_install env package identity w = Some (p, w') -> same_settings w w'.
Proof.
  intros E. unfold begin_update_install in E.
  repeat (cbv zeta in E; match type of E with (if ?c then _ else _) = _ => destruct c; [by injection E as <- <-|] end).
  destruct (hold_deadline _ _) as [d|]; cbn [mbind option_bind] in E; [|done].
  pose proof (place_hold_work (env_now env 0) d (set_rt_update_install_active true (sr_state w))) as [Ho Hs _ _].
  set (held := place_hold _ _ _) in *. clearbody held.
  destruct (send _ _) as [[] w1] eqn:Ee in E; apply send_settings in Ee; injection E as <- <-.
  - etransitivity; [|exact Ee]. by apply state_settings.
  - pose proof (restore_held_status_work (env_now env 0)
      (set_rt_update_hold_until None (set_rt_update_install_active false held))) as [Ho' Hs' _ _].
    transitivity w1; [etransitivity; [|exact Ee]; by apply state_settings|].
    destruct Ee as [_ _ _ _ _ _ _ _ Eo Es]. apply state_settings; [rewrite Ho'|rewrite Hs']; cbn in *; congruence.
Qed.

Lemma user_settings (env env' : Env) (command : RequestCommand) (w w' : ServiceRuntime) (p : ResponsePayload) :
  handle_command discover client env env' command user w = Some (p, w') ->
  (admin_only command = true -> p = administrator_required /\ w' = w) /\ same_settings w w'.
Proof.
  intros Hrun. destruct command; cbn [handle_command answer admin_only] in *;
    try (injection Hrun as <- <-; by split).
  - injection Hrun as Hrun. apply run_backup_now_settings in Hrun. by split.
  - injection Hrun as Hrun. apply cancel_backup_settings in Hrun. by split.
  - apply defer_backup_settings in Hrun. by split.
  - apply begin_update_install_settings in Hrun. by split.
Qed.

(** A client that is not an elevated administrator gets the same
    refusal from every administrative command and leaves the runtime
    untouched by it; the commands it may use change only the status, the
    pending requests and the event queue: no configuration, no credential,
    no store and no repository verification. *)
Theorem users_cannot_change_settings (env env' : Env) (command : RequestCommand) (w w' : ServiceRuntime)
    (p : ResponsePayload) (Hrun : handle_command discover client env env' command user w = Some (p, w')) :
  (admin_only command = true -> p = administrator_required /\ w' = w) /\ same_settings w w'.
Proof. by eapply user_settings. Qed.

(** ** Locked fields *)

(** The resolutions and the effective values of the locked fields stay. *)
Definition keeps_locked (w w' : ServiceRuntime) : Prop :=
  sr_field_resolutions w' = sr_field_resolutions w
  /\ forall f, field_locked f w = true -> effective_value f (sr_config w') = effective_value f (sr_config w).

#[local] Instance keeps_locked_preorder : PreOrder keeps_locked.
Proof.
  split; [done|]. intros w1 w2 w3 [Hf1 Hv1] [Hf2 Hv2]. split; [congruence|]. intros f Hf.
  rewrite Hv2; [by apply Hv1|]. unfold field_locked in *. by rewrite Hf1.
Qed.

Lemma same_core_keeps w w' : same_core w w' -> keeps_locked w w'.
Proof. intros [Hc _ Hf _]. split; [done|]. intros f _. by rewrite Hc. Qed.
Lemma same_settings_keeps w w' : same_settings w w' -> keeps_locked w w'.
Proof. intros [Hc _ Hf]. split; [done|]. intros f _. by rewrite Hc. Qed.
Lemma state_keeps s w : keeps_locked w (set_sr_state s w).
Proof. done. Qed.

(** A request that does not touch a locked field has no value for it. *)
Lemma untouched {A} (value : option A) f w :
  touches_locked value f w = false -> field_locked f w = true -> value = None.
Proof. unfold touches_locked. destruct value; [|done]. cbn. congruence. Qed.

(** The configuration an update switches to keeps the locked values. *)
Lemma switch_keeps effective candidate w w1 :
  same_core w w1 ->
  (forall f, field_locked f w = true -> effective_value f effective = effective_value f (sr_config w)) ->
  keeps_locked w (set_sr_config effective (set_sr_local_config candidate w1)).
Proof. intros [_ _ Hf _] He. by split. Qed.

(** [locked_value f Hf]: the field the goal is about is not among the requested changes. *)
Ltac locked_value f Hf :=
  destruct f; try reflexivity; cbn;
  match goal with H : touches_locked _ _ _ = false |- _ => rewrite (untouched _ _ _ H Hf); reflexivity end.

Lemma retention_effective_keeps a b c d e w :
  touches_locked a F_RetentionDaily w || touches_locked b F_RetentionWeekly w
    || touches_locked c F_RetentionMonthly w || touches_locked d F_RetentionYearly w
    || touches_locked e F_RetentionPruneIntervalDays w = false ->
  forall f, field_locked f w = true ->
  effective_value f (retention_effective a b c d e (sr_config w)) = effective_value f (sr_config w).
Proof.
  rewrite !orb_false_iff. intros [[[[? ?] ?] ?] ?] f Hf. locked_value f Hf.
Qed.

Lemma schedule_effective_keeps a b c d e w :
  touches_locked a F_ScheduleIntervalHours w || touches_locked b F_ScheduleWakeGraceSeconds w
    || touches_locked c F_ScheduleWakeLockTimeoutSeconds w || touches_locked d F_ScheduleAllowOnBattery w
    || touches_locked e F_ScheduleAllowMeteredNetwork w = false ->
  forall f, field_locked f w = true ->
  effective_value f (schedule_effective a b c d e (sr_config w)) = effective_value f (sr_config w).
Proof.
  rewrite !orb_false_iff. intros [[[[? ?] ?] ?] ?] f Hf. locked_value f Hf.
Qed.

Lemma sources_effective_keeps a b w :
  touches_locked a F_BackupPaths w || touches_locked b F_BackupExclusions w = false ->
  forall f, field_locked f w = true ->
  effective_value f (sources_effective (deduplicate_paths <$> a) (deduplicate_exclusions <$> b) (sr_config w))
  = effective_value f (sr_config w).
Proof.
  rewrite !orb_false_iff. intros [? ?] f Hf. locked_value f Hf.
Qed.

(** With secrets updates the references change too, when they may. *)
Lemma repository_effective_keeps env display_name url mode options updates c w e created retired candidate w1 :
  touches_locked display_name F_RepositoryDisplayName w || touches_locked url F_RepositoryUrl w
    || touches_locked mode F_RepositoryMode w || touches_locked options F_RepositoryOptions w
    || (negb (bool_decide (length updates = 0%nat)) && repository_secrets_locked w) = false ->
  store_secrets env updates candidate
    (repository_effective (nonempty_trimmed <$> display_name) (nonempty_trimmed <$> url) mode options (sr_config w)) w
    = Ok (c, e, created, retired, w1) ->
  forall f, field_locked f w = true -> effective_value f e = effective_value f (sr_config w).
Proof.
  rewrite !orb_false_iff. intros [[[[? ?] ?] ?] Hlocked] Es f Hf.
  assert (forall f, field_locked f w = true -> effective_value f
    (repository_effective (nonempty_trimmed <$> display_name) (nonempty_trimmed <$> url) mode options (sr_config w))
    = effective_value f (sr_config w)) as Hrep.
  { clear f Hf. intros f Hf. locked_value f Hf. }
  rewrite <- (Hrep f Hf). unfold store_secrets in Es. destruct updates as [|u updates].
  { by injection Es as _ <- _ _ _. }
  destruct (sr_credential_store w); [|done]. destruct (apply_secret_updates _ _ _ _); [|done].
  injection Es as _ <- _ _ _. destruct f; try reflexivity.
  exfalso. cbn in Hlocked. unfold repository_secrets_locked in Hlocked. by rewrite Hf in Hlocked.
Qed.

(** *** Each update *)
Ltac skip E :=
  repeat (cbv zeta in E;
          match type of E with
          | (if ?c then Some (_, _) else _) = _ => destruct c eqn:?; [injection E as <- <-; reflexivity|]
          | (if ?c then (_, _) else _) = _ => destruct c eqn:?; [injection E as <- <-; reflexivity|]
          end).

Lemma commit_configuration_keeps env candidate effective message s w w1 p w' :
  same_core w w1 ->
  (forall f, field_locked f w = true -> effective_value f effective = effective_value f (sr_config w)) ->
  commit_configuration env candidate effective message s w1 = Some (p, w') -> keeps_locked w w'.
Proof.
  intros Hcore He. unfold commit_configuration.
  destruct (apply_configuration_status _ _ _) as [s'|]; cbn; [|done]. intros [= <- <-].
  etransitivity; [|apply same_core_keeps, send_core]. etransitivity; [|apply state_keeps]. by apply switch_keeps.
Qed.

Lemma update_retention_keeps env a b c d e identity w p w' :
  update_retention env a b c d e identity w = (p, w') -> keeps_locked w w'.
Proof.
  intros E. unfold update_retention in E. skip E.
  destruct (validate _) as [[]|] in E; [|by injection E as <- <-]. skip E.
  destruct (save_config _ _ _) as [saved w1] eqn:Es in E. apply save_config_eq in Es.
  destruct (negb saved); injection E as <- <-; [by apply same_core_keeps|].
  etransitivity; [|apply same_core_keeps, send_core].
  apply switch_keeps; [done|by apply retention_effective_keeps].
Qed.

Lemma update_schedule_keeps env a b c d e identity w p w' :
  update_schedule env a b c d e identity w = Some (p, w') -> keeps_locked w w'.
Proof.
  intros E. unfold update_schedule in E. skip E.
  destruct (validate _) as [[]|] in E; [|by injection E as <- <-]. skip E.
  destruct (save_config _ _ _) as [saved w1] eqn:Es in E. apply save_config_eq in Es.
  destruct (negb saved); [injection E as <- <-; by apply same_core_keeps|].
  eapply commit_configuration_keeps in E; [done|done|by apply schedule_effective_keeps].
Qed.

Lemma update_backup_sources_keeps env paths exclusions identity w p w' :
  update_backup_sources env paths exclusions identity w = Some (p, w') -> keeps_locked w w'.
Proof.
  intros E. unfold update_backup_sources in E. skip E.
  destruct (validate_backup_source_paths _ _) in E; [|by injection E as <- <-].
  destruct (validate _) as [[]|] in E; [|by injection E as <- <-]. skip E.
  destruct (save_config _ _ _) as [saved w1] eqn:Es in E. apply save_config_eq in Es.
  destruct (negb saved); [injection E as <- <-; by apply same_core_keeps|].
  eapply commit_configuration_keeps in E; [done|done|by apply sources_effective_keeps].
Qed.

Lemma update_update_settings_keeps env b identity w p w' :
  update_update_settings env b identity w = (p, w') -> keeps_locked w w'.
Proof.
  intros E. unfold update_update_settings in E. skip E.
  destruct (save_config _ _ _) as [saved w1] eqn:Es in E. apply save_config_eq in Es as Hcore.
  destruct (negb saved); injection E as <- <-; [by apply same_core_keeps|].
  apply switch_keeps; [done|]. destruct Hcore as [-> _ _ _].
  intros f Hf. destruct f; try reflexivity. congruence.
Qed.

Lemma commit_repository_keeps env changed candidate effective created retired w w1 p w' :
  same_core w w1 ->
  (forall f, field_locked f w = true -> effective_value f effective = effective_value f (sr_config w)) ->
  commit_repository env changed candidate effective created retired w1 = Some (p, w') -> keeps_locked w w'.
Proof.
  intros Hcore He E. unfold commit_repository in E.
  assert (forall w2, same_core w w2 -> keeps_locked w (cleanup_credentials env created w2)) as Hclean.
  { intros w2 Hw2. apply same_core_keeps. transitivity w2; [done|apply cleanup_credentials_core]. }
  destruct (validate effective) as [[]|]; [|injection E as <- <-; by apply Hclean].
  set (next := if changed then require_repository_validation _ else _) in E.
  destruct (if changed then save_state env next w1 else (true, w1)) as [saved w2] eqn:Es.
  assert (same_core w w2) as Hcore2.
  { transitivity w1; [done|]. destruct changed; [by eapply save_state_eq|by injection Es as <- <-]. }
  destruct (negb saved); [injection E as <- <-; by apply Hclean|].
  destruct (save_config _ _ _) as [saved' w3] eqn:Ec in E. apply save_config_eq in Ec.
  assert (same_core w w3) as Hcore3 by (by transitivity w2).
  destruct (negb saved'); [injection E as <- <-; by apply Hclean|].
  destruct (apply_configuration_status _ _ _) as [s|] in E; cbn [mbind option_bind] in E; [|done].
  injection E as <- <-. etransitivity; [|apply same_core_keeps, send_core].
  etransitivity; [|apply same_core_keeps, cleanup_credentials_core].
  etransitivity; [|apply state_keeps]. by apply switch_keeps.
Qed.

Lemma update_repository_keeps env display_name url mode options updates identity w p w' :
  update_repository env display_name url mode options updates identity w = Some (p, w') -> keeps_locked w w'.
Proof.
  intros E. unfold update_repository in E. skip E.
  destruct (validate _) as [[]|] in E; [|by injection E as <- <-]. skip E.
  pose proof (store_secrets_core env updates
    (repository_candidate (nonempty_trimmed <$> display_name) (nonempty_trimmed <$> url) mode options (sr_local_config w))
    (repository_effective (nonempty_trimmed <$> display_name) (nonempty_trimmed <$> url) mode options (sr_config w)) w) as Hcore.
  destruct (store_secrets _ _ _ _ _) as [[[[[c e] created] retired] w1]|w1] eqn:Es in E, Hcore;
    [|injection E as <- <-; by apply same_core_keeps].
  eapply commit_repository_keeps in E; [done|done|by eapply repository_effective_keeps].
Qed.

Lemma begin_repository_operation_keeps env operation identity w p w' :
  begin_repository_operation env operation identity w = (p, w') -> keeps_locked w w'.
Proof.
  intros E. unfold begin_repository_operation in E. skip E.
  destruct (save_state _ _ _) as [saved w1] eqn:Es in E. apply save_state_eq, same_core_keeps in Es.
  destruct (negb saved); [by injection E as <- <-|].
  match type of E with context [send ?e ?x] => destruct (send e x) as [[] w2] eqn:Ee in E end;
    apply send_eq, same_core_keeps in Ee; injection E as <- <-; by transitivity w1.
Qed.

Lemma prepare_for_update_keeps env hold identity w p w' :
  prepare_for_update env hold identity w = Some (p, w') -> keeps_locked w w'.
Proof.
  intros E. unfold prepare_for_update in E. skip E. destruct (hold_deadline _ _); cbn in E; [|done].
  by injection E as <- <-.
Qed.

(** C7: whoever sends it, a request other than an enrollment or an
    unenrollment leaves the managed resolution alone and does not change
    the effective value of any field the policy locks. *)
Theorem locked_fields_survive_requests (env env' : Env) (command : RequestCommand) (identity : ClientIdentity)
    (w w' : ServiceRuntime) (p : ResponsePayload)
    (Hunenroll : command <> Unenroll) (Henroll : forall url, command <> Enroll url)
    (Hrun : handle_command discover client env env' command identity w = Some (p, w')) :
  keeps_locked w w'.
Proof.
  destruct command; cbn [handle_command answer] in Hrun;
    try (injection Hrun as <- <-; reflexivity); try congruence.
  - by eapply update_backup_sources_keeps.
  - by eapply update_repository_keeps.
  - injection Hrun as Hrun. by eapply begin_repository_operation_keeps.
  - injection Hrun as Hrun. by eapply begin_repository_operation_keeps.
  - by eapply update_schedule_keeps.
  - injection Hrun as Hrun. by eapply update_retention_keeps.
  - injection Hrun as Hrun. by eapply same_settings_keeps, run_backup_now_settings.
  - injection Hrun as Hrun. by eapply same_settings_keeps, cancel_backup_settings.
  - by eapply same_settings_keeps, defer_backup_settings.
  - by eapply prepare_for_update_keeps.
  - injection Hrun as Hrun. by eapply update_update_settings_keeps.
  - by eapply same_settings_keeps, begin_update_install_settings.
Qed.
End authority.

(** ** Evaluated examples *)
Module AuthorityWitness.
Import ChronoExample UrlExample ServiceWitness.
#[local] Existing Instances ManagementWitness.toy_crypto ResticWitness.ascii_unicode UpdaterWitness.toy_base64
  SourcesWitness.plain_files PolicyCacheWitness.no_dpapi PolicyCacheWitness.entry_serde no_messages local_serde
  persisted_serde entries_serde.

(** The runtime after a command on the managed device. *)
Definition after (command : RequestCommand) (identity : ClientIdentity) : ServiceRuntime :=
  match handle_command None (fun _ => None) env env command identity managed with Some (_, w) => w | None => managed end.
Definition accepts (command : RequestCommand) (identity : ClientIdentity) : bool :=
  match handle_command None (fun _ => None) env env command identity managed with
  | Some (Resp_Accepted _, _) => true
  | _ => false
  end.
Lemma accepts_after command identity :
  accepts command identity = true ->
  exists message, handle_command None (fun _ => None) env env command identity managed
                  = Some (Resp_Accepted message, after command identity).
Proof.
  unfold accepts, after. destruct (handle_command _ _ _ _ _ _ _) as [[[] w]|]; try discriminate. by eexists.
Qed.

(** A user may request a backup; nothing but the request changes. *)
Lemma users_witness :
  accepts RunBackupNow user = true /\ rt_manual_requested (sr_state (after RunBackupNow user)) = true
  /\ same_settings managed (after RunBackupNow user).
Proof.
  split; [vm_compute; reflexivity|]. split; [vm_compute; reflexivity|].
  destruct (accepts_after RunBackupNow user ltac:(vm_compute; reflexivity)) as [message E].
  exact (proj2 (users_cannot_change_settings None (fun _ => None) env env RunBackupNow managed _ _ E)).
Defined.

(** An administrator changes the interval; the locked repository URL stays. *)
Definition new_interval : RequestCommand := UpdateSchedule (Some 48) None None None None.
Lemma locked_fields_survive_witness :
  field_locked F_RepositoryUrl managed = true
  /\ sc_interval_hours (ec_schedule (sr_config (after new_interval administrator))) = 48
  /\ rc_url (ec_repository (sr_config (after new_interval administrator))) = rc_url (ec_repository (sr_config managed)).
Proof.
  assert (field_locked F_RepositoryUrl managed = true) as Hl by (vm_compute; reflexivity).
  split; [exact Hl|]. split; [vm_compute; reflexivity|].
  destruct (accepts_after new_interval administrator ltac:(vm_compute; reflexivity)) as [message E].
  exact (proj2 (locked_fields_survive_requests None (fun _ => None) env env new_interval administrator managed _ _
                  ltac:(discriminate) ltac:(discriminate) E) F_RepositoryUrl Hl).
Defined.
End AuthorityWitness.
