(* ===== verification/Stores.v ===== *)
(** * The service's own records

    The history database, the diagnostics log and the state file are written
    by many operations of the runtime ([apps/resticpal-service/src/runtime]),
    each of which may find the disk failing.  Whatever the order of the
    operations and whichever of the calls fail, what is on disk stays well
    formed, so that the service can always read back its own records. *)
From stdpp Require Import base option list gmap strings relations.
From S2P Require Import Prelude RustStd WinPath Chrono Crates Config Status Schedule Policy Restic Protocol Outcome.
From S2P Require Import ServiceState Diagnostics History Credentials Management Updater Sources PolicyCache.
From S2P Require Import Runtime Scheduler Lifecycle Enrollment Ipc Service.

(** ** Well-formed records *)
Section formed.
Context `{Chrono} `{Serde PersistedScheduleState} `{Serde DiagnosticEntry}.

(** The log files hold text, be it with half a line that a failed write left. *)
Definition log_files_ok (f : LogFiles) : Prop :=
  Forall text_file [log_current f; log_archive1 f; log_archive2 f; log_archive3 f].
Definition state_file_ok (file : FileRead) : Prop := exists snapshot, state_load file = Ok snapshot.

Record records_ok (w : ServiceRuntime) : Prop := {
  ro_history : forall db, sr_history_store w = Some db -> store_ok db;
  ro_log : forall log, sr_diagnostics w = Some log -> log_files_ok log;
  ro_state : forall file, sr_state_store w = Some file -> state_file_ok file
}.

(** ** How operations change them *)

(** A line was added to the log, or could not be. *)
Definition logged (log log' : option LogFiles) : Prop :=
  exists f io torn entry, ascii_entry entry = true /\ log = Some f /\ log' = Some (record io torn entry f).2.
(** The state was saved, or could not be. *)
Definition saved (file file' : option FileRead) : Prop :=
  exists f ok snapshot, file = Some f /\ file' = Some (state_save ok snapshot f).2.

(** The history is untouched, the log and the state file only written to. *)
Definition grows (w w' : ServiceRuntime) : Prop :=
  sr_history_store w' = sr_history_store w
  /\ rtc logged (sr_diagnostics w) (sr_diagnostics w') /\ rtc saved (sr_state_store w) (sr_state_store w').
#[global] Instance grows_preorder : PreOrder grows.
Proof.
  split; [by intros w; split_and!|]. intros w1 w2 w3 (Eh & El & Es) (Eh' & El' & Es'). split_and!; [congruence|by etrans..].
Qed.
End formed.

(** Assignments to the rest of the runtime are grows by conversion. *)
Section helpers.
Context `{Chrono} `{UrlCrate} `{CryptoCrates} `{Dpapi} `{UnicodeData} `{Filesystem} `{Messages} `{Base64Standard}.
Context `{Serde LocalConfig} `{Serde PersistedScheduleState} `{Serde DiagnosticEntry} `{Serde CachedManifest}.

Lemma grows_record env level id message code w w1 :
  is_ascii (lit id) = true -> is_ascii (lit message) = true -> grows w w1 -> grows w (record_diagnostic env level id message code w1).
Proof.
  intros Hi Hm Hg. transitivity w1; [done|]. unfold record_diagnostic. destruct (sr_diagnostics w1) as [f|] eqn:E; [|done].
  split_and!; [done| |done]. cbn. rewrite E. apply rtc_once. eexists _, _, _, _. split_and!; [|done|reflexivity].
  by apply diagnostic_entry_ascii.
Qed.
Lemma grows_save_state env s w w1 b w2 : save_state env s w1 = (b, w2) -> grows w w1 -> grows w w2.
Proof.
  intros Es Hg. revert Es. unfold save_state. destruct (sr_state_store w1) as [f|] eqn:E; [|by intros [= _ <-]].
  destruct (state_save (env_state_ok env) s f) as [r file] eqn:Es. intros [= _ <-]. transitivity w1; [done|]. split_and!; [done..|]. cbn. rewrite E. apply rtc_once.
  exists f, (env_state_ok env), s. by rewrite Es.
Qed.
Lemma grows_save_state' env s w w1 : grows w w1 -> grows w (save_state env s w1).2.
Proof. intros Hg. destruct (save_state _ _ _) eqn:E. by eapply grows_save_state. Qed.
Lemma grows_save_config env c w w1 b w2 : save_config env c w1 = (b, w2) -> grows w w1 -> grows w w2.
Proof.
  intros Es Hg. revert Es. unfold save_config. destruct (sr_config_store w1); [|by intros [= _ <-]].
  destruct (config_save _ _ _). by intros [= _ <-].
Qed.
Lemma grows_send e w w1 b w2 : send e w1 = (b, w2) -> grows w w1 -> grows w w2.
Proof. intros Es Hg. revert Es. unfold send. by destruct (sr_receiver_alive w1); intros [= _ <-]. Qed.
Lemma grows_send' e w w1 : grows w w1 -> grows w (send e w1).2.
Proof. intros Hg. destruct (send _ _) eqn:E. by eapply grows_send. Qed.
Lemma grows_save_cache env m d w w1 : grows w w1 -> grows w (save_cache env m d w1).
Proof. intros Hg. unfold save_cache. destruct (sr_config_store w1); [|done]. by destruct (cache_save _ _ _ _ _). Qed.
Lemma grows_remove_cache env w w1 : grows w w1 -> grows w (remove_cache env w1).
Proof. intros Hg. unfold remove_cache. destruct (sr_config_store w1); [|done]. by destruct (remove_management_cache _ _). Qed.
Lemma grows_cleanup env refs w w1 : grows w w1 -> grows w (cleanup_credentials env refs w1).
Proof. intros Hg. unfold cleanup_credentials. by destruct (sr_credential_store w1). Qed.
Lemma grows_require_validation env next w w1 : grows w w1 -> grows w (require_validation_for env next w1).
Proof.
  intros Hg. unfold require_validation_for. destruct (repository_requires_validation _ _); [|done].
  destruct (save_state _ _ _) as [b w2] eqn:E. by eapply grows_save_state in E.
Qed.
Lemma grows_install_resolved resolved now w w1 w2 : install_resolved resolved now w1 = Some w2 -> grows w w1 -> grows w w2.
Proof. intros Es Hg. revert Es. unfold install_resolved. by intros (s & _ & [= <-])%bind_Some. Qed.
End helpers.
#[export] Hint Resolve grows_record grows_save_state grows_save_state' grows_save_config grows_send grows_send' grows_save_cache
  grows_remove_cache grows_cleanup grows_require_validation grows_install_resolved : grows.
#[export] Hint Extern 1 (grows ?w ?w) => reflexivity : grows.
(** The texts of the sources are ASCII. *)
#[export] Hint Extern 0 (is_ascii (lit _) = true) => reflexivity : grows.
(** Below an assignment. *)
#[export] Hint Extern 1 (grows ?w (?assign _ ?w1)) =>
  match assign with
  | set_sr_state => change (grows w w1) | set_sr_config => change (grows w w1) | set_sr_local_config => change (grows w w1)
  | set_sr_field_resolutions => change (grows w w1) | set_sr_credential_store => change (grows w w1)
  | set_sr_config_store => change (grows w w1) | set_sr_events => change (grows w w1)
  end : grows.

(** [explore E] runs through the branches of an operation [E]. *)
Ltac explore E :=
  repeat (cbv zeta in E;
          lazymatch type of E with
          | Some _ = Some _ => apply (inj Some) in E
          | None = Some _ => discriminate E
          | (_, _) = (_, _) => injection E as <- <-
          | mbind _ _ = Some _ => let x := fresh "x" in let Hx := fresh "Hx" in apply bind_Some in E as (x & Hx & E)
          | (match (match ?y with _ => _ end) with _ => _ end) = _ => destruct y eqn:?
          | (match ?x with _ => _ end) = _ => destruct x eqn:?
          end).

Section operations.
Context `{Chrono} `{UrlCrate} `{CryptoCrates} `{Dpapi} `{UnicodeData} `{Filesystem} `{Messages} `{Base64Standard}.
Context `{Serde LocalConfig} `{Serde PersistedScheduleState} `{Serde DiagnosticEntry} `{Serde CachedManifest}.

Lemma evaluate_grows now conditions w a w' : evaluate_schedule now conditions w = Some (a, w') -> grows w w'.
Proof. intros E. unfold evaluate_schedule in E. explore E. eauto with grows. Qed.
Lemma update_progress_grows progress w : grows w (update_progress progress w).
Proof. unfold update_progress. destruct (is_running _); eauto with grows. Qed.
Lemma begin_retention_grows env now w plan w' : begin_retention env now w = Some (plan, w') -> grows w w'.
Proof. intros E. unfold begin_retention in E. explore E; eauto with grows. Qed.
Lemma finish_retention_grows env backup retention now w o w' :
  finish_retention env backup retention now w = (o, w') -> grows w w'.
Proof. intros E. unfold finish_retention in E. destruct retention; explore E; eauto with grows. Qed.
Lemma finish_repository_operation_grows env operation outcome w w' :
  finish_repository_operation env operation outcome w = Some w' -> grows w w'.
Proof. intros E. unfold finish_repository_operation in E. destruct outcome; explore E; subst; eauto with grows. Qed.
Lemma finish_update_install_grows env outcome w : grows w (finish_update_install env outcome w).
Proof. unfold finish_update_install. destruct outcome; eauto with grows. Qed.
Lemma update_update_settings_grows env b identity w p w' : update_update_settings env b identity w = (p, w') -> grows w w'.
Proof. intros E. unfold update_update_settings in E. explore E; eauto with grows. Qed.
Lemma update_retention_grows env a b c d e identity w p w' : update_retention env a b c d e identity w = (p, w') -> grows w w'.
Proof. intros E. unfold update_retention in E. explore E; eauto with grows. Qed.
Lemma commit_configuration_grows env candidate effective message s w w1 p w' :
  commit_configuration env candidate effective message s w1 = Some (p, w') -> grows w w1 -> grows w w'.
Proof. intros E Hg. unfold commit_configuration in E. explore E; eauto with grows. Qed.
Lemma update_schedule_grows env a b c d e identity w p w' :
  update_schedule env a b c d e identity w = Some (p, w') -> grows w w'.
Proof. intros E. unfold update_schedule in E. explore E; eauto using commit_configuration_grows with grows. Qed.
Lemma update_backup_sources_grows env a b identity w p w' :
  update_backup_sources env a b identity w = Some (p, w') -> grows w w'.
Proof. intros E. unfold update_backup_sources in E. explore E; eauto using commit_configuration_grows with grows. Qed.
Lemma commit_repository_grows env changed candidate effective created retired w w1 p w' :
  commit_repository env changed candidate effective created retired w1 = Some (p, w') -> grows w w1 -> grows w w'.
Proof. intros E Hg. unfold commit_repository in E. destruct changed; explore E; eauto 12 with grows. Qed.
Lemma store_secrets_grows env updates candidate effective w :
  match store_secrets env updates candidate effective w with Ok (_, _, _, _, w') => grows w w' | Err w' => grows w w' end.
Proof.
  unfold store_secrets. destruct updates; [done|]. destruct (sr_credential_store w); [|done].
  destruct (apply_secret_updates _ _ _ _); eauto with grows.
Qed.
Lemma update_repository_grows env a b c d updates identity w p w' :
  update_repository env a b c d updates identity w = Some (p, w') -> grows w w'.
Proof.
  intros E. unfold update_repository in E.
  pose proof (fun candidate effective => store_secrets_grows env updates candidate effective w) as Hs.
  explore E; try (by eauto with grows);
    match goal with Hx : store_secrets _ _ ?c ?e _ = _ |- _ => specialize (Hs c e); rewrite Hx in Hs end;
    eauto using commit_repository_grows with grows.
Qed.
Lemma begin_repository_operation_grows env operation identity w p w' :
  begin_repository_operation env operation identity w = (p, w') -> grows w w'.
Proof. intros E. unfold begin_repository_operation in E. explore E; eauto with grows. Qed.
Lemma prepare_for_update_grows env hold identity w p w' : prepare_for_update env hold identity w = Some (p, w') -> grows w w'.
Proof. intros E. unfold prepare_for_update in E. explore E; eauto with grows. Qed.
Lemma begin_update_install_grows env package identity w p w' :
  begin_update_install env package identity w = Some (p, w') -> grows w w'.
Proof. intros E. unfold begin_update_install in E. explore E; eauto with grows. Qed.
Lemma defer_backup_grows env n w p w' : defer_backup env n w = Some (p, w') -> grows w w'.
Proof. intros E. unfold defer_backup, send_event in E. explore E; eauto with grows. Qed.
Lemma run_backup_now_grows env w p w' : run_backup_now env w = (p, w') -> grows w w'.
Proof. intros E. unfold run_backup_now in E. explore E; eauto with grows. Qed.
Lemma cancel_backup_grows w p w' : cancel_backup w = (p, w') -> grows w w'.
Proof. intros E. unfold cancel_backup, send_event in E. explore E; eauto with grows. Qed.
Lemma begin_enrollment_grows env w b w' : begin_enrollment env w = (b, w') -> grows w w'.
Proof. intros E. unfold begin_enrollment in E. explore E; eauto with grows. Qed.
Lemma commit_enrollment_grows env pending w r w' : commit_enrollment env pending w = Some (r, w') -> grows w w'.
Proof. intros E. unfold commit_enrollment in E. explore E; eauto 14 with grows. Qed.
Lemma unenroll_commit_grows env w p w' : unenroll_commit env w = Some (p, w') -> grows w w'.
Proof.
  intros E. unfold unenroll_commit in E. explore E; try (by eauto with grows).
  apply grows_send'. case_match; eauto 14 with grows.
Qed.
Lemma apply_managed_policy_grows env policy expected w r w' :
  apply_managed_policy_inner env policy expected w = Some (r, w') -> grows w w'.
Proof. intros E. unfold apply_managed_policy_inner in E. explore E; eauto with grows. Qed.
End operations.

(** ** Every operation keeps them *)
Section kept.
Context `{Chrono} `{!ChronoLaws} `{UrlCrate} `{CryptoCrates} `{Dpapi} `{UnicodeData} `{Filesystem} `{Messages} `{Base64Standard}.
Context `{Serde LocalConfig} `{!TextFormat LocalConfig} `{Serde PersistedScheduleState} `{!TextFormat PersistedScheduleState}.
Context `{Serde DiagnosticEntry} `{!SerdeLaws DiagnosticEntry} `{!JsonLines DiagnosticEntry} `{!AsciiLines} `{Serde CachedManifest}.

Lemma text_file_rename source target : text_file source -> text_file target -> text_file (rename_onto source target).
Proof. by destruct source. Qed.

Lemma rotate_ok io f : log_files_ok f -> log_files_ok (rotate io f).2.
Proof.
  unfold log_files_ok. rewrite !Forall_cons. intros (Hf0 & Hf1 & Hf2 & Hf3 & _). assert (text_file None) as Hn by done.
  unfold rotate. destruct (io 0%nat), (io 1%nat), (io 2%nat), (io 3%nat); cbn;
    split_and!; auto using text_file_rename.
Qed.

Lemma append_current_ok b f : is_ascii b = true -> log_files_ok f -> log_files_ok (append_current b f).
Proof. unfold log_files_ok. intros Hb. rewrite !Forall_cons. intros (Hf & ?). split; [by apply append_text|done]. Qed.

Lemma is_ascii_take n b : is_ascii b = true -> is_ascii (take n b) = true.
Proof.
  unfold is_ascii. rewrite !forallb_forall. intros Hb c Hc. apply Hb.
  apply list_elem_of_In. apply list_elem_of_In in Hc. by eapply elem_of_take in Hc as (? & ? & _); eapply list_elem_of_lookup_2.
Qed.

Lemma record_ok io torn entry f : ascii_entry entry = true -> log_files_ok f -> log_files_ok (record io torn entry f).2.
Proof.
  intros Ha Hf. unfold record. destruct (serialize entry) as [encoded|] eqn:E; [|done]. destruct (negb (io 0%nat)); [done|].
  assert (is_ascii (encoded ++ [10]) = true) as He.
  { unfold is_ascii. rewrite forallb_app. pose proof (json_ascii _ _ E Ha) as He. unfold is_ascii in He. by rewrite He. }
  set (full := _ <? _). assert (log_files_ok (if full then rotate (fun k => io (2 + k)%nat) f else (Ok tt, f)).2) as Hr.
  { destruct full; [by apply rotate_ok|done]. }
  destruct (if full then _ else _) as [[[]|] f']; [|done]. destruct (negb (io 6%nat)); [done|].
  destruct (io 7%nat); apply append_current_ok; auto using is_ascii_take.
Qed.

Lemma state_save_ok ok snapshot file : state_file_ok file -> state_file_ok (state_save ok snapshot file).2.
Proof.
  intros Hf. destruct (stores_roundtrip snapshot LocalConfig_default ok file) as [Hs _].
  destruct (state_save ok snapshot file) as [[]f']; cbn; [by exists snapshot|by subst].
Qed.

Lemma grows_ok w w' : grows w w' -> records_ok w -> records_ok w'.
Proof.
  intros (Eh & El & Es) [Hh Hl Hs]. split.
  - intros db Hdb. apply Hh. congruence.
  - clear Eh Es Hh Hs. induction El as [|log1 log2 log3 (f & io & torn & entry & Ha & -> & ->) _ IH]; [done|].
    apply IH. intros log [= <-]. apply record_ok; [done|]. by apply Hl.
  - clear Eh El Hh Hl. induction Es as [|f1 f2 f3 (f & ok & snapshot & -> & ->) _ IH]; [done|].
    apply IH. intros file [= <-]. apply state_save_ok. by apply Hs.
Qed.

Context (discover : option (list DiscoveredBackupSource)) (client : rstr -> option PendingEnrollment).

(** The end of a backup is the only step that touches the history. *)
Lemma step_grows w w' :
  step discover client w w' -> grows w w' \/ exists env now outcome, finish_backup_at env now outcome w = Some w'.
Proof.
  destruct 1 as [env env' command identity payload w w' Hu He E| | | | | | | | | | | |]; [left|left|left|left|left|left|right|left..];
    eauto using evaluate_grows, update_progress_grows, begin_retention_grows, finish_retention_grows,
      finish_repository_operation_grows, finish_update_install_grows, begin_enrollment_grows, commit_enrollment_grows,
      apply_managed_policy_grows with grows;
    try (unfold record_resume, end_enrollment; by eauto with grows).
  destruct command; cbn [handle_command answer] in E; try congruence; try (injection E as <- <-; reflexivity);
    try apply (inj Some) in E;
    eauto using update_backup_sources_grows, update_repository_grows, begin_repository_operation_grows, update_schedule_grows,
      update_retention_grows, run_backup_now_grows, cancel_backup_grows, defer_backup_grows, prepare_for_update_grows,
      update_update_settings_grows, begin_update_install_grows.
Qed.

(** The end of a backup adds to the history and otherwise only writes. *)
Lemma finish_backup_grows env now outcome w w' :
  finish_backup_at env now outcome w = Some w' ->
  grows (set_sr_history_store (sr_history_store w') w) w'
  /\ sr_history_store w' =
       (fun db => (append (env_history_ok env)
                     (run_of_outcome (default now (ss_last_attempt (rt_status (sr_state w)))) now outcome) db).2)
       <$> sr_history_store w.
Proof.
  unfold finish_backup_at. intros (s & _ & [= <-])%bind_Some. cbv zeta.
  set (run := run_of_outcome _ _ _). change (sr_history_store (set_sr_state s w)) with (sr_history_store w).
  set (w1 := match sr_history_store w with None => _ | Some _ => _ end). set (w2 := match bo_kind outcome with OK_Succeeded => _ | _ => _ end).
  assert (grows w1 w2) as Hg.
  { subst w2. destruct (outcome_is_success outcome), (bo_kind outcome); eauto with grows. }
  assert (sr_history_store w1 = (fun db => (append (env_history_ok env) run db).2) <$> sr_history_store w
          /\ sr_diagnostics w1 = sr_diagnostics w /\ sr_state_store w1 = sr_state_store w) as (Hh & Hl & Hs).
  { unfold w1. clear. destruct w as [? ? ? ? ? ? ? [db|] ? ? ?]; done. }
  destruct Hg as (Eh & El & Es). rewrite Hl in El. rewrite Hs in Es. rewrite Eh. split; [|done]. split_and!; [done..].
Qed.

Lemma finish_backup_records env now outcome w w' :
  finish_backup_at env now outcome w = Some w' ->
  run_ok (run_of_outcome (default now (ss_last_attempt (rt_status (sr_state w)))) now outcome) ->
  records_ok w -> records_ok w'.
Proof.
  intros [Hg Hh]%finish_backup_grows Hrun [Hw Hl Hs]. eapply grows_ok; [exact Hg|]. split; [|done..].
  cbn. rewrite Hh. intros db' (db & Hdb & ->)%fmap_Some. specialize (Hw _ Hdb).
  destruct (env_history_ok env); [|done]. destruct (append true _ db) as [r [db1|]] eqn:Ea; [|done]. by eapply append_preserves.
Qed.

(** What an intact installation has on disk. *)
Record disk_ok (disk : Disk) : Prop := {
  do_history : store_ok (dk_history disk);
  do_log : log_files_ok (dk_log disk);
  do_state : state_file_ok (dk_state disk)
}.

(** A runtime started on an intact disk, after any number of steps.  A
    backup ends with the values the types of the program admit: unsigned
    counts, and instants the calendar knows. *)
Inductive kept : ServiceRuntime -> Prop :=
| kept_load env path disk credentials policy w :
    disk_ok disk -> load_with_credentials_and_policy env path disk credentials policy = Some (Ok w) -> kept w
| kept_error env path disk credentials : disk_ok disk -> kept (configuration_error env path disk credentials)
| kept_finish env now outcome w w' :
    kept w -> finish_backup_at env now outcome w = Some w' ->
    run_ok (run_of_outcome (default now (ss_last_attempt (rt_status (sr_state w)))) now outcome) -> kept w'
| kept_step w w' : kept w -> step discover client w w' -> sr_history_store w' = sr_history_store w -> kept w'
| kept_unenroll env payload w w' : kept w -> unenroll_commit env w = Some (payload, w') -> kept w'.

Lemma step_records_ok w w' :
  step discover client w w' -> sr_history_store w' = sr_history_store w -> records_ok w -> records_ok w'.
Proof.
  intros [Hg|(env & now & outcome & [Hg _]%finish_backup_grows)]%step_grows He Hw; [by eapply grows_ok|].
  eapply grows_ok; [exact Hg|]. destruct Hw as [Hh Hl Hs]. split; [|done..]. cbn. by rewrite He.
Qed.

Lemma load_records_ok env path disk credentials policy w :
  disk_ok disk -> load_with_credentials_and_policy env path disk credentials policy = Some (Ok w) -> records_ok w.
Proof.
  intros [Hh Hl [snapshot Hs]]. unfold load_with_credentials_and_policy. destruct (config_load _); [|done].
  destruct (resolve_config _ _ _); [|done]. rewrite Hs. intros (w1 & Hw & [= <-])%bind_Some. unfold from_resolved_with_state in Hw.
  apply bind_Some in Hw as (d & _ & [= <-]). split; cbn; intros ? [= <-]; [done..|by exists snapshot].
Qed.

Lemma kept_ok w : kept w -> records_ok w.
Proof.
  induction 1 as [env path disk credentials policy w Hd E|env path disk credentials [Hh Hl Hs]|env now outcome w w' _ IH E Hrun
    |w w' _ IH Hs He|env payload w w' _ IH E].
  - by eapply load_records_ok.
  - split; cbn; intros ? [= <-]; [done|by apply record_ok|done].
  - by eapply finish_backup_records.
  - by eapply step_records_ok.
  - eapply grows_ok; [by eapply unenroll_commit_grows|done].
Qed.

(** C21: the service can always read back its records.  Started on an intact
    disk, after any sequence of requests, scheduling decisions, results of
    workers and policies, whichever calls to the disk failed: the history
    is well formed (at most two hundred runs with distinct
    ids, every row readable), the log files are text, also where a failed
    write left part of a line, and the state file loads.  So, while the
    disk answers, the history and the diagnostics can be requested; and an
    entry recorded without an error stands at the end of the log, and is
    the last one read unless it follows a torn line. *)
Theorem records_stay_readable (w : ServiceRuntime) (Hkept : kept w) :
  records_ok w
  /\ (forall env limit, is_some (sr_history_store w) = true -> env_history_ok env = true -> 1 <= limit <= MAX_HISTORY_RESULTS ->
        exists runs, get_run_history env limit w = Resp_RunHistory runs /\ Z.of_nat (length runs) <= limit)
  /\ (forall env limit identity, is_some (sr_diagnostics w) = true -> (forall k, env_log_io env k = true) ->
        is_elevated_administrator identity = true -> 1 <= limit <= MAX_DIAGNOSTIC_RESULTS ->
        exists entries, get_diagnostics env limit identity w = Resp_Diagnostics entries /\ Z.of_nat (length entries) <= limit)
  /\ (forall io torn entry f f', sr_diagnostics w = Some f -> ascii_entry entry = true -> record io torn entry f = (Ok tt, f') ->
        exists encoded before, serialize entry = Some encoded /\ log_current f' = Some (before ++ encoded ++ [10])
          /\ (before = [] \/ last before = Some 10 ->
              exists entries, read_entries true (log_current f') = Some (entries ++ [entry]))).
Proof.
  pose proof (kept_ok w Hkept) as Hok. split; [exact Hok|]. destruct Hok as [Hh Hl _]. split_and!.
  - intros env limit Hs He Hlim. unfold get_run_history. rewrite (proj2 (in_range_true _ _ _)) by done. cbn [negb].
    destruct (sr_history_store w) as [db|]; [|done]. rewrite He.
    destruct (history_reads_total db limit 0 (Hh _ eq_refl)) as [(runs & -> & Hlen) _]. exists runs. split; [done|].
    unfold MAX_HISTORY_RESULTS in Hlim. lia.
  - intros env limit identity Hs Hio Hid Hlim. unfold get_diagnostics. rewrite Hid, (proj2 (in_range_true _ _ _)) by done. cbn [negb].
    destruct (sr_diagnostics w) as [f|]; [|done]. specialize (Hl _ eq_refl). unfold log_files_ok in Hl. rewrite !Forall_cons in Hl.
    destruct Hl as ([e0 H0']%text_file_reads & [e1 H1']%text_file_reads & [e2 H2']%text_file_reads & [e3 H3']%text_file_reads & _).
    unfold recent. rewrite !Hio, H0', H1', H2', H3'. cbn [mbind option_bind]. eexists. split; [done|]. rewrite length_drop. lia.
  - intros io torn entry f f' Hf Ha Hr. pose proof (record_ok io torn entry f Ha (Hl _ Hf)) as Hok. rewrite Hr in Hok.
    destruct (record_Ok_current _ _ _ _ _ Hr) as (encoded & before & He & Hc). exists encoded, before. split; [done|]. split; [done|].
    intros Hb. rewrite Hc. apply read_last_entry; [done| |].
    + destruct Hb as [->|Hb]; [by left|right]. apply last_Some in Hb as [b' ->]. by exists b'.
    + unfold log_files_ok in Hok. rewrite !Forall_cons in Hok. destruct Hok as [Ht _]. cbn [snd] in Ht. rewrite Hc in Ht.
      cbn in Ht. destruct Ht as [s Hs]. destruct Hb as [->|Hb]; [by eexists|]. apply last_Some in Hb as [b' ->].
      rewrite <- app_assoc in Hs. apply from_utf8_split in Hs as [[t Ht] _]; [|done].
      eexists. rewrite (from_utf8_app _ _ _ Ht). reflexivity.
Qed.

End kept.

(** ** A backup that fails, and its record *)
Module StoresWitness.
Import ChronoExample UrlExample ServiceWitness.
#[local] Existing Instances ManagementWitness.toy_crypto ResticWitness.ascii_unicode UpdaterWitness.toy_base64
  SourcesWitness.plain_files PolicyCacheWitness.no_dpapi PolicyCacheWitness.entry_serde no_messages.
#[local] Instance default_serde : Serde LocalConfig := StateWitness.one_text LocalConfig_default.
#[local] Instance default_format : TextFormat LocalConfig := StateWitness.one_text_format LocalConfig_default.
#[local] Instance saved_serde : Serde PersistedScheduleState := StateWitness.one_text StateWitness.saved.
#[local] Instance saved_format : TextFormat PersistedScheduleState := StateWitness.one_text_format StateWitness.saved.
#[local] Existing Instances DiagnosticsWitness.one_entry DiagnosticsWitness.one_entry_lines DiagnosticsWitness.one_entry_ascii.
#[local] Instance entry_laws : SerdeLaws DiagnosticEntry := DiagnosticsWitness.one_entry_laws.

Definition empty_disk : Disk :=
  {| dk_config := NotFound; dk_cache := NotFound; dk_state := NotFound; dk_history := None; dk_log := no_log |}.
Definition first : ServiceRuntime :=
  match load_with_credentials_and_policy env [] empty_disk None None with
  | Some (Ok w) => w
  | _ => configuration_error env [] empty_disk None
  end.
Definition outcome : BackupOutcome := outcome_failed (lit "restic_failed").
Definition after_failure : ServiceRuntime := default first (finish_backup_at env (seconds 3000) outcome first).

Lemma after_failure_kept : kept None (fun _ => None) after_failure.
Proof.
  eapply (kept_finish _ _ env (seconds 3000) outcome first).
  - eapply (kept_load _ _ env [] empty_disk None None).
    + split; [done| |by eexists]. repeat constructor.
    + check (match load_with_credentials_and_policy env [] empty_disk None None with Some (Ok _) => true | _ => false end).
      unfold first. destruct (load_with_credentials_and_policy _ _ _ _ _) as [[w|]|]; [reflexivity|discriminate Hcheck..].
  - unfold after_failure. check (is_some (finish_backup_at env (seconds 3000) outcome first)).
    destruct (finish_backup_at _ _ _ _); [reflexivity|discriminate Hcheck].
  - split; [split; vm_compute; discriminate..| |vm_compute; discriminate]. repeat constructor.
Qed.

Lemma records_witness :
  exists runs, get_run_history env 10 after_failure = Resp_RunHistory runs
    /\ Z.of_nat (length runs) <= 10 /\ (br_error_code <$> runs) = [Some (lit "restic_failed")].
Proof.
  destruct (proj1 (proj2 (records_stay_readable None (fun _ => None) after_failure after_failure_kept)) env 10)
    as (runs & E & Hl); [reflexivity|reflexivity|unfold MAX_HISTORY_RESULTS; lia|].
  exists runs. split; [exact E|]. split; [exact Hl|].
  change (br_error_code <$> runs) with (match Resp_RunHistory runs with Resp_RunHistory rs => br_error_code <$> rs | _ => [] end).
  rewrite <- E. vm_compute. reflexivity.
Defined.
End StoresWitness.
