(* ===== verification/Coherence.v ===== *)
(** * The configuration in force and the saved one

    The service keeps three copies of its settings: [config.toml], the local
    layer and the effective configuration.  The update handlers
    ([apps/resticpal-service/src/runtime/ipc.rs], [enrollment.rs]) write each
    of them separately; this file shows that they stay the merge
    [resolve_config] describes, so that a restart changes nothing. *)
From stdpp Require Import base option list gmap strings.
From S2P Require Import Prelude RustStd Chrono Crates Config Status Schedule Policy Restic Protocol Outcome.
From S2P Require Import ServiceState Diagnostics History Credentials Management Updater Sources PolicyCache.
From S2P Require Import Runtime Scheduler Lifecycle Enrollment Ipc Service Authority.

(** The contents of [config.toml], when there is a store. *)
Definition saved_file (w : ServiceRuntime) : option FileRead := cs_file <$> sr_config_store w.

(** The three copies and the locks. *)
Record same_config (w w' : ServiceRuntime) : Prop := {
  sg_config : sr_config w' = sr_config w;
  sg_local : sr_local_config w' = sr_local_config w;
  sg_fields : sr_field_resolutions w' = sr_field_resolutions w;
  sg_file : saved_file w' = saved_file w
}.
#[global] Instance same_config_preorder : PreOrder same_config.
Proof. split; [done|]. intros w1 w2 w3 [] []. split; congruence. Qed.

Lemma same_settings_config w w' : same_settings w w' -> same_config w w'.
Proof. intros []. split; try done. unfold saved_file. congruence. Qed.

(** ** What leaves the configuration alone *)
Section frames.
Context `{Chrono} `{UrlCrate} `{CryptoCrates} `{Dpapi} `{UnicodeData} `{Filesystem} `{Messages} `{Base64Standard}.
Context `{Serde LocalConfig} `{Serde PersistedScheduleState} `{Serde DiagnosticEntry} `{Serde CachedManifest}.

Lemma record_diagnostic_config env level id message code w : same_config w (record_diagnostic env level id message code w).
Proof. unfold record_diagnostic. by destruct (sr_diagnostics w). Qed.
Lemma send_config event w : same_config w (send event w).2.
Proof. unfold send. by destruct (sr_receiver_alive w). Qed.
Lemma save_state_config env s w : same_config w (save_state env s w).2.
Proof. unfold save_state. destruct (sr_state_store w); [|done]. by destruct (state_save _ _ _). Qed.
Lemma save_cache_config env m d w : same_config w (save_cache env m d w).
Proof.
  unfold save_cache. destruct (sr_config_store w) eqn:E; [|done]. destruct (cache_save _ _ _ _ _).
  split; try done. unfold saved_file. by rewrite E.
Qed.
Lemma remove_cache_config env w : same_config w (remove_cache env w).
Proof.
  unfold remove_cache. destruct (sr_config_store w) eqn:E; [|done]. destruct (remove_management_cache _ _).
  split; try done. unfold saved_file. by rewrite E.
Qed.
Lemma cleanup_credentials_config env refs w : same_config w (cleanup_credentials env refs w).
Proof. unfold cleanup_credentials. by destruct (sr_credential_store w). Qed.
Lemma require_validation_for_config env next w : same_config w (require_validation_for env next w).
Proof.
  unfold require_validation_for. destruct (repository_requires_validation _ _); [|done].
  pose proof (save_state_config env (require_repository_validation (rt_service_state (sr_state w))) w) as Hs.
  destruct (save_state _ _ _). etransitivity; [exact Hs|done].
Qed.
Lemma save_state_config_eq env s w b w' : save_state env s w = (b, w') -> same_config w w'.
Proof. intros E. pose proof (save_state_config env s w) as Hs. by rewrite E in Hs. Qed.
Lemma send_config_eq event w b w' : send event w = (b, w') -> same_config w w'.
Proof. intros E. pose proof (send_config event w) as Hs. by rewrite E in Hs. Qed.
Lemma state_config s w : same_config w (set_sr_state s w).
Proof. done. Qed.

Lemma store_secrets_config env updates candidate effective w :
  match store_secrets env updates candidate effective w with
  | Ok (_, _, _, _, w') => same_config w w'
  | Err w' => same_config w w'
  end.
Proof.
  unfold store_secrets. destruct updates as [|u updates]; [done|]. destruct (sr_credential_store w); [|done].
  by destruct (apply_secret_updates _ _ _ _).
Qed.

(** *** Work of the scheduler and the backup thread *)
Lemma evaluate_schedule_config now conditions w a w' :
  evaluate_schedule now conditions w = Some (a, w') -> same_config w w'.
Proof. unfold evaluate_schedule. intros ([a' s] & _ & [= <- <-])%bind_Some. done. Qed.
Lemma update_progress_config progress w : same_config w (update_progress progress w).
Proof. unfold update_progress. by destruct (is_running _). Qed.
Lemma begin_retention_config env now w plan w' : begin_retention env now w = Some (plan, w') -> same_config w w'.
Proof.
  unfold begin_retention. destruct (negb _); [by intros [= <- <-]|]. intros (d & _ & [= <- <-])%bind_Some.
  etransitivity; [|apply record_diagnostic_config]. done.
Qed.
Lemma finish_retention_config env backup retention now w o w' :
  finish_retention env backup retention now w = (o, w') -> same_config w w'.
Proof.
  unfold finish_retention.
  destruct (match retention with Ret_Succeeded _ => _ | Ret_Failed _ => _ | Ret_Cancelled => _ end) as [ss warning].
  destruct (save_state _ _ _) as [saved w1] eqn:E. apply save_state_config_eq in E.
  assert (same_config w w1) as Hw by (etransitivity; [|exact E]; done).
  destruct warning; [|destruct (negb saved)]; intros [= <- <-]; (etransitivity; [exact Hw|apply record_diagnostic_config]).
Qed.
Lemma finish_backup_config env now outcome w w' : finish_backup_at env now outcome w = Some w' -> same_config w w'.
Proof.
  unfold finish_backup_at. intros (s & _ & [= <-])%bind_Some.
  set (w1 := match sr_history_store _ with None => _ | Some _ => _ end).
  assert (same_config w w1) as Hw1 by (subst w1; by destruct (sr_history_store _)).
  set (w2 := if outcome_is_success outcome then _ else w1).
  assert (same_config w w2) as Hw2.
  { transitivity w1; [done|]. subst w2. destruct (outcome_is_success outcome); [apply save_state_config|done]. }
  transitivity w2; [done|]. destruct (bo_kind outcome); apply record_diagnostic_config.
Qed.
Lemma finish_repository_operation_config env operation outcome w w' :
  finish_repository_operation env operation outcome w = Some w' -> same_config w w'.
Proof.
  unfold finish_repository_operation. destruct (negb _); [by intros [= <-]|].
  destruct outcome; [destruct (save_state _ _ _) as [saved w1] eqn:E; apply save_state_config_eq in E|..];
    intros (s & _ & [= <-])%bind_Some; (etransitivity; [|apply record_diagnostic_config]); try done.
  by etransitivity; [exact E|].
Qed.
Lemma finish_update_install_config env outcome w : same_config w (finish_update_install env outcome w).
Proof.
  unfold finish_update_install. destruct outcome; (etransitivity; [|apply record_diagnostic_config]); done.
Qed.
Lemma begin_enrollment_config env w b w' : begin_enrollment env w = (b, w') -> same_config w w'.
Proof. unfold begin_enrollment. destruct (operation_active _ _); by intros [= <- <-]. Qed.

Lemma begin_repository_operation_config env operation identity w p w' :
  begin_repository_operation env operation identity w = (p, w') -> same_config w w'.
Proof.
  intros E. unfold begin_repository_operation in E.
  repeat (cbv zeta in E; match type of E with (if ?c then (_, _) else _) = _ => destruct c; [by injection E as <- <-|] end).
  destruct (save_state _ _ _) as [saved w1] eqn:Es in E. apply save_state_config_eq in Es.
  destruct (negb saved); [injection E as <- <-; etransitivity; [exact Es|done]|].
  match type of E with context [send ?e ?x] => destruct (send e x) as [[] w2] eqn:Ee in E end;
    apply send_config_eq in Ee; injection E as <- <-; transitivity w1; try done;
    (transitivity w2; [etransitivity; [|exact Ee]|]); done.
Qed.
Lemma prepare_for_update_config env hold identity w p w' :
  prepare_for_update env hold identity w = Some (p, w') -> same_config w w'.
Proof.
  intros E. unfold prepare_for_update in E.
  repeat (cbv zeta in E; match type of E with (if ?c then Some _ else _) = _ => destruct c; [by injection E as <- <-|] end).
  by apply bind_Some in E as (d & _ & [= <- <-]).
Qed.
End frames.

(** ** Coherence *)
Section coherence.
Context `{UrlCrate} `{Serde LocalConfig}.

(** A field takes its value from the layers by the rule of [resolve_config]. *)
Definition follows (policy : option ManagedPolicy) (local : LocalConfig) (effective : EffectiveConfig)
    (f : PolicyField) : Prop :=
  exists resolution, picks (effective_value f EffectiveConfig_default) (local_value f local) (managed_value f policy)
                       (effective_value f effective) resolution.

(** Under [policy], the configuration in force is valid and is the merge of
    the layers, the local layer is the saved one, and the locks reported are
    the policy's. *)
Record coherent (policy : option ManagedPolicy) (w : ServiceRuntime) : Prop := {
  co_schema : lc_schema_version (sr_local_config w) = CONFIG_SCHEMA_VERSION;
  co_management : management_contract (lc_management (sr_local_config w));
  co_policy : forall p, policy = Some p -> policy_accepted p;
  co_valid : validate (sr_config w) = Ok ();
  co_values : forall f, follows policy (sr_local_config w) (sr_config w) f;
  co_locks : forall f, field_locked f w = true <-> locks f policy;
  co_saved : forall file, saved_file w = Some file -> config_load file = Ok (sr_local_config w)
}.

Lemma coherent_same policy w w' : same_config w w' -> coherent policy w -> coherent policy w'.
Proof.
  intros [Hc Hl Hf Hs] []. split; rewrite ?Hc, ?Hl, ?Hs; try done. unfold field_locked in *. by rewrite Hf.
Qed.

(** The merge of coherent layers is the configuration in force. *)
Lemma coherent_resolves policy w :
  coherent policy w ->
  exists resolved, resolve_config EffectiveConfig_default (sr_local_config w) policy = Ok resolved
    /\ rv_effective resolved = sr_config w
    /\ forall f, (exists res, rv_fields resolved !! f = Some res /\ fr_locked res = true) <-> locks f policy.
Proof.
  intros [Hs _ Hp Hv Hf _ _].
  pose proof (resolve_fields_spec EffectiveConfig_default (sr_local_config w) policy _ eq_refl) as Hspec.
  destruct (resolve_fields _ _ _) as [e fields] eqn:Er. set (r := Build_ResolvedConfig _ _ _) in Hspec.
  assert (e = sr_config w) as He.
  { apply effective_ext. intros f. destruct (rb_fields _ _ _ _ Hspec f) as (res & _ & Hpick). destruct (Hf f) as [res' Hpick'].
    by destruct (picks_functional _ _ _ _ _ _ _ Hpick Hpick'). }
  exists r. split_and!; [|done|].
  - apply resolve_config_iff_aux. split_and!; try done. subst r. cbn. by rewrite He.
  - intros f. rewrite <- (locked_fields_iff_aux _ _ _ _ f Hspec). by rewrite locked_fields_elem.
Qed.

(** Whatever resolves the layers is coherent with them. *)
Lemma resolved_follows policy local resolved f :
  resolve_config EffectiveConfig_default local policy = Ok resolved ->
  follows policy local (rv_effective resolved) f
  /\ (match rv_fields resolved !! f with Some res => fr_locked res | None => false end = true <-> locks f policy).
Proof.
  intros (_ & _ & _ & Hr)%resolve_config_iff_aux. pose proof Hr as [_ Hf]. destruct (Hf f) as (res & Hl & Hp).
  split; [by exists res|]. rewrite Hl. by rewrite (picks_locked_iff _ _ _ _ _ Hp).
Qed.

Lemma coherent_resolved policy local resolved w :
  resolve_config EffectiveConfig_default local policy = Ok resolved -> management_contract (lc_management local) ->
  sr_local_config w = local -> sr_config w = rv_effective resolved -> sr_field_resolutions w = rv_fields resolved ->
  (forall file, saved_file w = Some file -> config_load file = Ok local) -> coherent policy w.
Proof.
  intros Hr Hm Hl Hc Hf Hs. pose proof Hr as (? & ? & ? & _)%resolve_config_iff_aux.
  split; rewrite ?Hl, ?Hc; try done.
  - intros f. by eapply resolved_follows.
  - intros f. unfold field_locked. rewrite Hf. by eapply resolved_follows.
Qed.

(** *** Changing a field *)

(** What an update may do to a field: leave it, set a field that is not
    locked, or clear one the policy says nothing about. *)
Definition field_update (policy : option ManagedPolicy) (local local' : LocalConfig)
    (effective effective' : EffectiveConfig) (f : PolicyField) : Prop :=
  (local_value f local' = local_value f local /\ effective_value f effective' = effective_value f effective)
  \/ (~ locks f policy /\ local_value f local' = Some (effective_value f effective'))
  \/ (managed_value f policy = None /\ local_value f local' = None
      /\ effective_value f effective' = effective_value f EffectiveConfig_default).

Lemma field_update_follows policy local local' effective effective' f :
  field_update policy local local' effective effective' f ->
  follows policy local effective f -> follows policy local' effective' f.
Proof.
  intros [[Hl He]|[[Hk Hl]|(Hm & Hl & He)]] [res Hp]; unfold follows; rewrite ?Hl, ?He.
  - by exists res.
  - eexists. apply picks_local; [|done]. intros m Hm. destruct (m_locked m) eqn:E; [|done]. destruct Hk. by exists m.
  - eexists. by apply picks_default.
Qed.

Lemma coherent_switch policy candidate effective w w' :
  coherent policy w -> validate effective = Ok () ->
  lc_schema_version candidate = lc_schema_version (sr_local_config w) ->
  lc_management candidate = lc_management (sr_local_config w) ->
  (forall f, field_update policy (sr_local_config w) candidate (sr_config w) effective f) ->
  sr_local_config w' = candidate -> sr_config w' = effective -> sr_field_resolutions w' = sr_field_resolutions w ->
  (forall file, saved_file w' = Some file -> config_load file = Ok candidate) -> coherent policy w'.
Proof.
  intros [Hs Hm Hp _ Hf Hk _] Hv Hs' Hm' Hu El Ee Hr Hd. split; rewrite ?El, ?Ee, ?Hs', ?Hm'; try done.
  - intros f. by eapply field_update_follows.
  - unfold field_locked in *. by rewrite Hr.
Qed.
End coherence.

(** ** The updates *)
Section updates.
Context `{Chrono} `{UrlCrate} `{CryptoCrates} `{Dpapi} `{UnicodeData} `{Filesystem} `{Messages} `{Base64Standard}.
Context `{Serde LocalConfig} `{!TextFormat LocalConfig}.
Context `{Serde PersistedScheduleState} `{!TextFormat PersistedScheduleState}.
Context `{Serde DiagnosticEntry} `{Serde CachedManifest}.

(** A save either fails and leaves the file, or the file holds the candidate. *)
Lemma save_config_saved env candidate w b w' :
  save_config env candidate w = (b, w') -> lc_schema_version candidate = CONFIG_SCHEMA_VERSION ->
  management_contract (lc_management candidate) ->
  same_core w w' /\ (b = false -> same_config w w')
  /\ (b = true -> forall file, saved_file w' = Some file -> config_load file = Ok candidate).
Proof.
  intros E Hs Hm. split; [by eapply save_config_eq|].
  unfold save_config in E. destruct (sr_config_store w) as [store|] eqn:Est.
  2: { injection E as <- <-. split; [done|]. intros _ file. unfold saved_file. by rewrite Est. }
  pose proof (proj2 (stores_roundtrip ServiceStateSnapshot_default candidate (env_config_ok env) (cs_file store)) Hs Hm) as Hr.
  destruct (config_save _ _ _) as [[[]|] file]; injection E as <- <-; cbn; (split; intros [=]).
  - intros f [= <-]. done.
  - split; try done. unfold saved_file. rewrite Est. cbn. by rewrite Hr.
Qed.

(** The shape every update has: the candidate is saved and the copies are switched. *)
Lemma coherent_committed policy env candidate effective w b w1 w' :
  coherent policy w -> save_config env candidate w = (b, w1) -> validate effective = Ok () ->
  lc_schema_version candidate = lc_schema_version (sr_local_config w) ->
  lc_management candidate = lc_management (sr_local_config w) ->
  (forall f, field_update policy (sr_local_config w) candidate (sr_config w) effective f) ->
  same_config (if b then set_sr_config effective (set_sr_local_config candidate w1) else w1) w' -> coherent policy w'.
Proof.
  intros Hw Es Hv Hs Hm Hu Hsame. pose proof Hw as [Hs0 Hm0 _ _ _ _ _].
  apply save_config_saved in Es as ([Hc _ Hf _] & Hfail & Hsaved); [|congruence..].
  eapply coherent_same; [exact Hsame|]. destruct b; [|by eapply coherent_same; [apply Hfail|]].
  eapply coherent_switch; [exact Hw|exact Hv|exact Hs|exact Hm|exact Hu|done|done|done|]. intros file. by apply Hsaved.
Qed.

(** A requested change of a field that is not locked. *)
Lemma not_locked policy {A} (value : A) f w :
  coherent policy w -> touches_locked (Some value) f w = false -> ~ locks f policy.
Proof. intros Hw Ht Hk%(co_locks _ _ Hw). cbn in Ht. congruence. Qed.

(** [changed_fields]: each field is left alone or set. *)
Ltac changed_field :=
  match goal with
  | |- field_update _ _ _ _ _ _ => first [by left | right; left; split; [by eapply not_locked|reflexivity]]
  end.

Lemma retention_field_update policy a b c d e w :
  coherent policy w ->
  touches_locked a F_RetentionDaily w || touches_locked b F_RetentionWeekly w
    || touches_locked c F_RetentionMonthly w || touches_locked d F_RetentionYearly w
    || touches_locked e F_RetentionPruneIntervalDays w = false ->
  forall f, field_update policy (sr_local_config w) (retention_candidate a b c d e (sr_local_config w))
              (sr_config w) (retention_effective a b c d e (sr_config w)) f.
Proof.
  intros Hw. rewrite !orb_false_iff. intros [[[[Ha Hb] Hc] Hd] He] f.
  destruct f; try (by left); [destruct a|destruct b|destruct c|destruct d|destruct e]; changed_field.
Qed.

Lemma schedule_field_update policy a b c d e w :
  coherent policy w ->
  touches_locked a F_ScheduleIntervalHours w || touches_locked b F_ScheduleWakeGraceSeconds w
    || touches_locked c F_ScheduleWakeLockTimeoutSeconds w || touches_locked d F_ScheduleAllowOnBattery w
    || touches_locked e F_ScheduleAllowMeteredNetwork w = false ->
  forall f, field_update policy (sr_local_config w) (schedule_candidate a b c d e (sr_local_config w))
              (sr_config w) (schedule_effective a b c d e (sr_config w)) f.
Proof.
  intros Hw. rewrite !orb_false_iff. intros [[[[Ha Hb] Hc] Hd] He] f.
  destruct f; try (by left); [destruct a|destruct b|destruct c|destruct d|destruct e]; changed_field.
Qed.

Lemma sources_field_update policy a b w :
  coherent policy w -> touches_locked a F_BackupPaths w || touches_locked b F_BackupExclusions w = false ->
  forall f, field_update policy (sr_local_config w)
              (sources_candidate (deduplicate_paths <$> a) (deduplicate_exclusions <$> b) (sr_local_config w))
              (sr_config w)
              (sources_effective (deduplicate_paths <$> a) (deduplicate_exclusions <$> b) (sr_config w)) f.
Proof.
  intros Hw. rewrite !orb_false_iff. intros [Ha Hb] f. destruct f; try (by left); [destruct a|destruct b]; changed_field.
Qed.

(** Display name, URL and references are the fields a request can clear; a
    cleared field falls back to the policy's recommendation when there is
    one. *)
Definition recommends (f : PolicyField) (policy : option ManagedPolicy) : Prop :=
  exists m, managed_value f policy = Some m /\ m_locked m = false.
Definition clears (value : option rstr) : Prop := nonempty_trimmed <$> value = Some None.
Definition lasting (policy : option ManagedPolicy) (command : RequestCommand) : Prop :=
  match command with
  | UpdateRepository display_name url _ _ secret_updates =>
      (recommends F_RepositoryDisplayName policy -> ~ clears display_name)
      /\ (recommends F_RepositoryUrl policy -> ~ clears url)
      /\ (recommends F_RepositorySecretRefs policy -> secret_updates = [])
  | _ => True
  end.

Lemma not_recommended f policy : ~ locks f policy -> ~ recommends f policy -> managed_value f policy = None.
Proof.
  intros Hk Hr. destruct (managed_value f policy) as [m|] eqn:E; [|done]. exfalso.
  destruct (m_locked m) eqn:Em; [apply Hk|apply Hr]; by exists m.
Qed.

Lemma repository_field_update policy dn url mode options updates w :
  coherent policy w -> lasting policy (UpdateRepository dn url mode options updates) ->
  touches_locked dn F_RepositoryDisplayName w || touches_locked url F_RepositoryUrl w
    || touches_locked mode F_RepositoryMode w || touches_locked options F_RepositoryOptions w = false ->
  forall f, field_update policy (sr_local_config w)
              (repository_candidate (nonempty_trimmed <$> dn) (nonempty_trimmed <$> url) mode options (sr_local_config w))
              (sr_config w)
              (repository_effective (nonempty_trimmed <$> dn) (nonempty_trimmed <$> url) mode options (sr_config w)) f.
Proof.
  intros Hw (Hdn & Hurl & _). rewrite !orb_false_iff. intros [[[Ha Hb] Hc] Hd] f.
  destruct f; try (by left).
  - destruct dn as [dn|]; [|by left]. pose proof (not_locked policy dn _ w Hw Ha) as Hk. unfold clears in Hdn. right.
    cbn in *. destruct (nonempty_trimmed dn); [by left|right]. split; [|done].
    apply (not_recommended F_RepositoryDisplayName); [done|]. naive_solver.
  - destruct url as [url|]; [|by left]. pose proof (not_locked policy url _ w Hw Hb) as Hk. unfold clears in Hurl. right.
    cbn in *. destruct (nonempty_trimmed url); [by left|right]. split; [|done].
    apply (not_recommended F_RepositoryUrl); [done|]. naive_solver.
  - destruct mode; changed_field.
  - destruct options; changed_field.
Qed.

(** The references of the two layers change alike. *)
Lemma apply_secret_updates_agree env k updates s s' :
  apply_secret_updates env k updates s = Ok s' -> sx_local s = sx_effective s -> sx_local s' = sx_effective s'.
Proof.
  revert k s. induction updates as [|[variable value|variable] updates IH]; intros k s; cbn [apply_secret_updates].
  - by intros [= <-].
  - destruct (put_credential _ _ _ _ _) as [[reference|] files]; [|done]. intros E Hs. eapply IH; [exact E|]. cbn. by rewrite Hs.
  - intros E Hs. eapply IH; [exact E|]. cbn. by rewrite Hs.
Qed.

(** References that no recommendation stands behind are the local ones. *)
Lemma local_references policy w :
  coherent policy w -> ~ locks F_RepositorySecretRefs policy -> ~ recommends F_RepositorySecretRefs policy ->
  default [] (lr_secret_refs (lc_repository (sr_local_config w))) = rc_secret_refs (ec_repository (sr_config w)).
Proof.
  intros Hw Hk Hr. destruct (co_values _ _ Hw F_RepositorySecretRefs) as [res Hp]. cbn in Hp.
  pose proof (not_recommended _ _ Hk Hr) as Hm. cbn in Hm. rewrite Hm in Hp.
  inversion Hp as [v Hv|v _ Hl|v Hv|_ Hl]; try done; by rewrite Hl.
Qed.

Lemma store_secrets_update policy env dn url mode options updates w c e created retired w1 :
  coherent policy w -> lasting policy (UpdateRepository dn url mode options updates) ->
  negb (bool_decide (length updates = 0%nat)) && repository_secrets_locked w = false ->
  (forall f, field_update policy (sr_local_config w)
              (repository_candidate (nonempty_trimmed <$> dn) (nonempty_trimmed <$> url) mode options (sr_local_config w))
              (sr_config w)
              (repository_effective (nonempty_trimmed <$> dn) (nonempty_trimmed <$> url) mode options (sr_config w)) f) ->
  store_secrets env updates
    (repository_candidate (nonempty_trimmed <$> dn) (nonempty_trimmed <$> url) mode options (sr_local_config w))
    (repository_effective (nonempty_trimmed <$> dn) (nonempty_trimmed <$> url) mode options (sr_config w)) w
    = Ok (c, e, created, retired, w1) ->
  lc_schema_version c = lc_schema_version (sr_local_config w)
  /\ lc_management c = lc_management (sr_local_config w)
  /\ forall f, field_update policy (sr_local_config w) c (sr_config w) e f.
Proof.
  intros Hw (_ & _ & Hrefs) Hlocked Hu Es. unfold store_secrets in Es.
  destruct updates as [|u updates]; [by injection Es as <- <- _ _ _|].
  destruct (sr_credential_store w) as [files|]; [|done].
  destruct (apply_secret_updates _ _ _ _) as [s|] eqn:Ea; [|done]. injection Es as <- <- _ _ _.
  split; [done|]. split; [done|]. intros f. pose proof (Hu f) as Hf. destruct f; try exact Hf.
  assert (~ locks F_RepositorySecretRefs policy) as Hk.
  { intros Hk%(co_locks _ _ Hw). cbn in Hlocked. unfold repository_secrets_locked in Hlocked. by rewrite Hk in Hlocked. }
  assert (~ recommends F_RepositorySecretRefs policy) as Hr by (intros Hr; by specialize (Hrefs Hr)).
  right. left. split; [done|]. cbn. f_equal. eapply apply_secret_updates_agree; [exact Ea|]. cbn.
  by eapply local_references.
Qed.

(** *** Each handler *)
Ltac past E Hw :=
  repeat (cbv zeta in E;
          match type of E with
          | (if ?c then Some (_, _) else _) = _ => destruct c eqn:?; [injection E as <- <-; exact Hw|]
          | (if ?c then (_, _) else _) = _ => destruct c eqn:?; [injection E as <- <-; exact Hw|]
          end).

Lemma update_retention_coherent policy env a b c d e identity w p w' :
  coherent policy w -> update_retention env a b c d e identity w = (p, w') -> coherent policy w'.
Proof.
  intros Hw E. unfold update_retention in E. past E Hw.
  destruct (validate _) as [[]|] eqn:Hv in E; [|by injection E as <- <-]. past E Hw.
  destruct (save_config _ _ _) as [saved w1] eqn:Es in E.
  refine (coherent_committed policy env _ _ w _ w1 w' Hw Es Hv eq_refl eq_refl _ _); [by apply retention_field_update|].
  destruct saved; injection E as <- <-; [apply send_config|done].
Qed.

Lemma commit_configuration_config env candidate effective message s w p w' :
  commit_configuration env candidate effective message s w = Some (p, w') ->
  same_config (set_sr_config effective (set_sr_local_config candidate w)) w'.
Proof. unfold commit_configuration. intros (s' & _ & [= <- <-])%bind_Some. etransitivity; [|apply send_config]. done. Qed.

Lemma update_schedule_coherent policy env a b c d e identity w p w' :
  coherent policy w -> update_schedule env a b c d e identity w = Some (p, w') -> coherent policy w'.
Proof.
  intros Hw E. unfold update_schedule in E. past E Hw.
  destruct (validate _) as [[]|] eqn:Hv in E; [|by injection E as <- <-]. past E Hw.
  destruct (save_config _ _ _) as [saved w1] eqn:Es in E.
  refine (coherent_committed policy env _ _ w _ w1 w' Hw Es Hv eq_refl eq_refl _ _); [by apply schedule_field_update|].
  destruct saved; cbn [negb] in E; [by apply commit_configuration_config in E|by injection E as <- <-].
Qed.

Lemma update_backup_sources_coherent policy env paths exclusions identity w p w' :
  coherent policy w -> update_backup_sources env paths exclusions identity w = Some (p, w') -> coherent policy w'.
Proof.
  intros Hw E. unfold update_backup_sources in E. past E Hw.
  destruct (validate_backup_source_paths _ _) in E; [|by injection E as <- <-].
  destruct (validate _) as [[]|] eqn:Hv in E; [|by injection E as <- <-]. past E Hw.
  destruct (save_config _ _ _) as [saved w1] eqn:Es in E.
  refine (coherent_committed policy env _ _ w _ w1 w' Hw Es Hv eq_refl eq_refl _ _); [by apply sources_field_update|].
  destruct saved; cbn [negb] in E; [by apply commit_configuration_config in E|by injection E as <- <-].
Qed.

Lemma update_update_settings_coherent policy env b identity w p w' :
  coherent policy w -> update_update_settings env b identity w = (p, w') -> coherent policy w'.
Proof.
  intros Hw E. unfold update_update_settings in E. past E Hw.
  destruct (save_config _ _ _) as [saved w1] eqn:Es in E. pose proof (save_config_eq _ _ _ _ _ Es) as [Hc _ _ _].
  assert (validate (set_ec_updates {| uc_automatic_install := b |} (sr_config w)) = Ok ()) as Hv by apply Hw.
  refine (coherent_committed policy env _ _ w _ w1 w' Hw Es Hv eq_refl eq_refl _ _).
  - intros f. destruct f; try (by left). right. left. split; [|done]. intros Hk%(co_locks _ _ Hw). congruence.
  - destruct saved; injection E as <- <-; [by rewrite Hc|done].
Qed.

Lemma commit_repository_coherent policy env changed candidate effective created retired w w1 p w' :
  coherent policy w -> same_config w w1 ->
  lc_schema_version candidate = lc_schema_version (sr_local_config w) ->
  lc_management candidate = lc_management (sr_local_config w) ->
  (forall f, field_update policy (sr_local_config w) candidate (sr_config w) effective f) ->
  commit_repository env changed candidate effective created retired w1 = Some (p, w') -> coherent policy w'.
Proof.
  intros Hw Hsame Hs Hm Hu E. unfold commit_repository in E.
  assert (forall w2, same_config w1 w2 -> coherent policy (cleanup_credentials env created w2)) as Hclean.
  { intros w2 Hw2. eapply coherent_same; [|exact Hw]. etransitivity; [exact Hsame|]. etransitivity; [exact Hw2|].
    apply cleanup_credentials_config. }
  destruct (validate effective) as [[]|] eqn:Hv; [|injection E as <- <-; by apply Hclean].
  destruct (if changed then _ else (true, w1)) as [saved w2] eqn:Es in E.
  assert (same_config w1 w2) as Hw2.
  { destruct changed; [by eapply save_state_config_eq|by injection Es as _ <-]. }
  destruct (negb saved); [injection E as <- <-; by apply Hclean|].
  assert (coherent policy w2) as Hc2 by (eapply coherent_same; [|exact Hw]; by etransitivity).
  assert (sr_local_config w2 = sr_local_config w /\ sr_config w2 = sr_config w) as [El Ec].
  { destruct Hsame, Hw2. split; congruence. }
  destruct (save_config _ _ _) as [saved' w3] eqn:E3 in E.
  refine (coherent_committed policy env _ _ w2 _ w3 w' Hc2 E3 Hv _ _ _ _); [congruence..|by rewrite El, Ec|].
  destruct saved'; cbn [negb] in E; [|injection E as <- <-; apply cleanup_credentials_config].
  apply bind_Some in E as (s & _ & [= <- <-]). etransitivity; [|apply send_config].
  etransitivity; [|apply cleanup_credentials_config]. done.
Qed.

Lemma update_repository_coherent policy env dn url mode options updates identity w p w' :
  coherent policy w -> lasting policy (UpdateRepository dn url mode options updates) ->
  update_repository env dn url mode options updates identity w = Some (p, w') -> coherent policy w'.
Proof.
  intros Hw Hlast E. unfold update_repository in E. past E Hw.
  destruct (validate _) as [[]|] in E; [|by injection E as <- <-]. past E Hw.
  pose proof (store_secrets_config env updates
    (repository_candidate (nonempty_trimmed <$> dn) (nonempty_trimmed <$> url) mode options (sr_local_config w))
    (repository_effective (nonempty_trimmed <$> dn) (nonempty_trimmed <$> url) mode options (sr_config w)) w) as Hsame.
  destruct (store_secrets _ _ _ _ _) as [[[[[c e] created] retired] w1]|w1] eqn:Es in E, Hsame;
    [|injection E as <- <-; by eapply coherent_same].
  match goal with H : _ || (_ && repository_secrets_locked w) = false |- _ => apply orb_false_iff in H as [Ht Hl] end.
  eapply store_secrets_update in Es as (Hsv & Hmv & Hu); [|exact Hw|exact Hlast|exact Hl|by eapply repository_field_update].
  by eapply commit_repository_coherent.
Qed.

(** ** Policies come and go *)
Lemma install_resolved_copies resolved now w w' :
  install_resolved resolved now w = Some w' ->
  sr_config w' = rv_effective resolved /\ sr_field_resolutions w' = rv_fields resolved
  /\ sr_local_config w' = sr_local_config w /\ saved_file w' = saved_file w.
Proof. unfold install_resolved. by intros (s & _ & [= <-])%bind_Some. Qed.

Lemma apply_managed_policy_coherent policy env policy' expected w r w' :
  coherent policy w -> apply_managed_policy_inner env policy' expected w = Some (r, w') ->
  coherent (match r with Ok Applied => Some policy' | _ => policy end) w'.
Proof.
  intros Hw E. unfold apply_managed_policy_inner in E. past E Hw.
  destruct (resolve_config _ _ _) as [resolved|] eqn:Hr; [|by injection E as <- <-]. past E Hw.
  apply bind_Some in E as (w1 & Ei & [= <- <-]). apply install_resolved_copies in Ei as (Hc & Hf & Hl & Hs).
  destruct (require_validation_for_config env (rv_effective resolved) w) as [_ Hl1 _ Hs1].
  eapply coherent_same; [apply send_config|].
  eapply coherent_resolved; [exact Hr|apply Hw|congruence|done|done|]. rewrite Hs, Hs1. apply Hw.
Qed.

Lemma store_enrollment_schema env pending local files candidate created files' :
  store_enrollment env pending local files = (Some candidate, created, files') ->
  lc_schema_version candidate = lc_schema_version local.
Proof.
  unfold store_enrollment. destruct (put_credential _ _ _ _ _) as [[?|] ?]; [|done].
  destruct (put_credential _ _ _ _ _) as [[?|] ?]; [|done].
  destruct (put_repository_secrets _ _ _ _ _ _) as [[[?|] ?] ?]; [|done]. by intros [= <- _ _].
Qed.

Lemma commit_enrollment_coherent policy env pending w r w' :
  coherent policy w -> commit_enrollment env pending w = Some (r, w') ->
  coherent (match r with
            | Ok _ => Some (pl_policy (vm_payload (em_initial_manifest (pe_material pending))))
            | Err _ => policy
            end) w'.
Proof.
  intros Hw E. unfold commit_enrollment in E.
  destruct (sr_credential_store w) as [files|]; [|by injection E as <- <-].
  destruct (sr_config_store w) as [store|] eqn:Est; [|by injection E as <- <-].
  destruct (store_enrollment _ _ _ _) as [[candidate created] files'] eqn:Ese.
  assert (forall w1 f, same_config w w1 -> coherent policy (set_sr_credential_store f w1)) as Habandon.
  { intros w1 f Hw1. eapply coherent_same; [|exact Hw]. by etransitivity; [exact Hw1|]. }
  destruct candidate as [candidate|]; [|injection E as <- <-; by apply Habandon].
  destruct (validate_management _) as [[]|] eqn:Hm in E; cbn [is_ok negb] in E; [|injection E as <- <-; by apply Habandon].
  destruct (is_some _); [injection E as <- <-; by apply Habandon|].
  destruct (resolve_config _ _ _) as [resolved|] eqn:Hr; [|injection E as <- <-; by apply Habandon].
  apply store_enrollment_schema in Ese. apply validate_management_iff in Hm.
  destruct (save_config _ _ _) as [saved w1] eqn:Es.
  apply save_config_saved in Es as (_ & Hfail & Hsaved); [|rewrite Ese; apply Hw|done].
  destruct saved; cbn [negb] in E; [|injection E as <- <-; by apply Habandon, Hfail].
  apply bind_Some in E as (w2 & Ei & [= <- <-]). apply install_resolved_copies in Ei as (Hc & Hf & _ & Hs2).
  destruct (require_validation_for_config env (rv_effective resolved)
    (save_cache env (lc_management candidate) (em_initial_manifest_document (pe_material pending)) w1)) as [_ _ _ Hs1].
  destruct (save_cache_config env (lc_management candidate) (em_initial_manifest_document (pe_material pending)) w1) as [_ _ _ Hs0].
  eapply coherent_same; [apply send_config|].
  eapply coherent_resolved; [exact Hr|done|done|exact Hc|exact Hf|]. intros file Hfile. apply Hsaved; [done|].
  rewrite <- Hs0, <- Hs1, <- Hs2. exact Hfile.
Qed.

(** An unenrollment that changes the local configuration ends the policy. *)
Lemma unenroll_coherent policy env identity w p w' :
  coherent policy w -> unenroll env identity w = Some (p, w') ->
  coherent (if decide (sr_local_config w' = sr_local_config w) then policy else None) w'.
Proof.
  intros Hw E.
  assert (w' = w -> coherent (if decide (sr_local_config w' = sr_local_config w) then policy else None) w') as Hsame.
  { intros ->. by rewrite decide_True. }
  unfold unenroll, unenroll_commit in E.
  repeat (cbv zeta in E; match type of E with (if ?c then Some (_, _) else _) = _ =>
            destruct c eqn:?; [injection E as <- <-; by apply Hsame|] end).
  destruct (sr_config_store w) as [store|]; [|injection E as <- <-; by apply Hsame].
  case_bool_decide as Hmode; [injection E as <- <-; by apply Hsame|].
  destruct (resolve_config _ _ _) as [resolved|] eqn:Hr; [|injection E as <- <-; by apply Hsame].
  assert (management_contract LocalManagementConfig_default) as Hm by (by apply validate_management_iff).
  destruct (save_config _ _ _) as [saved w1] eqn:Es.
  apply save_config_saved in Es as (_ & Hfail & Hsaved); [|apply Hw|exact Hm].
  destruct saved; cbn [negb] in E.
  2: { injection E as <- <-. destruct (Hfail eq_refl) as [? Hl ? ?]. rewrite decide_True by done.
       by eapply coherent_same; [apply Hfail|]. }
  apply bind_Some in E as (s & _ & [= <- <-]).
  set (w2 := match sr_credential_store _ with None => _ | Some _ => _ end).
  assert (sr_local_config w2 = set_lc_management LocalManagementConfig_default (sr_local_config w)
          /\ sr_config w2 = rv_effective resolved /\ sr_field_resolutions w2 = rv_fields resolved
          /\ saved_file w2 = saved_file w1) as (Hl & Hc & Hf & Hs).
  { destruct (remove_cache_config env w1) as [_ _ _ Hs]. subst w2. cbn.
    destruct (sr_credential_store _); cbn; split_and!; try done; exact Hs. }
  destruct (send_config Ev_ConfigurationChanged w2) as [_ Hl' _ _]. rewrite Hl', Hl, decide_False.
  - eapply coherent_same; [apply send_config|].
    eapply coherent_resolved; [exact Hr|exact Hm|exact Hl|done|done|]. rewrite Hs. by apply Hsaved.
  - intros Heq. apply Hmode. by rewrite <- Heq.
Qed.
End updates.

(** ** A service under its policies *)
Section governed.
Context `{ChronoLaws} `{UrlCrate} `{CryptoCrates} `{Dpapi} `{UnicodeData} `{Filesystem} `{Messages} `{Base64Standard}.
Context `{Serde LocalConfig} `{!TextFormat LocalConfig}.
Context `{Serde PersistedScheduleState} `{!TextFormat PersistedScheduleState}.
Context `{Serde DiagnosticEntry} `{Serde CachedManifest}.
Context (discover : option (list DiscoveredBackupSource)) (client : rstr -> option PendingEnrollment).

(** One operation, and the policy in force after it. *)
Inductive evolves : option ManagedPolicy -> ServiceRuntime -> option ManagedPolicy -> ServiceRuntime -> Prop :=
| ev_request policy env env' command identity payload w w' :
    command <> Unenroll -> (forall url, command <> Enroll url) -> lasting policy command ->
    handle_command discover client env env' command identity w = Some (payload, w') -> evolves policy w policy w'
| ev_unenroll policy env identity payload w w' :
    unenroll env identity w = Some (payload, w') ->
    evolves policy w (if decide (sr_local_config w' = sr_local_config w) then policy else None) w'
| ev_commit_enrollment policy env pending r w w' :
    commit_enrollment env pending w = Some (r, w') ->
    evolves policy w (match r with
                      | Ok _ => Some (pl_policy (vm_payload (em_initial_manifest (pe_material pending))))
                      | Err _ => policy
                      end) w'
| ev_policy policy env policy' expected r w w' :
    apply_managed_policy_inner env policy' expected w = Some (r, w') ->
    evolves policy w (match r with Ok Applied => Some policy' | _ => policy end) w'
| ev_begin_enrollment policy env b w w' : begin_enrollment env w = (b, w') -> evolves policy w policy w'
| ev_end_enrollment policy w : evolves policy w policy (end_enrollment w)
| ev_evaluate policy now conditions action w w' :
    evaluate_schedule now conditions w = Some (action, w') -> evolves policy w policy w'
| ev_resume policy now w : evolves policy w policy (record_resume now w)
| ev_progress policy progress w : evolves policy w policy (update_progress progress w)
| ev_begin_retention policy env now plan w w' : begin_retention env now w = Some (plan, w') -> evolves policy w policy w'
| ev_finish_retention policy env backup retention now outcome w w' :
    finish_retention env backup retention now w = (outcome, w') -> evolves policy w policy w'
| ev_finish_backup policy env now outcome w w' : finish_backup_at env now outcome w = Some w' -> evolves policy w policy w'
| ev_finish_repository policy env operation outcome w w' :
    finish_repository_operation env operation outcome w = Some w' -> evolves policy w policy w'
| ev_finish_update policy env outcome w : evolves policy w policy (finish_update_install env outcome w).

Inductive governed : option ManagedPolicy -> ServiceRuntime -> Prop :=
| governed_load env path disk credentials policy w :
    load_with_credentials_and_policy env path disk credentials policy = Some (Ok w) -> governed policy w
| governed_step policy w policy' w' : governed policy w -> evolves policy w policy' w' -> governed policy' w'.

Lemma handle_command_coherent policy env env' command identity w p w' :
  coherent policy w -> command <> Unenroll -> (forall url, command <> Enroll url) -> lasting policy command ->
  handle_command discover client env env' command identity w = Some (p, w') -> coherent policy w'.
Proof.
  intros Hw Hu He Hlast E.
  destruct command; cbn [handle_command answer] in E; try (injection E as <- <-; exact Hw); try congruence.
  - by eapply update_backup_sources_coherent.
  - by eapply update_repository_coherent.
  - injection E as E. by eapply coherent_same; [eapply begin_repository_operation_config|].
  - injection E as E. by eapply coherent_same; [eapply begin_repository_operation_config|].
  - by eapply update_schedule_coherent.
  - injection E as E. by eapply update_retention_coherent.
  - injection E as E. by eapply coherent_same; [eapply same_settings_config, run_backup_now_settings|].
  - injection E as E. by eapply coherent_same; [eapply same_settings_config, cancel_backup_settings|].
  - by eapply coherent_same; [eapply same_settings_config, defer_backup_settings|].
  - by eapply coherent_same; [eapply prepare_for_update_config|].
  - injection E as E. by eapply update_update_settings_coherent.
  - by eapply coherent_same; [eapply same_settings_config, begin_update_install_settings|].
Qed.

Lemma evolves_coherent policy w policy' w' : evolves policy w policy' w' -> coherent policy w -> coherent policy' w'.
Proof.
  intros Hs Hw. destruct Hs.
  - by eapply handle_command_coherent.
  - by eapply unenroll_coherent.
  - by eapply commit_enrollment_coherent.
  - by eapply apply_managed_policy_coherent.
  - by eapply coherent_same; [eapply begin_enrollment_config|].
  - by eapply coherent_same; [apply state_config|].
  - by eapply coherent_same; [eapply evaluate_schedule_config|].
  - by eapply coherent_same; [apply state_config|].
  - eapply coherent_same; [apply update_progress_config|done].
  - by eapply coherent_same; [eapply begin_retention_config|].
  - by eapply coherent_same; [eapply finish_retention_config|].
  - by eapply coherent_same; [eapply finish_backup_config|].
  - by eapply coherent_same; [eapply finish_repository_operation_config|].
  - eapply coherent_same; [apply finish_update_install_config|done].
Qed.

Lemma from_resolved_copies now resolved local s cs cr ss hs d w :
  from_resolved_with_state now resolved local s cs cr ss hs d = Some w ->
  sr_config w = rv_effective resolved /\ sr_local_config w = local /\ sr_field_resolutions w = rv_fields resolved
  /\ saved_file w = cs_file <$> cs.
Proof. unfold from_resolved_with_state. by intros (deadline & _ & [= <-])%bind_Some. Qed.

Lemma load_coherent env path disk credentials policy w :
  load_with_credentials_and_policy env path disk credentials policy = Some (Ok w) -> coherent policy w.
Proof.
  unfold load_with_credentials_and_policy. destruct (config_load _) as [local|] eqn:Hl; [|done].
  destruct (resolve_config _ _ _) as [resolved|] eqn:Hr; [|done].
  pose proof (config_load_contract _ _ Hl) as [_ Hm].
  destruct (match state_load _ with Ok _ => _ | Err _ => _ end) as [s log].
  intros (w1 & (Hcfg & Hloc & Hf & Hfile)%from_resolved_copies & [= <-])%bind_Some.
  eapply coherent_resolved; [exact Hr|exact Hm|exact Hloc|exact Hcfg|exact Hf|]. rewrite Hfile. by intros file [= <-].
Qed.

Lemma governed_coherent policy w : governed policy w -> coherent policy w.
Proof. induction 1 as [|policy w policy' w' _ IH Hs]; [by eapply load_coherent|by eapply evolves_coherent]. Qed.

(** Loading terminates with a runtime for a clock and a recorded success in
    range. *)
Lemma from_resolved_total now resolved local s cs cr ss hs d :
  validate (rv_effective resolved) = Ok () -> valid_datetime now ->
  (forall t, st_last_success s = Some t -> valid_datetime t) ->
  exists w, from_resolved_with_state now resolved local s cs cr ss hs d = Some w.
Proof.
  intros Hv Hn Hs. unfold from_resolved_with_state.
  rewrite completion_deadline_eq; [|by apply validated_interval|done|done].
  match goal with |- context [if ?c then Some <$> _ else _] => destruct c end; by eexists.
Qed.

Definition readable_clock (env : Env) (disk : Disk) : Prop :=
  valid_datetime (env_now env 0)
  /\ forall s t, state_load (dk_state disk) = Ok s -> st_last_success s = Some t -> valid_datetime t.

Lemma restart_resolved env path disk credentials policy w :
  coherent policy w -> saved_file w = Some (dk_config disk) -> readable_clock env disk ->
  exists w', load_with_credentials_and_policy env path disk credentials policy = Some (Ok w')
    /\ sr_config w' = sr_config w /\ sr_local_config w' = sr_local_config w
    /\ forall f, field_locked f w' = field_locked f w.
Proof.
  intros Hw Hfile [Hn Hs]. destruct (coherent_resolves _ _ Hw) as (resolved & Hr & He & Hk).
  unfold load_with_credentials_and_policy. rewrite (co_saved _ _ Hw _ Hfile), Hr.
  set (ss := match state_load _ with Ok _ => _ | Err _ => _ end).
  assert (forall t, st_last_success ss.1 = Some t -> valid_datetime t) as Hls.
  { intros t. subst ss. destruct (state_load (dk_state disk)) as [s|] eqn:E; [by apply (Hs s)|].
    by destruct (is_some _). }
  destruct ss as [s log].
  destruct (from_resolved_total (env_now env 0) resolved (sr_local_config w) s
    (Some {| cs_path := path; cs_file := dk_config disk; cs_cache := dk_cache disk |}) credentials (Some (dk_state disk))
    (Some (dk_history disk)) (Some log)) as [w' E]; [rewrite He; apply Hw|done|done|].
  rewrite E. exists w'. apply from_resolved_copies in E as (Hc & Hl & Hf & _). split; [done|]. split; [congruence|]. split; [done|].
  intros f. apply Bool.eq_true_iff_eq. rewrite (co_locks _ _ Hw f), <- Hk. unfold field_locked. rewrite Hf.
  destruct (rv_fields resolved !! f) as [res|]; split; [by exists res|by intros (? & [= <-] & ?)|done|by intros (? & ? & _)].
Qed.

(** C8: what the service works with is what it has saved.  Whatever requests,
    policy refreshes, enrollments and failures it went through, the
    configuration in force is the merge of the saved local file with the
    policy in force: restarting on that file under the same policy gives the
    same effective configuration, local layer and locks, and refreshing the
    same policy changes nothing.  Excepted are requests that clear a name or
    URL, or change credentials, which the policy recommends without locking. *)
Theorem restart_changes_nothing (policy : option ManagedPolicy) (w : ServiceRuntime) (env : Env) (path : rstr)
    (disk : Disk) (credentials : option CredentialFiles)
    (Hreach : governed policy w) (Hfile : saved_file w = Some (dk_config disk))
    (Hclock : readable_clock env disk) :
  (exists w', load_with_credentials_and_policy env path disk credentials policy = Some (Ok w')
     /\ sr_config w' = sr_config w /\ sr_local_config w' = sr_local_config w
     /\ forall f, field_locked f w' = field_locked f w)
  /\ forall p env' expected w', policy = Some p ->
       apply_managed_policy_inner env' p expected w = Some (Ok Applied, w') -> sr_config w' = sr_config w.
Proof.
  apply governed_coherent in Hreach as Hw. split; [by apply restart_resolved|].
  intros p env' expected w' -> E. destruct (coherent_resolves _ _ Hw) as (resolved & Hr & He & _).
  unfold apply_managed_policy_inner in E. destruct (match expected with Some _ => _ | None => _ end); [done|].
  rewrite Hr in E. destruct (_ || _); [done|]. apply bind_Some in E as (w1 & Ei & [= <-]).
  apply install_resolved_copies in Ei as (Hc & _). destruct (send_config Ev_ConfigurationChanged w1) as [-> _ _ _].
  congruence.
Qed.
End governed.

(** ** Evaluated examples *)
Module CoherenceWitness.
Import ChronoExample UrlExample ServiceWitness.
#[local] Existing Instances ManagementWitness.toy_crypto ResticWitness.ascii_unicode UpdaterWitness.toy_base64
  SourcesWitness.plain_files PolicyCacheWitness.no_dpapi PolicyCacheWitness.entry_serde no_messages entries_serde.

(** The configuration an administrator saves, in a one-document format. *)
Definition edited : LocalConfig := schedule_candidate (Some 48) None None None None LocalConfig_default.
#[local] Instance edited_serde : Serde LocalConfig := StateWitness.one_text edited.
#[local] Instance edited_format : TextFormat LocalConfig := StateWitness.one_text_format edited.
#[local] Instance saved_serde : Serde PersistedScheduleState := StateWitness.one_text StateWitness.saved.
#[local] Instance saved_format : TextFormat PersistedScheduleState := StateWitness.one_text_format StateWitness.saved.

(** The policy locks the append-only mode and recommends six hours. *)
Definition policy : option ManagedPolicy := Some PolicyWitness.policy.
Definition disk (config : FileRead) : Disk :=
  {| dk_config := config; dk_cache := NotFound; dk_state := NotFound; dk_history := None; dk_log := no_log |}.
Definition load (config : FileRead) : option (result RuntimeInitError ServiceRuntime) :=
  load_with_credentials_and_policy env (lit "C:\ProgramData\resticpal\config.toml") (disk config) None policy.
Definition first : ServiceRuntime :=
  match load NotFound with Some (Ok w) => w | _ => configuration_error env [] (disk NotFound) None end.
Definition request : RequestCommand := UpdateSchedule (Some 48) None None None None.
Definition updated : ServiceRuntime :=
  match handle_command None (fun _ => None) env env request administrator first with Some (_, w) => w | None => first end.

Lemma first_governed : governed None (fun _ => None) policy first.
Proof.
  apply (governed_load None (fun _ => None) env (lit "C:\ProgramData\resticpal\config.toml") (disk NotFound) None policy).
  check (match load NotFound with Some (Ok _) => true | _ => false end).
  unfold first. fold (load NotFound). destruct (load NotFound) as [[w|]|]; [reflexivity|discriminate Hcheck..].
Qed.
Lemma updated_governed : governed None (fun _ => None) policy updated.
Proof.
  check (is_some (handle_command None (fun _ => None) env env request administrator first)).
  destruct (handle_command None (fun _ => None) env env request administrator first) as [[p w]|] eqn:E; [|discriminate Hcheck].
  eapply governed_step; [exact first_governed|].
  refine (ev_request None (fun _ => None) policy env env request administrator p first updated _ _ I _); try discriminate.
  unfold updated. by rewrite E.
Qed.

(** An administrator's 48 hours survive a restart under a policy that recommends six. *)
Lemma restart_witness :
  sc_interval_hours (ec_schedule (sr_config first)) = 6
  /\ exists w', load (Contents [35; 10]) = Some (Ok w') /\ sc_interval_hours (ec_schedule (sr_config w')) = 48.
Proof.
  split; [vm_compute; reflexivity|].
  destruct (proj1 (restart_changes_nothing None (fun _ => None) policy updated env
    (lit "C:\ProgramData\resticpal\config.toml") (disk (Contents [35; 10])) None updated_governed
    ltac:(vm_compute; reflexivity)
    ltac:(split; [split; vm_compute; discriminate|intros s t [= <-]; discriminate]))) as (w' & E & Hc & _).
  exists w'. split; [exact E|]. rewrite Hc. vm_compute. reflexivity.
Defined.
End CoherenceWitness.

(** A device that follows an unsigned policy, which recommends where two credentials are. *)
Module RecommendationWitness.
Import ChronoExample UrlExample ServiceWitness.
#[local] Existing Instances ManagementWitness.toy_crypto ResticWitness.ascii_unicode UpdaterWitness.toy_base64
  SourcesWitness.plain_files CredentialsWitness.toy_dpapi PolicyCacheWitness.entry_serde no_messages entries_serde.

Definition local : LocalConfig :=
  set_lc_management
    {| lm_mode := PlainManifest; lm_manifest_url := Some (lit "https://files.example.test/resticpal.json");
       lm_signing_public_key := None; lm_refresh_interval_minutes := None; lm_status_url := None;
       lm_device_id := None; lm_status_token_ref := None; lm_enrollment_key_ref := None |} LocalConfig_default.
Definition policy : option ManagedPolicy :=
  Some {| mp_schema_version := 2; mp_revision := lit "r1"; mp_backup := no_backup;
          mp_repository :=
            {| mr_display_name := None; mr_url := None; mr_mode := None; mr_options := None;
               mr_secret_refs := Some {| m_value := [(ResticPassword, lit "site-password"); (AwsSecretAccessKey, lit "site-key")];
                                         m_locked := false |} |};
          mp_schedule := no_schedule; mp_retention := no_retention; mp_updates := None |}.
Definition new_reference : rstr :=
  reference_prefix ResticPassword ++ lit "-" ++ flat_map hex_byte CredentialsWitness.sixteen.
(** What is saved when the administrator replaces the password. *)
Definition edited : LocalConfig := with_local_refs [(ResticPassword, new_reference)] local.

#[local] Instance two_texts : Serde LocalConfig :=
  {| serialize := fun c => if decide (c = edited) then Some [35] else if decide (c = local) then Some [36] else None;
     deserialize := fun b : list Z =>
       if bool_decide (take 1 b = [35]) then Some edited else if bool_decide (take 1 b = [36]) then Some local else None |}.
#[local] Existing Instance persisted_serde.

Definition credentials : CredentialFiles := {[ lit "site-password" := [1]; lit "site-key" := [2] ]}.
Definition random_env : Env :=
  {| env_now := env_now env; env_config_ok := true; env_state_ok := true; env_cache_ok := true; env_history_ok := true;
     env_log_now := env_log_now env; env_log_io := env_log_io env; env_log_torn := env_log_torn env;
     env_random := fun _ _ => Some CredentialsWitness.sixteen; env_put := fun _ _ => Some Write_Done;
     env_remove_ok := fun _ => true |}.
Definition load (config : list Z) (files : option CredentialFiles) : option (result RuntimeInitError ServiceRuntime) :=
  load_with_credentials_and_policy random_env (lit "C:\ProgramData\resticpal\config.toml")
    (CoherenceWitness.disk (Contents config)) files policy.
Definition running : ServiceRuntime :=
  match load [36] (Some credentials) with Some (Ok w) => w | _ => configuration_error env [] (CoherenceWitness.disk NotFound) None end.
Definition new_password : RequestCommand :=
  UpdateRepository None None None None [SecretSet ResticPassword (Secret (lit "hunter2"))].
Definition changed : ServiceRuntime :=
  match handle_command None (fun _ => None) random_env random_env new_password administrator running with
  | Some (_, w) => w
  | None => running
  end.
Definition restarted : ServiceRuntime :=
  match load [35; 10] (sr_credential_store changed) with Some (Ok w) => w | _ => changed end.
Definition secrets_of (w : ServiceRuntime) : SecretRefs := rc_secret_refs (ec_repository (sr_config w)).

(** The exception is real: when an administrator replaces one of two
    credentials a policy recommends, the running service keeps the other, but
    the saved local layer holds only the new one, and after a restart under
    the same policy the other credential is gone from the configuration.  The
    replaced credential, which the policy still names, has been deleted. *)
Theorem recommended_credentials_are_lost :
  secrets_of running = [(ResticPassword, lit "site-password"); (AwsSecretAccessKey, lit "site-key")]
  /\ (exists message, handle_command None (fun _ => None) random_env random_env new_password administrator running
                      = Some (Resp_Accepted message, changed))
  /\ secrets_of changed = [(ResticPassword, new_reference); (AwsSecretAccessKey, lit "site-key")]
  /\ (sr_credential_store changed ≫= fun files => files !! lit "site-password") = None
  /\ saved_file changed = Some (Contents [35; 10])
  /\ load [35; 10] (sr_credential_store changed) = Some (Ok restarted)
  /\ secrets_of restarted = [(ResticPassword, new_reference)].
Proof.
  split; [vm_compute; reflexivity|]. split.
  { check (match handle_command None (fun _ => None) random_env random_env new_password administrator running with
           | Some (Resp_Accepted _, _) => true | _ => false end).
    unfold changed. destruct (handle_command _ _ _ _ _ _ _) as [[[] w]|]; try discriminate Hcheck. by eexists. }
  split; [vm_compute; reflexivity|]. split; [vm_compute; reflexivity|]. split; [vm_compute; reflexivity|]. split.
  { check (match load [35; 10] (sr_credential_store changed) with Some (Ok _) => true | _ => false end).
    unfold restarted. destruct (load _ _) as [[w|]|]; [reflexivity|discriminate Hcheck..]. }
  vm_compute. reflexivity.
Qed.
End RecommendationWitness.
