(* ===== verification/Settled.v ===== *)
(** * Configuration updates under interference ([apps/resticpal-service/src/runtime/])

    The mutation lock of the runtime protects the configuration: the saved
    file, the local layer, the effective configuration and the locked fields.
    Every operation keeps the discipline of [Interference] for it: without the
    lock it leaves them alone, and an update that holds it ends with a
    configuration that is coherent ([Coherence]), whatever the other threads
    do in between.  So the threads can be interleaved in any way
    ([interleaved_updates_are_saved]). *)
From stdpp Require Import base option list gmap strings relations.
From S2P Require Import Prelude RustStd Chrono Crates Config Status Schedule Policy Restic Protocol Outcome.
From S2P Require Import ServiceState Diagnostics History Credentials Management Updater Sources PolicyCache.
From S2P Require Import Runtime Scheduler Lifecycle Enrollment Ipc Service Locks Interference Guards GuardsRun Threads.
From S2P Require Import Authority Coherence.

Section settled.
Context `{ChronoLaws} `{UrlCrate} `{CryptoCrates} `{Dpapi} `{UnicodeData} `{Filesystem} `{Messages} `{Base64Standard}.
Context `{Serde LocalConfig} `{!TextFormat LocalConfig}.
Context `{Serde PersistedScheduleState} `{!TextFormat PersistedScheduleState}.
Context `{Serde DiagnosticEntry} `{Serde CachedManifest}.
Context (discover : option (list DiscoveredBackupSource)) (client : rstr -> option PendingEnrollment).
(** The policies the device may get. *)
Context (policies : option ManagedPolicy -> Prop).

Definition settled (w : ServiceRuntime) : Prop := exists policy, policies policy /\ coherent policy w.

Lemma coherent_settled_same w w' : same_config w w' -> settled w -> settled w'.
Proof. intros Hs (policy & Hp & Hw). exists policy. split; [done|]. by eapply coherent_same. Qed.

Notation keeps := (Interference.keeps L_ConfigurationMutation same_config settled).
Notation calm := (Interference.quiet L_ConfigurationMutation same_config).

(** How a scope of the mutation lock ends, and how a call does: by a panic
    the configuration may be left half switched. *)
Definition settledly {A} (known : Knowledge ServiceRuntime) (a : A) : Prop :=
  exists w, known = Inside w /\ settled w.
Definition called {A} (known : Knowledge ServiceRuntime) (answer : option A) : Prop :=
  known = Outside \/ (known = Lost /\ answer = None).

Lemma settledly_inside {A} policy w (a : A) : policies policy -> coherent policy w -> settledly (Inside w) a.
Proof. intros Hp Hw. exists w. split; [done|]. by exists policy. Qed.
Lemma called_outside {A} (answer : option A) : called Outside answer.
Proof. by left. Qed.

Lemma keeps_mutation {A} (p : Guarded (option A)) :
  (forall policy w, policies policy -> coherent policy w -> keeps (Inside w) p settledly) ->
  keeps Outside (configuration_mutation p) called.
Proof.
  intros Hp. apply keeps_section. intros w (policy & HP & Hw). eapply keeps_impl; [by eapply Hp|].
  intros known a (w' & -> & Hw'). left. split; [done|by left].
Qed.

(** ** Reading the protected part *)
Lemma field_locked_same w w' f : same_config w w' -> Runtime.field_locked f w' = Runtime.field_locked f w.
Proof. intros []. unfold Runtime.field_locked. by replace (sr_field_resolutions w') with (sr_field_resolutions w). Qed.

Section reads.
Context (w : ServiceRuntime).
Lemma keeps_config post : post (Inside w) (sr_config w) -> keeps (Inside w) Guards.config post.
Proof.
  intros Hp. apply keeps_guarded; [done..|]. apply keeps_peek_inside. intros w' [Hc _ _ _]. by rewrite Hc.
Qed.
Lemma keeps_local_config post : post (Inside w) (sr_local_config w) -> keeps (Inside w) Guards.local_config post.
Proof.
  intros Hp. apply keeps_guarded; [done..|]. apply keeps_peek_inside. intros w' [_ Hl _ _]. by rewrite Hl.
Qed.
Lemma keeps_field_locked f post :
  post (Inside w) (Runtime.field_locked f w) -> keeps (Inside w) (Guards.field_locked f) post.
Proof.
  intros Hp. apply keeps_guarded; [done..|]. apply keeps_peek_inside. intros w' Hw'. by rewrite (field_locked_same w w').
Qed.
Lemma keeps_any_locked fields post :
  post (Inside w) (any_touched fields w false) -> keeps (Inside w) (any_locked fields) post.
Proof.
  intros Hp. induction fields as [|[[] field] fields IH]; [done| |by apply IH]. cbn [any_locked negb].
  apply keeps_mbind, keeps_field_locked. unfold any_touched in Hp. cbn in Hp.
  destruct (Runtime.field_locked field w) eqn:E; [|by apply IH].
  fold (any_touched fields w true) in Hp. by rewrite any_touched_true in Hp.
Qed.
Lemma keeps_secrets_locked post :
  post (Inside w) (Ipc.repository_secrets_locked w) -> keeps (Inside w) Guards.repository_secrets_locked post.
Proof.
  intros Hp. apply keeps_mbind, keeps_field_locked. unfold Ipc.repository_secrets_locked in Hp.
  destruct (Runtime.field_locked _ w); [done|]. apply keeps_mbind, keeps_guarded; [done..|]. apply keeps_peek_inside.
  intros w' [_ Hl _ _]. split; [done|]. unfold Enrollment.management_view in *. by rewrite Hl.
Qed.
End reads.

(** ** Calm programs *)
Lemma calm_peek {X} (f : ServiceRuntime -> X) : calm (peek f).
Proof. by intros w. Qed.
Lemma calm_act {X} (f : ServiceRuntime -> X * ServiceRuntime) : (forall w, same_config w (f w).2) -> calm (act f).
Proof. intros Hf w. by split. Qed.
Lemma calm_poke (f : ServiceRuntime -> ServiceRuntime) : (forall w, same_config w (f w)) -> calm (poke f).
Proof. intros Hf w. by split. Qed.
Lemma calm_any_locked fields : calm (any_locked fields).
Proof.
  induction fields as [|[[] field] fields IH]; [done| |done]. cbn [any_locked negb].
  apply quiet_mbind; [by apply quiet_guarded, calm_peek|]. by intros [].
Qed.

Lemma begin_enrollment_calm env : calm (Guards.begin_enrollment env).
Proof.
  apply quiet_guarded; [done|]. apply calm_act. intros w. destruct (Enrollment.begin_enrollment env w) as [b w'] eqn:E.
  by eapply begin_enrollment_config.
Qed.
Lemma send_event_config event message w : same_config w (send_event event message w).2.
Proof.
  unfold send_event. pose proof (send_config event w) as Hs. by destruct (send event w) as [[] ?].
Qed.

(** [calm]: through a program that leaves the configuration alone. *)
Ltac same_configs :=
  intros ?; first [ exact (state_config _ _) | apply save_state_config | apply send_config | apply send_event_config | apply record_diagnostic_config
                  | apply save_cache_config | apply remove_cache_config | apply cleanup_credentials_config
                  | apply require_validation_for_config | apply update_progress_config
                  | repeat case_match; done ].
Ltac head_of t := match t with ?f _ => head_of f | _ => t end.
Ltac calmly :=
  repeat first
    [ progress intros
    | progress cbv zeta
    | exact I
    | apply quiet_mbind | apply quiet_fmap | apply calm_any_locked | apply begin_enrollment_calm | apply quiet_guarded; [discriminate|]
    | apply calm_peek | apply calm_act; same_configs | apply calm_poke; same_configs
    | match goal with
      | |- Interference.quiet _ _ (match ?x with _ => _ end) => destruct x
      | |- Interference.quiet _ _ ?p => let h := head_of p in progress unfold h
      end ].

Lemma calm_announce message : calm (announce message).
Proof. calmly. Qed.
Lemma calm_blocked now : calm (Guards.update_blocks_configuration_mutation now).
Proof. calmly. Qed.

(** ** The end of an update *)
Lemma same_config_of w w' :
  sr_config w' = sr_config w -> sr_local_config w' = sr_local_config w ->
  sr_field_resolutions w' = sr_field_resolutions w -> saved_file w' = saved_file w -> same_config w w'.
Proof. by split. Qed.
Lemma same_config_switch e l w w' :
  same_config w w' -> same_config (set_sr_config e (set_sr_local_config l w)) (set_sr_config e (set_sr_local_config l w')).
Proof. by intros []. Qed.

Lemma keeps_saved policy env candidate effective w post :
  coherent policy w -> validate effective = Ok () ->
  lc_schema_version candidate = lc_schema_version (sr_local_config w) ->
  lc_management candidate = lc_management (sr_local_config w) ->
  (forall f, field_update policy (sr_local_config w) candidate (sr_config w) effective f) ->
  (forall w1, coherent policy w1 -> post (Inside w1) false) ->
  (forall w1, coherent policy (set_sr_config effective (set_sr_local_config candidate w1)) ->
              sr_config w1 = sr_config w -> post (Inside w1) true) ->
  keeps (Inside w) (act (save_config env candidate)) post.
Proof.
  intros Hw Hv Hs Hm Hu Hfail Hsaved. apply keeps_act_inside. intros w' Hw'.
  assert (coherent policy w') as Hc by by eapply coherent_same.
  destruct Hw' as [Ec El _ _]. rewrite <- El in Hs, Hm. rewrite <- El, <- Ec in Hu.
  destruct (save_config env candidate w') as [b w1] eqn:Es. exists w1. split; [done|]. cbn.
  pose proof (save_config_eq _ _ _ _ _ Es) as [Ec1 _ _ _].
  destruct b; [apply Hsaved; [|congruence]|apply Hfail];
    exact (coherent_committed policy env _ _ _ _ _ _ Hc Es Hv Hs Hm Hu (reflexivity _)).
Qed.

Lemma keeps_saved_candidate policy env candidate w post :
  coherent policy w -> lc_schema_version candidate = CONFIG_SCHEMA_VERSION ->
  management_contract (lc_management candidate) ->
  (forall w1, coherent policy w1 -> post (Inside w1) false) ->
  (forall w1, (forall file, saved_file w1 = Some file -> config_load file = Ok candidate) -> post (Inside w1) true) ->
  keeps (Inside w) (act (save_config env candidate)) post.
Proof.
  intros Hw Hs Hm Hfail Hsaved. apply keeps_act_inside. intros w' Hw'.
  assert (coherent policy w') as Hc by by eapply coherent_same.
  destruct (save_config env candidate w') as [b w1] eqn:Es. exists w1. split; [done|]. cbn.
  destruct (save_config_saved _ _ _ _ _ Es Hs Hm) as (_ & Hf & Ht).
  destruct b; [by apply Hsaved, Ht|apply Hfail]. by eapply coherent_same; [apply Hf|].
Qed.

(** The two copies are switched one after the other. *)
Lemma keeps_switch {A} candidate effective w (p : Guarded A) post :
  keeps (Inside (set_sr_config effective (set_sr_local_config candidate w))) p post ->
  keeps (Inside w) (local_config_guard (poke (set_sr_local_config candidate));;
                    config_write (poke (set_sr_config effective));; p) post.
Proof.
  intros Hp. apply keeps_mbind, keeps_guarded; [done..|].
  apply (keeps_poke_inside _ _ _ _ (set_sr_local_config candidate w)); [by intros w' []|]. split; [done|].
  apply keeps_mbind, keeps_guarded; [done..|].
  apply (keeps_poke_inside _ _ _ _ (set_sr_config effective (set_sr_local_config candidate w))); [by intros w' []|].
  split; [done|]. exact Hp.
Qed.

Lemma keeps_resolutions fields w post :
  post (Inside (set_sr_field_resolutions fields w)) tt -> keeps (Inside w) (field_resolutions_write fields) post.
Proof.
  intros Hp. apply keeps_guarded; [done..|].
  by apply (keeps_poke_inside _ _ _ _ (set_sr_field_resolutions fields w)); [intros w' []|].
Qed.

Lemma keeps_calm {A} policy w (p : Guarded A) :
  policies policy -> coherent policy w -> calm p -> keeps (Inside w) p settledly.
Proof. intros Hp Hw Hc. apply quiet_keeps; [apply _|done|done|]. intros a. by eapply settledly_inside. Qed.
Lemma keeps_continue {X} (p : Guarded (Flow X)) w (k : X -> Guarded (option ResponsePayload)) :
  keeps (Inside w) p settledly -> (forall x, calm (k x)) -> keeps (Inside w) (continue p k) settledly.
Proof.
  intros Hp Hk. apply keeps_mbind. eapply keeps_impl; [exact Hp|]. intros known [r|x] (w' & -> & policy & HP & Hw).
  - exists w'. split; [done|]. by exists policy.
  - by eapply keeps_calm.
Qed.
Lemma keeps_state_guard {A} w (p : Guarded A) :
  keeps (Inside w) p settledly -> keeps (Inside w) (state_guard p) settledly.
Proof.
  intros Hp. apply keeps_guarded; [done..|]. eapply keeps_impl; [exact Hp|]. intros known a (w' & -> & Hw).
  split; [done|]. by exists w'.
Qed.

Lemma keeps_commit policy env candidate effective w :
  policies policy -> coherent policy w -> validate effective = Ok () ->
  lc_schema_version candidate = lc_schema_version (sr_local_config w) ->
  lc_management candidate = lc_management (sr_local_config w) ->
  (forall f, field_update policy (sr_local_config w) candidate (sr_config w) effective f) ->
  keeps (Inside w) (saved ← act (save_config env candidate);
                    if negb saved then mret (Returns (Some configuration_save_failed))
                    else commit_configuration env candidate effective) settledly.
Proof.
  intros HP Hw Hv Hs Hm Hu. apply keeps_mbind. eapply keeps_saved; [done..| |].
  - intros w1 Hw1. by eapply settledly_inside.
  - intros w1 Hw1 _. apply keeps_switch. eapply keeps_calm; [done..|]. calmly.
Qed.

(** ** Updates *)

(** [inside]: the next decision of an update that holds the lock, up to the
    [continue] at its end. *)
Ltac leaves := try (split; [done|]); by eapply settledly_inside.
Ltac inside :=
  lazymatch goal with
  | |- Interference.keeps _ _ _ (Inside _) (match resolve_config _ _ _ with Ok _ => _ | Err _ => _ end) _ => fail
  | |- Interference.keeps _ _ _ (Inside _) (match ?r with Ok _ => _ | Err _ => _ end) _ =>
      destruct r as [[]|] eqn:?; [|leaves]
  | |- Interference.keeps _ _ _ (Inside _) (if ?c then _ else _) _ => destruct c eqn:?; [leaves|]
  | |- Interference.keeps _ _ _ (Inside _) (_ ≫= _) _ => apply keeps_mbind
  | |- Interference.keeps _ _ _ (Inside _) Guards.config _ => apply keeps_config
  | |- Interference.keeps _ _ _ (Inside _) Guards.local_config _ => apply keeps_local_config
  | |- Interference.keeps _ _ _ (Inside _) (Guards.field_locked _) _ => apply keeps_field_locked
  | |- Interference.keeps _ _ _ (Inside _) (any_locked _) _ => apply keeps_any_locked
  | |- Interference.keeps _ _ _ (Inside _) (state_guard _) settledly => apply keeps_state_guard
  | |- Interference.keeps _ _ _ (Inside _) (let _ := _ in _) _ => cbv zeta
  | |- Interference.keeps _ _ _ (Inside _) (continue _ _) _ => fail
  | |- Interference.keeps _ _ _ (Inside _) _ (fun _ _ => _) => apply quiet_keeps; [apply _|solve [calmly]|done|intros ?]
  end.
Ltac elevated := match goal with |- Interference.keeps _ _ _ Outside (if ?c then _ else _) _ => destruct c; [by left|] end.
Ltac update :=
  elevated; apply keeps_mutation; intros policy w HP Hw; repeat inside.

Lemma update_retention_disciplined env a b c d e identity :
  keeps Outside (Guards.update_retention env a b c d e identity) called.
Proof.
  unfold Guards.update_retention. update. apply keeps_mbind, keeps_guarded; [done..|]. repeat inside.
  eapply keeps_saved; [done|done|done|done|by apply retention_field_update| |]; intros w1 Hw1; [leaves|intros _].
  split; [done|]. apply keeps_switch. eapply keeps_calm; [done..|apply calm_announce].
Qed.

Lemma update_schedule_disciplined env a b c d e identity :
  keeps Outside (Guards.update_schedule env a b c d e identity) called.
Proof.
  unfold Guards.update_schedule. update. apply keeps_continue; [|intros []; apply calm_announce]. inside.
  do 4 inside. eapply keeps_commit; [done..|by apply schedule_field_update].
Qed.

Lemma update_backup_sources_disciplined env paths exclusions identity :
  keeps Outside (Guards.update_backup_sources env paths exclusions identity) called.
Proof.
  unfold Guards.update_backup_sources. update. apply keeps_continue; [|intros []; apply calm_announce]. inside.
  do 3 inside. eapply keeps_commit; [done..|by apply sources_field_update].
Qed.

Lemma update_update_settings_disciplined env automatic identity :
  keeps Outside (Guards.update_update_settings env automatic identity) called.
Proof.
  unfold Guards.update_update_settings. update.
  eapply (keeps_saved _ _ _ (set_ec_updates {| uc_automatic_install := automatic |} (sr_config w)));
    [done|apply Hw|done|done| | |].
  - intros f. destruct f; try (by left). right. left. split; [|done]. intros Hk%(co_locks _ _ Hw). congruence.
  - intros w1 Hw1. leaves.
  - intros w1 Hw1 Hc. cbn [negb]. apply keeps_mbind, keeps_guarded; [done..|].
    set (candidate := set_lc_updates _ _) in *. set (effective := set_ec_updates _ _) in *.
    apply (keeps_poke_inside _ _ _ _ (set_sr_local_config candidate w1)); [by intros w' []|].
    split; [done|]. apply keeps_mbind, keeps_guarded; [done..|].
    apply (keeps_poke_inside _ _ _ _ (set_sr_config effective (set_sr_local_config candidate w1))).
    + intros w' [Ec El Ef Es]. cbn in Ec. apply same_config_of; try done. cbn. by rewrite Ec, Hc.
    + split; [done|]. eapply keeps_calm; [done|exact Hw1|destruct automatic; calmly].
Qed.

(** *** The repository *)
Lemma keeps_store_secrets policy env dn url mode options updates w post :
  coherent policy w -> lasting policy (UpdateRepository dn url mode options updates) ->
  negb (bool_decide (length updates = 0%nat)) && Ipc.repository_secrets_locked w = false ->
  (forall f, field_update policy (sr_local_config w)
              (repository_candidate (nonempty_trimmed <$> dn) (nonempty_trimmed <$> url) mode options (sr_local_config w))
              (sr_config w)
              (repository_effective (nonempty_trimmed <$> dn) (nonempty_trimmed <$> url) mode options (sr_config w)) f) ->
  post (Inside w) None ->
  (forall c e created retired,
     lc_schema_version c = lc_schema_version (sr_local_config w) ->
     lc_management c = lc_management (sr_local_config w) ->
     (forall f, field_update policy (sr_local_config w) c (sr_config w) e f) ->
     post (Inside w) (Some (c, e, created, retired))) ->
  keeps (Inside w) (store_secrets env updates
    (repository_candidate (nonempty_trimmed <$> dn) (nonempty_trimmed <$> url) mode options (sr_local_config w))
    (repository_effective (nonempty_trimmed <$> dn) (nonempty_trimmed <$> url) mode options (sr_config w))) post.
Proof.
  intros Hw Hlast Hlocked Hu Hnone Hsome. apply keeps_act_inside. intros w' Hw'. exists w.
  assert (coherent policy w') as Hc by by eapply coherent_same.
  assert (Ipc.repository_secrets_locked w' = Ipc.repository_secrets_locked w) as Hl.
  { unfold Ipc.repository_secrets_locked, Enrollment.management_view. rewrite (field_locked_same w w') by done.
    by destruct Hw' as [_ -> _ _]. }
  rewrite <- Hl in Hlocked. pose proof (proj1 (conj Hw' I)) as [Ec El _ _]. rewrite <- El, <- Ec in *.
  pose proof (store_secrets_config env updates
    (repository_candidate (nonempty_trimmed <$> dn) (nonempty_trimmed <$> url) mode options (sr_local_config w'))
    (repository_effective (nonempty_trimmed <$> dn) (nonempty_trimmed <$> url) mode options (sr_config w')) w') as Hsame.
  destruct (Ipc.store_secrets _ _ _ _ _) as [[[[[c e] created] retired] w1]|w1] eqn:Es; cbn;
    (split; [by etransitivity|]); [|done].
  eapply store_secrets_update in Es as (Hs & Hm & Hf); [|done..]. by apply Hsome.
Qed.

Lemma keeps_commit_repository policy env changed candidate effective created w :
  policies policy -> coherent policy w ->
  lc_schema_version candidate = lc_schema_version (sr_local_config w) ->
  lc_management candidate = lc_management (sr_local_config w) ->
  (forall f, field_update policy (sr_local_config w) candidate (sr_config w) effective f) ->
  keeps (Inside w) (Guards.commit_repository env changed candidate effective created) settledly.
Proof.
  intros HP Hw Hs Hm Hu. unfold Guards.commit_repository.
  destruct (validate effective) as [[]|] eqn:Hv; [|eapply keeps_calm; [done..|calmly]].
  apply keeps_mbind, quiet_keeps; [apply _|calmly|done|intros state]. cbv zeta.
  apply keeps_mbind, quiet_keeps; [apply _|destruct changed; calmly|done|intros written].
  destruct (negb written); [eapply keeps_calm; [done..|calmly]|].
  apply keeps_mbind. eapply keeps_saved; [done..| |].
  - intros w1 Hw1. eapply keeps_calm; [done|exact Hw1|calmly].
  - intros w1 Hw1 _. apply keeps_switch. eapply keeps_calm; [done|exact Hw1|]. calmly.
Qed.

Lemma keeps_any_secrets (locked has_secrets : bool) w post :
  post (Inside w) (locked || (has_secrets && Ipc.repository_secrets_locked w)) ->
  keeps (Inside w) (if locked then mret true
                    else if has_secrets then Guards.repository_secrets_locked else mret false) post.
Proof. intros Hp. destruct locked; [done|]. destruct has_secrets; [by apply keeps_secrets_locked|done]. Qed.

Lemma update_repository_disciplined env dn url mode options updates identity :
  (forall policy, policies policy -> lasting policy (UpdateRepository dn url mode options updates)) ->
  keeps Outside (Guards.update_repository env dn url mode options updates identity) called.
Proof.
  intros Hlast. unfold Guards.update_repository. elevated. apply keeps_mutation. intros policy w HP Hw. do 5 inside.
  apply keeps_any_locked, keeps_mbind, keeps_any_secrets. inside.
  match goal with Hlocked : _ || (_ && Ipc.repository_secrets_locked w) = false |- _ =>
    apply orb_false_iff in Hlocked as [Ht Hl] end.
  repeat inside. pose proof (repository_field_update _ _ _ _ _ updates _ Hw (Hlast _ HP) Ht) as Hu.
  apply keeps_mbind. eapply keeps_impl; [apply keeps_state_guard; do 5 inside|].
  - eapply keeps_store_secrets; [exact Hw|by apply Hlast|exact Hl|exact Hu|leaves|]. intros c e created retired Hs Hm Hf.
    apply keeps_mbind. eapply keeps_impl; [by eapply keeps_commit_repository|]. intros known flow (w1 & -> & Hw1).
    by exists w1.
  - intros known [r|retired] (w1 & -> & policy' & HP' & Hw'); [leaves|]. eapply keeps_calm; [done..|calmly].
Qed.

(** *** Sections that change nothing *)
Lemma keeps_calm_section {A} (p : Guarded (option A)) : calm p -> keeps Outside (configuration_mutation p) called.
Proof. intros Hp. apply keeps_mutation. intros policy w HP Hw. by eapply keeps_calm. Qed.

Lemma prepare_for_update_disciplined env hold identity : keeps Outside (Guards.prepare_for_update env hold identity) called.
Proof. unfold Guards.prepare_for_update. elevated. apply keeps_calm_section. calmly. Qed.
Lemma begin_update_install_disciplined env package identity : keeps Outside (Guards.begin_update_install env package identity) called.
Proof. apply keeps_calm_section. calmly. Qed.

(** ** Policies *)
Lemma keeps_install env resolved now w post :
  (forall b, post (Inside (set_sr_field_resolutions (rv_fields resolved) (set_sr_config (rv_effective resolved) w))) b) ->
  keeps (Inside w) (Guards.install_resolved env resolved now) post.
Proof.
  intros Hp. unfold Guards.install_resolved. apply keeps_mbind, quiet_keeps; [apply _|calmly|done|intros []].
  apply keeps_mbind, keeps_guarded; [done..|].
  apply (keeps_poke_inside _ _ _ _ (set_sr_config (rv_effective resolved) w)); [by intros w' []|]. split; [done|].
  apply keeps_mbind, keeps_resolutions. apply quiet_keeps; [apply _|calmly|done|exact Hp].
Qed.

Lemma apply_managed_policy_disciplined env policy' expected :
  policies (Some policy') -> keeps Outside (Guards.apply_managed_policy_inner env policy' expected) called.
Proof.
  intros HP'. apply keeps_mutation. intros policy w HP Hw. inside. inside. inside.
  destruct (resolve_config _ _ _) as [resolved|] eqn:Hr; [|leaves].
  apply keeps_mbind, keeps_guarded; [done..|]. inside. inside.
  destruct (_ || _); [split; [done|]; leaves|]. apply keeps_fmap, keeps_install. intros b. split; [done|].
  set (w1 := set_sr_field_resolutions _ _). assert (coherent (Some policy') w1) as Hw1.
  { eapply coherent_resolved; [exact Hr|apply Hw|done..|]. apply Hw. }
  eapply keeps_calm; [exact HP'|exact Hw1|destruct b; calmly].
Qed.

Lemma unenroll_disciplined env identity : policies None -> keeps Outside (Guards.unenroll env identity) called.
Proof.
  intros HN. unfold Guards.unenroll. update.
  destruct (resolve_config _ _ _) as [resolved|] eqn:Hr; [|leaves].
  assert (management_contract LocalManagementConfig_default) as Hm by (by apply validate_management_iff).
  apply keeps_mbind. eapply keeps_saved_candidate; [exact Hw|apply Hw|exact Hm| |]; intros w1; [intros Hw1; leaves|intros Hs].
  cbn [negb]. inside. inside. apply keeps_switch, keeps_mbind, keeps_resolutions.
  match goal with |- Interference.keeps _ _ _ (Inside ?x) _ _ => assert (coherent None x) as Hx end.
  { eapply coherent_resolved; [exact Hr|exact Hm|done..|]. exact Hs. }
  eapply keeps_calm; [exact HN|exact Hx|calmly].
Qed.

(** ** Enrollment *)
Definition enrolled_policy (pending : PendingEnrollment) : ManagedPolicy :=
  pl_policy (vm_payload (em_initial_manifest (pe_material pending))).

Lemma keeps_ends {A} known (p : Guarded (option A)) : keeps known p settledly -> keeps known p (ends settled called).
Proof.
  intros Hp. eapply keeps_impl; [exact Hp|]. intros known' a (w & -> & Hw). left. split; [done|by left].
Qed.

Lemma keeps_store_enrollment env pending w post :
  (forall created, post (Inside w) (None, created)) ->
  (forall candidate created, lc_schema_version candidate = lc_schema_version (sr_local_config w) ->
                             post (Inside w) (Some candidate, created)) ->
  keeps (Inside w) (Guards.store_enrollment env pending (sr_local_config w)) post.
Proof.
  intros Hnone Hsome. apply keeps_act_inside. intros w' Hw'. exists w.
  destruct (sr_credential_store w') as [files|]; [|split; [done|apply Hnone]].
  destruct (Enrollment.store_enrollment _ _ _ _) as [[[candidate|] created] files'] eqn:E.
  - split; [by etransitivity; [exact Hw'|]|]. apply Hsome. by eapply store_enrollment_schema.
  - split; [by etransitivity; [exact Hw'|]|]. apply Hnone.
Qed.

Lemma commit_enrollment_disciplined env pending :
  policies (Some (enrolled_policy pending)) -> keeps Outside (Guards.commit_enrollment env pending) called.
Proof.
  intros HP'. apply keeps_section. intros w (policy & HP & Hw).
  apply keeps_mbind, quiet_keeps; [apply _|calmly|done|intros available].
  destruct (negb available); [apply keeps_ends; leaves|]. apply keeps_mbind, keeps_local_config. cbv zeta.
  apply keeps_mbind, keeps_store_enrollment; [intros created; eapply keeps_ends, keeps_calm; [done..|calmly]|].
  intros candidate created Hs. cbn [fst snd].
  destruct (validate_management _) as [[]|] eqn:Hm; cbn [is_ok negb]; [|eapply keeps_ends, keeps_calm; [done..|calmly]].
  destruct (is_some _); [eapply keeps_ends, keeps_calm; [done..|calmly]|]. fold (enrolled_policy pending).
  destruct (resolve_config _ _ _) as [resolved|] eqn:Hr; [|eapply keeps_ends, keeps_calm; [done..|calmly]].
  apply validate_management_iff in Hm. apply keeps_mbind.
  eapply keeps_saved_candidate; [exact Hw|rewrite Hs; apply Hw|done| |]; intros w1.
  { intros Hw1. eapply keeps_ends, keeps_calm; [exact HP|exact Hw1|calmly]. }
  intros Hsaved. cbn [negb]. apply keeps_mbind, quiet_keeps; [apply _|calmly|done|intros []].
  apply keeps_mbind, keeps_guarded; [done..|]. apply keeps_install. intros b. split; [done|].
  destruct b; cbn [negb]; [|by right; right].
  set (w2 := set_sr_field_resolutions _ _). apply keeps_mbind, keeps_guarded; [done..|].
  apply (keeps_poke_inside _ _ _ _ (set_sr_local_config candidate w2)); [by intros w' []|]. split; [done|].
  assert (coherent (Some (enrolled_policy pending)) (set_sr_local_config candidate w2)) as Hw2.
  { by eapply coherent_resolved; [exact Hr|exact Hm|..]. }
  eapply keeps_ends, keeps_calm; [exact HP'|exact Hw2|calmly].
Qed.

Lemma calm_disciplined {A} (p : Guarded (option A)) : calm p -> keeps Outside p called.
Proof. intros Hp. apply quiet_keeps; [apply _|done..|]. intros a. apply called_outside. Qed.

(** What happens with the lock released again, or after a panic. *)
Lemma keeps_after {A B} (p : Guarded (option A)) (k : option A -> Guarded (option B)) :
  keeps Outside p called -> k None = mret None -> (forall a, calm (k (Some a))) -> keeps Outside (p ≫= k) called.
Proof.
  intros Hp HN Hk. apply keeps_mbind. eapply keeps_impl; [exact Hp|]. intros known [a|] [->|[-> Ha]].
  - by apply calm_disciplined.
  - done.
  - rewrite HN. by left.
  - rewrite HN. by right.
Qed.

Hypothesis enrolls : forall url pending, client url = Some pending -> policies (Some (enrolled_policy pending)).

Lemma attempt_disciplined env url :
  keeps Outside (match client url with
                 | None => mret (Some (Err tt))
                 | Some pending => Guards.commit_enrollment env pending
                 end) called.
Proof. destruct (client url) eqn:E; [|by left]. by eapply commit_enrollment_disciplined, enrolls. Qed.

Lemma enroll_bootstrap_disciplined env env' url : keeps Outside (Guards.enroll_bootstrap client env env' url) called.
Proof.
  unfold Guards.enroll_bootstrap. apply keeps_mbind, quiet_keeps; [apply _|calmly|done|intros begun].
  destruct (negb begun); [by left|]. apply keeps_after; [apply attempt_disciplined|done|]. calmly.
Qed.

Lemma enroll_disciplined env env' url identity : keeps Outside (Guards.enroll client env env' url identity) called.
Proof.
  unfold Guards.enroll. elevated. destruct (from_utf8 url); [|by left].
  apply keeps_mbind, quiet_keeps; [apply _|calmly|done|intros begun].
  destruct (negb begun); [by left|]. apply keeps_after; [apply attempt_disciplined|done|]. calmly.
Qed.

(** ** Every call *)
Definition foreseen (op : Operation) : Prop :=
  match op with
  | Op_HandleRequest _ _ command _ => forall policy, policies policy -> lasting policy command
  | Op_ApplyManagedPolicy _ policy _ => policies (Some policy)
  | _ => True
  end.

Lemma view_disciplined identity (view : Guarded ResponsePayload) : calm view -> keeps Outside (Guards.admin_view identity view) called.
Proof. intros Hv. apply calm_disciplined. unfold admin_view. destruct (is_elevated_administrator _); [by apply quiet_fmap|done]. Qed.

Lemma update_settings_view_disciplined : keeps Outside (Some ∘ Resp_UpdateSettings <$> update_settings_view) called.
Proof.
  apply keeps_fmap, keeps_section. intros w Hw. apply quiet_keeps; [apply _|calmly|done|]. intros a. left. split; [done|by left].
Qed.

Lemma handle_command_disciplined env env' command identity :
  policies None -> (forall policy, policies policy -> lasting policy command) ->
  keeps Outside (Guards.handle_command discover client env env' command identity) called.
Proof.
  intros HN Hlast. unfold Guards.handle_command.
  destruct command;
    first [ apply update_retention_disciplined | apply update_schedule_disciplined | apply update_backup_sources_disciplined
          | apply update_update_settings_disciplined | by apply update_repository_disciplined | apply prepare_for_update_disciplined
          | apply begin_update_install_disciplined | by apply unenroll_disciplined | apply enroll_disciplined
          | apply update_settings_view_disciplined | apply view_disciplined; solve [calmly] | apply calm_disciplined; solve [calmly] ].
Qed.

Lemma called_fmap {A B} (f : A -> B) known (answer : option A) : called known answer -> called known (f <$> answer).
Proof. intros [->|[-> ->]]; [by left|by right]. Qed.
Lemma keeps_answer {A B} (f : A -> B) (p : Guarded (option A)) :
  keeps Outside p called -> keeps Outside (fmap (M:=option) f <$> p) called.
Proof. intros Hp. apply keeps_fmap. eapply keeps_impl; [exact Hp|]. intros known a. apply called_fmap. Qed.

Lemma perform_disciplined op : policies None -> foreseen op -> keeps Outside (perform discover client op) called.
Proof.
  intros HN Hop. destruct op; cbn [perform]; cbn in Hop;
    first [ apply keeps_answer; first [ by apply handle_command_disciplined | apply enroll_bootstrap_disciplined
                                      | by apply apply_managed_policy_disciplined ]
          | apply calm_disciplined; solve [calmly] ].
Qed.

Definition panicked (come_through : bool) : Prop := come_through = false.

Lemma perform_all_disciplined ops :
  policies None -> Forall foreseen ops -> keeps Outside (perform_all discover client ops) (finishes panicked).
Proof.
  intros HN. induction 1 as [|op ops Hop _ IH]; [by left|]. cbn [perform_all]. apply keeps_mbind.
  eapply keeps_impl; [by apply perform_disciplined|]. intros known [answer|] [->|[-> Ha]]; [done|done|by left|by right].
Qed.

Lemma started_keeping schedule w :
  policies None -> Forall (Forall foreseen) schedule ->
  Forall (keeping L_ConfigurationMutation same_config settled panicked w) (start discover client <$> schedule).
Proof.
  intros HN Hs. apply Forall_fmap. eapply Forall_impl; [exact Hs|]. intros ops Hops. exists Outside.
  split; [by apply perform_all_disciplined|]. intros m. apply not_elem_of_nil.
Qed.

Lemma threads_settled schedule w threads w' :
  policies None -> Forall (Forall foreseen) schedule -> settled w ->
  rtc (pool_step false) (start discover client <$> schedule, w) (threads, w') ->
  Forall (fun t => td_prog t <> Ret false) threads -> unlocked L_ConfigurationMutation threads -> settled w'.
Proof.
  intros HN Hs Hw Hr Hlive Hun.
  destruct (interleaved_settled L_ConfigurationMutation same_config settled coherent_settled_same panicked _ _ Hr) as [Hd|Hset].
  - apply started_excluded.
  - by apply started_keeping.
  - done.
  - apply Exists_exists in Hd as (t & Ht & r & Hp & ->). by eapply Forall_forall in Hlive; [|exact Ht].
  - by apply Hset.
Qed.
End settled.

(** C19: concurrent configuration updates are not mixed up.  Let any number of
    threads call any operations of a running service, interleaved in any way,
    with any I/O failures.  At every moment when nobody holds the mutation
    lock and no thread has died of a panic, the configuration in force is
    valid and is the merge of the saved local file with a policy it may get:
    a restart on that file under it gives the same effective configuration,
    local layer and locks.  Excepted, as for [restart_changes_nothing], are
    requests that clear or replace what such a policy recommends without
    locking it. *)
Theorem interleaved_updates_are_saved
    `{ChronoLaws} `{UrlCrate} `{CryptoCrates} `{Dpapi} `{UnicodeData} `{Filesystem} `{Messages} `{Base64Standard}
    `{Serde LocalConfig} `{!TextFormat LocalConfig}
    `{Serde PersistedScheduleState} `{!TextFormat PersistedScheduleState}
    `{Serde DiagnosticEntry} `{Serde CachedManifest}
    (discover : option (list DiscoveredBackupSource)) (client : rstr -> option PendingEnrollment)
    (policies : option ManagedPolicy -> Prop) (schedule : list (list Operation)) (policy : option ManagedPolicy)
    (w w' : ServiceRuntime) (threads : list (Thread ServiceRuntime bool))
    (Hstart : governed discover client policy w) (Hpolicy : policies policy) (Hnone : policies None)
    (Henrolled : forall url pending, client url = Some pending -> policies (Some (enrolled_policy pending)))
    (Hforeseen : Forall (Forall (foreseen policies)) schedule)
    (Hreach : rtc (pool_step false) (start discover client <$> schedule, w) (threads, w'))
    (Halive : Forall (fun t => td_prog t <> Ret false) threads)
    (Hunlocked : unlocked L_ConfigurationMutation threads) :
  validate (sr_config w') = Ok ()
  /\ exists policy', policies policy' /\
     forall env path disk credentials, saved_file w' = Some (dk_config disk) -> readable_clock env disk ->
     exists w'', load_with_credentials_and_policy env path disk credentials policy' = Some (Ok w'')
       /\ sr_config w'' = sr_config w' /\ sr_local_config w'' = sr_local_config w'
       /\ forall f, Runtime.field_locked f w'' = Runtime.field_locked f w'.
Proof.
  assert (settled policies w) as Hw by (exists policy; split; [done|by eapply governed_coherent]).
  destruct (threads_settled _ _ _ Henrolled schedule w threads w' Hnone Hforeseen Hw Hreach Halive Hunlocked)
    as (policy' & Hp & Hc).
  split; [apply Hc|]. exists policy'. split; [done|]. intros env path disk credentials Hfile Hclock.
  by apply restart_resolved.
Qed.

Module SettledWitness.
Import ChronoExample UrlExample ServiceWitness CoherenceWitness.
#[local] Existing Instances ManagementWitness.toy_crypto ResticWitness.ascii_unicode UpdaterWitness.toy_base64
  SourcesWitness.plain_files PolicyCacheWitness.no_dpapi PolicyCacheWitness.entry_serde no_messages entries_serde
  edited_serde edited_format saved_serde saved_format.

(** Two settings windows ask for 48 hours at the same time, while the event
    loop evaluates the schedule. *)
Definition ask : Operation := Op_HandleRequest env env request administrator.
Definition schedule : list (list Operation) := [[ask]; [ask]; [Op_EvaluateSchedule (seconds 3000) online]].
Definition policies (p : option ManagedPolicy) : Prop := p = policy \/ p = None.
Definition begun : list (Thread ServiceRuntime bool) * ServiceRuntime := (start None (fun _ => None) <$> schedule, first).
(** The first window has saved its candidate and not switched to it; there the
    event loop reads the configuration. *)
Definition midway : option (list (Thread ServiceRuntime bool) * ServiceRuntime) :=
  turns (replicate 16 0 ++ [2; 2; 2])%nat begun.
Definition finished : option (list (Thread ServiceRuntime bool) * ServiceRuntime) :=
  turns (replicate 16 0 ++ [2; 2; 2] ++ replicate 10 0 ++ [2; 2; 2] ++ replicate 26 1)%nat begun.
Definition through (t : Thread ServiceRuntime bool) : bool :=
  bool_decide (td_held t = []) && match td_prog t with Ret b => b | _ => false end.

Lemma through_ok threads :
  forallb through threads = true ->
  Forall (fun t => td_prog t <> Ret false) threads /\ unlocked L_ConfigurationMutation threads.
Proof.
  intros Ht. rewrite forallb_forall in Ht.
  split; apply Forall_forall; intros t Hin; apply list_elem_of_In, Ht in Hin; apply andb_true_iff in Hin as [Hh Hp].
  - intros E. by rewrite E in Hp.
  - intros m. apply bool_decide_eq_true in Hh. rewrite Hh. apply not_elem_of_nil.
Qed.

Lemma settled_witness :
  ((fun s => (saved_file s.2, sc_interval_hours (ec_schedule (sr_config s.2)))) <$> midway) = Some (Some (Contents [35; 10]), 6)
  /\ exists threads w, finished = Some (threads, w) /\ validate (sr_config w) = Ok ()
     /\ sc_interval_hours (ec_schedule (sr_config w)) = 48.
Proof.
  split; [vm_compute; reflexivity|].
  check (match finished with
         | Some (ts, w) => forallb through ts && bool_decide (sc_interval_hours (ec_schedule (sr_config w)) = 48)
         | None => false end).
  destruct finished as [[threads w]|] eqn:E; [|discriminate Hcheck]. exists threads, w.
  apply andb_true_iff in Hcheck as [[Hl Hu]%through_ok Hh%bool_decide_eq_true].
  split; [reflexivity|]. split; [|exact Hh].
  refine (proj1 (interleaved_updates_are_saved None (fun _ => None) policies schedule policy first w threads
    first_governed (or_introl (eq_refl _)) (or_intror (eq_refl _)) _ _ (turns_sound _ begun _ E) Hl Hu)).
  - intros url pending [=].
  - repeat constructor; intros p _; exact I.
Defined.
End SettledWitness.
