(* ===== verification/Secrets.v ===== *)
(** * Secrets from the request to the process

    A repository credential an administrator sets travels through the
    handler ([apps/resticpal-service/src/runtime/ipc.rs]), the protected
    store ([crates/resticpal-windows/src/credentials.rs]), the reference in
    the configuration and the resolver of the executor
    ([apps/resticpal-service/src/executor.rs]) into the environment of
    restic.  This file follows it all the way. *)
From stdpp Require Import base option list gmap strings.
From S2P Require Import Prelude RustStd Chrono Crates Config Status Schedule Policy Restic Protocol Outcome.
From S2P Require Import ServiceState Diagnostics History Credentials Management Updater Sources PolicyCache Output Executor.
From S2P Require Import Runtime Scheduler Lifecycle Enrollment Ipc Service.

Definition secret_refs_of (w : ServiceRuntime) : SecretRefs := rc_secret_refs (ec_repository (sr_config w)).

(** What a request asks for a variable: a new value or none; the outer
    [None]: nothing. *)
Definition update_value (update : RepositorySecretUpdate) : option rstr :=
  match update with SecretSet _ (Secret value) => Some value | SecretRemove _ => None end.
Fixpoint requested (updates : list RepositorySecretUpdate) (variable : SecretEnvironmentVariable)
    : option (option rstr) :=
  match updates with
  | [] => None
  | u :: updates => if decide (update_variable u = variable) then Some (update_value u) else requested updates variable
  end.

Lemma requested_none updates v : v ∉ (update_variable <$> updates) -> requested updates v = None.
Proof.
  induction updates as [|u updates IH]; cbn; [done|]. intros [Hne Hni]%not_elem_of_cons.
  rewrite decide_False by done. by apply IH.
Qed.

Lemma no_duplicate_variable seen updates :
  has_duplicate_variable seen updates = false ->
  NoDup (update_variable <$> updates) /\ forall v, v ∈ (update_variable <$> updates) -> v ∉ seen.
Proof.
  revert seen. induction updates as [|u updates IH]; intros seen; cbn [has_duplicate_variable].
  { split; [constructor|]. intros v Hv. by apply elem_of_nil in Hv. }
  case_bool_decide as Hu; [done|]. intros [Hnd Hseen]%IH. cbn. split.
  - constructor; [|done]. intros Hin%Hseen. set_solver.
  - intros v [->|Hv]%elem_of_cons; [done|]. apply Hseen in Hv. set_solver.
Qed.

(** ** The store while a request is carried out *)
Section store.
Context `{Dpapi}.

(** Every stored credential is still there. *)
Definition files_kept (files files' : CredentialFiles) : Prop :=
  forall reference contents, files !! reference = Some contents -> files' !! reference = Some contents.
#[global] Instance files_kept_preorder : PreOrder files_kept.
Proof. split; [by intros files r x|]. intros a b c Hab Hbc r x Hx. by apply Hbc, Hab. Qed.

Lemma remove_lookup io reference files files' r :
  remove io reference files = Ok files' -> r <> reference -> files' !! r = files !! r.
Proof. unfold remove. intros (_ & (_ & [= <-])%seq_Ok)%seq_Ok Hr. by rewrite lookup_delete_ne. Qed.

Lemma remove_credentials_other env references files r :
  r ∉ references -> remove_credentials env references files !! r = files !! r.
Proof.
  unfold remove_credentials. revert files. induction references as [|x references IH]; intros files Hr; cbn [fold_left]; [done|].
  apply not_elem_of_cons in Hr as [Hne Hni]. rewrite IH by done. destruct (remove _ _ _) eqn:E; [|done].
  by eapply remove_lookup.
Qed.

Lemma put_credential_kept env k prefix secret files reference files' :
  put_credential env k prefix secret files = (reference, files') -> files_kept files files'.
Proof.
  unfold put_credential. intros E r contents Hr.
  pose proof (put_new_files (env_random env k) (env_put env k) prefix secret files r contents Hr) as Hp.
  destruct (put_new _ _ _ _ _) as [[x|x] f]; injection E as _ <-; exact Hp.
Qed.

(** A resolved reference stays resolved while its file stays. *)
Lemma dpapi_resolve_stored io files reference s :
  dpapi_resolve io files reference = Ok s -> exists contents, files !! reference = Some contents.
Proof.
  unfold dpapi_resolve. intros (bytes & Hg%map_err_Ok & _)%bind_Ok. unfold get in Hg.
  do 3 apply seq_Ok in Hg as [_ Hg]. apply bind_Ok in Hg as (contents & Hf%ok_or_Ok & _). by eexists.
Qed.
Lemma dpapi_resolve_ext io files files' reference :
  files !! reference = files' !! reference -> dpapi_resolve io files reference = dpapi_resolve io files' reference.
Proof. unfold dpapi_resolve. intros E. by rewrite (get_ext io reference files files' E). Qed.

(** What the loop over the updates has done to one variable. *)
Definition changed_as (request : option (option rstr)) (before after : option rstr) (files' : CredentialFiles) : Prop :=
  match request with
  | None => after = before
  | Some None => after = None
  | Some (Some value) => exists reference, after = Some reference /\ get Read_Done reference files' = Ok (utf8 value)
  end.

Lemma changed_as_kept request before after files files' :
  files_kept files files' -> changed_as request before after files -> changed_as request before after files'.
Proof.
  intros Hk. destruct request as [[value|]|]; try done. intros (r & Hr & Hg). exists r. split; [done|].
  rewrite <- Hg. apply get_ext. unfold get in Hg. do 3 apply seq_Ok in Hg as [_ Hg].
  apply bind_Ok in Hg as (contents & Hf%ok_or_Ok & _). rewrite Hf. by apply Hk.
Qed.
End store.

Section updates.
Context `{DpapiLaws}.

Lemma put_credential_stored env k prefix secret files reference files' :
  put_credential env k prefix secret files = (Some reference, files') ->
  files !! reference = None /\ get Read_Done reference files' = Ok secret.
Proof.
  unfold put_credential. destruct (put_new _ _ _ _ _) as [[x|] f] eqn:E; [|done]. intros [= -> ->].
  by apply put_new_Ok in E as (Hf & _ & Hg & _).
Qed.

(** The files created so far were free at the start. *)
Definition created_fresh (start : CredentialFiles) (s : SecretChanges) : Prop :=
  files_kept start (sx_files s) /\ forall reference, reference ∈ sx_created s -> start !! reference = None.

Lemma apply_secret_updates_fresh env k updates s start :
  created_fresh start s ->
  match apply_secret_updates env k updates s with Ok s' => created_fresh start s' | Err s' => created_fresh start s' end.
Proof.
  revert k s. induction updates as [|[v [value]|v] updates IH]; intros k s [Hk Hc]; cbn [apply_secret_updates]; [by split|..].
  - destruct (put_credential _ _ _ _ _) as [[reference|] files] eqn:E; pose proof (put_credential_kept _ _ _ _ _ _ _ E) as Hkept.
    + apply put_credential_stored in E as [Hfree _]. apply IH. split; cbn [sx_files sx_created]; [by etransitivity|].
      intros r [Hr| ->%list_elem_of_singleton]%elem_of_app; [by apply Hc|].
      destruct (start !! reference) eqn:Es; [|done]. apply Hk in Es. congruence.
    + split; cbn [sx_files sx_created]; [by etransitivity|done].
  - apply IH. by split.
Qed.

Lemma apply_secret_updates_changed env k updates s s' :
  apply_secret_updates env k updates s = Ok s' -> btree_ok (sx_effective s) -> NoDup (update_variable <$> updates) ->
  btree_ok (sx_effective s') /\ files_kept (sx_files s) (sx_files s')
  /\ forall v, changed_as (requested updates v) (btree_get v (sx_effective s)) (btree_get v (sx_effective s')) (sx_files s').
Proof.
  revert k s. induction updates as [|[v [value]|v] updates IH]; intros k s; cbn [apply_secret_updates].
  - by intros [= <-].
  - destruct (put_credential _ _ _ _ _) as [[reference|] files] eqn:E; [|done].
    intros Ha Hok [Hni Hnd]%NoDup_cons. apply put_credential_kept in E as Hkept. apply put_credential_stored in E as [_ Hget].
    apply IH in Ha as (Hok' & Hk & Hch); [|by apply btree_insert_ok|done]. cbn [sx_effective sx_files] in *.
    split_and!; [done|by etransitivity|]. intros v'. cbn [requested update_variable]. specialize (Hch v').
    destruct (decide (v = v')) as [<-|Hne].
    + rewrite requested_none in Hch by done. cbn in Hch. rewrite Hch, btree_get_insert_eq by done.
      apply (changed_as_kept (Some (Some value)) None _ files); [done|]. by exists reference.
    + by rewrite btree_get_insert_ne in Hch.
  - intros Ha Hok [Hni Hnd]%NoDup_cons. apply IH in Ha as (Hok' & Hk & Hch); [|by apply btree_remove_ok|done].
    cbn [sx_effective sx_files] in *. split_and!; [done|done|]. intros v'. cbn [requested update_variable]. specialize (Hch v').
    destruct (decide (v = v')) as [<-|Hne].
    + rewrite requested_none in Hch by done. cbn in Hch. by rewrite Hch, btree_get_remove_eq.
    + by rewrite btree_get_remove_ne in Hch.
Qed.
End updates.

(** ** The request *)
Section request.
Context `{Chrono} `{UrlCrate} `{DpapiLaws} `{Messages}.
Context `{Serde LocalConfig} `{Serde PersistedScheduleState}.

(** What the service has for a variable: no reference ([None]), one that
    cannot be resolved, or the secret. *)
Definition secret_in_force (w : ServiceRuntime) (v : SecretEnvironmentVariable) : option (result unit rstr) :=
  dpapi_resolve Read_Done (default ∅ (sr_credential_store w)) <$> btree_get v (secret_refs_of w).

Lemma save_state_store env s w b w' : save_state env s w = (b, w') -> sr_credential_store w' = sr_credential_store w.
Proof.
  unfold save_state. destruct (sr_state_store w); [|by intros [= _ <-]]. destruct (state_save _ _ _). by intros [= _ <-].
Qed.
Lemma save_config_store env c w b w' : save_config env c w = (b, w') -> sr_credential_store w' = sr_credential_store w.
Proof.
  unfold save_config. destruct (sr_config_store w); [|by intros [= _ <-]]. destruct (config_save _ _ _). by intros [= _ <-].
Qed.
Lemma cleanup_store env references w :
  sr_credential_store (cleanup_credentials env references w) = remove_credentials env references <$> sr_credential_store w.
Proof. unfold cleanup_credentials. destruct (sr_credential_store w) eqn:E; cbn; by rewrite ?E. Qed.
Lemma send_store event w : sr_credential_store (send event w).2 = sr_credential_store w.
Proof. unfold send. by destruct (sr_receiver_alive w). Qed.

Definition is_accepted (p : ResponsePayload) : bool := match p with Resp_Accepted _ => true | _ => false end.

(** Committing either puts the new configuration in force and drops the
    retired files, or keeps the old one and drops the created files. *)
Lemma commit_repository_store env changed candidate effective created retired w p w' :
  commit_repository env changed candidate effective created retired w = Some (p, w') ->
  if is_accepted p
  then sr_config w' = effective /\ sr_credential_store w' = remove_credentials env retired <$> sr_credential_store w
  else sr_config w' = sr_config w /\ sr_credential_store w' = remove_credentials env created <$> sr_credential_store w.
Proof.
  intros E. unfold commit_repository in E.
  assert (forall w1, same_core w w1 -> sr_credential_store w1 = sr_credential_store w ->
            sr_config (cleanup_credentials env created w1) = sr_config w
            /\ sr_credential_store (cleanup_credentials env created w1) = remove_credentials env created <$> sr_credential_store w) as Hclean.
  { intros w1 Hc Hs. rewrite cleanup_store, Hs. split; [|done].
    destruct (cleanup_credentials_core env created w1) as [-> _ _ _]. apply Hc. }
  destruct (validate effective) as [[]|]; [|injection E as <- <-; by apply Hclean].
  destruct (if changed then _ else (true, w)) as [saved w1] eqn:Es in E.
  assert (same_core w w1 /\ sr_credential_store w1 = sr_credential_store w) as [Hc1 Hs1].
  { destruct changed; [|by injection Es as _ <-]. split; [by eapply save_state_eq|by eapply save_state_store]. }
  destruct (negb saved); [injection E as <- <-; by apply Hclean|].
  destruct (save_config _ _ _) as [saved' w2] eqn:E2 in E.
  apply save_config_eq in E2 as Hc2. apply save_config_store in E2 as Hs2.
  destruct (negb saved'); [injection E as <- <-; apply Hclean; [by transitivity w1|congruence]|].
  apply bind_Some in E as (s & _ & [= <- <-]). cbn [is_accepted accepted].
  rewrite send_store, cleanup_store. destruct (send_core Ev_ConfigurationChanged
    (cleanup_credentials env retired (set_sr_state s (set_sr_config effective (set_sr_local_config candidate w2))))) as [-> _ _ _].
  destruct (cleanup_credentials_core env retired
    (set_sr_state s (set_sr_config effective (set_sr_local_config candidate w2)))) as [-> _ _ _].
  cbn. split; [done|congruence].
Qed.

(** The credential step: the references change as requested, no file in use
    is among the retired ones, and the created files are new. *)
Lemma store_secrets_changed env updates candidate effective w c e created retired w1 :
  store_secrets env updates candidate effective w = Ok (c, e, created, retired, w1) ->
  btree_ok (rc_secret_refs (ec_repository effective)) -> NoDup (update_variable <$> updates) ->
  let files := default ∅ (sr_credential_store w) in
  let files' := default ∅ (sr_credential_store w1) in
  files_kept files files' /\ (forall reference, reference ∈ created -> files !! reference = None)
  /\ btree_ok (rc_secret_refs (ec_repository e))
  /\ (forall v reference, btree_get v (rc_secret_refs (ec_repository e)) = Some reference -> reference ∉ retired)
  /\ forall v, changed_as (requested updates v) (btree_get v (rc_secret_refs (ec_repository effective)))
                 (btree_get v (rc_secret_refs (ec_repository e))) files'.
Proof.
  intros E Hok Hnd. unfold store_secrets in E. destruct updates as [|u updates].
  { injection E as <- <- <- <- <-. cbv zeta. split_and!; try done; intros; set_solver. }
  destruct (sr_credential_store w) as [files|]; [|done].
  pose proof (apply_secret_updates_fresh env 0 (u :: updates) (start_changes candidate effective files) files) as Hfresh.
  destruct (apply_secret_updates _ _ _ _) as [s|] eqn:Ea; [|done]. injection E as <- <- <- <- <-. cbv zeta. cbn [default].
  destruct Hfresh as [_ Hcr]; [by split; [|intros r Hr; by apply elem_of_nil in Hr]|].
  apply apply_secret_updates_changed in Ea as (Hok' & Hk & Hch); [|done|done].
  split_and!; try done. intros v reference Hg [Hni _]%list_elem_of_filter. apply Hni.
  apply btree_get_elem in Hg. apply list_elem_of_fmap. by exists (v, reference).
Qed.

(** What cannot be stored leaves the stored credentials. *)
Lemma store_secrets_failed env updates candidate effective w w1 :
  store_secrets env updates candidate effective w = Err w1 ->
  sr_config w1 = sr_config w
  /\ files_kept (default ∅ (sr_credential_store w)) (default ∅ (sr_credential_store w1)).
Proof.
  intros E. unfold store_secrets in E. destruct updates as [|u updates]; [done|].
  destruct (sr_credential_store w) as [files|] eqn:Ef; [|injection E as <-; by rewrite Ef].
  pose proof (apply_secret_updates_fresh env 0 (u :: updates) (start_changes candidate effective files) files) as Hfresh.
  destruct (apply_secret_updates _ _ _ _) as [|s] eqn:Ea; [done|]. injection E as <-. split; [done|]. cbn [default].
  destruct Hfresh as [Hk Hcr]; [by split; [|intros r Hr; by apply elem_of_nil in Hr]|].
  intros r contents Hr. cbn in *. rewrite remove_credentials_other; [by apply Hk|]. intros Hin%Hcr. congruence.
Qed.

(** What a request does to the secret of a variable. *)
Definition secret_after (request : option (option rstr)) (before after : option (result unit rstr)) : Prop :=
  match request with
  | None => (forall s, before = Some (Ok s) -> after = Some (Ok s)) /\ (before = None -> after = None)
  | Some None => after = None
  | Some (Some value) => forallb is_scalar value = true -> after = Some (if contains_char 0 value then Err () else Ok value)
  end.

Lemma resolve_get files reference value :
  get Read_Done reference files = Ok (utf8 value) -> forallb is_scalar value = true ->
  dpapi_resolve Read_Done files reference = if contains_char 0 value then Err () else Ok value.
Proof.
  intros Hg Hv. unfold dpapi_resolve. rewrite Hg. cbn [map_err mbind result_bind]. rewrite from_utf8_utf8 by done.
  cbn [ok_or mbind result_bind]. by destruct (contains_char 0 value).
Qed.

(** Keeping the stored files keeps the secrets. *)
Lemma secrets_kept w w' v :
  sr_config w' = sr_config w -> files_kept (default ∅ (sr_credential_store w)) (default ∅ (sr_credential_store w')) ->
  secret_after None (secret_in_force w v) (secret_in_force w' v).
Proof.
  intros Hc Hk. unfold secret_in_force, secret_refs_of. rewrite Hc.
  destruct (btree_get v _) as [reference|]; cbn [fmap option_fmap option_map]; [|done]. split; [|done].
  intros s [= Hs]. f_equal. rewrite <- Hs. destruct (dpapi_resolve_stored _ _ _ _ Hs) as [contents Hf].
  apply dpapi_resolve_ext. rewrite Hf. by apply Hk.
Qed.

Lemma update_repository_secrets env dn url mode options updates identity w p w' :
  update_repository env dn url mode options updates identity w = Some (p, w') -> btree_ok (secret_refs_of w) ->
  btree_ok (secret_refs_of w')
  /\ forall v, secret_after (if is_accepted p then requested updates v else None) (secret_in_force w v) (secret_in_force w' v).
Proof.
  intros E Hok.
  assert (is_accepted p = false /\ w' = w ->
    btree_ok (secret_refs_of w') /\ forall v,
    secret_after (if is_accepted p then requested updates v else None) (secret_in_force w v) (secret_in_force w' v)) as Hrefused.
  { intros [-> ->]. split; [done|]. intros v. by apply secrets_kept. }
  unfold update_repository in E.
  repeat (cbv zeta in E; match type of E with (if ?c then Some (_, _) else _) = _ =>
            destruct c eqn:?; [injection E as <- <-; by apply Hrefused|] end).
  destruct (validate _) as [[]|] in E; [|injection E as <- <-; by apply Hrefused].
  repeat (cbv zeta in E; match type of E with (if ?c then Some (_, _) else _) = _ =>
            destruct c eqn:?; [injection E as <- <-; by apply Hrefused|] end).
  match goal with H : has_duplicate_variable _ _ = false |- _ => apply no_duplicate_variable in H as [Hnd _] end.
  match type of E with context [store_secrets ?a ?b ?c ?d ?e] => pose proof (store_secrets_core a b c d e) as Hcore end.
  destruct (store_secrets _ _ _ _ _) as [[[[[c e] created] retired] w1]|w1] eqn:Es in E, Hcore.
  2: { injection E as <- <-. apply store_secrets_failed in Es as [Hc Hk]. split; [unfold secret_refs_of; by rewrite Hc|].
       intros v. by apply secrets_kept. }
  apply store_secrets_changed in Es as (Hk & Hcr & Hok' & Hret & Hch); [|exact Hok|done]. cbv zeta in *.
  apply commit_repository_store in E. destruct (is_accepted p); destruct E as [Hc Hs].
  2: { assert (sr_config w' = sr_config w) as Hcw by (rewrite Hc; apply Hcore).
       split; [unfold secret_refs_of; by rewrite Hcw|]. intros v. apply secrets_kept; [done|]. intros r contents Hr. rewrite Hs.
       pose proof (Hk r contents Hr) as Hr'. destruct (sr_credential_store w1) as [files|]; cbn in *; [|done].
       rewrite remove_credentials_other; [done|]. intros Hin%Hcr. congruence. }
  split; [unfold secret_refs_of; by rewrite Hc|]. intros v. specialize (Hch v).
  change (changed_as (requested updates v) (btree_get v (secret_refs_of w)) (btree_get v (rc_secret_refs (ec_repository e)))
            (default ∅ (sr_credential_store w1))) in Hch. unfold secret_in_force, secret_refs_of in *. rewrite Hc, Hs.
  assert (forall reference, btree_get v (rc_secret_refs (ec_repository e)) = Some reference ->
            dpapi_resolve Read_Done (default ∅ (remove_credentials env retired <$> sr_credential_store w1)) reference
            = dpapi_resolve Read_Done (default ∅ (sr_credential_store w1)) reference) as Hsame.
  { intros reference Hg%Hret. apply dpapi_resolve_ext. destruct (sr_credential_store w1); cbn; [|done].
    by apply remove_credentials_other. }
  unfold changed_as in Hch. destruct (requested updates v) as [[value|]|]; cbn [secret_after].
  - destruct Hch as (reference & Hg & Hget). intros Hv. rewrite Hg. cbn. f_equal. rewrite (Hsame _ Hg). by apply resolve_get.
  - by rewrite Hch.
  - rewrite Hch in Hsame |- *. clear Hch.
    destruct (btree_get v (rc_secret_refs (ec_repository (sr_config w)))) as [reference|]; cbn [fmap option_fmap option_map]; [|done]. split; [|done].
    intros s [= Hr]. rewrite (Hsame _ eq_refl). f_equal. rewrite <- Hr. destruct (dpapi_resolve_stored _ _ _ _ Hr) as [contents Hf].
    apply dpapi_resolve_ext. rewrite Hf. by apply Hk.
Qed.
End request.

(** ** The process *)
Section launch.
Context `{Dpapi} `{UnicodeData} (var_os : rstr -> option rstr) (x : ResticExecutor).

Lemma resolve_secrets_spec {E} (resolve : rstr -> result E rstr) refs secrets :
  resolve_secrets resolve refs = Ok secrets ->
  secrets.*1 = refs.*1
  /\ (forall v reference, (v, reference) ∈ refs -> exists s, resolve reference = Ok s /\ (v, s) ∈ secrets)
  /\ forall v s, (v, s) ∈ secrets -> exists reference, (v, reference) ∈ refs /\ resolve reference = Ok s.
Proof.
  revert secrets. induction refs as [|[v reference] refs IH]; intros secrets; cbn [resolve_secrets].
  { intros [= <-]. split_and!; [done|..]; intros v s Hin; by apply elem_of_nil in Hin. }
  intros (s & Hs & (rest & (Hk & Hto & Hfrom)%IH & [= <-])%bind_Ok)%bind_Ok. cbn. split_and!; [by rewrite Hk|..].
  - intros v' r [[= -> ->]|Hin]%elem_of_cons; [exists s; set_solver|]. destruct (Hto _ _ Hin) as (s' & ? & ?). exists s'. set_solver.
  - intros v' s' [[= -> ->]|Hin]%elem_of_cons; [exists reference; set_solver|]. destruct (Hfrom _ _ Hin) as (r & ? & ?). exists r. set_solver.
Qed.

(** No secret has the name of an inherited variable. *)
Lemma secret_not_inherited v name : name ∈ INHERITED_ENVIRONMENT -> env_key (secret_as_str v) <> env_key name.
Proof.
  unfold INHERITED_ENVIRONMENT. intros Hin E.
  repeat (apply elem_of_cons in Hin as [->|Hin]; [by destruct v|]). by apply elem_of_nil in Hin.
Qed.

Lemma builds_environment executable config exclusions inv :
  builds executable config exclusions inv ->
  (exists url, inv_environment inv = [(lit "RESTIC_REPOSITORY", url)])
  /\ inv_secret_environment inv = rc_secret_refs (ec_repository config).
Proof.
  intros [excl i Hb|i Hb|op i Hb|op i Hb|op i Hb].
  { apply backup_accepts_iff_aux in Hb as (_ & _ & _ & url & _ & -> & _). split; [by exists url|done]. }
  { apply builder_steps in Hb as (_ & _ & url & _ & [= <-]). split; [by exists url|done]. }
  all: apply seq_Ok in Hb as [_ Hb]; apply builder_steps in Hb as (_ & _ & url & _ & [= <-]); (split; [by exists url|done]).
Qed.

(** A started process has the secrets in force, all of them and no others. *)
Lemma launched_secrets executable config exclusions inv l refs :
  builds executable config exclusions inv -> launch_of var_os x inv l ->
  refs = rc_secret_refs (ec_repository config) -> btree_ok refs ->
  forall v, Ok <$> la_environment l !! env_key (secret_as_str v) = rx_secrets x <$> btree_get v refs.
Proof.
  intros [[url Hurl] Hse]%builds_environment (secrets & Hres & ->) -> Hok v. rewrite Hse in Hres.
  apply resolve_secrets_spec in Hres as (Hk & Hto & Hfrom).
  assert (NoDup (fst <$> secrets)) as Hnd by (rewrite Hk; by apply btree_ok_NoDup).
  destruct (restic_environment var_os inv secrets (rx_cache_directory x) url Hnd Hurl) as (_ & _ & Hin & Hfro).
  cbn [la_environment command_for]. destruct (btree_get v _) as [reference|] eqn:Hg.
  - destruct (Hto v reference) as (s & Hs & Hvs); [by apply btree_get_elem|]. rewrite (Hin _ _ Hvs). cbn. by rewrite Hs.
  - destruct (command_environment _ _ _ _ !! _) as [value|] eqn:Hl; [|done]. exfalso. pose proof (env_key_inj_fixed v).
    apply Hfro in Hl as [(name & Hn & Hnk & _)|[(v' & Hvs & Hkk)|Hfixed]]; [by eapply secret_not_inherited| |naive_solver].
    apply secret_name_inj in Hkk as <-. destruct (Hfrom _ _ Hvs) as (r & Hr & _).
    rewrite (btree_elem_get v r _ Hok Hr) in Hg. done.
Qed.
End launch.

Section reach.
Context `{Chrono} `{UrlCrate} `{DpapiLaws} `{UnicodeData} `{Messages}.
Context `{Serde LocalConfig} `{Serde PersistedScheduleState}.

(** C9: the credentials an administrator sends are the ones restic is started
    with.  After an accepted change, every process built from the new
    configuration has, under the variable's own name, exactly the value sent
    for each secret that was set, nothing for each that was removed, and the
    old value for every other one, even when several variables share a
    stored credential; after a refused change, whatever failed on the way,
    every process still has the old values. *)
Theorem secrets_reach_restic (env : Env) (dn url : option rstr) (mode : option RepositoryMode) (options : option Options)
    (updates : list RepositorySecretUpdate) (identity : ClientIdentity) (w w' : ServiceRuntime) (p : ResponsePayload)
    (var_os : rstr -> option rstr) (x : ResticExecutor) (executable : rstr) (exclusions : list rstr)
    (inv : ResticInvocation) (l : Launch)
    (Hrun : update_repository env dn url mode options updates identity w = Some (p, w'))
    (Hrefs : btree_ok (secret_refs_of w))
    (Hresolver : rx_secrets x = dpapi_resolve Read_Done (default ∅ (sr_credential_store w')))
    (Hbuilt : builds executable (sr_config w') exclusions inv) (Hlaunch : launch_of var_os x inv l) :
  forall v, secret_after (if is_accepted p then requested updates v else None) (secret_in_force w v)
              (Ok <$> la_environment l !! env_key (secret_as_str v)).
Proof.
  apply update_repository_secrets in Hrun as [Hok Hafter]; [|done]. intros v.
  rewrite (launched_secrets var_os x executable (sr_config w') exclusions inv l (secret_refs_of w') Hbuilt Hlaunch eq_refl Hok v).
  rewrite Hresolver. apply Hafter.
Qed.
End reach.

(** ** Evaluated example *)
Module SecretsWitness.
Import ChronoExample UrlExample ServiceWitness.
#[local] Existing Instances ResticWitness.ascii_unicode CredentialsWitness.toy_dpapi CredentialsWitness.toy_dpapi_laws
  no_messages entries_serde persisted_serde.

(** A device with a repository, one stored key and a password reference that shares it. *)
Definition local : LocalConfig :=
  set_lc_repository
    {| lr_display_name := None; lr_url := Some (lit "s3:local/bucket"); lr_mode := None; lr_options := None;
       lr_secret_refs := Some [(ResticPassword, lit "shared"); (AwsSecretAccessKey, lit "shared")] |} LocalConfig_default.
#[local] Instance local_serde : Serde LocalConfig :=
  {| serialize := fun _ => Some [35]; deserialize := fun _ => Some local |}.
Definition credentials : CredentialFiles := {[ lit "shared" := FILE_MAGIC ++ 7 :: lit "old" ]}.
Definition random_env : Env :=
  {| env_now := env_now env; env_config_ok := true; env_state_ok := true; env_cache_ok := true; env_history_ok := true;
     env_log_now := env_log_now env; env_log_io := env_log_io env; env_log_torn := env_log_torn env;
     env_random := fun _ _ => Some CredentialsWitness.sixteen; env_put := fun _ _ => Some Write_Done;
     env_remove_ok := fun _ => true |}.
Definition running : ServiceRuntime :=
  match load_with_credentials_and_policy random_env (lit "C:\ProgramData\resticpal\config.toml") disk (Some credentials) None with
  | Some (Ok w) => w
  | _ => configuration_error random_env [] disk None
  end.
Definition new_password : list RepositorySecretUpdate := [SecretSet ResticPassword (Secret (lit "hunter2"))].
Definition response : option (ResponsePayload * ServiceRuntime) :=
  update_repository random_env None None None None new_password administrator running.
Definition changed : ServiceRuntime := match response with Some (_, w) => w | None => running end.
Definition payload : ResponsePayload := match response with Some (p, _) => p | None => administrator_required end.
Definition executor : ResticExecutor :=
  ResticExecutor_new (lit "restic.exe") (lit "C:\ProgramData\resticpal")
    (dpapi_resolve Read_Done (default ∅ (sr_credential_store changed))).
Definition probe : ResticInvocation :=
  match repository_setup (lit "restic.exe") (sr_config changed) Probe with Ok inv => inv | Err _ => SourcesWitness.inv end.
Definition process : Launch :=
  command_for (fun _ => None) executor probe [(ResticPassword, lit "hunter2"); (AwsSecretAccessKey, lit "old")].

Lemma running_refs : btree_ok (secret_refs_of running).
Proof.
  assert (secret_refs_of running = [(ResticPassword, lit "shared"); (AwsSecretAccessKey, lit "shared")]) as ->
    by (vm_compute; reflexivity).
  repeat constructor.
Qed.
Lemma response_eq : response = Some (payload, changed).
Proof. unfold payload, changed. check (is_some response). destruct response as [[]|]; [reflexivity|discriminate Hcheck]. Qed.

(** The new password reaches restic, and so does the key it used to share a file with. *)
Lemma secrets_reach_witness :
  Ok <$> la_environment process !! env_key (secret_as_str ResticPassword) = Some (Ok (E := unit) (lit "hunter2"))
  /\ Ok <$> la_environment process !! env_key (secret_as_str AwsSecretAccessKey) = Some (Ok (E := unit) (lit "old")).
Proof.
  assert (is_accepted payload = true) as Hp by (vm_compute; reflexivity).
  assert (repository_setup (lit "restic.exe") (sr_config changed) Probe = Ok probe) as Hprobe.
  { unfold probe. check (is_ok (repository_setup (lit "restic.exe") (sr_config changed) Probe)).
    destruct (repository_setup _ _ _); [reflexivity|discriminate Hcheck]. }
  assert (resolve_secrets (rx_secrets executor) (inv_secret_environment probe)
          = Ok [(ResticPassword, lit "hunter2"); (AwsSecretAccessKey, lit "old")]) as Hres by (vm_compute; reflexivity).
  pose proof (secrets_reach_restic random_env None None None None new_password
    administrator running changed payload (fun _ => None) executor (lit "restic.exe") [] probe process response_eq running_refs
    eq_refl (builds_setup _ _ _ _ Hprobe) (ex_intro _ _ (conj Hres eq_refl))) as Hreach.
  rewrite Hp in Hreach. split.
  - exact (Hreach ResticPassword ltac:(vm_compute; reflexivity)).
  - exact (proj1 (Hreach AwsSecretAccessKey) (lit "old") ltac:(vm_compute; reflexivity)).
Defined.
End SecretsWitness.
