(* ===== verification/Progress.v ===== *)
(** * The service keeps going

    With a clock inside the representable range, no request and no completion
    panics; a finished backup leaves the backoff it should; an evaluation that
    starts nothing sleeps ([apps/resticpal-service/src/runtime/*.rs]). *)
From stdpp Require Import base option list gmap strings.
From S2P Require Import Prelude RustStd Chrono Crates Config Status Schedule Policy Restic Protocol Outcome.
From S2P Require Import ServiceState Diagnostics History Credentials Management Updater Sources PolicyCache.
From S2P Require Import Runtime Scheduler Lifecycle Enrollment Ipc Service.

(** ** Totality of the runtime *)
Section total.
Context `{ChronoLaws} `{UrlCrate} `{CryptoCrates} `{Dpapi} `{UnicodeData} `{Filesystem} `{Messages} `{Base64Standard}.
Context `{Serde LocalConfig} `{Serde PersistedScheduleState} `{Serde DiagnosticEntry} `{Serde CachedManifest}.
Context {exemption : Exempt}.

Definition valid_instant (t : option DateTime) : Prop := forall x, t = Some x -> valid_datetime x.

(** What the machine types and the clock give: representable instants, a
    [u64] grace period and a [u32] failure count. *)
Record well_timed (w : ServiceRuntime) : Prop := {
  wt_last_success : valid_instant (ss_last_success (rt_status (sr_state w)));
  wt_resumed_at : valid_instant (rt_resumed_at (sr_state w));
  wt_grace : 0 <= sc_wake_grace_seconds (ec_schedule (sr_config w));
  wt_failures : 0 <= rt_consecutive_failures (sr_state w) <= u32_max
}.

(** A clock with a few hours left before the last representable instant. *)
Definition clock_ok (now : DateTime) : Prop := valid_datetime now /\ valid_datetime (now + minutes 320).

Lemma clock_near now d : clock_ok now -> 0 <= d <= minutes 320 -> datetime_add now d = Some (now + d).
Proof. intros [Hn Hl] Hd. apply datetime_add_in; [done|]. unfold valid_datetime in *. lia. Qed.

Lemma small_seconds n : 0 <= n <= 1000000 -> duration_seconds n = Some (seconds n).
Proof. intros Hn. apply duration_seconds_small. unfold i64_max. split; [lia|apply Z.div_le_lower_bound; lia]. Qed.

Lemma small_days n : 0 <= n <= 365 -> duration_days n = Some (days n).
Proof.
  intros Hn. unfold duration_days, days. apply duration_seconds_small. unfold i64_max.
  split; [lia|apply Z.div_le_lower_bound; lia].
Qed.

Lemma validated_schedule c : validate c = Ok () -> 0 <= sc_wake_grace_seconds (ec_schedule c) -> valid_schedule (ec_schedule c).
Proof. intros Hv%validate_iff Hg. destruct Hv. split; [done|lia]. Qed.

Lemma apply_configuration_status_total config now s :
  validate config = Ok () -> valid_datetime now -> valid_instant (ss_last_success (rt_status s)) ->
  is_Some (apply_configuration_status config now s).
Proof.
  intros Hv Hn Hl. unfold apply_configuration_status. destruct (is_configured config); [|by eexists].
  destruct (negb _); [by eexists|].
  rewrite completion_deadline_eq by (by try apply validated_interval). cbn [mbind option_bind]. by eexists.
Qed.

(** [past_guards]: the early returns are results. *)
Ltac past_guards :=
  repeat (cbv zeta; match goal with |- is_Some (if ?c then _ else _) => destruct c eqn:?; [by eexists|] end).

Lemma commit_configuration_total env candidate effective message s w :
  validate effective = Ok () -> valid_datetime (env_now env 1) -> valid_instant (ss_last_success (rt_status s)) ->
  is_Some (commit_configuration env candidate effective message s w).
Proof.
  intros Hv Hn Hl. unfold commit_configuration.
  destruct (apply_configuration_status_total effective (env_now env 1) s Hv Hn Hl) as [s' ->]. by eexists.
Qed.

Context (env : Env) (Hclock : forall k, valid_datetime (env_now env k)).

Lemma core_last_success w w' :
  same_core w w' -> well_timed w -> valid_instant (ss_last_success (rt_status (sr_state w'))).
Proof. intros [_ _ _ ->] []. done. Qed.

Lemma update_schedule_total a b c d e identity w :
  well_timed w -> is_Some (update_schedule env a b c d e identity w).
Proof.
  intros Hw. unfold update_schedule. past_guards. destruct (validate _) as [[]|] eqn:Hv; [|by eexists]. past_guards.
  destruct (save_config _ _ _) as [saved w1] eqn:Es. apply save_config_eq in Es. past_guards.
  apply commit_configuration_total; [done..|by eapply core_last_success].
Qed.

Lemma update_backup_sources_total paths exclusions identity w :
  well_timed w -> is_Some (update_backup_sources env paths exclusions identity w).
Proof.
  intros Hw. unfold update_backup_sources. past_guards.
  destruct (validate_backup_source_paths _ _); [|by eexists].
  destruct (validate _) as [[]|] eqn:Hv; [|by eexists]. past_guards.
  destruct (save_config _ _ _) as [saved w1] eqn:Es. apply save_config_eq in Es. past_guards.
  apply commit_configuration_total; [done..|by eapply core_last_success].
Qed.

Lemma commit_repository_total changed candidate effective created retired w :
  valid_instant (ss_last_success (rt_status (sr_state w))) ->
  is_Some (commit_repository env changed candidate effective created retired w).
Proof.
  intros Hl. unfold commit_repository. destruct (validate effective) as [[]|] eqn:Hv; [|by eexists]. cbv zeta.
  set (next := if changed then require_repository_validation _ else _).
  destruct (if changed then save_state env next w else (true, w)) as [saved w1] eqn:Es.
  assert (same_core w w1) as Hcore1 by (destruct changed; [by eapply save_state_eq|by injection Es as <- <-]).
  past_guards. destruct (save_config _ _ _) as [saved' w2] eqn:Ec. apply save_config_eq in Ec. past_guards.
  assert (same_core w w2) as [_ _ _ Hs] by (by transitivity w1).
  set (s := if changed then _ else sr_state w2).
  destruct (apply_configuration_status_total effective (env_now env 1) s Hv (Hclock 1)) as [s' ->]; [|by eexists].
  subst s. destruct changed; cbn; by rewrite Hs.
Qed.

Lemma update_repository_total display_name url mode options updates identity w :
  well_timed w -> is_Some (update_repository env display_name url mode options updates identity w).
Proof.
  intros Hw. unfold update_repository. past_guards. destruct (validate _) as [[]|]; [|by eexists]. past_guards.
  pose proof (store_secrets_core env updates
    (repository_candidate (nonempty_trimmed <$> display_name) (nonempty_trimmed <$> url) mode options (sr_local_config w))
    (repository_effective (nonempty_trimmed <$> display_name) (nonempty_trimmed <$> url) mode options (sr_config w)) w) as Hcore.
  destruct (store_secrets _ _ _ _ _) as [[[[[c e] created] retired] w1]|w1]; [|by eexists].
  apply commit_repository_total. by eapply core_last_success.
Qed.

Lemma hold_deadline_total now n : 0 <= n <= 1000000 -> is_Some (hold_deadline now n).
Proof. intros Hn. unfold hold_deadline. rewrite small_seconds by done. by eexists. Qed.

Lemma prepare_for_update_total hold identity w : is_Some (prepare_for_update env hold identity w).
Proof.
  unfold prepare_for_update. past_guards.
  destruct (hold_deadline_total (env_now env 0) hold) as [d ->]; [|by eexists].
  match goal with Hr : negb (in_range _ _ hold) = false |- _ => apply negb_false_iff, in_range_true in Hr end.
  unfold MIN_UPDATE_HOLD_SECONDS, MAX_UPDATE_HOLD_SECONDS, UPDATE_INSTALL_TIMEOUT_SECONDS in *. lia.
Qed.

Lemma begin_update_install_total package identity w : is_Some (begin_update_install env package identity w).
Proof.
  unfold begin_update_install. past_guards.
  destruct (hold_deadline_total (env_now env 0) MAX_UPDATE_HOLD_SECONDS) as [d ->]; [by split|by eexists].
Qed.

Lemma defer_backup_total n w : is_Some (defer_backup env n w).
Proof.
  unfold defer_backup. past_guards. unfold duration_minutes.
  match goal with Hr : negb (in_range _ _ n) = false |- _ => apply negb_false_iff, in_range_true in Hr end.
  rewrite small_seconds by lia. by eexists.
Qed.

Lemma install_resolved_total resolved now w :
  validate (rv_effective resolved) = Ok () -> valid_datetime now ->
  valid_instant (ss_last_success (rt_status (sr_state w))) -> is_Some (install_resolved resolved now w).
Proof.
  intros Hv Hn Hl. unfold install_resolved.
  destruct (apply_configuration_status_total (rv_effective resolved) now
              (on_status (set_ss_managed_revision (rv_managed_revision resolved)) (sr_state w)) Hv Hn Hl) as [s ->].
  by eexists.
Qed.

Lemma require_validation_for_status next w :
  rt_status (sr_state (require_validation_for env next w)) = rt_status (sr_state w).
Proof.
  unfold require_validation_for. destruct (repository_requires_validation _ _); [|done].
  by destruct (save_state _ _ _).
Qed.

Lemma commit_enrollment_total pending w : well_timed w -> is_Some (commit_enrollment env pending w).
Proof.
  intros Hw. unfold commit_enrollment.
  destruct (sr_credential_store w) as [files|]; [|by eexists]. destruct (sr_config_store w) as [store|]; [|by eexists].
  destruct (store_enrollment _ _ _ _) as [[candidate created] files'].
  destruct candidate as [candidate|]; [|by eexists]. past_guards.
  destruct (resolve_config _ _ _) as [resolved|] eqn:Hr; [|by eexists].
  destruct (save_config _ _ _) as [saved w1] eqn:Es. apply save_config_eq in Es. past_guards.
  set (w2 := save_cache _ _ _ w1).
  destruct (install_resolved_total resolved (env_now env 1) (require_validation_for env (rv_effective resolved) w2))
    as [w3 ->]; [by eapply resolve_config_valid|done| |by eexists].
  rewrite require_validation_for_status. eapply core_last_success; [|done]. transitivity w1; [done|]. apply save_cache_core.
Qed.

Lemma unenroll_total identity w : well_timed w -> is_Some (unenroll env identity w).
Proof.
  intros Hw. unfold unenroll, unenroll_commit. past_guards. destruct (sr_config_store w); [|by eexists]. past_guards.
  destruct (resolve_config _ _ _) as [resolved|] eqn:Hr; [|by eexists].
  destruct (save_config _ _ _) as [saved w1] eqn:Es. apply save_config_eq in Es. past_guards. cbn [mbind option_bind].
  edestruct (apply_configuration_status_total (rv_effective resolved) (env_now env 1)) as [s Ha];
    [by eapply resolve_config_valid|done| |rewrite Ha; by eexists].
  cbn. assert (same_core w (remove_cache env w1)) as Hcore by (transitivity w1; [done|apply remove_cache_core]).
  by eapply core_last_success.
Qed.

Lemma enroll_total env0 client url identity w :
  well_timed w -> is_Some (enroll env0 env client url identity w).
Proof.
  intros Hw. unfold enroll. past_guards. destruct (from_utf8 url) as [url'|]; [|by eexists].
  unfold begin_enrollment. destruct (operation_active _ _); [by eexists|].
  destruct (client url') as [pending|]; [|by eexists].
  set (w1 := set_sr_state _ w). destruct (commit_enrollment_total pending w1) as [[outcome w2] ->]; [|by eexists].
  by destruct Hw.
Qed.

(** *** Completions *)
Lemma begin_retention_total now w : service_ok w -> is_Some (begin_retention env now w).
Proof.
  intros [Hv _]. unfold begin_retention. past_guards. apply validate_iff in Hv. destruct Hv.
  rewrite small_days by lia. by eexists.
Qed.

Lemma finish_repository_operation_total operation outcome w :
  service_ok w -> well_timed w -> is_Some (finish_repository_operation env operation outcome w).
Proof.
  intros [Hv _] [Hl _ _ _]. unfold finish_repository_operation. past_guards.
  assert (forall status service (f : RuntimeState -> ServiceRuntime), is_Some (
    s ← apply_configuration_status (sr_config w) (env_now env 0)
           (set_rt_repository_operation status (set_rt_service_state service (sr_state w))); Some (f s))) as Hs.
  { intros status service f. edestruct (apply_configuration_status_total (sr_config w) (env_now env 0)) as [s Ha];
      [done..| |rewrite Ha; by eexists]. done. }
  destruct outcome; [destruct (save_state _ _ _)|..]; apply Hs.
Qed.

(** *** The end of a backup *)

(** The pause after a failed or cancelled run, for the number of failures in a row. *)
Definition backoff_minutes (failures : Z) : Z := 5 * 2 ^ Z.min (Z.max 0 (failures - 1)) 6.

Lemma retry_minutes_eq n : retry_minutes n = backoff_minutes n.
Proof.
  unfold retry_minutes, backoff_minutes, saturating_sub, INITIAL_FAILURE_RETRY_MINUTES, MAX_FAILURE_BACKOFF_EXPONENT.
  rewrite Z.shiftl_1_l. done.
Qed.

Lemma backoff_bounds n : 5 <= backoff_minutes n <= 320.
Proof.
  unfold backoff_minutes. set (e := Z.min _ 6). assert (0 <= e <= 6) as He by lia.
  pose proof (Z.pow_le_mono_r 2 0 e ltac:(lia) ltac:(lia)). pose proof (Z.pow_le_mono_r 2 e 6 ltac:(lia) ltac:(lia)).
  change (2 ^ 0) with 1 in *. change (2 ^ 6) with 64 in *. lia.
Qed.

(** What the runtime remembers of a finished run. *)
Definition remembers (now : DateTime) (outcome : BackupOutcome) (w w' : ServiceRuntime) : Prop :=
  let s := sr_state w in
  let s' := sr_state w' in
  ss_state (rt_status s') = state_of_outcome outcome
  /\ ss_state_since (rt_status s') = now /\ ss_progress (rt_status s') = None
  /\ sr_config w' = sr_config w /\ rt_repository_operation s' = rt_repository_operation s
  /\ if outcome_is_success outcome then
       ss_last_success (rt_status s') = Some now /\ st_last_success (rt_service_state s') = Some now
       /\ rt_consecutive_failures s' = 0 /\ rt_not_before s' = None
       /\ (valid_datetime (now + hours (sc_interval_hours (ec_schedule (sr_config w)))) ->
           ss_next_deadline (rt_status s') = Some (now + hours (sc_interval_hours (ec_schedule (sr_config w)))))
     else
       ss_last_success (rt_status s') = ss_last_success (rt_status s) /\ rt_service_state s' = rt_service_state s
       /\ rt_consecutive_failures s'
          = (match bo_kind outcome with
             | OK_Failed _ => Z.min u32_max (rt_consecutive_failures s + 1)
             | _ => rt_consecutive_failures s
             end)
       /\ let pause := backoff_minutes (rt_consecutive_failures s') in
          5 <= pause <= 320 /\ rt_not_before s' = Some (now + minutes pause)
          /\ ss_next_deadline (rt_status s') = Some (now + minutes pause).

Lemma backoff_retry now n :
  clock_ok now ->
  exists r, duration_minutes (retry_minutes n) = Some r /\ datetime_add now r = Some (now + minutes (backoff_minutes n)).
Proof.
  intros Hn. pose proof (backoff_bounds n). rewrite retry_minutes_eq. unfold duration_minutes.
  rewrite small_seconds by lia. eexists. split; [done|].
  apply clock_near; [done|]. unfold minutes, seconds, ns_per_second. lia.
Qed.

(** The stores a completion writes are not the state it leaves. *)
Lemma finish_backup_at_state now outcome w s :
  finish_backup_state now (sc_interval_hours (ec_schedule (sr_config w))) outcome (sr_state w) = Some s ->
  exists w', finish_backup_at env now outcome w = Some w' /\ sr_state w' = s /\ sr_config w' = sr_config w.
Proof.
  intros E. unfold finish_backup_at. rewrite E. cbn [mbind option_bind]. cbv zeta. eexists. split; [reflexivity|].
  set (w1 := match sr_history_store _ with None => _ | Some _ => _ end).
  assert (same_core (set_sr_state s w) w1) as Hw1 by (subst w1; by destruct (sr_history_store _)).
  set (w2 := if outcome_is_success outcome then _ else w1).
  assert (same_core w1 w2) as Hw2 by (subst w2; destruct (outcome_is_success outcome); [apply save_state_core|done]).
  assert (forall l i m c, same_core (set_sr_state s w) (record_diagnostic env l i m c w2)) as Hr.
  { intros. transitivity w1; [done|]. transitivity w2; [done|]. apply record_diagnostic_core. }
  by destruct (bo_kind outcome); edestruct Hr as [Hc _ _ Hs].
Qed.

(** When a backup ends the service always records it: a success
    becomes the last success, clears the backoff and schedules the next run
    one interval later; a failure or a cancellation keeps the last success
    and pauses for five minutes doubled with every failure in a row, never
    more than 320, with the failure count saturating. *)
Theorem finish_backup_outcome (now : DateTime) (outcome : BackupOutcome) (w : ServiceRuntime)
    (Hok : service_ok w) (Htimed : well_timed w) (Hnow : clock_ok now) :
  exists w', finish_backup_at env now outcome w = Some w' /\ remembers now outcome w w'.
Proof.
  destruct Hok as [Hv _], Htimed as [_ _ _ Hf].
  assert (exists s, finish_backup_state now (sc_interval_hours (ec_schedule (sr_config w))) outcome (sr_state w) = Some s
                    /\ remembers now outcome w (set_sr_state s w)) as (s & Es & Hs).
  { unfold finish_backup_state, remembers. destruct (outcome_is_success outcome).
    - rewrite completion_deadline_eq; [|by apply validated_interval|apply Hnow|intros t [= <-]; apply Hnow].
      cbn [mbind option_bind]. eexists. split; [reflexivity|]. cbn. split_and!; try done. intros Hd.
      rewrite Z.min_id. by apply in_range_true in Hd as ->.
    - cbv zeta. set (s := match bo_kind outcome with OK_Failed _ => _ | _ => _ end).
      destruct (backoff_retry now (rt_consecutive_failures s) Hnow) as (r & -> & Ha). cbn [mbind option_bind].
      rewrite Ha. cbn [mbind option_bind]. eexists. split; [reflexivity|]. pose proof (backoff_bounds (rt_consecutive_failures s)).
      subst s. cbn. by destruct (bo_kind outcome). }
  destruct (finish_backup_at_state now outcome w s Es) as (w' & E & Hst & Hc). exists w'. split; [done|].
  unfold remembers in *. cbn in Hs. by rewrite Hst, Hc.
Qed.
End total.

(** ** The event loop *)
Section loop.
Context `{ChronoLaws} `{UrlCrate} `{CryptoCrates} `{Dpapi} `{UnicodeData} `{Filesystem} `{Messages} `{Base64Standard}.
Context `{Serde LocalConfig} `{Serde PersistedScheduleState} `{Serde DiagnosticEntry} `{Serde CachedManifest}.
Context {exemption : Exempt}.

Lemma release_hold_frame now s :
  rt_resumed_at (release_hold now s) = rt_resumed_at s
  /\ ss_last_success (rt_status (release_hold now s)) = ss_last_success (rt_status s)
  /\ rt_repository_operation (release_hold now s) = rt_repository_operation s
  /\ rt_management_operation_active (release_hold now s) = rt_management_operation_active s
  /\ rt_update_install_active (release_hold now s) = rt_update_install_active s.
Proof.
  unfold release_hold, restore_held_status. case_bool_decide; [|done].
  by destruct (rt_update_hold_previous_status _) as [[]|].
Qed.

(** The loop sleeps a minute, or until an instant that is still ahead. *)
Definition sleeps (now : DateTime) (w : ServiceRuntime) : Prop :=
  next_evaluation_delay now w = 60_000
  \/ exists d, ss_next_deadline (rt_status (sr_state w)) = Some d /\ now < d
       /\ next_evaluation_delay now w = num_milliseconds (d - now).

Lemma sleeps_until now w d :
  ss_next_deadline (rt_status (sr_state w)) = Some d -> now < d -> sleeps now w.
Proof.
  intros Hd Hlt. unfold sleeps, next_evaluation_delay. rewrite Hd.
  assert (Z.max (num_milliseconds (d - now)) 0 = num_milliseconds (d - now)) as ->.
  { unfold num_milliseconds. pose proof (Z.quot_pos (d - now) 1_000_000 ltac:(lia) ltac:(lia)). lia. }
  destruct (rt_management_operation_active _); [by left|].
  destruct (ss_state _) as [| |[]| | | | | |]; try (by left); right; by exists d.
Qed.

Lemma transition_state_state next now s : ss_state (transition_state next now s) = next.
Proof. unfold transition_state. by case_bool_decide. Qed.

(** A decision that does not start a backup leaves a moment to wait for. *)
Lemma follow_decision_sleeps config now conditions s d w :
  decision_spec (ec_schedule config) (snapshot_of config now conditions s) d ->
  match follow_decision d now s with
  | (Action_Start _, s') => is_running (ss_state (rt_status s')) = true
  | (Action_None, s') => is_running (ss_state (rt_status s')) = true \/ sleeps now (set_sr_state s' w)
  end.
Proof.
  destruct d as [|next|t blockers retry_at|t]; cbn [decision_spec follow_decision].
  - by left.
  - intros (_ & _ & _ & Hlt). right. apply (sleeps_until _ _ next); [|exact Hlt]. cbn.
    destruct (is_waiting _); [|done]. unfold transition_state, on_status. cbn. by case_bool_decide.
  - intros (_ & _ & _ & Hne & Hb & Hr). right. destruct retry_at as [r|].
    + destruct Hr as [Hlt _]. by apply (sleeps_until _ _ r).
    + left. destruct blockers as [|b bs]; [done|]. assert (b <> WakeGrace) as Hw.
      { intros ->. apply Hr, Hb. constructor. }
      unfold next_evaluation_delay. cbn. destruct (rt_management_operation_active s); [done|].
      rewrite transition_state_state. by destruct b.
  - done.
Qed.

(** C30: an evaluation of the schedule always returns, and the event loop
    cannot spin on it: for a configured service with a ready repository it
    either starts a backup, finds one running, or leaves a wake-up a minute
    away or at an instant after now, also during enrollments, update holds
    and installations. *)
Theorem evaluation_never_spins (now : DateTime) (conditions : SystemConditions) (w : ServiceRuntime)
    (Hok : service_ok w) (Htimed : well_timed w) (Hnow : clock_ok now) :
  exists action w', evaluate_schedule now conditions w = Some (action, w')
    /\ match action with
       | Action_Start _ => is_running (ss_state (rt_status (sr_state w'))) = true
       | Action_None =>
           is_configured (sr_config w) = true ->
           repository_operation_allows_backup (rt_repository_operation (sr_state w)) = true ->
           is_running (ss_state (rt_status (sr_state w'))) = true \/ sleeps now w'
       end.
Proof.
  destruct Hok as [Hv _], Htimed as [Hl Hr Hg _]. unfold evaluate_schedule, evaluate_state.
  destruct (rt_update_install_active (sr_state w)).
  { rewrite small_seconds by (by split). cbn [mbind option_bind].
    rewrite clock_near by (done || by split). cbn [mbind option_bind]. eexists _, _. split; [done|]. intros _ _. right.
    eapply sleeps_until; [done|]. cbn. unfold seconds, ns_per_second, CONDITION_RETRY_SECONDS. lia. }
  destruct (held_at _ now) eqn:Hh.
  { eexists _, _. split; [done|]. intros _ _. right. unfold held_at in Hh.
    destruct (rt_update_hold_until _) as [d|] eqn:Hu; [|done]. eapply sleeps_until; [done|]. lia. }
  pose proof (release_hold_frame now (sr_state w)) as (Hr1 & Hl1 & Ho1 & Hm1 & _).
  set (s1 := release_hold now (sr_state w)) in *. clearbody s1.
  destruct (is_configured (sr_config w)); cbn [negb]; [|eexists _, _; by split].
  destruct (rt_management_operation_active s1) eqn:Hm.
  { eexists _, _. split; [done|]. intros _ _. right. left. unfold next_evaluation_delay. cbn. by rewrite Hm. }
  rewrite Ho1. destruct (repository_operation_allows_backup _); cbn [negb]; [|eexists _, _; by split].
  destruct (decide_correct_aux (ec_schedule (sr_config w)) (snapshot_of (sr_config w) now conditions s1)) as (d & Hd & Hspec).
  { by apply validated_schedule. }
  { constructor; cbn; [apply Hnow|by rewrite Hl1|by rewrite Hr1]. }
  rewrite Hd. cbn [mbind option_bind]. apply (follow_decision_sleeps _ _ _ _ _ w) in Hspec.
  destruct (follow_decision d now s1) as [a s2]. eexists _, _. split; [done|]. by destruct a.
Qed.

Context (discover : option (list DiscoveredBackupSource)) (client : rstr -> option PendingEnrollment).

(** C33: every request gets a response that carries its own identifier:
    whatever the command, the caller, the I/O failures and the result of an
    enrollment, no handler panics on a service with representable instants. *)
Theorem requests_always_answered (env env' : Env) (request : Request) (identity : ClientIdentity) (w : ServiceRuntime)
    (Htimed : well_timed w) (Hclock : forall k, valid_datetime (env_now env k) /\ valid_datetime (env_now env' k)) :
  exists response w', handle_request discover client env env' request identity w = Some (response, w')
    /\ rs_request_id response = rq_request_id request /\ rs_protocol_version response = PROTOCOL_VERSION.
Proof.
  assert (is_Some (handle_command discover client env env' (rq_command request) identity w)) as [[p w'] E].
  { assert (forall k, valid_datetime (env_now env k)) as He by (intros k; apply Hclock).
    assert (forall k, valid_datetime (env_now env' k)) as He' by (intros k; apply Hclock).
    destruct (rq_command request); cbn [handle_command answer]; try (by eexists).
    - by apply enroll_total.
    - by apply unenroll_total.
    - by apply update_backup_sources_total.
    - by apply update_repository_total.
    - by apply update_schedule_total.
    - by apply defer_backup_total.
    - by apply prepare_for_update_total.
    - by apply begin_update_install_total. }
  unfold handle_request. rewrite E. by eexists _, _.
Qed.

(** A reported repository operation is always recorded and is over;
    the repository becomes usable exactly when the operation succeeded and
    the verification could be saved, and it is then verified for the
    connection in use; a report for an operation that is not running
    changes nothing. *)
Theorem repository_operation_result (env : Env) (operation : RepositoryOperationKind)
    (outcome : RepositoryOutcome) (w : ServiceRuntime) (Hok : service_ok w) (Htimed : well_timed w)
    (Hclock : forall k, valid_datetime (env_now env k)) :
  exists w', finish_repository_operation env operation outcome w = Some w'
    /\ if bool_decide (rt_repository_operation (sr_state w) = RO_Running operation) then
         let verified := mark_repository_verified (rt_service_state (sr_state w)) (sr_config w) (env_now env 0) in
         repository_operation_running (rt_repository_operation (sr_state w')) = false
         /\ (repository_operation_allows_backup (rt_repository_operation (sr_state w')) = true <->
             outcome = Repo_Succeeded /\ (save_state env verified w).1 = true)
         /\ (outcome = Repo_Succeeded -> rt_service_state (sr_state w') = verified)
         /\ (outcome <> Repo_Succeeded -> rt_service_state (sr_state w') = rt_service_state (sr_state w))
       else w' = w.
Proof.
  destruct (finish_repository_operation_total env Hclock operation outcome w Hok Htimed) as [w' E].
  exists w'. split; [done|]. unfold finish_repository_operation in E.
  case_bool_decide; cbn [negb] in E; [|by injection E as <-]. cbv zeta.
  assert (forall status service w1, 
    (s ← apply_configuration_status (sr_config w) (env_now env 0)
           (set_rt_repository_operation status (set_rt_service_state service (sr_state w)));
     Some (match outcome with
           | Repo_Succeeded => record_diagnostic env Level_Information "repository.operation_succeeded"
               "Repository operation completed successfully." None (set_sr_state s w1)
           | Repo_Failed code => record_diagnostic env Level_Error "repository.operation_failed"
               "Repository operation failed." (Some code) (set_sr_state s w1)
           | Repo_Cancelled => record_diagnostic env Level_Information "repository.operation_cancelled"
               "Repository operation was cancelled." None (set_sr_state s w1)
           end)) = Some w' ->
    rt_repository_operation (sr_state w') = status /\ rt_service_state (sr_state w') = service) as Hfinish.
  { intros status service w1. destruct (apply_configuration_status _ _ _) as [s|] eqn:Ea; cbn; [|done].
    apply apply_configuration_status_work in Ea as [Ho Hs _ _]. intros [= <-].
    assert (forall l i m c, sr_state (record_diagnostic env l i m c (set_sr_state s w1)) = s) as Hd.
    { intros l i m c. by destruct (record_diagnostic_core env l i m c (set_sr_state s w1)) as [_ _ _ ->]. }
    destruct outcome; by rewrite Hd. }
  destruct outcome as [|code|].
  - destruct (save_state _ _ _) as [saved w1] eqn:Es. apply Hfinish in E as [Ho ->]. rewrite Ho. clear.
    destruct saved; cbn; split_and!; try done; split; try done; by intros [].
  - apply Hfinish in E as [-> ->]. cbn. split_and!; try done; split; try done; by intros [].
  - apply Hfinish in E as [-> ->]. cbn. split_and!; try done; split; try done; by intros [].
Qed.
End loop.

(** ** Evaluated examples *)
Module ProgressWitness.
Import ChronoExample UrlExample ServiceWitness.
#[local] Existing Instances ManagementWitness.toy_crypto ResticWitness.ascii_unicode UpdaterWitness.toy_base64
  SourcesWitness.plain_files PolicyCacheWitness.no_dpapi PolicyCacheWitness.entry_serde no_messages local_serde
  persisted_serde entries_serde.

#[local] Instance no_exemption : Exempt := None.
Lemma managed_ok : service_ok managed.
Proof. apply (reachable_ok None (fun _ => None) None), managed_reachable. Qed.

Lemma managed_timed : well_timed managed.
Proof.
  constructor.
  - replace (ss_last_success (rt_status (sr_state managed))) with (@None Z) by (vm_compute; reflexivity). intros t [=].
  - replace (rt_resumed_at (sr_state managed)) with (@None Z) by (vm_compute; reflexivity). intros t [=].
  - replace (sc_wake_grace_seconds (ec_schedule (sr_config managed))) with 300 by (vm_compute; reflexivity). lia.
  - replace (rt_consecutive_failures (sr_state managed)) with 0 by (vm_compute; reflexivity). by split.
Qed.

Lemma example_clock : clock_ok (seconds 2000).
Proof. split; split; vm_compute; discriminate. Qed.
Definition steady : Env := {|
  env_now := fun _ => seconds 2000; env_config_ok := true; env_state_ok := true; env_cache_ok := true;
  env_history_ok := true; env_log_now := seconds 2000; env_log_io := fun _ => true; env_log_torn := O;
  env_random := fun _ _ => None; env_put := fun _ _ => Some Write_Done; env_remove_ok := fun _ => true
|}.
Lemma steady_clock k : valid_datetime (env_now steady k).
Proof. apply example_clock. Qed.

(** The first failure pauses for five minutes. *)
Lemma finish_backup_witness :
  exists w', finish_backup_at steady (seconds 2000) (outcome_failed (lit "restic_failed")) managed = Some w'
    /\ remembers (seconds 2000) (outcome_failed (lit "restic_failed")) managed w' /\ backoff_minutes 1 = 5.
Proof.
  destruct (finish_backup_outcome steady (seconds 2000) (outcome_failed (lit "restic_failed")) managed
              managed_ok managed_timed example_clock) as (w' & E & Hr).
  exists w'. split; [exact E|]. split; [exact Hr|reflexivity].
Defined.

(** Without a network the overdue backup waits a minute. *)
Lemma evaluation_witness :
  exists action w', evaluate_schedule (seconds 2000) conservative managed = Some (action, w')
    /\ (action = Action_None -> is_running (ss_state (rt_status (sr_state w'))) = true \/ sleeps (seconds 2000) w').
Proof.
  destruct (evaluation_never_spins (seconds 2000) conservative managed managed_ok managed_timed example_clock)
    as (action & w' & E & Ha).
  exists action, w'. split; [exact E|]. intros ->. apply Ha; vm_compute; reflexivity.
Defined.

Lemma requests_answered_witness :
  exists response w',
    handle_request None (fun _ => None) steady steady
      {| rq_protocol_version := 1; rq_request_id := 7; rq_command := DeferBackup 30 |}
      {| is_elevated_administrator := false |} managed = Some (response, w')
    /\ rs_request_id response = 7.
Proof.
  destruct (requests_always_answered None (fun _ => None) steady steady
              {| rq_protocol_version := 1; rq_request_id := 7; rq_command := DeferBackup 30 |}
              {| is_elevated_administrator := false |} managed managed_timed
              (fun k => conj (steady_clock k) (steady_clock k))) as (response & w' & E & Hid & _).
  exists response, w'. split; [exact E|exact Hid].
Defined.

Definition testing : ServiceRuntime :=
  set_sr_state (set_rt_repository_operation (RO_Running Kind_Validate) (sr_state managed)) managed.
Lemma repository_operation_witness :
  exists w', finish_repository_operation steady Kind_Validate Repo_Succeeded testing = Some w'
    /\ repository_operation_allows_backup (rt_repository_operation (sr_state w')) = true.
Proof.
  assert (service_ok testing) as Hok by (split; [apply managed_ok|done]).
  assert (well_timed testing) as Ht by (destruct managed_timed; by constructor).
  destruct (repository_operation_result steady Kind_Validate Repo_Succeeded testing Hok Ht steady_clock)
    as (w' & E & Hr).
  exists w'. split; [exact E|].
  assert (bool_decide (rt_repository_operation (sr_state testing) = RO_Running Kind_Validate) = true) as Hb by reflexivity.
  rewrite Hb in Hr. destruct Hr as (_ & Ha & _). apply Ha. split; [reflexivity|vm_compute; reflexivity].
Defined.
End ProgressWitness.
