(* ===== verification/EventLoop.v ===== *)
(** * Threads and the event loop ([apps/resticpal-service/src/main.rs])

    The service's threads around the runtime: the event loop that starts
    workers and takes in their results, the backup, repository and update
    workers, the thread that serves one pipe request after another, the
    management thread, and the control handler of Windows.  Each is a set of
    steps on one shared state, so that every interleaving is covered. *)
From stdpp Require Import base option list gmap strings.
From S2P Require Import Prelude RustStd WinPath Chrono Crates Config Status Schedule Policy Restic Protocol Outcome.
From S2P Require Import ServiceState Diagnostics History Credentials Management Updater Sources PolicyCache.
From S2P Require Import Runtime Scheduler Lifecycle Enrollment Ipc Service Output Executor.

(** A backup worker: spawned, running restic, then perhaps retention. *)
Inductive BackupWorker : Type :=
| BW_Spawned
| BW_Backup (config : EffectiveConfig)
| BW_Retention (config : EffectiveConfig) (outcome : BackupOutcome) (plan : RetentionPlan).

Inductive RepositoryWorker : Type :=
| RW_Spawned (operation : RepositoryOperationKind)
| RW_Running (operation : RepositoryOperationKind) (config : EffectiveConfig).

(** An update worker notes that it started, then installs. *)
Inductive UpdateWorker : Type :=
| UW_Spawned (package : UpdatePackage)
| UW_Installing (package : UpdatePackage).

(** The thread that serves requests: between two requests, or inside the two
    handlers that let go of the locks. *)
Inductive PipeThread : Type := Pipe_Idle | Pipe_Enrolling | Pipe_Unenrolling.

Inductive Phase : Type := Looping | Draining | Stopped.

(** [active_backup] and [active_repository_operation] hold a cancellation
    token, here its flag. *)
Record Threads : Type := {
  th_runtime : ServiceRuntime;
  th_phase : Phase;
  th_active_backup : option bool;
  th_active_repository : option bool;
  th_backups : list BackupWorker;
  th_repositories : list RepositoryWorker;
  th_updates : list UpdateWorker;
  th_pipe : PipeThread
}.

Definition set_th_runtime (w : ServiceRuntime) (t : Threads) : Threads :=
  {| th_runtime := w; th_phase := th_phase t; th_active_backup := th_active_backup t;
     th_active_repository := th_active_repository t; th_backups := th_backups t;
     th_repositories := th_repositories t; th_updates := th_updates t; th_pipe := th_pipe t |}.
Definition set_th_phase (p : Phase) (t : Threads) : Threads :=
  {| th_runtime := th_runtime t; th_phase := p; th_active_backup := th_active_backup t;
     th_active_repository := th_active_repository t; th_backups := th_backups t;
     th_repositories := th_repositories t; th_updates := th_updates t; th_pipe := th_pipe t |}.
Definition set_th_backup (a : option bool) (ws : list BackupWorker) (t : Threads) : Threads :=
  {| th_runtime := th_runtime t; th_phase := th_phase t; th_active_backup := a;
     th_active_repository := th_active_repository t; th_backups := ws;
     th_repositories := th_repositories t; th_updates := th_updates t; th_pipe := th_pipe t |}.
Definition set_th_repository (a : option bool) (ws : list RepositoryWorker) (t : Threads) : Threads :=
  {| th_runtime := th_runtime t; th_phase := th_phase t; th_active_backup := th_active_backup t;
     th_active_repository := a; th_backups := th_backups t;
     th_repositories := ws; th_updates := th_updates t; th_pipe := th_pipe t |}.
Definition set_th_updates (ps : list UpdateWorker) (t : Threads) : Threads :=
  {| th_runtime := th_runtime t; th_phase := th_phase t; th_active_backup := th_active_backup t;
     th_active_repository := th_active_repository t; th_backups := th_backups t;
     th_repositories := th_repositories t; th_updates := ps; th_pipe := th_pipe t |}.
Definition set_th_pipe (p : PipeThread) (t : Threads) : Threads :=
  {| th_runtime := th_runtime t; th_phase := th_phase t; th_active_backup := th_active_backup t;
     th_active_repository := th_active_repository t; th_backups := th_backups t;
     th_repositories := th_repositories t; th_updates := th_updates t; th_pipe := p |}.

(** What one turn of the loop reads: the clock, the power and network state,
    whether a thread can be created, and the environment of what it calls. *)
Record TurnEnv : Type := { tn_env : Env; tn_now : DateTime; tn_conditions : option SystemConditions; tn_spawn : bool }.

(** [current_conditions] *)
Definition current_conditions (queried : option SystemConditions) : SystemConditions := default conservative queried.

(** [cancellation.cancel()] on a token that is there. *)
Definition cancel (token : option bool) : option bool := (fun _ => true) <$> token.

Section event_loop.
Context `{Chrono} `{UrlCrate} `{Serde LocalConfig} `{Serde PersistedScheduleState} `{Serde DiagnosticEntry}.

(** [runtime.finish_backup] *)
Definition finish_backup (tn : TurnEnv) (outcome : BackupOutcome) (w : ServiceRuntime) : option ServiceRuntime :=
  finish_backup_at (tn_env tn) (env_now (tn_env tn) 0) outcome w.

Definition evaluate_and_maybe_start (tn : TurnEnv) (t : Threads) : option Threads :=
  if is_some (th_active_backup t) then Some t
  else
    '(action, w) ← evaluate_schedule (tn_now tn) (current_conditions (tn_conditions tn)) (th_runtime t);
    match action with
    | Action_None => Some (set_th_runtime w t)
    | Action_Start _ =>
        if tn_spawn tn then Some (set_th_backup (Some false) (BW_Spawned :: th_backups t) (set_th_runtime w t))
        else
          w ← finish_backup tn (outcome_failed (lit "executor_start_failed")) w;
          Some (set_th_backup None (th_backups t) (set_th_runtime w t))
    end.

(** The body of [run_event_loop] for one event; [None] is a panic. *)
Definition handle_event (tn : TurnEnv) (event : RuntimeEvent) (t : Threads) : option Threads :=
  let w := th_runtime t in
  match event with
  | Ev_Stop =>
      Some (set_th_phase Draining
              (set_th_repository (cancel (th_active_repository t)) (th_repositories t)
                 (set_th_backup (cancel (th_active_backup t)) (th_backups t) t)))
  | Ev_RunNow => evaluate_and_maybe_start tn t
  | Ev_Cancel => Some (set_th_backup (cancel (th_active_backup t)) (th_backups t) t)
  | Ev_BackupFinished outcome =>
      w ← finish_backup tn outcome w;
      Some (set_th_backup None (th_backups t) (set_th_runtime w t))
  | Ev_RepositoryOperationRequested operation =>
      if is_some (th_active_backup t) || is_some (th_active_repository t) then
        w ← finish_repository_operation (tn_env tn) operation (Repo_Failed (lit "repository_operation_conflict")) w;
        Some (set_th_runtime w t)
      else if tn_spawn tn then
        Some (set_th_repository (Some false) (RW_Spawned operation :: th_repositories t) t)
      else
        w ← finish_repository_operation (tn_env tn) operation (Repo_Failed (lit "executor_start_failed")) w;
        Some (set_th_repository None (th_repositories t) (set_th_runtime w t))
  | Ev_RepositoryOperationFinished operation outcome =>
      w ← finish_repository_operation (tn_env tn) operation outcome w;
      evaluate_and_maybe_start tn (set_th_repository None (th_repositories t) (set_th_runtime w t))
  | Ev_UpdateInstallRequested package =>
      if is_some (th_active_backup t) || is_some (th_active_repository t) then
        Some (set_th_runtime (finish_update_install (tn_env tn) (Upd_Failed (lit "update_operation_conflict")) w) t)
      else if tn_spawn tn then Some (set_th_updates (UW_Spawned package :: th_updates t) t)
      else Some (set_th_runtime (finish_update_install (tn_env tn) (Upd_Failed (lit "update_worker_start_failed")) w) t)
  | Ev_UpdateInstallFinished outcome =>
      evaluate_and_maybe_start tn (set_th_runtime (finish_update_install (tn_env tn) outcome w) t)
  | Ev_Resume => evaluate_and_maybe_start tn (set_th_runtime (record_resume (tn_now tn) w) t)
  | Ev_PowerStatusChanged | Ev_TimeChanged | Ev_Deferred | Ev_ConfigurationChanged => evaluate_and_maybe_start tn t
  end.

(** One turn of [drain_cancelled_operations]. *)
Definition drain_event (tn : TurnEnv) (event : RuntimeEvent) (t : Threads) : option Threads :=
  match event with
  | Ev_BackupFinished outcome =>
      w ← finish_backup tn outcome (th_runtime t);
      Some (set_th_backup None (th_backups t) (set_th_runtime w t))
  | Ev_RepositoryOperationFinished operation outcome =>
      w ← finish_repository_operation (tn_env tn) operation outcome (th_runtime t);
      Some (set_th_repository None (th_repositories t) (set_th_runtime w t))
  | _ => Some t
  end.

(** Taking the next event off the channel. *)
Definition take_event (t : Threads) : option (RuntimeEvent * Threads) :=
  match sr_events (th_runtime t) with
  | [] => None
  | event :: rest => Some (event, set_th_runtime (set_sr_events rest (th_runtime t)) t)
  end.

(** [recv_timeout] and its consequences: an event, or a timeout on an empty channel. *)
Definition loop_turn (tn : TurnEnv) (t : Threads) : option Threads :=
  match take_event t with
  | Some (event, t) => handle_event tn event t
  | None => evaluate_and_maybe_start tn t
  end.

(** The end of [run_service] drops [event_rx]. *)
Definition drop_receiver (w : ServiceRuntime) : ServiceRuntime :=
  {| sr_config := sr_config w; sr_local_config := sr_local_config w; sr_field_resolutions := sr_field_resolutions w;
     sr_config_store := sr_config_store w; sr_credential_store := sr_credential_store w; sr_state := sr_state w;
     sr_state_store := sr_state_store w; sr_history_store := sr_history_store w; sr_diagnostics := sr_diagnostics w;
     sr_events := sr_events w; sr_receiver_alive := false |}.

(** A worker's [let _ = events.send(...)]. *)
Definition post (event : RuntimeEvent) (w : ServiceRuntime) : ServiceRuntime := (send event w).2.
End event_loop.

(** [management_refresh_delay], in seconds *)
Inductive ManagementRefreshOutcome : Type := Synchronized | MR_RuntimeBusy | MR_Failed.
Definition MANAGEMENT_BUSY_RETRY : Z := 30.
Definition management_refresh_delay (refresh_interval_minutes : Z) (outcome : ManagementRefreshOutcome)
    (consecutive_failures : Z) : Z :=
  let configured := refresh_interval_minutes * 60 in
  match outcome with
  | Synchronized => configured
  | MR_RuntimeBusy => MANAGEMENT_BUSY_RETRY
  | MR_Failed =>
      let exponent := Z.min (saturating_sub consecutive_failures 1) 6 in
      Z.min (60 * Z.shiftl 1 exponent) configured
  end.

(** ** Steps *)
Definition restic_operation (operation : RepositoryOperationKind) : ResticOperation :=
  match operation with Kind_Validate => Probe | Kind_Initialize => Initialize end.

Section steps.
Context `{Chrono} `{UrlCrate} `{CryptoCrates} `{Dpapi} `{UnicodeData} `{Filesystem} `{Messages} `{Base64Standard} `{WireJson}.
Context `{Serde LocalConfig} `{Serde PersistedScheduleState} `{Serde DiagnosticEntry} `{Serde CachedManifest}.
Context (discover : option (list DiscoveredBackupSource)) (client : rstr -> option PendingEnrollment).
Context (var_os : rstr -> option rstr) (x : ResticExecutor).

(** [start_backup_worker] after restic is done: retention or the report. *)
Definition after_backup (env : Env) (now : DateTime) (config : EffectiveConfig) (o : BackupOutcome) (w : ServiceRuntime)
    : option (option BackupWorker * ServiceRuntime) :=
  if outcome_is_success o then
    '(plan, w) ← begin_retention env now w;
    Some (match plan with
          | Some plan => (Some (BW_Retention config o plan), w)
          | None => (None, post (Ev_BackupFinished o) w)
          end)
  else Some (None, post (Ev_BackupFinished o) w).

Inductive thread_step : Threads -> Threads -> Prop :=
(* the event loop; it evaluates once before its first turn *)
| ts_turn tn t t' : th_phase t = Looping -> loop_turn tn t = Some t' -> thread_step t t'
| ts_evaluate tn t t' : th_phase t = Looping -> evaluate_and_maybe_start tn t = Some t' -> thread_step t t'
| ts_drain tn event t t0 t' :
    th_phase t = Draining -> is_some (th_active_backup t) || is_some (th_active_repository t) = true ->
    take_event t = Some (event, t0) -> drain_event tn event t0 = Some t' -> thread_step t t'
| ts_stopped t : th_phase t = Draining -> thread_step t (set_th_phase Stopped t)
| ts_receiver_dropped t : th_phase t = Stopped -> thread_step t (set_th_runtime (drop_receiver (th_runtime t)) t)
(* the control handler *)
| ts_control event t :
    event ∈ [Ev_Stop; Ev_Resume; Ev_PowerStatusChanged; Ev_TimeChanged] ->
    thread_step t (set_th_runtime (post event (th_runtime t)) t)
(* the pipe thread *)
| ts_request env env' command identity payload w' t :
    th_pipe t = Pipe_Idle -> command <> Unenroll -> (forall url, command <> Enroll url) ->
    handle_command discover client env env' command identity (th_runtime t) = Some (payload, w') ->
    thread_step t (set_th_runtime w' t)
| ts_begin_enrollment env w' t :
    th_pipe t = Pipe_Idle -> begin_enrollment env (th_runtime t) = (true, w') ->
    thread_step t (set_th_pipe Pipe_Enrolling (set_th_runtime w' t))
| ts_commit_enrollment env pending r w' t :
    th_pipe t = Pipe_Enrolling -> commit_enrollment env pending (th_runtime t) = Some (r, w') ->
    thread_step t (set_th_runtime w' t)
| ts_end_enrollment t :
    th_pipe t = Pipe_Enrolling -> thread_step t (set_th_pipe Pipe_Idle (set_th_runtime (end_enrollment (th_runtime t)) t))
| ts_begin_unenroll now t :
    th_pipe t = Pipe_Idle -> operation_active (sr_state (th_runtime t)) now = false ->
    thread_step t (set_th_pipe Pipe_Unenrolling t)
| ts_commit_unenroll env payload w' t :
    th_pipe t = Pipe_Unenrolling -> unenroll_commit env (th_runtime t) = Some (payload, w') ->
    thread_step t (set_th_pipe Pipe_Idle (set_th_runtime w' t))
(* the management thread *)
| ts_policy env policy expected r w' t :
    apply_managed_policy_inner env policy expected (th_runtime t) = Some (r, w') ->
    thread_step t (set_th_runtime w' t)
(* backup workers *)
| ts_backup_reads env l1 l2 t :
    th_backups t = l1 ++ BW_Spawned :: l2 ->
    thread_step t
      (set_th_backup (th_active_backup t) (l1 ++ BW_Backup (sr_config (th_runtime t)) :: l2)
         (set_th_runtime (record_diagnostic env Level_Information "backup.started" "Backup started." None (th_runtime t)) t))
| ts_backup_progress progress config t :
    BW_Backup config ∈ th_backups t -> thread_step t (set_th_runtime (update_progress progress (th_runtime t)) t)
| ts_backup_done fuel fs1 fs2 env1 env2 config o ls env now worker w' l1 l2 t :
    th_backups t = l1 ++ BW_Backup config :: l2 ->
    executor_backup var_os x fuel fs1 fs2 env1 env2 config = Some (o, ls) ->
    after_backup env now config o (th_runtime t) = Some (worker, w') ->
    thread_step t (set_th_backup (th_active_backup t) (l1 ++ option_list worker ++ l2) (set_th_runtime w' t))
| ts_retention_done fuel env1 env2 config o plan r ls env now o' w' l1 l2 t :
    th_backups t = l1 ++ BW_Retention config o plan :: l2 ->
    executor_retention var_os x fuel env1 env2 config (prune_due plan) = Some (r, ls) ->
    finish_retention env o r now (th_runtime t) = (o', w') ->
    thread_step t (set_th_backup (th_active_backup t) (l1 ++ l2) (set_th_runtime (post (Ev_BackupFinished o') w') t))
(* repository workers *)
| ts_repository_reads operation l1 l2 t :
    th_repositories t = l1 ++ RW_Spawned operation :: l2 ->
    thread_step t
      (set_th_repository (th_active_repository t) (l1 ++ RW_Running operation (sr_config (th_runtime t)) :: l2) t)
| ts_repository_done fuel env operation config o ls l1 l2 t :
    th_repositories t = l1 ++ RW_Running operation config :: l2 ->
    repository_operation var_os x fuel env config (restic_operation operation) = Some (o, ls) ->
    thread_step t
      (set_th_repository (th_active_repository t) (l1 ++ l2)
         (set_th_runtime (post (Ev_RepositoryOperationFinished operation o) (th_runtime t)) t))
(* update workers *)
| ts_update_starts env package l1 l2 t :
    th_updates t = l1 ++ UW_Spawned package :: l2 ->
    thread_step t
      (set_th_updates (l1 ++ UW_Installing package :: l2)
         (set_th_runtime (record_diagnostic env Level_Information "update.started"
                            "A signed resticpal update started downloading." None (th_runtime t)) t))
| ts_update_done fuel ienv package started outcome launched l1 l2 t :
    th_updates t = l1 ++ UW_Installing package :: l2 ->
    Updater.install fuel ienv package started = Some (outcome, launched) ->
    thread_step t
      (set_th_updates (l1 ++ l2) (set_th_runtime (post (Ev_UpdateInstallFinished outcome) (th_runtime t)) t)).

(** [run_service] up to the threads: the configuration, or the fallback when
    it cannot be loaded, then the enrollment the installer has staged.  Its
    result is only logged. *)
Definition run_service (env env1 env2 : Env) (path : rstr) (disk : Disk) (credentials : option CredentialFiles)
    (policy : option ManagedPolicy) (staged : option rstr) : option ServiceRuntime :=
  loaded ← load_with_credentials_and_policy env path disk credentials policy;
  let w := match loaded with Ok w => w | Err _ => configuration_error env path disk credentials end in
  let w := record_diagnostic env Level_Information "service.started" "The resticpal service started." None w in
  match staged with
  | None => Some w
  | Some url => '(_, w) ← enroll_bootstrap env1 env2 client url w; Some w
  end.

(** The threads right after they were started. *)
Definition idle_threads (w : ServiceRuntime) : Threads :=
  {| th_runtime := w; th_phase := Looping; th_active_backup := None; th_active_repository := None;
     th_backups := []; th_repositories := []; th_updates := []; th_pipe := Pipe_Idle |}.

Inductive thread_reachable : Threads -> Prop :=
| tr_start env env1 env2 path disk credentials policy staged w :
    run_service env env1 env2 path disk credentials policy staged = Some w -> thread_reachable (idle_threads w)
| tr_step t t' : thread_reachable t -> thread_step t t' -> thread_reachable t'.
End steps.
