(* ===== verification/ManagementWorker.v ===== *)
(** * The management thread ([start_management_worker] in [apps/resticpal-service/src/main.rs])

    Every half minute the thread reads the local configuration, activates a
    management source that is new to it, refreshes the policy when that is
    due and reports the device's status.  A pass is three stages on the
    service's runtime; other threads may change the runtime between them.
    [Instant]s and durations are nanoseconds. *)
From stdpp Require Import base option list gmap strings.
From S2P Require Import Prelude RustStd WinPath Chrono Crates Config Status Schedule Policy Restic Protocol Outcome.
From S2P Require Import ServiceState Diagnostics History Credentials Management Updater Sources PolicyCache.
From S2P Require Import Runtime Scheduler Lifecycle Enrollment Ipc Service Output Executor EventLoop.

(** The local variables of the loop. *)
Record Worker : Type := {
  wk_sequence : Z;
  wk_source_identity : option LocalManagementConfig;
  wk_next_refresh : Z;
  wk_refresh_failures : Z;
  wk_next_report : Z;
  wk_report_failures : Z;
  wk_last_observed_state : option BackupState
}.

Definition new_worker (next_refresh next_report : Z) : Worker :=
  {| wk_sequence := 0; wk_source_identity := None; wk_next_refresh := next_refresh; wk_refresh_failures := 0;
     wk_next_report := next_report; wk_report_failures := 0; wk_last_observed_state := None |}.

(** What is outside in one stage: credential reads, the write of the cache,
    the clock, the environment of the runtime's operations and the machine. *)
Record StageEnv : Type := {
  se_io : ReadIo;
  se_replaced : bool;
  se_fetched_at : DateTime;
  se_saved_at : DateTime;
  se_env : Env;
  se_computer_name : option rstr;
  se_architecture : rstr
}.

(** [refresh_failures = match outcome { Failed => saturating_add(1), _ => 0 }] *)
Definition count_failure (outcome : ManagementRefreshOutcome) (failures : Z) : Z :=
  match outcome with MR_Failed => u32_saturating_add failures 1 | _ => 0 end.

(** The outcome of [apply_managed_policy_if_current], with the sequence kept. *)
Definition after_apply (applied : result PolicyError ManagedPolicyApplyOutcome) (loaded : LoadedPolicy) (sequence : Z)
    : Z * ManagementRefreshOutcome :=
  match applied with
  | Ok Applied => (lp_sequence loaded, Synchronized)
  | Ok RuntimeBusy => (sequence, MR_RuntimeBusy)
  | Ok SourceChanged => (sequence, Synchronized)
  | Err _ => (sequence, MR_Failed)
  end.

(** The delay after a failed report: a minute, doubled up to an hour and four minutes. *)
Definition report_retry_delay (report_failures : Z) : Z :=
  let exponent := Z.min (saturating_sub report_failures 1) 6 in
  seconds (60 * Z.shiftl 1 exponent).

Definition report_cadence (state : BackupState) : Z :=
  seconds (if is_running state then 5 * 60 else 6 * 60 * 60).

(** The files the thread shares with the runtime's stores. *)
Definition worker_store (w : ServiceRuntime) : ConfigStore :=
  default {| cs_path := []; cs_file := NotFound; cs_cache := NotFound |} (sr_config_store w).
Definition set_cache (cache : FileRead) (w : ServiceRuntime) : ServiceRuntime :=
  match sr_config_store w with
  | None => w
  | Some store => set_sr_config_store (Some {| cs_path := cs_path store; cs_file := cs_file store; cs_cache := cache |}) w
  end.

Section worker.
Context `{Chrono} `{UrlCrate} `{CryptoCrates} `{Dpapi} `{HttpClient}.
Context `{Serde LocalConfig} `{Serde PersistedScheduleState} `{Serde DiagnosticEntry} `{Serde CachedManifest}.
Context `{Serde ManifestPayload} `{Serde SignedManifestEnvelope} `{Serde DeviceStatusReport}.

(** [load_best_policy] on the thread's files *)
Definition best_policy (e : StageEnv) (local : LocalConfig) (w : ServiceRuntime)
    : result (failure ManagementError) (option LoadedPolicy) * ServiceRuntime :=
  let '(r, cache) := load_best_policy (se_io e) (se_replaced e) (se_fetched_at e) (se_saved_at e) local
                       (sr_credential_store w) (cs_cache (worker_store w)) in
  (r, set_cache cache w).

Definition newer_policy (e : StageEnv) (local : LocalConfig) (sequence : Z) (w : ServiceRuntime)
    : result (failure ManagementError) LoadedPolicy * ServiceRuntime :=
  let '(r, cache) := refresh_policy (se_io e) (se_replaced e) (se_fetched_at e) (se_saved_at e) local sequence
                       (sr_credential_store w) (cs_cache (worker_store w)) in
  (r, set_cache cache w).

(** [if source_identity.as_ref() != Some(&current_identity)]: a source the
    thread does not follow yet.  [None] is a panic. *)
Definition activate_source (e : StageEnv) (local : LocalConfig) (now : Z) (k : Worker) (w : ServiceRuntime)
    : option (Worker * ServiceRuntime) :=
  let current_identity := lc_management local in
  if bool_decide (wk_source_identity k = Some current_identity) then Some (k, w)
  else
    let '(best, w) := best_policy e local w in
    '(sequence, outcome, w) ←
      match best with
      | Err Panics => None
      | Err (Fails _) => Some (wk_sequence k, MR_Failed, w)
      | Ok None => Some (0, Synchronized, w)
      | Ok (Some loaded) =>
          '(applied, w) ← apply_managed_policy_if_current (se_env e) (lp_policy loaded) current_identity w;
          Some (after_apply applied loaded (wk_sequence k), w)
      end;
    let refresh_failures := count_failure outcome 0 in
    Some ({| wk_sequence := sequence;
             wk_source_identity := Some current_identity;
             wk_next_refresh :=
               now + seconds (management_refresh_delay (refresh_interval_minutes current_identity) outcome refresh_failures);
             wk_refresh_failures := refresh_failures;
             wk_next_report := now;
             wk_report_failures := 0;
             wk_last_observed_state := None |}, w).

(** [if now >= next_refresh] *)
Definition refresh_source (e : StageEnv) (local : LocalConfig) (now : Z) (k : Worker) (w : ServiceRuntime)
    : option (Worker * ServiceRuntime) :=
  if now <? wk_next_refresh k then Some (k, w)
  else
    let '(newer, w) := newer_policy e local (wk_sequence k) w in
    '(sequence, outcome, w) ←
      match newer with
      | Err Panics => None
      | Err (Fails _) => Some (wk_sequence k, MR_Failed, w)
      | Ok loaded =>
          if wk_sequence k <? lp_sequence loaded then
            '(applied, w) ← apply_managed_policy_if_current (se_env e) (lp_policy loaded) (lc_management local) w;
            Some (after_apply applied loaded (wk_sequence k), w)
          else Some (wk_sequence k, Synchronized, w)
      end;
    let refresh_failures := count_failure outcome (wk_refresh_failures k) in
    Some ({| wk_sequence := sequence;
             wk_source_identity := wk_source_identity k;
             wk_next_refresh :=
               now + seconds (management_refresh_delay (refresh_interval_minutes (lc_management local)) outcome refresh_failures);
             wk_refresh_failures := refresh_failures;
             wk_next_report := wk_next_report k;
             wk_report_failures := wk_report_failures k;
             wk_last_observed_state := wk_last_observed_state k |}, w).

Definition set_report (next_report failures : Z) (observed : option BackupState) (k : Worker) : Worker :=
  {| wk_sequence := wk_sequence k; wk_source_identity := wk_source_identity k; wk_next_refresh := wk_next_refresh k;
     wk_refresh_failures := wk_refresh_failures k; wk_next_report := next_report; wk_report_failures := failures;
     wk_last_observed_state := observed |}.

(** [if local.management.status_url.is_some()]; [true] when a report was attempted. *)
Definition report_source (e : StageEnv) (local : LocalConfig) (now : Z) (k : Worker) (w : ServiceRuntime)
    : option (bool * Worker) :=
  if negb (is_some (lm_status_url (lc_management local))) then Some (false, k)
  else
    let status := rt_status (sr_state w) in
    let state_changed := negb (bool_decide (wk_last_observed_state k = Some (ss_state status))) in
    let k := if state_changed then set_report now (wk_report_failures k) (Some (ss_state status)) k else k in
    if now <? wk_next_report k then Some (false, k)
    else
      let result := match sr_credential_store w with
                    | None => Err (Fails MG_CredentialStoreUnavailable)
                    | Some store => report_status (se_io e) (se_fetched_at e) (se_computer_name e) (se_architecture e)
                                      (lc_management local) store status
                    end in
      match result with
      | Ok _ => Some (true, set_report (now + report_cadence (ss_state status)) 0 (wk_last_observed_state k) k)
      | Err (Fails _) =>
          let report_failures := u32_saturating_add (wk_report_failures k) 1 in
          Some (true, set_report (now + report_retry_delay report_failures) report_failures (wk_last_observed_state k) k)
      | Err Panics => None
      end.

(** Management was disabled: the thread forgets its source. *)
Definition forget_source (k : Worker) : Worker :=
  {| wk_sequence := 0; wk_source_identity := None; wk_next_refresh := wk_next_refresh k; wk_refresh_failures := 0;
     wk_next_report := wk_next_report k; wk_report_failures := wk_report_failures k; wk_last_observed_state := None |}.

(** ** The thread among others *)
Inductive Stage : Type :=
| Asleep
| Activating (local : LocalConfig)
| Refreshing (local : LocalConfig)
| Reporting (local : LocalConfig).

(** [wy_now] is the [now] of the current pass. *)
Record WorkerSystem : Type := { wy_worker : Worker; wy_stage : Stage; wy_now : Z; wy_runtime : ServiceRuntime }.

Inductive worker_step : WorkerSystem -> WorkerSystem -> Prop :=
| wks_reload_failed k now w error :
    config_load (cs_file (worker_store w)) = Err error ->
    worker_step {| wy_worker := k; wy_stage := Asleep; wy_now := now; wy_runtime := w |}
                {| wy_worker := k; wy_stage := Asleep; wy_now := now; wy_runtime := w |}
| wks_disabled k now w local :
    config_load (cs_file (worker_store w)) = Ok local -> lm_mode (lc_management local) = Disabled ->
    worker_step {| wy_worker := k; wy_stage := Asleep; wy_now := now; wy_runtime := w |}
                {| wy_worker := forget_source k; wy_stage := Asleep; wy_now := now; wy_runtime := w |}
| wks_managed k now now' w local :
    config_load (cs_file (worker_store w)) = Ok local -> lm_mode (lc_management local) <> Disabled -> now <= now' ->
    worker_step {| wy_worker := k; wy_stage := Asleep; wy_now := now; wy_runtime := w |}
                {| wy_worker := k; wy_stage := Activating local; wy_now := now'; wy_runtime := w |}
| wks_activate e k k' now w w' local :
    activate_source e local now k w = Some (k', w') ->
    worker_step {| wy_worker := k; wy_stage := Activating local; wy_now := now; wy_runtime := w |}
                {| wy_worker := k'; wy_stage := Refreshing local; wy_now := now; wy_runtime := w' |}
| wks_refresh e k k' now w w' local :
    refresh_source e local now k w = Some (k', w') ->
    worker_step {| wy_worker := k; wy_stage := Refreshing local; wy_now := now; wy_runtime := w |}
                {| wy_worker := k'; wy_stage := Reporting local; wy_now := now; wy_runtime := w' |}
| wks_report e k k' now w local sent :
    report_source e local now k w = Some (sent, k') ->
    worker_step {| wy_worker := k; wy_stage := Reporting local; wy_now := now; wy_runtime := w |}
                {| wy_worker := k'; wy_stage := Asleep; wy_now := now; wy_runtime := w |}
(* any other thread *)
| wks_other k stage now w w' :
    worker_step {| wy_worker := k; wy_stage := stage; wy_now := now; wy_runtime := w |}
                {| wy_worker := k; wy_stage := stage; wy_now := now; wy_runtime := w' |}.

(** The two readings of the clock before the loop come first. *)
Inductive worker_reachable : WorkerSystem -> Prop :=
| wkr_start next_refresh next_report now w :
    next_refresh <= now -> next_report <= now ->
    worker_reachable {| wy_worker := new_worker next_refresh next_report; wy_stage := Asleep; wy_now := now; wy_runtime := w |}
| wkr_step s s' : worker_reachable s -> worker_step s s' -> worker_reachable s'.
End worker.

(** ** The delay before the next refresh *)
Definition refresh_bounds (m : LocalManagementConfig) : Prop :=
  MIN_MANAGEMENT_REFRESH_MINUTES <= refresh_interval_minutes m <= MAX_MANAGEMENT_REFRESH_MINUTES.

Lemma retry_backoff_bounds failures :
  0 <= failures -> 60 <= 60 * Z.shiftl 1 (Z.min (saturating_sub failures 1) 6) <= 3840.
Proof.
  intros Hf. unfold saturating_sub. rewrite Z.shiftl_1_l.
  pose proof (Z.pow_le_mono_r 2 0 (Z.min (Z.max 0 (failures - 1)) 6)).
  pose proof (Z.pow_le_mono_r 2 (Z.min (Z.max 0 (failures - 1)) 6) 6). cbn in *. lia.
Qed.

Lemma refresh_delay_bounds m outcome failures :
  refresh_bounds m -> 0 <= failures ->
  MANAGEMENT_BUSY_RETRY <= management_refresh_delay (refresh_interval_minutes m) outcome failures
  <= refresh_interval_minutes m * 60.
Proof.
  intros Hm Hf. pose proof (retry_backoff_bounds failures Hf). unfold refresh_bounds in Hm.
  unfold management_refresh_delay, MANAGEMENT_BUSY_RETRY, MIN_MANAGEMENT_REFRESH_MINUTES in *.
  destruct outcome; lia.
Qed.

Lemma count_failure_bounds outcome failures :
  0 <= failures <= u32_max -> 0 <= count_failure outcome failures <= u32_max.
Proof. unfold count_failure, u32_saturating_add. assert (0 <= u32_max) by done. destruct outcome; lia. Qed.

(** ** What the stages do *)
Section stages.
Context `{Chrono} `{UrlCrate} `{CryptoCrates} `{Dpapi} `{HttpClient}.
Context `{Serde LocalConfig} `{Serde PersistedScheduleState} `{Serde DiagnosticEntry} `{Serde CachedManifest}.
Context `{Serde ManifestPayload} `{Serde SignedManifestEnvelope} `{Serde DeviceStatusReport}.

(** The configuration in force is the merge of the runtime's local
    configuration with this policy. *)
Definition policy_in_force (policy : ManagedPolicy) (w w' : ServiceRuntime) : Prop :=
  exists resolved, resolve_config EffectiveConfig_default (sr_local_config w) (Some policy) = Ok resolved
    /\ sr_config w' = rv_effective resolved /\ sr_field_resolutions w' = rv_fields resolved.

Lemma apply_if_current_spec env policy m w r w' :
  apply_managed_policy_if_current env policy m w = Some (r, w') ->
  (r = Ok Applied /\ lc_management (sr_local_config w) = m /\ policy_in_force policy w w')
  \/ (r <> Ok Applied /\ w' = w).
Proof.
  unfold apply_managed_policy_if_current, apply_managed_policy_inner.
  case_bool_decide as Hm; cbn [negb]; [|intros [= <- <-]; by right].
  destruct (resolve_config _ _ _) as [resolved|error] eqn:Hr; [|intros [= <- <-]; by right].
  destruct (_ || _); [intros [= <- <-]; by right|].
  intros (w1 & Hi & [= <- <-])%bind_Some. left. split_and!; [done|done|]. exists resolved.
  split; [done|]. unfold install_resolved in Hi. apply bind_Some in Hi as (state & _ & [= <-]).
  unfold send. by destruct (sr_receiver_alive _).
Qed.

Lemma set_cache_same cache w :
  sr_local_config (set_cache cache w) = sr_local_config w /\ sr_config (set_cache cache w) = sr_config w
  /\ sr_state (set_cache cache w) = sr_state w /\ sr_field_resolutions (set_cache cache w) = sr_field_resolutions w.
Proof. unfold set_cache. by destruct (sr_config_store w). Qed.

(** What a stage may leave of the runtime when it applied nothing: only the cache file moves. *)
Definition only_cache (w w' : ServiceRuntime) : Prop := exists cache, w' = set_cache cache w.

Lemma newer_policy_Ok e local sequence w loaded w' :
  newer_policy e local sequence w = (Ok loaded, w') ->
  only_cache w w' /\
  exists document, fetch_policy (se_io e) (se_fetched_at e) (lc_management local) (Some sequence)
                     (sr_credential_store w) = Ok (loaded, document).
Proof.
  unfold newer_policy. destruct (refresh_policy _ _ _ _ _ _ _ _) as [r cache] eqn:Hr. intros [= -> <-].
  split; [by eexists|]. unfold refresh_policy in Hr.
  destruct (fetch_policy _ _ _ _ _) as [[l document]|error]; [|done]. exists document.
  destruct (_ =? _); [by simplify_eq|]. destruct (validate_effective_policy _ _); [|done].
  destruct (cache_save _ _ _ _ _) as [saved c]. injection Hr as Hs <-. apply seq_Ok in Hs as [_ [= ->]]. done.
Qed.

Lemma after_apply_sequence applied loaded sequence :
  (after_apply applied loaded sequence).1 = lp_sequence loaded /\ applied = Ok Applied
  \/ (after_apply applied loaded sequence).1 = sequence /\ applied <> Ok Applied.
Proof. destruct applied as [[]|]; [left; done|right; done..]. Qed.

(** One refresh either leaves the runtime and the sequence, or puts in force
    a policy the source served, newer than the last one applied. *)
Lemma refresh_source_spec e local now k w k' w' :
  refresh_source e local now k w = Some (k', w') ->
  wk_source_identity k' = wk_source_identity k
  /\ ((wk_sequence k' = wk_sequence k /\ (w' = w \/ only_cache w w'))
      \/ exists loaded document,
          fetch_policy (se_io e) (se_fetched_at e) (lc_management local) (Some (wk_sequence k))
            (sr_credential_store w) = Ok (loaded, document)
          /\ wk_sequence k < lp_sequence loaded /\ wk_sequence k' = lp_sequence loaded
          /\ lc_management (sr_local_config w) = lc_management local
          /\ policy_in_force (lp_policy loaded) w w').
Proof.
  unfold refresh_source. destruct (now <? _); [intros [= <- <-]; eauto|].
  destruct (newer_policy e local (wk_sequence k) w) as [newer w1] eqn:Hn.
  intros ([[sequence outcome] w2] & Hm & [= <- <-])%bind_Some. cbn [wk_source_identity wk_sequence]. split; [done|].
  assert (only_cache w w1) as Hc.
  { unfold newer_policy in Hn. destruct (refresh_policy _ _ _ _ _ _ _ _). injection Hn as <- <-. by eexists. }
  destruct newer as [loaded|[error|]]; [|injection Hm as <- <- <-; eauto|done].
  apply newer_policy_Ok in Hn as (_ & document & Hf).
  destruct (Z.ltb_spec (wk_sequence k) (lp_sequence loaded)) as [Hlt|_]; [|injection Hm as <- <- <-; eauto].
  apply bind_Some in Hm as ([applied w3] & Ha & [= Hs <-]).
  apply (f_equal fst) in Hs. cbn in Hs. destruct Hc as [cache ->].
  destruct (set_cache_same cache w) as (El & _).
  apply apply_if_current_spec in Ha as [(-> & Hl & resolved & Hp)|[Hne ->]].
  - right. exists loaded, document. rewrite El in *. split_and!; [done|done|by subst|done|]. by exists resolved.
  - left. destruct (after_apply_sequence applied loaded (wk_sequence k)) as [[_ ?]|[? _]]; [done|].
    split; [congruence|]. right. by eexists.
Qed.
End stages.

(** ** The thread's schedule over every interleaving *)
Section schedule.
Context `{Chrono} `{UrlCrate} `{CryptoCrates} `{Dpapi} `{HttpClient}.
Context `{Serde LocalConfig} `{Serde PersistedScheduleState} `{Serde DiagnosticEntry} `{Serde CachedManifest}.
Context `{Serde ManifestPayload} `{Serde SignedManifestEnvelope} `{Serde DeviceStatusReport}.

Lemma config_load_bounds file local :
  config_load file = Ok local -> lm_mode (lc_management local) <> Disabled -> refresh_bounds (lc_management local).
Proof.
  by intros [_ [Hm _]]%config_load_contract _.
Qed.

Definition interval (m : LocalManagementConfig) : Z := seconds (refresh_interval_minutes m * 60).
Definition LONGEST_REPORT_WAIT : Z := seconds (6 * 60 * 60).

(** The counters stay in their width, and no deadline is further away than
    the source's interval or six hours. *)
Record worker_ok (k : Worker) (now : Z) : Prop := {
  wo_fresh : wk_source_identity k = None -> wk_sequence k = 0;
  wo_refresh : forall m, wk_source_identity k = Some m -> wk_next_refresh k <= now + interval m;
  wo_report : wk_next_report k <= now + LONGEST_REPORT_WAIT;
  wo_refresh_failures : 0 <= wk_refresh_failures k <= u32_max;
  wo_report_failures : 0 <= wk_report_failures k <= u32_max
}.

Definition follows (k : Worker) (local : LocalConfig) : Prop := wk_source_identity k = Some (lc_management local).

Definition stage_ok (s : WorkerSystem) : Prop :=
  match wy_stage s with
  | Asleep => True
  | Activating local => refresh_bounds (lc_management local)
  | Refreshing local => refresh_bounds (lc_management local) /\ follows (wy_worker s) local
  | Reporting local =>
      refresh_bounds (lc_management local) /\ follows (wy_worker s) local /\ wy_now s < wk_next_refresh (wy_worker s)
  end.

Lemma seconds_mono a b : a <= b -> seconds a <= seconds b.
Proof. unfold seconds, ns_per_second. lia. Qed.

Lemma next_refresh_bounds m outcome failures now :
  refresh_bounds m -> 0 <= failures ->
  now < now + seconds (management_refresh_delay (refresh_interval_minutes m) outcome failures) <= now + interval m.
Proof.
  intros Hm Hf. destruct (refresh_delay_bounds m outcome failures Hm Hf) as [Hlo Hhi].
  apply seconds_mono in Hlo, Hhi. unfold interval. unfold seconds, ns_per_second, MANAGEMENT_BUSY_RETRY in *. lia.
Qed.

Lemma worker_ok_later k now now' : now <= now' -> worker_ok k now -> worker_ok k now'.
Proof.
  intros Hn [Hf Hr Hp Hc Hd]. split; auto; [|lia]. intros m Hm. specialize (Hr m Hm). lia.
Qed.

Lemma activate_source_ok e local now k w k' w' :
  refresh_bounds (lc_management local) -> worker_ok k now -> activate_source e local now k w = Some (k', w') ->
  worker_ok k' now /\ follows k' local.
Proof.
  intros Hb Hk. unfold activate_source. case_bool_decide as Hi; [by intros [= <- <-]|].
  destruct (best_policy e local w) as [best w1].
  intros ([[sequence outcome] w2] & _ & [= <- <-])%bind_Some. split; [|done].
  assert (0 <= count_failure outcome 0 <= u32_max) by (apply count_failure_bounds; unfold u32_max; lia).
  split; cbn; [done| | |done|by unfold u32_max].
  - intros m [= <-]. apply next_refresh_bounds; [done|lia].
  - assert (0 <= LONGEST_REPORT_WAIT) by done. lia.
Qed.

Lemma refresh_source_ok e local now k w k' w' :
  refresh_bounds (lc_management local) -> follows k local -> worker_ok k now ->
  refresh_source e local now k w = Some (k', w') ->
  worker_ok k' now /\ follows k' local /\ now < wk_next_refresh k'.
Proof.
  intros Hb Hk Ho. unfold refresh_source. destruct (Z.ltb_spec now (wk_next_refresh k)); [by intros [= <- <-]|].
  destruct (newer_policy e local (wk_sequence k) w) as [newer w1].
  intros ([[sequence outcome] w2] & _ & [= <- <-])%bind_Some.
  assert (0 <= count_failure outcome (wk_refresh_failures k) <= u32_max) as Hf
    by (apply count_failure_bounds, Ho).
  pose proof (next_refresh_bounds (lc_management local) outcome (count_failure outcome (wk_refresh_failures k)) now Hb
                (proj1 Hf)) as Hn.
  unfold follows in *. split_and!; cbn; [|done|lia].
  split; cbn; [congruence| |apply Ho|done|apply Ho]. intros m Hm. assert (m = lc_management local) as -> by congruence. lia.
Qed.

Lemma report_retry_bounds failures : 0 <= failures -> 0 <= report_retry_delay failures <= LONGEST_REPORT_WAIT.
Proof.
  intros Hf. pose proof (retry_backoff_bounds failures Hf). unfold report_retry_delay, LONGEST_REPORT_WAIT, seconds, ns_per_second.
  lia.
Qed.

Lemma report_source_ok e local now k w sent k' :
  worker_ok k now -> report_source e local now k w = Some (sent, k') -> worker_ok k' now.
Proof.
  intros Ho. unfold report_source. destruct (is_some _); cbn [negb]; [|by intros [= <- <-]].
  set (state := ss_state (rt_status (sr_state w))).
  set (k1 := if negb _ then _ else k). assert (worker_ok k1 now) as [Hf1 Hr1 Hp1 Hc1 Hd1].
  { unfold k1. destruct (negb _); [|done]. destruct Ho. split; cbn; auto. assert (0 <= LONGEST_REPORT_WAIT) by done. lia. }
  destruct (now <? wk_next_report k1); [by intros [= <- <-]|].
  destruct (match sr_credential_store w with Some _ => _ | None => _ end) as [[]|[error|]]; [| |done]; intros [= <- <-].
  - split; cbn; auto; [|done]. apply Z.add_le_mono_l, seconds_mono. destruct (is_running _); lia.
  - assert (0 <= u32_saturating_add (wk_report_failures k1) 1 <= u32_max) as Hu.
    { unfold u32_saturating_add. assert (0 <= u32_max) by done. lia. }
    split; cbn; auto. apply Z.add_le_mono_l, report_retry_bounds, Hu.
Qed.

Lemma worker_invariant s : worker_reachable s -> worker_ok (wy_worker s) (wy_now s) /\ stage_ok s.
Proof.
  induction 1 as [next_refresh next_report now w|s s' _ [Ho Hs] Hstep].
  { split; [|done]. split; cbn; [done|done| |done|done]. assert (0 <= LONGEST_REPORT_WAIT) by done. lia. }
  destruct Hstep; cbn [wy_worker wy_now wy_stage stage_ok] in *.
  - done.
  - split; [|done]. destruct Ho. by split.
  - split; [by eapply worker_ok_later|]. by eapply config_load_bounds.
  - edestruct activate_source_ok as [? ?]; [exact Hs|exact Ho|eassumption|]. done.
  - destruct Hs as [Hb Hf]. edestruct refresh_source_ok as (? & ? & ?); [exact Hb|exact Hf|exact Ho|eassumption|]. done.
  - split; [|done]. by eapply report_source_ok.
  - by destruct stage.
Qed.
End schedule.

(** ** What the thread promises *)
Lemma seq_mono {E T} (a : result E unit) (f g : result E T) x :
  (f = Ok x -> g = Ok x) -> (a ;; f) = Ok x -> (a ;; g) = Ok x.
Proof. rewrite !seq_Ok. tauto. Qed.

Lemma bind_mono {E S T} (r : result E S) (f g : S -> result E T) x :
  (forall y, f y = Ok x -> g y = Ok x) -> (r ≫= f) = Ok x -> (r ≫= g) = Ok x.
Proof. rewrite !bind_Ok. naive_solver. Qed.

Section promises.
Context `{Chrono} `{UrlCrate} `{CryptoCrates} `{Dpapi} `{HttpClient}.
Context `{Serde LocalConfig} `{Serde PersistedScheduleState} `{Serde DiagnosticEntry} `{Serde CachedManifest}.
Context `{Serde ManifestPayload} `{Serde SignedManifestEnvelope} `{Serde DeviceStatusReport}.

(** C31: whatever other threads do and however calls fail, the management
    thread never puts off the next refresh beyond the interval configured
    for the source it follows nor the next report beyond six hours, its
    failure counters stay 32-bit, and a pass that has come to its report has
    no refresh left that is due. *)
Theorem management_schedule_is_kept (s : WorkerSystem) :
  worker_reachable s ->
  (forall m, wk_source_identity (wy_worker s) = Some m -> wk_next_refresh (wy_worker s) <= wy_now s + interval m)
  /\ wk_next_report (wy_worker s) <= wy_now s + LONGEST_REPORT_WAIT
  /\ 0 <= wk_refresh_failures (wy_worker s) <= u32_max /\ 0 <= wk_report_failures (wy_worker s) <= u32_max
  /\ (forall local, wy_stage s = Reporting local ->
        wk_source_identity (wy_worker s) = Some (lc_management local)
        /\ wy_now s < wk_next_refresh (wy_worker s) <= wy_now s + interval (lc_management local)).
Proof.
  intros [[Hf Hr Hp Hc Hd] Hs]%worker_invariant. split_and!; try done; try lia.
  intros local Hl. unfold stage_ok in Hs. rewrite Hl in Hs. destruct Hs as (_ & Hfl & Hlt).
  split_and!; [done|done|by apply Hr].
Qed.

Lemma activate_source_followed e local now k w k' w' :
  follows k local -> activate_source e local now k w = Some (k', w') -> k' = k /\ w' = w.
Proof. unfold follows, activate_source. intros ->. rewrite bool_decide_eq_true_2 by done. by intros [= <- <-]. Qed.

Lemma report_source_same e local now k w sent k' :
  report_source e local now k w = Some (sent, k') ->
  wk_sequence k' = wk_sequence k /\ wk_source_identity k' = wk_source_identity k.
Proof.
  unfold report_source. destruct (negb (is_some _)); [by intros [= <- <-]|].
  set (k1 := if negb _ then _ else k).
  assert (wk_sequence k1 = wk_sequence k /\ wk_source_identity k1 = wk_source_identity k) as [E1 E2]
    by (unfold k1; by destruct (negb _)).
  destruct (now <? _); [by intros [= <- <-]|].
  destruct (match sr_credential_store w with Some _ => _ | None => _ end) as [[]|[error|]]; [| |done];
    intros [= <- <-]; done.
Qed.

(** C14: as long as the thread follows one management source, the sequence of
    the policy it applied never goes down, in any interleaving with other
    threads; and a refresh that changes the configuration in force puts a
    policy there that the source served, with a higher sequence than the
    last one, merged with the local configuration of that source. *)
Theorem policies_only_move_forward (s s' : WorkerSystem) :
  worker_reachable s -> worker_step s s' ->
  (wk_source_identity (wy_worker s') = wk_source_identity (wy_worker s) ->
     wk_sequence (wy_worker s) <= wk_sequence (wy_worker s'))
  /\ (forall e local k' w',
        wy_stage s = Refreshing local ->
        refresh_source e local (wy_now s) (wy_worker s) (wy_runtime s) = Some (k', w') ->
        sr_config w' <> sr_config (wy_runtime s) ->
        exists loaded document,
          fetch_policy (se_io e) (se_fetched_at e) (lc_management local) (Some (wk_sequence (wy_worker s)))
            (sr_credential_store (wy_runtime s)) = Ok (loaded, document)
          /\ wk_sequence (wy_worker s) < lp_sequence loaded /\ wk_sequence k' = lp_sequence loaded
          /\ lc_management (sr_local_config (wy_runtime s)) = lc_management local
          /\ policy_in_force (lp_policy loaded) (wy_runtime s) w').
Proof.
  intros [[Hfresh _ _ _ _] _]%worker_invariant Hstep. split.
  - destruct Hstep as [| | |e k k' now w w' local E|e k k' now w w' local E|e k k' now w local sent E|];
      cbn [wy_worker] in *; try done.
    + cbn. intros Hi. rewrite Hfresh by done. done.
    + intros Hi. unfold activate_source in E. case_bool_decide; [by injection E as <- <-|]. exfalso.
      destruct (best_policy e local w). apply bind_Some in E as ([[] ?] & _ & [= <- <-]). cbn in Hi. congruence.
    + apply refresh_source_spec in E as [_ [[-> _]|(loaded & document & _ & ? & -> & _)]]; lia.
    + apply report_source_same in E as [-> _]. done.
  - intros e local k' w' _ E Hne. apply refresh_source_spec in E as [_ [[_ Hw]|Hex]]; [|exact Hex].
    exfalso. apply Hne. destruct Hw as [->|[cache ->]]; [done|]. apply set_cache_same.
Qed.

(** A minimum sequence only rejects: what is served under one is served without. *)
Lemma fetch_policy_any_minimum io now m minimum store loaded document :
  fetch_policy io now m (Some minimum) store = Ok (loaded, document) ->
  fetch_policy io now m None store = Ok (loaded, document).
Proof.
  assert (forall p b u, validate_payload p now (Some minimum) b = Ok u -> validate_payload p now None b = Ok u) as Hv.
  { intros p b u. unfold validate_payload. do 2 apply seq_mono. rewrite !seq_Ok. tauto. }
  assert (forall mode doc v, verify_document m mode doc now (Some minimum) = Ok v ->
                             verify_document m mode doc now None = Ok v) as Hd.
  { intros mode doc v. unfold verify_document. destruct mode; [done| |apply bind_mono; intros key];
      rewrite !lift_failure_Ok.
    - unfold parse_plain_manifest. apply seq_mono, bind_mono; intros payload. rewrite !seq_Ok. naive_solver.
    - unfold verify_signed_manifest.
      repeat first [apply seq_mono | apply bind_mono; intros ?]. rewrite !seq_Ok. naive_solver. }
  unfold fetch_policy. do 3 (apply bind_mono; intros ?). apply seq_mono. rewrite !bind_Ok. naive_solver.
Qed.

(** A source other than a disabled one is never activated to no policy. *)
Lemma best_policy_None e local w w' :
  best_policy e local w = (Ok None, w') -> lm_mode (lc_management local) = Disabled.
Proof.
  unfold best_policy. destruct (load_best_policy _ _ _ _ _ _ _) as [r cache] eqn:Hl. intros [= -> _].
  revert Hl. unfold load_best_policy. case_bool_decide; [done|]. intros Hl. exfalso. revert Hl.
  destruct (validate_management _); [|done].
  assert (forall replaced at' l d f f', adopt replaced at' local l d f <> (Ok None, f')) as Ha.
  { intros replaced at' l d f f'. unfold adopt. destruct (validate_effective_policy _ _); [|done].
    destruct (cache_save _ _ _ _ _) as [[[]|] ?]; done. }
  destruct (cache_load _ _) as [c|[error|]]; [| |done].
  - destruct (fetch_policy _ _ _ _ _) as [[l d]|[error|]]; [|by destruct (validate_effective_policy _ _) as [[]|]|done].
    destruct (_ =? _); [by destruct (validate_effective_policy _ _) as [[]|]|apply Ha].
  - destruct (fetch_policy _ _ _ _ _) as [[l d]|[error'|]]; [apply Ha|done|done].
Qed.

(** While a backup runs, activating a new source keeps the old sequence. *)
Lemma busy_activation_keeps_sequence e local now k w k' w' :
  lm_mode (lc_management local) <> Disabled -> is_running (ss_state (rt_status (sr_state w))) = true ->
  activate_source e local now k w = Some (k', w') -> wk_sequence k' = wk_sequence k.
Proof.
  intros Hmode Hbusy. unfold activate_source. case_bool_decide; [by intros [= <- <-]|].
  destruct (best_policy e local w) as [best w1] eqn:Hbest.
  intros ([[sequence outcome] w2] & Hm & [= <- <-])%bind_Some. cbn [wk_sequence].
  assert (sr_state w1 = sr_state w) as Es.
  { unfold best_policy in Hbest. destruct (load_best_policy _ _ _ _ _ _ _). injection Hbest as <- <-. apply set_cache_same. }
  destruct best as [[loaded|]|[error|]]; [|by apply best_policy_None in Hbest|by injection Hm|done].
  apply bind_Some in Hm as ([applied w3] & Ha & [= Hs _]).
  unfold apply_managed_policy_if_current, apply_managed_policy_inner in Ha.
  rewrite Es, Hbusy in Ha. cbn [orb] in Ha.
  destruct (negb _) in Ha; [by simplify_eq/=|].
  destruct (resolve_config _ _ _) in Ha; by simplify_eq/=.
Qed.

(** The sequence of the previous source survives a switch to another
    source that happens while a backup runs, although sequences of different
    sources have nothing to do with each other: the new source's policy is
    never put in force by the refreshes that follow unless its own sequence
    is above the one the previous source had reached. *)
Theorem stale_sequence_blocks_new_source (e1 e2 : StageEnv) (local : LocalConfig) (now1 now2 : Z) (k k1 k2 : Worker)
    (w1 w1' w2 w2' : ServiceRuntime) (loaded : LoadedPolicy) (document : list Z) :
  wk_source_identity k <> Some (lc_management local) -> lm_mode (lc_management local) <> Disabled ->
  is_running (ss_state (rt_status (sr_state w1))) = true ->
  activate_source e1 local now1 k w1 = Some (k1, w1') ->
  fetch_policy (se_io e2) (se_fetched_at e2) (lc_management local) None (sr_credential_store w2) = Ok (loaded, document) ->
  lp_sequence loaded <= wk_sequence k ->
  refresh_source e2 local now2 k1 w2 = Some (k2, w2') ->
  wk_source_identity k2 = Some (lc_management local) /\ wk_sequence k2 = wk_sequence k /\ sr_config w2' = sr_config w2.
Proof.
  intros Hnew Hmode Hbusy Ha Hf Hle Hr.
  pose proof (busy_activation_keeps_sequence _ _ _ _ _ _ _ Hmode Hbusy Ha) as Hs.
  assert (wk_source_identity k1 = Some (lc_management local)) as Hi.
  { unfold activate_source in Ha. rewrite bool_decide_eq_false_2 in Ha by done.
    destruct (best_policy e1 local w1). by apply bind_Some in Ha as ([[] ?] & _ & [= <- <-]). }
  apply refresh_source_spec in Hr as [-> [[-> Hw]|(l & d & Hfetch & Hlt & _)]].
  - split_and!; [done|done|]. destruct Hw as [->|[cache ->]]; [done|apply set_cache_same].
  - apply fetch_policy_any_minimum in Hfetch. rewrite Hf in Hfetch. injection Hfetch as <- <-. lia.
Qed.
End promises.

(** ** A thread that switches from one server to another *)
Module WorkerWitness.
Import ChronoExample UrlExample ServiceWitness.
#[local] Existing Instances ManagementWitness.toy_crypto ManagementWitness.manifest_envelope_serde
  PolicyCacheWitness.no_dpapi PolicyCacheWitness.entry_serde PolicyCacheWitness.revised_serde PolicyCacheWitness.one_server
  local_serde persisted_serde entries_serde.
#[local] Instance reports_serde : Serde DeviceStatusReport := {| serialize := fun _ => Some [35]; deserialize := fun _ => None |}.

Definition stage_env : StageEnv :=
  {| se_io := Read_Done; se_replaced := true; se_fetched_at := seconds 1200; se_saved_at := seconds 1200; se_env := env;
     se_computer_name := None; se_architecture := lit "x86_64" |}.
(** A thread that follows another server, up to the same sequence. *)
Definition old_source : LocalManagementConfig :=
  {| lm_mode := PlainManifest; lm_manifest_url := Some (lit "https://old.test/p"); lm_signing_public_key := None;
     lm_refresh_interval_minutes := None; lm_status_url := None; lm_device_id := None;
     lm_status_token_ref := None; lm_enrollment_key_ref := None |}.
Definition following_old : Worker :=
  {| wk_sequence := 7; wk_source_identity := Some old_source; wk_next_refresh := seconds 3000; wk_refresh_failures := 0;
     wk_next_report := 0; wk_report_failures := 0; wk_last_observed_state := None |}.
Definition activated (k : Worker) (now : Z) (w : ServiceRuntime) : Worker * ServiceRuntime :=
  default (k, w) (activate_source stage_env local now k w).
Definition refreshed (k : Worker) (now : Z) (w : ServiceRuntime) : Worker * ServiceRuntime :=
  default (k, w) (refresh_source stage_env local now k w).
Definition after_switch : Worker := (activated following_old (seconds 2000) (started managed)).1.

(** The refresh counts as a success and the next one is a full interval away. *)
Example refresh_looks_synchronized :
  wk_next_refresh after_switch = seconds 2030
  /\ wk_refresh_failures (refreshed after_switch (seconds 2100) managed).1 = 0
  /\ wk_next_refresh (refreshed after_switch (seconds 2100) managed).1 = seconds (2100 + 15 * 60).
Proof. split_and!; vm_compute; reflexivity. Qed.
(** Had the runtime been idle, the policy would have been put in force. *)
Example idle_switch_applies :
  wk_next_refresh (activated following_old (seconds 2000) managed).1 = seconds (2000 + 15 * 60)
  /\ rc_url (ec_repository (sr_config (activated following_old (seconds 2000) managed).2)) = Some (lit "s3:local/bucket")
  /\ rc_url (ec_repository (sr_config (refreshed after_switch (seconds 2100) managed).2)) = Some (lit "s3:managed/bucket").
Proof. split_and!; vm_compute; reflexivity. Qed.

Lemma activated_eq k now w :
  is_some (activate_source stage_env local now k w) = true ->
  activate_source stage_env local now k w = Some ((activated k now w).1, (activated k now w).2).
Proof. unfold activated. by destruct (activate_source _ _ _ _ _) as [[]|]. Qed.
Lemma refreshed_eq k now w :
  is_some (refresh_source stage_env local now k w) = true ->
  refresh_source stage_env local now k w = Some ((refreshed k now w).1, (refreshed k now w).2).
Proof. unfold refreshed. by destruct (refresh_source _ _ _ _ _) as [[]|]. Qed.

Lemma stale_sequence_witness :
  wk_sequence (refreshed after_switch (seconds 2100) managed).1 = 7
  /\ sr_config (refreshed after_switch (seconds 2100) managed).2 = sr_config managed.
Proof.
  refine (proj2 (stale_sequence_blocks_new_source stage_env stage_env local (seconds 2000) (seconds 2100) following_old
                   after_switch _ (started managed) (activated following_old (seconds 2000) (started managed)).2
                   managed _ PolicyCacheWitness.loaded [1] _ _ _ _ _ _ _)).
  - discriminate.
  - discriminate.
  - vm_compute. reflexivity.
  - apply activated_eq. vm_compute. reflexivity.
  - vm_compute. reflexivity.
  - discriminate.
  - apply refreshed_eq. vm_compute. reflexivity.
Defined.

(** One pass of a thread that has just started. *)
Definition fresh : Worker := new_worker 0 0.
Definition pass_start : WorkerSystem :=
  {| wy_worker := fresh; wy_stage := Activating local; wy_now := seconds 2000; wy_runtime := managed |}.
Definition k1 : Worker := (activated fresh (seconds 2000) managed).1.
Definition w1 : ServiceRuntime := (activated fresh (seconds 2000) managed).2.
Definition k2 : Worker := (refreshed k1 (seconds 2000) w1).1.
Definition w2 : ServiceRuntime := (refreshed k1 (seconds 2000) w1).2.
Definition pass_activated : WorkerSystem :=
  {| wy_worker := k1; wy_stage := Refreshing local; wy_now := seconds 2000; wy_runtime := w1 |}.
Definition pass_refreshed : WorkerSystem :=
  {| wy_worker := k2; wy_stage := Reporting local; wy_now := seconds 2000; wy_runtime := w2 |}.

Lemma pass_activated_reachable : worker_reachable pass_activated.
Proof.
  eapply wkr_step; [eapply wkr_step; [apply (wkr_start 0 0 0 managed); lia|]|].
  - apply (wks_managed fresh 0 (seconds 2000) managed local); [vm_compute; reflexivity|discriminate|discriminate].
  - refine (wks_activate stage_env fresh k1 (seconds 2000) managed w1 local _). apply activated_eq. vm_compute. reflexivity.
Qed.
Lemma pass_refreshes : worker_step pass_activated pass_refreshed.
Proof.
  refine (wks_refresh stage_env k1 k2 (seconds 2000) w1 w2 local _). apply refreshed_eq. vm_compute. reflexivity.
Qed.

Lemma management_schedule_witness :
  seconds 2000 < wk_next_refresh (wy_worker pass_refreshed) <= seconds 2000 + interval (lc_management local).
Proof.
  refine (proj2 (proj2 (proj2 (proj2 (proj2 (management_schedule_is_kept pass_refreshed _)))) local eq_refl)).
  eapply wkr_step; [apply pass_activated_reachable|apply pass_refreshes].
Defined.

Lemma policies_forward_witness : wk_sequence (wy_worker pass_activated) <= wk_sequence (wy_worker pass_refreshed).
Proof.
  refine (proj1 (policies_only_move_forward pass_activated pass_refreshed pass_activated_reachable pass_refreshes) _).
  vm_compute. reflexivity.
Defined.
End WorkerWitness.
