(* ===== verification/Startup.v ===== *)
(** * Starting the service ([apps/resticpal-service/src/main.rs])

    Where the service keeps its files, how it takes over the URL the
    installer has staged in the registry, what it turns the controls of
    Windows into, and the order in which it starts. *)
From stdpp Require Import base option list gmap strings.
From S2P Require Import Prelude RustStd WinPath Chrono Crates Config Status Schedule Policy Restic Protocol Outcome.
From S2P Require Import ServiceState Diagnostics History Credentials AtomicFile Management Updater DataRoot Sources.
From S2P Require Import PolicyCache Runtime Scheduler Lifecycle Enrollment Ipc Service Output Executor EventLoop Profiles.

(** ** Paths *)
Section paths.
Context (var_os : rstr -> option rstr).

Definition program_data_root : rstr :=
  path_push (default (lit "C:\ProgramData") (var_os (lit "ProgramData"))) (lit "ResticPal").
Definition default_config_path : rstr := path_push program_data_root (lit "config.toml").
Definition credential_store_path : rstr := path_push program_data_root (lit "Credentials").

(** [arguments.windows(2).find_map(...)] *)
Fixpoint config_argument (arguments : list rstr) : option rstr :=
  match arguments with
  | flag :: ((value :: _) as rest) => if str_eqb flag (lit "--config") then Some value else config_argument rest
  | _ => None
  end.
Definition config_path (arguments : list rstr) : rstr := default default_config_path (config_argument arguments).
End paths.

(** ** Controls *)
Inductive PowerEventParam : Type :=
| ResumeAutomatic | ResumeSuspend | ResumeCritical | PowerStatusChange | OtherPowerEvent.
Inductive ServiceControl : Type :=
| Interrogate | Control_Stop | Control_Shutdown | PowerEvent (param : PowerEventParam) | TimeChange | OtherControl.
Inductive ServiceControlHandlerResult : Type := NoError | NotImplemented.

Definition event_handler (control : ServiceControl) : ServiceControlHandlerResult * option RuntimeEvent :=
  match control with
  | Interrogate => (NoError, None)
  | Control_Stop | Control_Shutdown => (NoError, Some Ev_Stop)
  | PowerEvent (ResumeAutomatic | ResumeSuspend | ResumeCritical) => (NoError, Some Ev_Resume)
  | PowerEvent PowerStatusChange => (NoError, Some Ev_PowerStatusChanged)
  | TimeChange => (NoError, Some Ev_TimeChanged)
  | _ => (NotImplemented, None)
  end.

(** ** The staged URL *)
Definition ERROR_SUCCESS : Z := 0.
Definition ERROR_FILE_NOT_FOUND : Z := 2.

(** What the registry answers: the size of the value, its units, and the
    status of deleting it. *)
Record StagedEnv : Type := { sg_size_status : Z; sg_size : Z; sg_value_status : Z; sg_value : list Z; sg_delete : Z }.

Inductive StagedError : Type := Staged_Os (status : Z) | Staged_InvalidSize | Staged_NotUtf16.

Definition staged_bootstrap_url (env : StagedEnv) : result StagedError (option rstr) :=
  if sg_size_status env =? ERROR_FILE_NOT_FOUND then Ok None
  else if negb (sg_size_status env =? ERROR_SUCCESS) then Err (Staged_Os (sg_size_status env))
  else if negb (in_range 2 (64 * 1024) (sg_size env)) || negb (sg_size env mod 2 =? 0) then Err Staged_InvalidSize
  else
    let buffer := overwrite (replicate (Z.to_nat (sg_size env / 2)) 0) (sg_value env) in
    if negb (sg_value_status env =? ERROR_SUCCESS) then Err (Staged_Os (sg_value_status env))
    else
      value ← ok_or (from_utf16 (trim_null buffer)) Staged_NotUtf16;
      Ok (if str_is_empty value then None else Some value).

Definition clear_staged_bootstrap_url (env : StagedEnv) : result StagedError unit :=
  if (sg_delete env =? ERROR_SUCCESS) || (sg_delete env =? ERROR_FILE_NOT_FOUND) then Ok ()
  else Err (Staged_Os (sg_delete env)).

Section startup.
Context `{Chrono} `{UrlCrate} `{CryptoCrates} `{Dpapi} `{UnicodeData} `{HttpClient} `{Sddl}.
Context `{Serde LocalConfig} `{Serde PersistedScheduleState} `{Serde DiagnosticEntry} `{Serde CachedManifest}.
Context `{Serde ManifestPayload} `{Serde SignedManifestEnvelope}.
Context (client : rstr -> option PendingEnrollment) (var_os : rstr -> option rstr).

(** The staged enrollment; the flag says whether the value was removed. *)
Definition enroll_staged (env1 env2 : Env) (staged : StagedEnv) (w : ServiceRuntime) : option (bool * ServiceRuntime) :=
  match staged_bootstrap_url staged with
  | Ok (Some url) =>
      '(enrolled, w) ← enroll_bootstrap env1 env2 client url w;
      Some (match enrolled with
            | Ok _ => match clear_staged_bootstrap_url staged with Ok _ => true | Err _ => false end
            | Err _ => false
            end, w)
  | Ok None | Err _ => Some (false, w)
  end.

(** [credential_store]: an error is only printed. *)
Definition credential_store (store : StoreEnv) (files : CredentialFiles) : option CredentialFiles :=
  match (open_store store).1.1 with Ok _ => Some files | Err _ => None end.

(** The policy the service starts with; a failure leaves the local
    configuration.  The outer [None] is a panic. *)
Definition starting_policy (io : ReadIo) (replaced : bool) (fetched_at saved_at : DateTime) (credentials : option CredentialFiles)
    (config cache : FileRead) : option (option ManagedPolicy * FileRead) :=
  match config_load config with
  | Err _ => Some (None, cache)
  | Ok local =>
      match load_best_policy io replaced fetched_at saved_at local credentials cache with
      | (Ok policy, cache) => Some (lp_policy <$> policy, cache)
      | (Err (Fails _), cache) => Some (None, cache)
      | (Err Panics, _) => None
      end
  end.

(** [run_service] from the data root to the threads.  The inner error is the
    one the service ends with. *)
Definition start_service (objects : rstr -> ObjectEnv) (root : DataRoot) (store : StoreEnv) (files : CredentialFiles)
    (io : ReadIo) (replaced : bool) (fetched_at saved_at : DateTime) (env env1 env2 : Env) (disk : Disk) (staged : StagedEnv)
    (arguments : list rstr) : option (result UpdateError (bool * Threads)) :=
  match (prepare_service_data_root objects root).1 with
  | Err error => Some (Err error)
  | Ok _ =>
      let credentials := credential_store store files in
      '(policy, cache) ← starting_policy io replaced fetched_at saved_at credentials (dk_config disk) (dk_cache disk);
      let disk := {| dk_config := dk_config disk; dk_cache := cache; dk_state := dk_state disk;
                     dk_history := dk_history disk; dk_log := dk_log disk |} in
      w ← run_service client env env1 env2 (config_path var_os arguments) disk credentials policy None;
      '(removed, w) ← enroll_staged env1 env2 staged w;
      Some (Ok (removed, idle_threads w))
  end.
End startup.

(** ** What start-up guarantees *)

(** The handler posts only events that the model of the threads knows, and
    [Stop] exactly for the two controls that end the service. *)
Lemma event_handler_events control event :
  (event_handler control).2 = Some event ->
  event ∈ [Ev_Stop; Ev_Resume; Ev_PowerStatusChanged; Ev_TimeChanged]
  /\ (event = Ev_Stop <-> control = Control_Stop \/ control = Control_Shutdown).
Proof. destruct control as [| | |[]| |]; cbn; intros [= <-]; split; set_solver. Qed.

Lemma from_utf16_length units s : from_utf16 units = Some s -> (length s <= length units)%nat.
Proof.
  assert ((forall s, from_utf16 units = Some s -> (length s <= length units)%nat)
          /\ forall u s, from_utf16 (u :: units) = Some s -> (length s <= S (length units))%nat) as [Hg _]; [|auto].
  induction units as [|v units [IH1 IH2]].
  { split; cbn; [intros s' [= <-]; done|]. intros u s'. repeat case_match; intros [= <-]; cbn; lia. }
  split; [eauto|]. intros u s'. cbn [from_utf16 length].
  destruct (in_range 0xD800 0xDBFF u).
  - destruct (in_range 0xDC00 0xDFFF v); [|done]. intros (r & Hr%IH1 & ->)%fmap_Some. cbn. lia.
  - destruct (in_range 0xDC00 0xDFFF u); [done|]. intros (r & Hr & ->)%fmap_Some. apply (IH2 v) in Hr. cbn. lia.
Qed.

Lemma trim_null_length value : (length (trim_null value) <= length value)%nat.
Proof. induction value as [|u value IH]; cbn; [done|]. destruct (u =? 0); cbn; lia. Qed.
Lemma overwrite_length destination source : length (overwrite destination source) = length destination.
Proof. revert source; induction destination as [|x d IH]; intros [|y s]; cbn; auto. Qed.

(** Whatever the registry holds, a staged URL is a text without terminators
    of at most 32768 characters. *)
Lemma staged_url_bounded env url :
  staged_bootstrap_url env = Ok (Some url) -> url <> [] /\ 0 ∉ url /\ chars_count url <= 32 * 1024.
Proof.
  unfold staged_bootstrap_url. destruct (_ =? _); [done|]. destruct (negb _); [done|].
  destruct (_ || _) eqn:Hs; [done|]. apply orb_false_iff in Hs as [Hs%negb_false_iff%in_range_true _].
  destruct (negb _); [done|]. intros (value & Hv%ok_or_Ok & Hu)%bind_Ok.
  destruct value as [|c value]; [done|]. injection Hu as <-. split; [done|]. split.
  - eapply from_utf16_no_null; [apply trim_null_no_null|exact Hv].
  - apply from_utf16_length in Hv. pose proof (trim_null_length (overwrite (replicate (Z.to_nat (sg_size env / 2)) 0) (sg_value env))) as Ht.
    rewrite overwrite_length, length_replicate in Ht. unfold chars_count.
    assert (sg_size env / 2 <= 32 * 1024) by (apply Z.div_le_upper_bound; lia).
    assert (0 <= sg_size env / 2) by (apply Z.div_pos; lia). lia.
Qed.

(** The service has threads only on a prepared data root. *)
Section starting.
Context `{Chrono} `{UrlCrate} `{CryptoCrates} `{Dpapi} `{UnicodeData} `{HttpClient} `{Sddl}.
Context `{Serde LocalConfig} `{Serde PersistedScheduleState} `{Serde DiagnosticEntry} `{Serde CachedManifest}.
Context `{Serde ManifestPayload} `{Serde SignedManifestEnvelope}.
Context (client : rstr -> option PendingEnrollment) (var_os : rstr -> option rstr).

(** The staged value is gone only after an enrollment that succeeded. *)
Lemma staged_url_kept_until_enrolled env1 env2 staged w w' :
  enroll_staged client env1 env2 staged w = Some (true, w') ->
  exists url, staged_bootstrap_url staged = Ok (Some url)
    /\ enroll_bootstrap env1 env2 client url w = Some (Ok (), w')
    /\ clear_staged_bootstrap_url staged = Ok ().
Proof.
  unfold enroll_staged. destruct (staged_bootstrap_url staged) as [[url|]|]; [|done..].
  intros ([[[]|] w1] & He & Hr)%bind_Some; [|done].
  destruct (clear_staged_bootstrap_url staged) as [[]|] eqn:Hc; [|done]. injection Hr as <-. eauto.
Qed.

(** What [start_service] starts is one of the initial states of the threads. *)
Lemma start_service_threads x discover var_os' objects root store files io replaced fetched_at saved_at env env1 env2 disk staged
    arguments removed t `{Filesystem} `{Messages} `{Base64Standard} `{WireJson} :
  start_service client var_os objects root store files io replaced fetched_at saved_at env env1 env2 disk staged arguments
  = Some (Ok (removed, t)) ->
  (prepare_service_data_root objects root).1 = Ok ()
  /\ thread_reachable discover client var_os' x t.
Proof.
  unfold start_service. destruct (prepare_service_data_root objects root) as [[[]|error] root']; cbn [fst]; [|done].
  intros ([policy cache] & _ & Hr)%bind_Some. apply bind_Some in Hr as (w & Hw & Hr).
  apply bind_Some in Hr as ([removed' w'] & He & [= -> <-]). split; [done|].
  set (credentials := credential_store store files) in *.
  set (disk' := {| dk_config := _ |}) in *.
  enough (exists url, run_service client env env1 env2 (config_path var_os arguments) disk' credentials policy url
                      = Some w') as [url Hu] by by eapply tr_start.
  revert He. unfold enroll_staged. destruct (staged_bootstrap_url staged) as [[url|]|];
    [|intros [= _ <-]; by exists None..].
  intros ([enrolled w1] & Hb & [= _ <-])%bind_Some. exists (Some url). revert Hw. unfold run_service.
  intros (loaded & Hl & [= Hw])%bind_Some. rewrite Hl. cbn. rewrite Hw, Hb. done.
Qed.
End starting.
