(* ===== verification/ServiceMain.v ===== *)
(** * The service process ([apps/resticpal-service/src/main.rs])

    [main] and [service_main], the smoke test of the console, and the whole
    of [run_service]: what the process reports to the service control manager
    of Windows while it starts, runs and stops, which program it runs as
    restic, and where it leaves a message when it cannot start. *)
From stdpp Require Import base option list gmap strings.
From S2P Require Import Prelude RustStd WinPath Chrono Crates Config Status Schedule Policy Restic Protocol Outcome.
From S2P Require Import ServiceState Diagnostics History Credentials AtomicFile Management Updater DataRoot Sources.
From S2P Require Import PolicyCache Runtime Scheduler Lifecycle Enrollment Ipc Service Output Executor EventLoop Profiles Startup.

(** ** What is reported *)
Inductive ScmState : Type := StartPending | Running | StopPending | Scm_Stopped.
#[global] Instance ScmState_eq_dec : EqDecision ScmState.
Proof. solve_decision. Defined.

(** [ServiceControlAccept] *)
Record Accepts : Type := { ac_stop : bool; ac_shutdown : bool; ac_power_event : bool; ac_time_change : bool }.
#[global] Instance Accepts_eq_dec : EqDecision Accepts.
Proof. solve_decision. Defined.
Definition accepts_nothing : Accepts :=
  {| ac_stop := false; ac_shutdown := false; ac_power_event := false; ac_time_change := false |}.

(** [ScmServiceStatus]; the exit code is always [Win32(0)], the hint in seconds. *)
Record ScmServiceStatus : Type := {
  scm_state : ScmState;
  scm_accepts : Accepts;
  scm_checkpoint : Z;
  scm_wait_hint : Z
}.
#[global] Instance ScmServiceStatus_eq_dec : EqDecision ScmServiceStatus.
Proof. solve_decision. Defined.

Definition SHUTDOWN_DRAIN_TIMEOUT : Z := 10.

Definition start_pending : ScmServiceStatus :=
  {| scm_state := StartPending; scm_accepts := accepts_nothing; scm_checkpoint := 1; scm_wait_hint := 45 |}.
Definition running : ScmServiceStatus :=
  {| scm_state := Running;
     scm_accepts := {| ac_stop := true; ac_shutdown := true; ac_power_event := true; ac_time_change := true |};
     scm_checkpoint := 0; scm_wait_hint := 0 |}.
Definition stop_pending : ScmServiceStatus :=
  {| scm_state := StopPending; scm_accepts := accepts_nothing; scm_checkpoint := 1; scm_wait_hint := SHUTDOWN_DRAIN_TIMEOUT |}.
Definition stopped : ScmServiceStatus :=
  {| scm_state := Scm_Stopped; scm_accepts := accepts_nothing; scm_checkpoint := 0; scm_wait_hint := 0 |}.

(** The controls the manager sends to a service with this status. *)
Definition accepted (a : Accepts) (control : ServiceControl) : bool :=
  match control with
  | Interrogate => true
  | Control_Stop => ac_stop a
  | Control_Shutdown => ac_shutdown a
  | PowerEvent _ => ac_power_event a
  | TimeChange => ac_time_change a
  | OtherControl => false
  end.

(** ** Paths and resolvers *)

(** [PathBuf::set_file_name] *)
Definition set_file_name (path name : rstr) : rstr :=
  path_push (if is_some (file_name path) then default path (WinPath.parent path) else path) name.

Definition restic_path (current_exe : option rstr) : rstr :=
  match current_exe with
  | Some executable => set_file_name executable (lit "restic.exe")
  | None => lit "restic.exe"
  end.

Definition secret_resolver `{Dpapi} (io : ReadIo) (store : option CredentialFiles) : rstr -> result unit rstr :=
  match store with
  | Some files => dpapi_resolve io files
  | None => unavailable_resolve
  end.

(** ** The process *)
Inductive ServiceFailure : Type := Svc_Register | Svc_Report | Svc_DataRoot (error : UpdateError).

Inductive ServiceStage : Type :=
| Sg_Registering
| Sg_Starting
| Sg_Started (t : Threads)      (* the other threads run, the loop does not yet *)
| Sg_Serving (t : Threads)
| Sg_Stopping (t : Threads)     (* the loop has ended and the end is in the log *)
| Sg_Ended (r : result ServiceFailure unit).

(** The process with the reports Windows has taken, in order. *)
Record ServiceProcess : Type := { sv_stage : ServiceStage; sv_reports : list ScmServiceStatus }.

(** What belongs to the event loop. *)
Definition loop_state (t : Threads) : Phase * option bool * option bool * list BackupWorker * list RepositoryWorker * list UpdateWorker :=
  (th_phase t, th_active_backup t, th_active_repository t, th_backups t, th_repositories t, th_updates t).

Section process.
Context `{Chrono} `{UrlCrate} `{CryptoCrates} `{Dpapi} `{UnicodeData} `{HttpClient} `{Sddl}.
Context `{Serde LocalConfig} `{Serde PersistedScheduleState} `{Serde DiagnosticEntry} `{Serde CachedManifest}.
Context `{Serde ManifestPayload} `{Serde SignedManifestEnvelope}.
Context `{Filesystem} `{Messages} `{Base64Standard} `{WireJson}.
Context (discover : option (list DiscoveredBackupSource)) (client : rstr -> option PendingEnrollment).
Context (var_os : rstr -> option rstr) (x : ResticExecutor).

(** [run_service].  A report that fails ends it, except the one of the
    pending stop, which is only printed.  Whether the Windows Runtime is
    available only decides what [current_conditions] can read. *)
Inductive process_step : ServiceProcess -> ServiceProcess -> Prop :=
| ps_register_failed :
    process_step {| sv_stage := Sg_Registering; sv_reports := [] |}
                 {| sv_stage := Sg_Ended (Err Svc_Register); sv_reports := [] |}
| ps_pending (taken : bool) :
    process_step {| sv_stage := Sg_Registering; sv_reports := [] |}
                 (if taken then {| sv_stage := Sg_Starting; sv_reports := [start_pending] |}
                  else {| sv_stage := Sg_Ended (Err Svc_Report); sv_reports := [] |})
| ps_start objects root store files io replaced fetched_at saved_at env env1 env2 disk staged arguments r reports :
    start_service client var_os objects root store files io replaced fetched_at saved_at env env1 env2 disk staged arguments
    = Some r ->
    process_step {| sv_stage := Sg_Starting; sv_reports := reports |}
                 {| sv_stage := match r with Ok (_, t) => Sg_Started t | Err error => Sg_Ended (Err (Svc_DataRoot error)) end;
                    sv_reports := reports |}
(* the pipe, the management thread and the control handler *)
| ps_others t t' reports :
    thread_step discover client var_os x t t' -> loop_state t' = loop_state t ->
    sr_events (th_runtime t) `prefix_of` sr_events (th_runtime t') ->
    process_step {| sv_stage := Sg_Started t; sv_reports := reports |} {| sv_stage := Sg_Started t'; sv_reports := reports |}
| ps_running (taken : bool) t reports :
    process_step {| sv_stage := Sg_Started t; sv_reports := reports |}
                 (if taken then {| sv_stage := Sg_Serving t; sv_reports := reports ++ [running] |}
                  else {| sv_stage := Sg_Ended (Err Svc_Report); sv_reports := reports |})
| ps_serve t t' reports :
    thread_step discover client var_os x t t' -> ~ (th_phase t = Looping /\ th_phase t' = Draining) ->
    process_step {| sv_stage := Sg_Serving t; sv_reports := reports |} {| sv_stage := Sg_Serving t'; sv_reports := reports |}
| ps_stop (taken : bool) t t' reports :
    thread_step discover client var_os x t t' -> th_phase t = Looping -> th_phase t' = Draining ->
    process_step {| sv_stage := Sg_Serving t; sv_reports := reports |}
                 {| sv_stage := Sg_Serving t'; sv_reports := if taken then reports ++ [stop_pending] else reports |}
| ps_loop_ended env t reports :
    th_phase t = Stopped ->
    process_step {| sv_stage := Sg_Serving t; sv_reports := reports |}
      {| sv_stage := Sg_Stopping
           (set_th_runtime (record_diagnostic env Level_Information "service.stopped" "The resticpal service stopped." None
                              (th_runtime t)) t);
         sv_reports := reports |}
| ps_stopped (taken : bool) t reports :
    process_step {| sv_stage := Sg_Stopping t; sv_reports := reports |}
                 (if taken then {| sv_stage := Sg_Ended (Ok ()); sv_reports := reports ++ [stopped] |}
                  else {| sv_stage := Sg_Ended (Err Svc_Report); sv_reports := reports |}).

Inductive process_reachable : ServiceProcess -> Prop :=
| pr_start : process_reachable {| sv_stage := Sg_Registering; sv_reports := [] |}
| pr_step p p' : process_reachable p -> process_step p p' -> process_reachable p'.
End process.

(** ** [main] *)
Inductive ExitCode : Type := SUCCESS | FAILURE.

(** [record_service_startup_error]: the line it appends, when it can. *)
Definition record_service_startup_error (prepared : result UpdateError unit) (opened : bool) (now message : rstr) : list rstr :=
  match prepared with
  | Err _ => []
  | Ok _ => if opened then [now ++ [32] ++ message ++ [10]] else []
  end.

Section main.
Context `{Chrono} `{UrlCrate} `{Serde LocalConfig} `{Serde PersistedScheduleState} `{Serde DiagnosticEntry}.
Context (var_os : rstr -> option rstr).

(** [ServiceRuntime::load] *)
Definition runtime_load (env : Env) (path : rstr) (disk : Disk) : option (result RuntimeInitError ServiceRuntime) :=
  load_with_credentials_and_policy env path disk None None.

(** The state it prints; [None] is a panic. *)
Definition console_smoke_test (env : Env) (disk : Disk) (arguments : list rstr) : option (ExitCode * option BackupState) :=
  loaded ← runtime_load env (config_path var_os arguments) disk;
  Some (match loaded with
        | Ok w => (SUCCESS, Some (ss_state (rt_status (sr_state w))))
        | Err _ => (FAILURE, None)
        end).

(** What the dispatcher answers is an error text or nothing. *)
Definition main (env : Env) (disk : Disk) (dispatcher : option rstr) (prepared : result UpdateError unit) (opened : bool)
    (now : rstr) (arguments : list rstr) : option (ExitCode * list rstr) :=
  if existsb (fun argument => str_eqb argument (lit "--console")) arguments then
    '(code, _) ← console_smoke_test env disk arguments; Some (code, [])
  else Some (match dispatcher with
             | None => (SUCCESS, [])
             | Some error =>
                 (FAILURE, record_service_startup_error prepared opened now
                             (lit "could not start resticpal through the service dispatcher: " ++ error))
             end).

Definition service_main (outcome : result rstr unit) (prepared : result UpdateError unit) (opened : bool) (now : rstr)
    : list rstr :=
  match outcome with
  | Ok _ => []
  | Err error => record_service_startup_error prepared opened now (lit "resticpal service failed: " ++ error)
  end.
End main.

(** ** What the manager is told *)
Lemma evaluate_phase `{Chrono} `{UrlCrate} `{Serde LocalConfig} `{Serde PersistedScheduleState} `{Serde DiagnosticEntry} tn t t' :
  evaluate_and_maybe_start tn t = Some t' -> th_phase t' = th_phase t.
Proof.
  unfold evaluate_and_maybe_start. destruct (is_some _); [by intros [= <-]|].
  intros ([action w] & _ & Hr)%bind_Some. destruct action; [by injection Hr as <-|].
  destruct (tn_spawn tn); [by injection Hr as <-|]. apply bind_Some in Hr as (w' & _ & [= <-]). done.
Qed.

Lemma handle_event_phase `{Chrono} `{UrlCrate} `{Serde LocalConfig} `{Serde PersistedScheduleState} `{Serde DiagnosticEntry} tn e t t' :
  handle_event tn e t = Some t' -> th_phase t' = th_phase t \/ (e = Ev_Stop /\ th_phase t' = Draining).
Proof.
  destruct e; cbn [handle_event]; intros Hr;
    repeat match type of Hr with
    | (if ?c then _ else _) = _ => destruct c
    | _ ≫= _ = _ => apply bind_Some in Hr as (? & _ & Hr)
    end; try (injection Hr as <-; by auto); try (apply evaluate_phase in Hr; by auto).
Qed.

(** The loop goes from serving to draining to stopped, and never back. *)
Lemma step_phase `{Chrono} `{UrlCrate} `{CryptoCrates} `{Dpapi} `{UnicodeData} `{HttpClient}
    `{Serde LocalConfig} `{Serde PersistedScheduleState} `{Serde DiagnosticEntry} `{Serde CachedManifest}
    `{Serde ManifestPayload} `{Serde SignedManifestEnvelope} `{Filesystem} `{Messages} `{Base64Standard} `{WireJson}
    discover client var_os x t t' :
  thread_step discover client var_os x t t' ->
  th_phase t' = th_phase t \/ (th_phase t = Looping /\ th_phase t' = Draining) \/ (th_phase t = Draining /\ th_phase t' = Stopped).
Proof.
  destruct 1 as [tn t t' Hp Hl|tn t t' Hp He|tn event t t0 t' Hp _ Ht Hd| | | | | | | | | | | | | | | | | |]; try (by auto).
  - unfold loop_turn in Hl. destruct (take_event t) as [[e t0]|] eqn:Ht; [|apply evaluate_phase in Hl; by auto].
    assert (th_phase t0 = th_phase t) as Hph by (unfold take_event in Ht; destruct (sr_events _); [done|by injection Ht as _ <-]).
    apply handle_event_phase in Hl as [Hl|[_ Hl]]; [left; congruence|auto].
  - apply evaluate_phase in He. by auto.
  - left. assert (th_phase t0 = th_phase t) as <- by (unfold take_event in Ht; destruct (sr_events _); [done|by injection Ht as _ <-]).
    destruct event; cbn [drain_event] in Hd; try (by injection Hd as <-); by apply bind_Some in Hd as (w & _ & [= <-]).
Qed.

(** The reports so far, stage by stage. *)
Definition stop_reports (p : Phase) (tail : list ScmServiceStatus) : Prop :=
  match p with Looping => tail = [] | _ => tail = [] \/ tail = [stop_pending] end.
Definition idle_loop (t : Threads) : Prop := loop_state t = (Looping, None, None, [], [], []).

Section reports.
Context `{Chrono} `{UrlCrate} `{CryptoCrates} `{Dpapi} `{UnicodeData} `{HttpClient} `{Sddl}.
Context `{Serde LocalConfig} `{Serde PersistedScheduleState} `{Serde DiagnosticEntry} `{Serde CachedManifest}.
Context `{Serde ManifestPayload} `{Serde SignedManifestEnvelope}.
Context `{Filesystem} `{Messages} `{Base64Standard} `{WireJson}.
Context (discover : option (list DiscoveredBackupSource)) (client : rstr -> option PendingEnrollment).
Context (var_os : rstr -> option rstr) (x : ResticExecutor).
Abbreviation thread_reachable := (thread_reachable discover client var_os x).
Abbreviation process_reachable := (process_reachable discover client var_os x).

Definition told (p : ServiceProcess) : Prop :=
  match sv_stage p with
  | Sg_Registering => sv_reports p = []
  | Sg_Starting => sv_reports p = [start_pending]
  | Sg_Started t => sv_reports p = [start_pending] /\ thread_reachable t /\ idle_loop t
  | Sg_Serving t =>
      thread_reachable t /\ exists tail, sv_reports p = [start_pending; running] ++ tail /\ stop_reports (th_phase t) tail
  | Sg_Stopping t => exists tail, sv_reports p = [start_pending; running] ++ tail /\ stop_reports Stopped tail
  | Sg_Ended (Ok _) => exists tail, sv_reports p = [start_pending; running] ++ tail ++ [stopped] /\ stop_reports Stopped tail
  | Sg_Ended (Err Svc_Register) => sv_reports p = []
  | Sg_Ended (Err (Svc_DataRoot _)) => sv_reports p = [start_pending]
  | Sg_Ended (Err Svc_Report) =>
      sv_reports p = [] \/ sv_reports p = [start_pending]
      \/ exists tail, sv_reports p = [start_pending; running] ++ tail /\ stop_reports Stopped tail
  end.

Lemma process_told p : process_reachable p -> told p.
Proof.
  induction 1 as [|p p' _ IH Hstep]; [done|].
  destruct Hstep as [|taken|objects root store files io replaced fetched_at saved_at env env1 env2 disk staged arguments r reports Hs
    |t t' reports Hs Hl _|taken t reports|t t' reports Hs Hp|taken t t' reports Hs Hp Hp'|env t reports Hp|taken t reports]; unfold told in *; cbn in *.
  - done.
  - destruct taken; [done|by left].
  - destruct r as [[removed t]|error]; [|done]. split; [done|].
    eapply start_service_threads in Hs as Ht. split; [apply Ht|].
    unfold start_service in Hs. destruct (prepare_service_data_root _ _).1; [|done].
    apply bind_Some in Hs as ([policy cache] & _ & Hs). apply bind_Some in Hs as (w & _ & Hs).
    apply bind_Some in Hs as ([? w'] & _ & [= _ <-]). done.
  - destruct IH as (-> & Hr & Hi). split; [done|]. split; [by eapply tr_step|]. unfold idle_loop in *. congruence.
  - destruct IH as (-> & Hr & Hi). destruct taken; cbn; [|auto]. split; [done|]. exists []. split; [done|].
    unfold idle_loop, loop_state in Hi. injection Hi as -> _ _ _ _ _. done.
  - destruct IH as (Hr & tail & -> & Ht). split; [by eapply tr_step|]. exists tail. split; [done|].
    destruct (step_phase _ _ _ _ _ _ Hs) as [->|[[? ?]|[E ->]]]; [done|naive_solver|]. by rewrite E in Ht.
  - destruct IH as (Hr & tail & -> & Ht). split; [by eapply tr_step|]. rewrite Hp in Ht. cbn in Ht. subst tail. rewrite Hp'.
    destruct taken; [exists [stop_pending]|exists []]; cbn; auto.
  - destruct IH as (Hr & tail & -> & Ht). rewrite Hp in Ht. by exists tail.
  - destruct IH as (tail & -> & Ht). destruct taken; cbn; [|right; right]; exists tail; done.
Qed.

(** The reports of every stage are among these. *)
Definition report_lists : list (list ScmServiceStatus) :=
  [ []; [start_pending]; [start_pending; running]; [start_pending; running; stop_pending];
    [start_pending; running; stopped]; [start_pending; running; stop_pending; stopped] ].

Lemma told_lists p :
  told p -> sv_reports p ∈ report_lists /\ (stopped ∈ sv_reports p <-> sv_stage p = Sg_Ended (Ok ())).
Proof.
  unfold told, report_lists. intros Ht.
  assert (forall phase tail, stop_reports phase tail -> tail = [] \/ tail = [stop_pending]) as Htail by (intros [] ?; cbn; auto).
  destruct (sv_stage p) as [| |t|t|t|[[]|[]]];
    repeat match goal with
    | H : _ /\ _ |- _ => destruct H
    | H : _ \/ _ |- _ => destruct H
    | H : exists _, _ |- _ => destruct H
    | H : stop_reports _ _ |- _ => apply Htail in H
    | H : sv_reports p = _ |- _ => rewrite H; clear H
    end; subst; cbn; (split; [set_solver|]);
    split; intros Hin; first [done | set_solver | exfalso; set_unfold in Hin; by repeat destruct Hin as [Hin|Hin]].
Qed.

Lemma reports_controls reports status control :
  reports ∈ report_lists -> status ∈ reports -> accepted (scm_accepts status) control = true -> control <> Interrogate ->
  status = running.
Proof.
  intros Hl Hs Ha Hc.
  assert (status ∈ [start_pending; running; stop_pending; stopped]) as H'.
  { unfold report_lists in Hl. rewrite !elem_of_cons in Hl. destruct Hl as [->|[->|[->|[->|[->|[->|[]%elem_of_nil]]]]]]; set_solver. }
  clear -H' Ha Hc. set_unfold in H'. destruct H' as [->|[->|[->|[->|[]]]]]; [|done|..]; by destruct control.
Qed.

End reports.

(** A start that fails after the first report leaves "start pending" as the
    last thing Windows was told: nothing reports that the service stopped. *)
Lemma failed_start_stays_pending `{Chrono} `{UrlCrate} `{CryptoCrates} `{Dpapi} `{UnicodeData} `{HttpClient} `{Sddl}
    `{Serde LocalConfig} `{Serde PersistedScheduleState} `{Serde DiagnosticEntry} `{Serde CachedManifest}
    `{Serde ManifestPayload} `{Serde SignedManifestEnvelope} `{Filesystem} `{Messages} `{Base64Standard} `{WireJson}
    discover client var_os x p error :
  process_reachable discover client var_os x p -> sv_stage p = Sg_Ended (Err (Svc_DataRoot error)) ->
  sv_reports p = [start_pending].
Proof. intros Ht%process_told E. unfold told in Ht. by rewrite E in Ht. Qed.

(** ** The program that is run *)
Lemma drop_while_none {A} (f : A -> bool) l : (forall c, last l = Some c -> f c = false) -> drop_while f (reverse l) = reverse l.
Proof.
  destruct l as [|c l _] using rev_ind; [done|]. intros Hc. rewrite reverse_app. cbn.
  rewrite (Hc c); [done|]. by rewrite last_app.
Qed.

Lemma split_body_last sep acc s c name :
  sep c = true -> forallb (fun c => negb (sep c)) name = true -> exists parts, split_body sep acc (s ++ c :: name) = parts ++ [name].
Proof.
  intros Hc Hn.
  assert (forall acc, split_body sep acc name = [reverse acc ++ name]) as Hname.
  { clear s acc. induction name as [|d name IH]; intros acc; cbn; [by rewrite app_nil_r|].
    cbn in Hn. apply andb_true_iff in Hn as [Hd Hn]. apply negb_true_iff in Hd. rewrite Hd, IH by done.
    by rewrite reverse_cons, <- app_assoc. }
  revert acc. induction s as [|d s IH]; intros acc; cbn.
  - rewrite Hc, Hname. by exists [reverse acc].
  - destruct (sep d); [|apply IH]. destruct (IH []) as [parts ->]. by exists (reverse acc :: parts).
Qed.

(** A plain file name: not a dot name, without separators. *)
Definition plain_name (name : rstr) : Prop :=
  name <> [] /\ name <> lit "." /\ name <> lit ".." /\ forallb (fun c => negb (is_sep c)) name = true.

Lemma parse_single_plain name : plain_name name -> parse_single false name = Some (Normal name).
Proof.
  intros (Hne & Hd & Hdd & _). unfold parse_single. destruct (str_eqb _ _) eqn:E1; [by apply str_eqb_true in E1|].
  destruct (str_eqb name (lit "..")) eqn:E2; [by apply str_eqb_true in E2|]. by destruct name.
Qed.

Section on_drive.
Context (drive : Z) (dir name : rstr).
Context (Hdrive : is_ascii_alphabetic drive = true) (Hname : plain_name name).
Context (Hdir : forall c, last dir = Some c -> is_sep c = false) (Hdir_ne : dir <> []).

Let directory : rstr := drive :: 58 :: backslash :: dir.
Let path : rstr := directory ++ backslash :: name.

Lemma drive_prefix rest : parse_prefix (drive :: 58 :: rest) = Some (WinPath.Disk (to_ascii_uppercase drive)).
Proof.
  unfold parse_prefix. assert (scan (lit "\\") (drive :: 58 :: rest) = None) as ->.
  { unfold scan. change (length (lit "\\")) with 2%nat. cbn [take]. unfold normalize_seps. cbn [fmap list_fmap].
    change (lit "\\") with [92; 92]. cbn. by rewrite andb_false_r. }
  cbn [parse_drive]. by rewrite Hdrive.
Qed.

Lemma path_file_name : file_name path = Some name.
Proof.
  unfold file_name, components, path, directory. rewrite <- !app_comm_cons, drive_prefix. unfold body_of.
  change (prefix_len (WinPath.Disk (to_ascii_uppercase drive))) with 2%nat. cbn [drop has_physical_root]. change (is_sep backslash) with true. cbv iota.
  unfold body_components. cbn [is_verbatim]. cbv beta iota zeta. rewrite drop_0.
  destruct (split_body_last is_sep [] dir backslash name eq_refl) as [parts ->]; [apply Hname|].
  rewrite omap_app. cbn [omap list_omap]. rewrite (parse_single_plain name Hname). by rewrite app_comm_cons, app_assoc, last_snoc.
Qed.

Lemma name_last c : last name = Some c -> is_sep c = false.
Proof.
  destruct Hname as (_ & _ & _ & Hn). intros Hc%last_Some_elem_of. rewrite forallb_forall in Hn.
  by apply negb_true_iff, Hn, list_elem_of_In.
Qed.

Lemma path_parent : WinPath.parent path = Some directory.
Proof.
  unfold WinPath.parent, path, directory. rewrite <- !app_comm_cons, drive_prefix. unfold body_of.
  change (prefix_len (WinPath.Disk (to_ascii_uppercase drive))) with 2%nat. cbn [drop is_verbatim].
  rewrite app_comm_cons. set (body := (backslash :: dir) ++ backslash :: name).
  replace (length (drive :: 58%Z :: body) - length body)%nat with 2%nat by (cbn [length]; lia). cbn [take].
  assert (reverse body = reverse name ++ backslash :: reverse dir ++ [backslash]) as Hrev.
  { unfold body. rewrite reverse_app, !reverse_cons, <- app_assoc. done. }
  rewrite (drop_while_none is_sep body).
  2: { intros c. unfold body. rewrite last_app_cons. destruct Hname as (Hne & _). intros Hc. apply name_last.
       by destruct name. }
  rewrite Hrev. clear Hrev. destruct (reverse name ++ _) as [|r rs] eqn:Er; [by destruct (reverse name)|]. rewrite <- Er. clear r rs Er.
  assert (drop_while (fun c => negb (is_sep c)) (reverse name ++ backslash :: reverse dir ++ [backslash])
          = backslash :: reverse dir ++ [backslash]) as ->.
  { destruct Hname as (_ & _ & _ & Hn). assert (forallb (fun c => negb (is_sep c)) (reverse name) = true) as Hr.
    { rewrite forallb_forall in Hn |- *. intros c Hc. apply Hn. by apply list_elem_of_In, elem_of_reverse, list_elem_of_In. }
    clear -Hr. induction (reverse name) as [|c l IH]; cbn in *; [done|]. apply andb_true_iff in Hr as [-> Hr]. by apply IH. }
  change (drop_while is_sep (backslash :: reverse dir ++ [backslash])) with (drop_while is_sep (reverse dir ++ [backslash])).
  rewrite <- reverse_cons, drop_while_none.
  2: { intros c. destruct dir as [|d dir']; [done|]. rewrite last_cons_cons. apply Hdir. }
  rewrite reverse_cons. destruct (reverse dir ++ [backslash]) eqn:E; [by destruct (reverse dir)|].
  rewrite <- E, reverse_app, reverse_involutive. done.
Qed.

(** restic is looked for beside the service's own executable. *)
Lemma restic_path_beside : restic_path (Some path) = directory ++ lit "\restic.exe".
Proof.
  unfold restic_path, set_file_name. rewrite path_file_name, path_parent. cbn [is_some default from_option]. unfold path_push, directory. cbv zeta. unfold id.
  rewrite drive_prefix. assert (last (drive :: 58 :: backslash :: dir) = last dir) as ->.
  { destruct dir as [|d dir'] eqn:E; [by destruct Hdir_ne|done]. }
  destruct (last dir) as [c|] eqn:E; [|by apply last_None in E]. rewrite (Hdir c eq_refl). done.
Qed.
End on_drive.

(** ** A service that starts, runs and stops *)
Module ServiceMainWitness.
Import ChronoExample UrlExample ServiceWitness.
#[local] Existing Instances ManagementWitness.toy_crypto ResticWitness.ascii_unicode UpdaterWitness.toy_base64
  SourcesWitness.plain_files PolicyCacheWitness.no_dpapi PolicyCacheWitness.entry_serde PolicyCacheWitness.one_server
  PolicyCacheWitness.revised_serde ManagementWitness.manifest_envelope_serde
  ServiceWitness.no_messages ServiceWitness.local_serde ServiceWitness.persisted_serde ServiceWitness.entries_serde
  OutputWitness.one_message DataRootWitness.toy_sddl.

Definition nothing (_ : rstr) : option rstr := None.
Definition nobody (_ : rstr) : option PendingEnrollment := None.
Definition no_staged : StagedEnv := {| sg_size_status := 2; sg_size := 0; sg_value_status := 0; sg_value := []; sg_delete := 0 |}.
Definition no_credentials : StoreEnv :=
  {| so_create_dir_all := true; so_directory := Some EK_Directory; so_protect_root := true; so_read_dir := true;
     so_entries := []; so_remove := fun _ => true; so_protect := fun _ => true |}.

Definition starting : option (result UpdateError (bool * Threads)) :=
  start_service nobody nothing DataRootWitness.quiet_env DataRootWitness.legacy no_credentials ∅ Read_Done true (seconds 1000)
    (seconds 1000) env env env disk no_staged [lit "--config"; lit "C:\other.toml"].
Definition started_threads : Threads := match starting with Some (Ok (_, t)) => t | _ => idle_threads managed end.
(** A stop control arrives, and the loop takes it up. *)
Definition asked : Threads := set_th_runtime (post Ev_Stop (th_runtime started_threads)) started_threads.
Definition turn : TurnEnv := {| tn_env := env; tn_now := seconds 2000; tn_conditions := None; tn_spawn := true |}.
Definition draining : Threads := match loop_turn turn asked with Some t => t | None => asked end.
Definition ended : ServiceProcess :=
  {| sv_stage := Sg_Ended (Ok ()); sv_reports := [start_pending; running; stop_pending; stopped] |}.

Definition logged : Threads :=
  set_th_runtime (record_diagnostic env Level_Information "service.stopped" "The resticpal service stopped." None
                    (th_runtime (set_th_phase Stopped draining))) (set_th_phase Stopped draining).

Abbreviation reachable := (process_reachable None nobody nothing ExecutorWitness.executor).
Abbreviation step := (process_step None nobody nothing ExecutorWitness.executor).

Lemma ended_reachable : reachable ended.
Proof.
  eapply (pr_step _ _ _ _ {| sv_stage := Sg_Stopping logged; sv_reports := [start_pending; running; stop_pending] |});
    [|apply (ps_stopped _ _ _ _ true)].
  eapply (pr_step _ _ _ _ {| sv_stage := Sg_Serving (set_th_phase Stopped draining); sv_reports := _ |});
    [|by apply ps_loop_ended].
  eapply (pr_step _ _ _ _ {| sv_stage := Sg_Serving draining; sv_reports := _ |}).
  2: { apply ps_serve; [apply ts_stopped; vm_compute; reflexivity|]. intros [_ E]. vm_compute in E. discriminate E. }
  eapply (pr_step _ _ _ _ {| sv_stage := Sg_Serving asked; sv_reports := [start_pending; running] |}).
  2: { apply (ps_stop _ _ _ _ true); [|vm_compute; reflexivity..]. apply (ts_turn _ _ _ _ turn); [vm_compute; reflexivity|].
       unfold draining. check (is_some (loop_turn turn asked)). destruct (loop_turn turn asked); [reflexivity|discriminate Hcheck]. }
  eapply (pr_step _ _ _ _ {| sv_stage := Sg_Serving started_threads; sv_reports := _ |}).
  2: { apply ps_serve; [apply ts_control; set_solver|]. intros [_ E]. vm_compute in E. discriminate E. }
  eapply (pr_step _ _ _ _ {| sv_stage := Sg_Started started_threads; sv_reports := [start_pending] |});
    [|apply (ps_running _ _ _ _ true)].
  eapply (pr_step _ _ _ _ {| sv_stage := Sg_Starting; sv_reports := _ |}).
  2: { assert (exists removed, starting = Some (Ok (removed, started_threads))) as [removed E].
       { unfold started_threads. check (match starting with Some (Ok _) => true | _ => false end).
         destruct starting as [[[removed t]|]|]; [by eexists|discriminate Hcheck..]. }
       unfold starting in E. exact (ps_start _ _ _ _ _ _ _ _ _ _ _ _ _ _ _ _ _ _ (Ok (removed, started_threads)) _ E). }
  eapply pr_step; [apply pr_start|apply (ps_pending _ _ _ _ true)].
Qed.


(** A data root with a file of a user: the service ends, still "starting". *)
Definition refused : option (result UpdateError (bool * Threads)) :=
  start_service nobody nothing DataRootWitness.quiet_env DataRootWitness.squatted no_credentials ∅ Read_Done true (seconds 1000)
    (seconds 1000) env env env disk no_staged [].
Theorem refused_start_is_never_stopped :
  exists error, reachable {| sv_stage := Sg_Ended (Err (Svc_DataRoot error)); sv_reports := [start_pending] |}.
Proof.
  assert (exists error, refused = Some (Err error)) as [error E].
  { check (match refused with Some (Err _) => true | _ => false end).
    destruct refused as [[|error]|]; [discriminate Hcheck|by eexists|discriminate Hcheck]. }
  exists error. eapply (pr_step _ _ _ _ {| sv_stage := Sg_Starting; sv_reports := _ |}).
  2: { unfold refused in E. exact (ps_start _ _ _ _ _ _ _ _ _ _ _ _ _ _ _ _ _ _ (Err error) _ E). }
  eapply pr_step; [apply pr_start|apply (ps_pending _ _ _ _ true)].
Qed.

Example service_restic :
  restic_path (Some (lit "C:\Program Files\resticpal\resticpal-service.exe")) = lit "C:\Program Files\resticpal\restic.exe".
Proof. vm_compute. reflexivity. Qed.
Example console_run :
  existsb (fun argument => str_eqb argument (lit "--console")) [lit "--console"] = true
  /\ is_some (main nothing env disk (Some []) (Ok ()) true [] [lit "--console"]) = true.
Proof. split; vm_compute; reflexivity. Qed.
End ServiceMainWitness.
