(* ===== verification/Exclusion.v ===== *)
(** * One piece of work at a time

    Backups, repository operations and updates run on threads of their own
    ([apps/resticpal-service/src/main.rs]).  Whatever the interleaving of the
    service's threads, at most one of them is at work: restic never runs
    twice on one repository, and never while an installer replaces it.  The
    proof accounts for every event in the channel that stands for work which
    was requested or is finished. *)
From stdpp Require Import base option list gmap strings.
From S2P Require Import Prelude RustStd WinPath Chrono Crates Config Status Schedule Policy Restic Protocol Outcome.
From S2P Require Import ServiceState Diagnostics History Credentials Management Updater Sources PolicyCache.
From S2P Require Import Runtime Scheduler Lifecycle Enrollment Ipc Service Output Executor EventLoop.

(** The worker threads that exist. *)
Definition working (t : Threads) : nat := (length (th_backups t) + length (th_repositories t) + length (th_updates t))%nat.

(** ** What is in flight *)
Definition running_op (s : RepositoryOperationStatus) : option RepositoryOperationKind :=
  match s with RO_Running operation => Some operation | _ => None end.
Definition op_of (w : ServiceRuntime) : option RepositoryOperationKind := running_op (rt_repository_operation (sr_state w)).
Definition installing (w : ServiceRuntime) : bool := rt_update_install_active (sr_state w).

Definition requested_op (e : RuntimeEvent) : option RepositoryOperationKind :=
  match e with Ev_RepositoryOperationRequested op => Some op | _ => None end.
Definition finished_op (e : RuntimeEvent) : option RepositoryOperationKind :=
  match e with Ev_RepositoryOperationFinished op _ => Some op | _ => None end.
Definition finished_backup (e : RuntimeEvent) : option unit :=
  match e with Ev_BackupFinished _ => Some () | _ => None end.
Definition update_event (e : RuntimeEvent) : option unit :=
  match e with Ev_UpdateInstallRequested _ | Ev_UpdateInstallFinished _ => Some () | _ => None end.
Definition worker_op (r : RepositoryWorker) : RepositoryOperationKind :=
  match r with RW_Spawned op | RW_Running op _ => op end.

(** Events that stand for no work. *)
Definition plain (e : RuntimeEvent) : bool :=
  negb (is_some (requested_op e) || is_some (finished_op e) || is_some (finished_backup e) || is_some (update_event e)).

Lemma plain_none new :
  forallb plain new = true ->
  omap requested_op new = [] /\ omap finished_op new = [] /\ omap finished_backup new = [] /\ omap update_event new = [].
Proof. induction new as [|e new IH]; [done|]. cbn. intros [He Hn]%andb_true_iff. by destruct e; try discriminate He; apply IH. Qed.

(** A change of the runtime that starts and ends no work. *)
Record quiet (w w' : ServiceRuntime) : Prop := {
  qu_op : op_of w' = op_of w;
  qu_install : installing w' = installing w;
  qu_alive : sr_receiver_alive w' = sr_receiver_alive w;
  qu_events : exists new, sr_events w' = sr_events w ++ new /\ forallb plain new = true
}.
#[global] Instance quiet_preorder : PreOrder quiet.
Proof.
  split.
  - intros w. split; [done..|]. exists []. by rewrite app_nil_r.
  - intros w1 w2 w3 [Ho Hi Ha (n1 & He1 & Hp1)] [Ho' Hi' Ha' (n2 & He2 & Hp2)].
    split; [congruence..|]. exists (n1 ++ n2). rewrite He2, He1, <- app_assoc, forallb_app, Hp1, Hp2. done.
Qed.

(** The channel and the work in the state, without the rest. *)
Definition channel (w : ServiceRuntime) : option RepositoryOperationKind * bool * bool * list RuntimeEvent :=
  (op_of w, installing w, sr_receiver_alive w, sr_events w).

Lemma quiet_same w w1 w2 : quiet w w1 -> channel w2 = channel w1 -> quiet w w2.
Proof. intros [Ho Hi Ha He] [= E1 E2 E3 E4]. split; by rewrite ?E1, ?E2, ?E3, ?E4. Qed.

Lemma quiet_state w w1 s : quiet w w1 -> same_work (sr_state w1) s -> quiet w (set_sr_state s w1).
Proof.
  intros Hq [Ho _ _ Hi]. eapply quiet_same; [exact Hq|]. unfold channel, op_of, installing. cbn. by rewrite Ho, Hi.
Qed.

Section helpers.
Context `{Chrono} `{UrlCrate} `{CryptoCrates} `{Dpapi} `{UnicodeData} `{Filesystem} `{Messages} `{Base64Standard}.
Context `{Serde LocalConfig} `{Serde PersistedScheduleState} `{Serde DiagnosticEntry} `{Serde CachedManifest}.

Lemma quiet_record env level id message code w w1 :
  quiet w w1 -> quiet w (record_diagnostic env level id message code w1).
Proof. intros Hq. eapply quiet_same; [exact Hq|]. unfold record_diagnostic. by destruct (sr_diagnostics w1). Qed.

Lemma quiet_send e w w1 : plain e = true -> quiet w w1 -> quiet w (send e w1).2.
Proof.
  intros He Hq. unfold send. destruct (sr_receiver_alive w1) eqn:Ea; [|done]. transitivity w1; [done|].
  split; [done..|]. exists [e]. cbn. by rewrite He.
Qed.

Lemma save_state_channel env s w b w' : save_state env s w = (b, w') -> channel w' = channel w.
Proof.
  unfold save_state. destruct (sr_state_store w); [|by intros [= <- <-]]. destruct (state_save _ _ _). by intros [= <- <-].
Qed.
Lemma quiet_save_state env s w w1 : quiet w w1 -> quiet w (save_state env s w1).2.
Proof.
  intros Hq. eapply quiet_same; [exact Hq|]. destruct (save_state _ _ _) eqn:E. by eapply save_state_channel.
Qed.
Lemma quiet_save_config env c w w1 : quiet w w1 -> quiet w (save_config env c w1).2.
Proof.
  intros Hq. eapply quiet_same; [exact Hq|]. unfold save_config. destruct (sr_config_store w1); [|done].
  by destruct (config_save _ _ _).
Qed.
Lemma quiet_save_cache env m d w w1 : quiet w w1 -> quiet w (save_cache env m d w1).
Proof.
  intros Hq. eapply quiet_same; [exact Hq|]. unfold save_cache. destruct (sr_config_store w1); [|done].
  by destruct (cache_save _ _ _ _ _).
Qed.
Lemma quiet_remove_cache env w w1 : quiet w w1 -> quiet w (remove_cache env w1).
Proof.
  intros Hq. eapply quiet_same; [exact Hq|]. unfold remove_cache. destruct (sr_config_store w1); [|done].
  by destruct (remove_management_cache _ _).
Qed.
Lemma quiet_cleanup env refs w w1 : quiet w w1 -> quiet w (cleanup_credentials env refs w1).
Proof. intros Hq. eapply quiet_same; [exact Hq|]. unfold cleanup_credentials. by destruct (sr_credential_store w1). Qed.

Lemma quiet_save_state_eq env s w w1 b w2 : quiet w w1 -> save_state env s w1 = (b, w2) -> quiet w w2.
Proof. intros Hq E. eapply quiet_save_state in Hq. by rewrite E in Hq. Qed.
Lemma quiet_save_config_eq env c w w1 b w2 : quiet w w1 -> save_config env c w1 = (b, w2) -> quiet w w2.
Proof. intros Hq E. eapply quiet_save_config in Hq. by rewrite E in Hq. Qed.
Lemma quiet_send_eq e w w1 b w2 : plain e = true -> quiet w w1 -> send e w1 = (b, w2) -> quiet w w2.
Proof. intros He Hq E. eapply quiet_send in Hq; [|exact He]. by rewrite E in Hq. Qed.

Lemma store_secrets_quiet env updates candidate effective w :
  match store_secrets env updates candidate effective w with
  | Ok (_, _, _, _, w') => quiet w w'
  | Err w' => quiet w w'
  end.
Proof.
  unfold store_secrets. destruct updates as [|u updates]; [done|]. destruct (sr_credential_store w); [|done].
  destruct (apply_secret_updates _ _ _ _); by eapply quiet_same.
Qed.

(** A validation requirement replaces no running operation. *)
Lemma require_validation_quiet env next w w1 :
  quiet w w1 -> op_of w1 = None -> quiet w (require_validation_for env next w1).
Proof.
  intros Hq Ho. unfold require_validation_for. destruct (repository_requires_validation _ _); [|done].
  destruct (save_state _ _ _) as [b w2] eqn:E. pose proof (save_state_eq _ _ _ _ _ E) as [_ _ _ Hs].
  eapply quiet_save_state_eq in E; [|exact Hq]. eapply quiet_same; [exact E|]. unfold channel, op_of, installing. cbn.
  rewrite Hs. unfold op_of in Ho. by rewrite Ho.
Qed.
End helpers.
#[export] Hint Resolve quiet_record quiet_send quiet_save_state quiet_save_config quiet_save_cache quiet_remove_cache
  quiet_cleanup quiet_save_state_eq quiet_save_config_eq quiet_send_eq : quiet.

(** ** What each operation does to the work in flight *)

(** [skip_quiet E] goes past the early returns of a handler that leave the
    runtime unchanged; the guards it passes stay as hypotheses. *)
Ltac skip_quiet E :=
  repeat (cbv zeta in E;
          match type of E with
          | (if ?c then Some (_, _) else _) = _ => destruct c eqn:?; [injection E as <- <-; reflexivity|]
          | (if ?c then (_, _) else _) = _ => destruct c eqn:?; [injection E as <- <-; reflexivity|]
          end).

Lemma not_running_op s : repository_operation_running s = false -> running_op s = None.
Proof. by destruct s. Qed.

Section operations.
Context `{Chrono} `{UrlCrate} `{CryptoCrates} `{Dpapi} `{UnicodeData} `{Filesystem} `{Messages} `{Base64Standard}.
Context `{Serde LocalConfig} `{Serde PersistedScheduleState} `{Serde DiagnosticEntry} `{Serde CachedManifest}.

(** *** Scheduling and results *)
Lemma evaluate_quiet now conditions w a w' : evaluate_schedule now conditions w = Some (a, w') -> quiet w w'.
Proof.
  unfold evaluate_schedule. destruct (evaluate_state _ _ _ _) as [[a' s]|] eqn:E; cbn; [|done]. intros [= <- <-].
  apply quiet_state; [done|]. by eapply evaluate_state_work.
Qed.

Lemma update_progress_quiet progress w : quiet w (update_progress progress w).
Proof. unfold update_progress. destruct (is_running _); [|done]. by apply quiet_state. Qed.

Lemma begin_retention_quiet env now w plan w' : begin_retention env now w = Some (plan, w') -> quiet w w'.
Proof.
  unfold begin_retention. destruct (negb _); [by intros [= <- <-]|].
  destruct (duration_days _); cbn; [|done]. intros [= <- <-]. apply quiet_record. by apply quiet_state.
Qed.

Lemma finish_retention_quiet env backup retention now w o w' :
  finish_retention env backup retention now w = (o, w') -> quiet w w'.
Proof.
  unfold finish_retention.
  assert (forall ss, quiet w (set_sr_state (set_rt_service_state ss (sr_state w)) w)) as Hs by (intros ss; by eapply quiet_same).
  destruct retention as [pruned|code|]; destruct (save_state _ _ _) as [saved w1] eqn:E;
    (eapply quiet_save_state_eq in E; [|apply Hs]); [destruct (negb saved)|..]; intros [= <- <-]; by apply quiet_record.
Qed.

Lemma finish_backup_state_install now hours outcome s s' :
  finish_backup_state now hours outcome s = Some s' -> rt_update_install_active s' = rt_update_install_active s.
Proof.
  unfold finish_backup_state. destruct (outcome_is_success outcome).
  - destruct (completion_deadline _ _ _); cbn; [|done]. by intros [= <-].
  - destruct (duration_minutes _); cbn; [|done]. destruct (datetime_add _ _); cbn; [|done].
    intros [= <-]. by destruct (bo_kind outcome).
Qed.

Lemma finish_backup_quiet env now outcome w w' : finish_backup_at env now outcome w = Some w' -> quiet w w'.
Proof.
  unfold finish_backup_at. destruct (finish_backup_state _ _ _ _) as [s|] eqn:E; cbn [mbind option_bind]; [|done].
  apply finish_backup_state_install in E as Hi. apply finish_backup_state_work in E as [Ho _]. intros [= <-].
  assert (quiet w (set_sr_state s w)) as Hs.
  { eapply quiet_same; [reflexivity|]. unfold channel, op_of, installing. cbn. by rewrite Ho, Hi. }
  set (w1 := match sr_history_store _ with None => _ | Some _ => _ end).
  assert (quiet w w1) as Hw1 by (subst w1; destruct (sr_history_store _); [by eapply quiet_same|done]).
  destruct (outcome_is_success outcome); destruct (bo_kind outcome); auto with quiet.
Qed.

(** The end of a repository operation clears the mark of the same operation. *)
Lemma finish_repository_operation_effect env operation outcome w w' :
  finish_repository_operation env operation outcome w = Some w' ->
  op_of w' = (if bool_decide (op_of w = Some operation) then None else op_of w)
  /\ channel w' = (op_of w', installing w, sr_receiver_alive w, sr_events w).
Proof.
  unfold finish_repository_operation, op_of at 2 3. destruct (rt_repository_operation (sr_state w)) as [| |k| |] eqn:Er; cbn;
    try (intros [= <-]; unfold channel, op_of; rewrite Er; done).
  destruct (decide (k = operation)) as [->|Hne].
  2:{ rewrite !bool_decide_eq_false_2 by congruence. cbn. intros [= <-]. unfold channel, op_of. by rewrite Er. }
  rewrite !bool_decide_eq_true_2 by done. cbn [negb].
  assert (forall status service w1 (f : ServiceRuntime -> ServiceRuntime), running_op status = None -> quiet w w1 ->
    sr_events w1 = sr_events w -> (forall v, channel (f v) = channel v) ->
    (s ← apply_configuration_status (sr_config w) (env_now env 0)
           (set_rt_repository_operation status (set_rt_service_state service (sr_state w))); Some (f (set_sr_state s w1)))
    = Some w' -> op_of w' = None /\ channel w' = (op_of w', installing w, sr_receiver_alive w, sr_events w)) as Hend.
  { intros status service w1 f Hn [_ _ Ha _] Hev Hf. destruct (apply_configuration_status _ _ _) as [s|] eqn:E; cbn; [|done].
    apply apply_configuration_status_work in E as [Ho _ _ Hi]. intros [= <-]. specialize (Hf (set_sr_state s w1)).
    assert (channel (f (set_sr_state s w1)) = (None, installing w, sr_receiver_alive w, sr_events w)) as Hc.
    { rewrite Hf. unfold channel, op_of, installing. cbn. rewrite Ho, Hi, Hev, Ha. cbn. by rewrite Hn. }
    rewrite Hc. unfold channel in Hc. injection Hc as -> _ _ _. done. }
  assert (forall level id message code v, channel (record_diagnostic env level id message code v) = channel v) as Hrec.
  { intros. unfold record_diagnostic. by destruct (sr_diagnostics v). }
  destruct outcome as [|code|].
  - destruct (save_state _ _ _) as [saved w1] eqn:Es. apply Hend; [by destruct saved|by eapply quiet_save_state_eq| |auto].
    apply save_state_channel in Es. by injection Es.
  - by apply Hend.
  - by apply Hend.
Qed.

(** *** Requests *)

(** What a request may do: nothing to the work in flight, or ask for one
    piece of work when there is none of its kind. *)
Inductive effect (w w' : ServiceRuntime) : Prop :=
| effect_quiet : quiet w w' -> effect w w'
| effect_operation operation :
    op_of w = None -> installing w = false ->
    channel w' = (Some operation, false, sr_receiver_alive w, sr_events w ++ [Ev_RepositoryOperationRequested operation]) ->
    effect w w'
| effect_install package :
    op_of w = None -> installing w = false ->
    channel w' = (None, true, sr_receiver_alive w, sr_events w ++ [Ev_UpdateInstallRequested package]) ->
    effect w w'.

#[local] Instance effect_reflexive : Reflexive effect.
Proof. intros w. by apply effect_quiet. Qed.

Lemma update_update_settings_quiet env b identity w p w' :
  update_update_settings env b identity w = (p, w') -> quiet w w'.
Proof.
  intros E. unfold update_update_settings in E. skip_quiet E.
  destruct (save_config _ _ _) as [saved w1] eqn:Es in E. eapply quiet_save_config_eq in Es; [|reflexivity].
  destruct (negb saved); injection E as <- <-; [done|]. by eapply quiet_same.
Qed.

Lemma commit_configuration_quiet env candidate effective message w0 w p w' :
  quiet w0 w -> commit_configuration env candidate effective message (sr_state w) w = Some (p, w') -> quiet w0 w'.
Proof.
  intros Hw. unfold commit_configuration. destruct (apply_configuration_status _ _ _) as [s|] eqn:Ea; cbn; [|done].
  intros [= <- <-]. apply quiet_send; [done|]. apply apply_configuration_status_work in Ea.
  apply quiet_state; [|exact Ea]. by eapply quiet_same.
Qed.

Lemma update_retention_quiet env a b c d e identity w p w' :
  update_retention env a b c d e identity w = (p, w') -> quiet w w'.
Proof.
  intros E. unfold update_retention in E. skip_quiet E.
  destruct (validate _) as [[]|] in E; [|injection E as <- <-; reflexivity]. skip_quiet E.
  destruct (save_config _ _ _) as [saved w1] eqn:Es in E. eapply quiet_save_config_eq in Es; [|reflexivity].
  destruct (negb saved); injection E as <- <-; [done|]. apply quiet_send; [done|]. by eapply quiet_same.
Qed.

Lemma update_schedule_quiet env a b c d e identity w p w' :
  update_schedule env a b c d e identity w = Some (p, w') -> quiet w w'.
Proof.
  intros E. unfold update_schedule in E. skip_quiet E.
  destruct (validate _) as [[]|] in E; [|injection E as <- <-; reflexivity]. skip_quiet E.
  destruct (save_config _ _ _) as [saved w1] eqn:Es in E. eapply quiet_save_config_eq in Es; [|reflexivity].
  destruct (negb saved); [injection E as <- <-; done|]. by eapply commit_configuration_quiet.
Qed.

Lemma update_backup_sources_quiet env paths exclusions identity w p w' :
  update_backup_sources env paths exclusions identity w = Some (p, w') -> quiet w w'.
Proof.
  intros E. unfold update_backup_sources in E. skip_quiet E.
  destruct (validate_backup_source_paths _ _) in E; [|injection E as <- <-; reflexivity].
  destruct (validate _) as [[]|] in E; [|injection E as <- <-; reflexivity]. skip_quiet E.
  destruct (save_config _ _ _) as [saved w1] eqn:Es in E. eapply quiet_save_config_eq in Es; [|reflexivity].
  destruct (negb saved); [injection E as <- <-; done|]. by eapply commit_configuration_quiet.
Qed.

Lemma commit_repository_quiet env changed candidate effective created retired w0 w p w' :
  quiet w0 w -> op_of w = None ->
  commit_repository env changed candidate effective created retired w = Some (p, w') -> quiet w0 w'.
Proof.
  intros Hw Hop E. unfold commit_repository in E.
  destruct (validate effective) as [[]|]; [|injection E as <- <-; auto with quiet].
  set (next := if changed then require_repository_validation _ else _) in E.
  destruct (if changed then save_state env next w else (true, w)) as [saved w1] eqn:Es.
  assert (quiet w0 w1 /\ sr_state w1 = sr_state w) as [Hq1 Hs1].
  { destruct changed; [|by injection Es as <- <-]. split; [by eapply quiet_save_state_eq|]. by apply save_state_eq in Es as []. }
  destruct (negb saved); [injection E as <- <-; auto with quiet|].
  destruct (save_config _ _ _) as [saved' w2] eqn:Ec in E. apply save_config_eq in Ec as Hs2.
  eapply quiet_save_config_eq in Ec; [|exact Hq1]. destruct Hs2 as [_ _ _ Hs2].
  destruct (negb saved'); [injection E as <- <-; auto with quiet|].
  destruct (apply_configuration_status _ _ _) as [s|] eqn:Ea in E; cbn [mbind option_bind] in E; [|done].
  injection E as <- <-. apply quiet_send; [done|]. apply quiet_cleanup.
  apply apply_configuration_status_work in Ea as [Ho _ _ Hi]. eapply quiet_same; [exact Ec|].
  unfold channel, op_of, installing. cbn. rewrite Ho, Hi. destruct changed; [|done]. cbn.
  unfold op_of in Hop. by rewrite Hs2, Hs1, Hop.
Qed.

Lemma update_repository_quiet env display_name url mode options updates identity w p w' :
  update_repository env display_name url mode options updates identity w = Some (p, w') -> quiet w w'.
Proof.
  intros E. unfold update_repository in E. skip_quiet E.
  destruct (validate _) as [[]|] in E; [|injection E as <- <-; reflexivity]. skip_quiet E.
  pose proof (store_secrets_quiet env updates
    (repository_candidate (nonempty_trimmed <$> display_name) (nonempty_trimmed <$> url) mode options (sr_local_config w))
    (repository_effective (nonempty_trimmed <$> display_name) (nonempty_trimmed <$> url) mode options (sr_config w)) w) as Hq.
  destruct (store_secrets _ _ _ _ _) as [[[[[c e] created] retired] w1]|w1] in E, Hq; [|by injection E as <- <-].
  eapply commit_repository_quiet in E; [done..|]. destruct Hq as [-> _ _ _]. by apply not_running_op.
Qed.

Lemma run_backup_now_quiet env w p w' : run_backup_now env w = (p, w') -> quiet w w'.
Proof.
  intros E. unfold run_backup_now in E. skip_quiet E.
  destruct (send _ _) as [b w1] eqn:Ee in E. apply send_eq in Ee as Hs.
  eapply (quiet_send_eq _ w) in Ee; [|done|by eapply quiet_same]. destruct Hs as [_ _ _ Hs]. destruct b; injection E as <- <-; [done|].
  apply quiet_state; [done|]. rewrite Hs. done.
Qed.

Lemma send_event_quiet e message w0 w p w' :
  plain e = true -> quiet w0 w -> send_event e message w = (p, w') -> quiet w0 w'.
Proof.
  intros He Hw. unfold send_event. destruct (send e w) as [[] w1] eqn:Ee; eapply quiet_send_eq in Ee; try done;
    by intros [= <- <-].
Qed.

Lemma cancel_backup_quiet w p w' : cancel_backup w = (p, w') -> quiet w w'.
Proof. unfold cancel_backup. destruct (is_running _); [|by intros [= <- <-]]. by apply send_event_quiet. Qed.

Lemma defer_backup_quiet env minutes w p w' : defer_backup env minutes w = Some (p, w') -> quiet w w'.
Proof.
  intros E. unfold defer_backup in E. skip_quiet E. destruct (duration_minutes _); cbn in E; [|done].
  injection E as E. apply (send_event_quiet _ _ w) in E; [done..|]. by apply quiet_state.
Qed.

Lemma prepare_for_update_quiet env hold identity w p w' :
  prepare_for_update env hold identity w = Some (p, w') -> quiet w w'.
Proof.
  intros E. unfold prepare_for_update in E. skip_quiet E. destruct (hold_deadline _ _); cbn in E; [|done].
  injection E as <- <-. apply quiet_state; [done|]. apply place_hold_work.
Qed.

Lemma send_work e w w' :
  send e w = (true, w') -> channel w' = (op_of w, installing w, sr_receiver_alive w, sr_events w ++ [e]).
Proof. unfold send. destruct (sr_receiver_alive w) eqn:Ea; [|done]. intros [= <-]. unfold channel. cbn. by rewrite Ea. Qed.
Lemma send_closed e w w' : send e w = (false, w') -> w' = w.
Proof. unfold send. destruct (sr_receiver_alive w); by intros [= <-]. Qed.

Lemma begin_repository_operation_effect env operation identity w p w' :
  begin_repository_operation env operation identity w = (p, w') -> effect w w'.
Proof.
  intros E. unfold begin_repository_operation in E. skip_quiet E.
  match goal with Hg : _ || _ = false |- _ => apply orb_false_iff in Hg as [Hi _] end.
  match goal with Hg : repository_operation_running _ = false |- _ => apply not_running_op in Hg as Hop end.
  destruct (save_state _ _ _) as [saved w1] eqn:Es in E. apply save_state_channel in Es as [= Ho1 Hi1 Ha1 He1].
  set (state := set_rt_service_state _ _) in E.
  assert (rt_update_install_active state = false) as Hst by (unfold state; by destruct (is_configured _)).
  assert (rt_repository_operation state = RO_Running operation) as Hop' by (unfold state; by destruct (is_configured _)).
  clearbody state.
  assert (forall code s1, effect w
    (set_sr_state (set_rt_repository_operation (RO_Failed operation (env_now env 2) code) state) (set_sr_state s1 w1))) as Hfail.
  { intros code s1. apply effect_quiet. eapply quiet_same; [reflexivity|]. unfold channel, op_of, installing. cbn.
    by rewrite Hop, Hst, Hi, Ha1, He1. }
  destruct (negb saved); [injection E as <- <-; apply (Hfail _ (sr_state w1))|].
  destruct (send _ _) as [[] w2] eqn:Ee in E; injection E as <- <-.
  - apply send_work in Ee. apply (effect_operation _ _ operation); [done..|]. rewrite Ee. cbn.
    unfold op_of, installing. cbn. by rewrite Hop', Hst, Ha1, He1.
  - apply send_closed in Ee. rewrite Ee. apply Hfail.
Qed.

Lemma begin_update_install_effect env package identity w p w' :
  begin_update_install env package identity w = Some (p, w') -> effect w w'.
Proof.
  intros E. unfold begin_update_install in E. skip_quiet E.
  match goal with Hg : _ || rt_management_operation_active _ = false |- _ => apply orb_false_iff in Hg as [Hr%not_running_op _] end.
  match goal with Hg : rt_update_install_active _ = false |- _ => rename Hg into Hi end.
  destruct (hold_deadline _ _) as [d|]; cbn [mbind option_bind] in E; [|done].
  pose proof (place_hold_work (env_now env 0) d (set_rt_update_install_active true (sr_state w))) as [Ho _ _ Hins].
  set (held := place_hold _ _ _) in *. clearbody held. cbn in Ho, Hins.
  destruct (send _ _) as [[] w1] eqn:Ee in E; injection E as <- <-.
  - apply send_work in Ee. apply (effect_install _ _ package); [done..|]. rewrite Ee.
    unfold op_of, installing. cbn. by rewrite Ho, Hins, Hr.
  - apply send_closed in Ee. rewrite Ee. apply effect_quiet. eapply quiet_same; [reflexivity|].
    pose proof (restore_held_status_work (env_now env 0)
      (set_rt_update_hold_until None (set_rt_update_install_active false held))) as [Ho' _ _ Hi'].
    unfold channel, op_of, installing. cbn. rewrite Ho', Hi'. cbn. by rewrite Ho, Hi.
Qed.

(** Everything but enrollment and unenrollment, which are steps of their own. *)
Lemma request_effect discover client env env' command identity w p w' :
  command <> Unenroll -> (forall url, command <> Enroll url) ->
  handle_command discover client env env' command identity w = Some (p, w') -> effect w w'.
Proof.
  intros Hu He E.
  destruct command; cbn [handle_command answer] in E; try (injection E as <- <-; reflexivity); try congruence;
    try (injection E as E).
  - by eapply effect_quiet, update_backup_sources_quiet.
  - by eapply effect_quiet, update_repository_quiet.
  - by eapply begin_repository_operation_effect.
  - by eapply begin_repository_operation_effect.
  - by eapply effect_quiet, update_schedule_quiet.
  - by eapply effect_quiet, update_retention_quiet.
  - by eapply effect_quiet, run_backup_now_quiet.
  - by eapply effect_quiet, cancel_backup_quiet.
  - by eapply effect_quiet, defer_backup_quiet.
  - by eapply effect_quiet, prepare_for_update_quiet.
  - by eapply effect_quiet, update_update_settings_quiet.
  - by eapply begin_update_install_effect.
Qed.

(** *** Enrollment and policy *)
Lemma install_resolved_quiet resolved now w0 w w' :
  quiet w0 w -> install_resolved resolved now w = Some w' -> quiet w0 w'.
Proof.
  intros Hw. unfold install_resolved. destruct (apply_configuration_status _ _ _) as [s|] eqn:E; cbn; [|done].
  intros [= <-]. apply apply_configuration_status_work in E. apply quiet_state; [by eapply quiet_same|by destruct E].
Qed.

Lemma commit_enrollment_quiet env pending w r w' :
  op_of w = None -> commit_enrollment env pending w = Some (r, w') -> quiet w w'.
Proof.
  intros Hop E. unfold commit_enrollment in E.
  destruct (sr_credential_store w) as [files|]; [|by injection E as <- <-].
  destruct (sr_config_store w) as [store|]; [|by injection E as <- <-].
  destruct (store_enrollment _ _ _ _) as [[candidate created] files'].
  assert (forall w1 f, quiet w w1 -> quiet w (set_sr_credential_store f w1)) as Habandon by (intros; by eapply quiet_same).
  destruct candidate as [candidate|]; [|injection E as <- <-; by apply Habandon].
  destruct (negb _); [injection E as <- <-; by apply Habandon|].
  destruct (is_some _); [injection E as <- <-; by apply Habandon|].
  destruct (resolve_config _ _ _) as [resolved|]; [|injection E as <- <-; by apply Habandon].
  destruct (save_config _ _ _) as [saved w1] eqn:Es. eapply quiet_save_config_eq in Es; [|reflexivity].
  destruct (negb saved); [injection E as <- <-; by apply Habandon|].
  destruct (install_resolved _ _ _) as [w2|] eqn:Ei in E; cbn [mbind option_bind] in E; [|done].
  injection E as <- <-. apply quiet_send; [done|]. apply Habandon.
  eapply (quiet_save_cache env) in Es. apply (quiet_same _ w2); [|reflexivity].
  eapply install_resolved_quiet; [|exact Ei].
  apply require_validation_quiet; [exact Es|]. by destruct Es as [-> _ _ _].
Qed.

Lemma begin_enrollment_quiet env w b w' :
  begin_enrollment env w = (b, w') -> quiet w w' /\ (b = true -> op_of w = None).
Proof.
  unfold begin_enrollment, operation_active. destruct (repository_operation_running _) eqn:Hr.
  - rewrite orb_true_r. by intros [= <- <-].
  - apply not_running_op in Hr. destruct (_ || _ : bool); intros [= <- <-]; (split; [|done]); [done|by eapply quiet_same].
Qed.

Lemma unenroll_commit_quiet env w p w' : unenroll_commit env w = Some (p, w') -> quiet w w'.
Proof.
  intros E. unfold unenroll_commit in E. destruct (sr_config_store w); [|by injection E as <- <-].
  destruct (bool_decide _); [by injection E as <- <-|].
  destruct (resolve_config _ _ _) as [resolved|]; [|by injection E as <- <-].
  destruct (save_config _ _ _) as [saved w1] eqn:Es. eapply quiet_save_config_eq in Es; [|reflexivity].
  destruct (negb saved); [by injection E as <- <-|].
  destruct (apply_configuration_status _ _ _) as [s|] eqn:Ea in E; cbn [mbind option_bind] in E; [|done].
  injection E as <- <-. apply quiet_send; [done|]. apply apply_configuration_status_work in Ea.
  assert (quiet w (set_sr_state s (set_sr_field_resolutions (rv_fields resolved) (set_sr_config (rv_effective resolved)
    (set_sr_local_config (set_lc_management LocalManagementConfig_default (sr_local_config w)) (remove_cache env w1)))))) as Hq.
  { apply quiet_state; [|by destruct Ea]. eapply quiet_same; [by eapply quiet_remove_cache|done]. }
  destruct (sr_credential_store _); [by eapply quiet_same|done].
Qed.

Lemma apply_managed_policy_quiet env policy expected w r w' :
  apply_managed_policy_inner env policy expected w = Some (r, w') -> quiet w w'.
Proof.
  intros E. unfold apply_managed_policy_inner in E.
  destruct (match expected with Some _ => _ | None => _ end); [by injection E as <- <-|].
  destruct (resolve_config _ _ _) as [resolved|]; [|by injection E as <- <-]. cbv zeta in E.
  destruct (repository_operation_running _) eqn:Hr in E; [rewrite orb_true_r in E; by injection E as <- <-|].
  destruct (_ || _ : bool); [by injection E as <- <-|].
  destruct (install_resolved _ _ _) as [w1|] eqn:Ei; cbn [mbind option_bind] in E; [|done].
  injection E as <- <-. apply quiet_send; [done|]. eapply install_resolved_quiet; [|exact Ei].
  apply require_validation_quiet; [done|]. by apply not_running_op.
Qed.
End operations.

(** ** The books

    Every worker and every event about work is accounted for by a flag of the
    event loop or of the runtime.  [handled] is the event the loop has taken
    off the channel and not dealt with yet. *)
Definition flag (b : bool) : nat := if b then 1%nat else 0%nat.

Record books (handled : list RuntimeEvent) (t : Threads) : Prop := {
  bk_alive : sr_receiver_alive (th_runtime t) = true;
  bk_backup :
    (length (th_backups t) + length (omap finished_backup (handled ++ sr_events (th_runtime t)))
     = flag (is_some (th_active_backup t)))%nat;
  bk_repository :
    (length (th_repositories t) + length (omap finished_op (handled ++ sr_events (th_runtime t)))
     = flag (is_some (th_active_repository t)))%nat;
  bk_operation :
    omap requested_op (handled ++ sr_events (th_runtime t)) ++ map worker_op (th_repositories t)
    ++ omap finished_op (handled ++ sr_events (th_runtime t)) = option_list (op_of (th_runtime t));
  bk_update :
    (length (th_updates t) + length (omap update_event (handled ++ sr_events (th_runtime t)))
     <= flag (installing (th_runtime t)))%nat;
  bk_exclusive : op_of (th_runtime t) = None \/ installing (th_runtime t) = false;
  bk_pipe : th_pipe t = Pipe_Enrolling -> op_of (th_runtime t) = None
}.

Definition sizes (t : Threads) : nat * nat * nat := (length (th_backups t), length (th_repositories t), length (th_updates t)).

(** What one step does to the workers. *)
Definition moves (t t' : Threads) : Prop :=
  sizes t' = sizes t \/ (working t = 0 /\ working t' = 1)%nat \/ working t = S (working t').

Lemma omap_extend {A B} (f : A -> option B) h old new : omap f new = [] -> omap f (h ++ old ++ new) = omap f (h ++ old).
Proof. intros Hn. by rewrite app_assoc, omap_app, Hn, app_nil_r. Qed.

Lemma books_quiet h t w' : books h t -> quiet (th_runtime t) w' -> books h (set_th_runtime w' t).
Proof.
  intros [Ha Hb Hr Ho Hu He Hp] [Qo Qi Qa (new & Qe & Hpl)]. apply plain_none in Hpl as (N1 & N2 & N3 & N4).
  split; cbn [th_runtime set_th_runtime th_backups th_repositories th_updates th_active_backup th_active_repository th_pipe];
    rewrite ?Qe, ?Qo, ?Qi, ?Qa, ?(omap_extend requested_op), ?(omap_extend finished_op), ?(omap_extend finished_backup),
      ?(omap_extend update_event) by assumption; assumption.
Qed.

(** An operation that counts as running excludes every other work. *)
Lemma books_no_operation h t : books h t -> op_of (th_runtime t) = None -> th_repositories t = [].
Proof. intros Hk Hn. pose proof (bk_operation _ _ Hk) as E. rewrite Hn in E. cbn in E.
  apply app_eq_nil in E as [_ E]. apply app_eq_nil in E as [E _]. by apply map_eq_nil in E. Qed.

Lemma books_idle_backup h t : books h t -> is_some (th_active_backup t) = false -> th_backups t = [].
Proof. intros Hk Hn. pose proof (bk_backup _ _ Hk) as E. rewrite Hn in E. destruct (th_backups t); [done|]. cbn in E. lia. Qed.
Lemma books_idle_repository h t : books h t -> is_some (th_active_repository t) = false -> th_repositories t = [].
Proof. intros Hk Hn. pose proof (bk_repository _ _ Hk) as E. rewrite Hn in E. destruct (th_repositories t); [done|]. cbn in E. lia. Qed.
Lemma books_no_install h t : books h t -> installing (th_runtime t) = false -> th_updates t = [].
Proof. intros Hk Hn. pose proof (bk_update _ _ Hk) as E. rewrite Hn in E. destruct (th_updates t); [done|]. cbn in E. lia. Qed.

Section exclusion.
Context `{Chrono} `{UrlCrate} `{CryptoCrates} `{Dpapi} `{UnicodeData} `{Filesystem} `{Messages} `{Base64Standard} `{WireJson}.
Context `{Serde LocalConfig} `{Serde PersistedScheduleState} `{Serde DiagnosticEntry} `{Serde CachedManifest}.

Lemma books_evaluate tn t t' :
  books [] t -> evaluate_and_maybe_start tn t = Some t' -> books [] t' /\ moves t t' /\ th_phase t' = th_phase t.
Proof.
  intros Hk. unfold evaluate_and_maybe_start. destruct (is_some (th_active_backup t)) eqn:Hb.
  { intros [= <-]. by repeat split; try apply Hk; left. }
  destruct (evaluate_schedule _ _ _) as [[a w]|] eqn:E; cbn [mbind option_bind]; [|done].
  apply evaluate_quiet in E as Hq. apply (books_quiet _ _ _ Hk) in Hq as Hk1.
  destruct a as [|trigger]; [intros [= <-]; split; [done|]; by split; [left|]|].
  destruct (tn_spawn tn).
  - intros [= <-]. unfold evaluate_schedule in E.
    destruct (evaluate_state _ _ _ _) as [[a s]|] eqn:Es; cbn in E; [|done]. injection E as E1 E2. rewrite E1 in Es.
    apply start_conditions in Es as (_ & Hall & _ & Hi & _).
    assert (op_of (th_runtime t) = None) as Hop by (unfold op_of; by destruct (rt_repository_operation _)).
    assert (th_backups t = []) as Eb by (by eapply books_idle_backup).
    assert (th_repositories t = []) as Er by (by eapply books_no_operation).
    assert (th_updates t = []) as Eu by (by eapply books_no_install).
    split; [|split; [right; left|done]].
    + pose proof (bk_backup _ _ Hk1) as Hc. destruct Hk1 as [Ka _ Kr Ko Ku Ke Kp]. split; try done. cbn in Hc |- *.
      rewrite Hb in Hc. cbn in Hc. lia.
    + unfold working. cbn. by rewrite Eb, Er, Eu.
  - destruct (finish_backup _ _ _) as [w1|] eqn:Ef; cbn [mbind option_bind]; [|done]. intros [= <-].
    apply finish_backup_quiet in Ef. split; [|by split; [left|]].
    apply (books_quiet _ (set_th_runtime w t) _ Hk1) in Ef. destruct Ef as [Ka Kb Kr Ko Ku Ke Kp]. split; try done.
    cbn in Kb |- *. by rewrite Hb in Kb.
Qed.

Lemma books_take t e t0 :
  books [] t -> take_event t = Some (e, t0) -> books [e] t0 /\ sizes t0 = sizes t /\ th_phase t0 = th_phase t.
Proof.
  intros [Ka Kb Kr Ko Ku Ke Kp]. unfold take_event. destruct (sr_events (th_runtime t)) as [|e' rest] eqn:E; [done|].
  intros [= <- <-]. split; [|done]. by split; cbn in *.
Qed.

Lemma books_plain e t : plain e = true -> books [e] t -> books [] t.
Proof. intros He [Ka Kb Kr Ko Ku Ke Kp]. by destruct e; try discriminate He; split. Qed.

(** What the books say about an event on work. *)
Lemma books_backup_finished o t :
  books [Ev_BackupFinished o] t ->
  th_backups t = [] /\ omap finished_backup (sr_events (th_runtime t)) = [].
Proof.
  intros Hk. pose proof (bk_backup _ _ Hk) as E. cbn in E.
  destruct (th_backups t), (omap finished_backup _), (is_some _); cbn in E; by try lia.
Qed.

Lemma books_requested op t :
  books [Ev_RepositoryOperationRequested op] t ->
  op_of (th_runtime t) = Some op /\ omap requested_op (sr_events (th_runtime t)) = [] /\ th_repositories t = []
  /\ omap finished_op (sr_events (th_runtime t)) = [].
Proof.
  intros Hk. pose proof (bk_operation _ _ Hk) as E. cbn in E. destruct (op_of (th_runtime t)) as [o|]; [|done].
  injection E as -> E. apply app_eq_nil in E as [E1 E]. apply app_eq_nil in E as [E2 E3]. by apply map_eq_nil in E2.
Qed.

Lemma books_finished op o t :
  books [Ev_RepositoryOperationFinished op o] t ->
  op_of (th_runtime t) = Some op /\ omap requested_op (sr_events (th_runtime t)) = [] /\ th_repositories t = []
  /\ omap finished_op (sr_events (th_runtime t)) = [].
Proof.
  intros Hk. pose proof (bk_operation _ _ Hk) as E. cbn in E. destruct (op_of (th_runtime t)) as [o'|].
  2:{ apply app_eq_nil in E as [_ E]. by apply app_eq_nil in E as [_ E]. }
  apply app_eq_unit in E as [[E1 E]|[_ E]]; [|by apply app_eq_nil in E as [_ E]].
  apply app_eq_unit in E as [[E2 E]|[_ E]]; [|done]. injection E as -> E. by apply map_eq_nil in E2.
Qed.

Lemma books_update e t :
  is_some (update_event e) = true -> books [e] t ->
  installing (th_runtime t) = true /\ op_of (th_runtime t) = None /\ th_updates t = []
  /\ omap update_event (sr_events (th_runtime t)) = [].
Proof.
  intros He Hk. pose proof (bk_update _ _ Hk) as E. pose proof (bk_exclusive _ _ Hk) as Hx. cbn in E.
  destruct (update_event e); [|done]. cbn in E.
  destruct (installing _); [|cbn in E; lia]. destruct (th_updates t), (omap update_event _); cbn in E; try lia.
  by destruct Hx.
Qed.

(** After the end of an operation nothing of its kind is left. *)
Lemma books_operation_over h op o env t w' :
  books h t -> op_of (th_runtime t) = Some op -> finish_repository_operation env op o (th_runtime t) = Some w' ->
  omap requested_op (sr_events (th_runtime t)) = [] -> omap finished_op (sr_events (th_runtime t)) = [] ->
  th_repositories t = [] -> omap finished_backup h = [] -> omap update_event h = [] ->
  books [] (set_th_repository None [] (set_th_runtime w' t)).
Proof.
  intros [Ka Kb Kr Ko Ku Ke Kp] Hop E Eq Ef Er Hb Hu. apply finish_repository_operation_effect in E as [Eo Ec].
  rewrite bool_decide_eq_true_2 in Eo by done. rewrite Eo in Ec. injection Ec as _ Ei Ea Ev.
  rewrite omap_app, Hb in Kb. rewrite omap_app, Hu in Ku.
  split; cbn; rewrite ?Eo, ?Ev, ?Ef, ?Eq; cbn; [by rewrite Ea|done..| |by left|done].
  by rewrite Ei.
Qed.

Lemma finish_update_install_effect env outcome w :
  channel (finish_update_install env outcome w)
  = (op_of w, match outcome with Upd_Indeterminate _ => true | _ => false end, sr_receiver_alive w, sr_events w).
Proof.
  assert (forall level id message code v, channel (record_diagnostic env level id message code v) = channel v) as Hrec.
  { intros. unfold record_diagnostic. by destruct (sr_diagnostics v). }
  unfold finish_update_install. destruct outcome; rewrite Hrec; try done.
  match goal with |- context [restore_held_status ?now ?s] => pose proof (restore_held_status_work now s) as [Ho _ _ Hi] end.
  unfold channel, op_of, installing. cbn. by rewrite Ho, Hi.
Qed.

Lemma books_update_over e env outcome t :
  is_some (update_event e) = true -> books [e] t ->
  books [] (set_th_runtime (finish_update_install env outcome (th_runtime t)) t).
Proof.
  intros He Hk. destruct (books_update e t He Hk) as (_ & Hop & Eu & Ev). destruct Hk as [Ka Kb Kr Ko Ku Ke Kp].
  pose proof (finish_update_install_effect env outcome (th_runtime t)) as [= Eo Ei Ea Eev].
  split; cbn; rewrite ?Eo, ?Ea, ?Eev, ?Ei, ?Eu, ?Ev; cbn; [done|by destruct e..|lia|by left|done].
Qed.

(** A step of the loop that leaves the books in order, or ends the loop. *)
Definition settled (t t' : Threads) : Prop :=
  moves t t' /\ (th_phase t' = th_phase t /\ books [] t' \/ th_phase t' = Draining).

Lemma settled_same t t' : sizes t' = sizes t -> th_phase t' = th_phase t -> books [] t' -> settled t t'.
Proof. intros Hs Hp Hk. split; [by left|by left]. Qed.

Lemma moves_sizes t t1 t' : sizes t1 = sizes t -> moves t1 t' -> moves t t'.
Proof. unfold moves. intros Hs. rewrite Hs. unfold sizes, working in *. by injection Hs as -> -> ->. Qed.

Lemma settled_evaluate tn t t1 t' :
  sizes t1 = sizes t -> th_phase t1 = th_phase t -> books [] t1 -> evaluate_and_maybe_start tn t1 = Some t' -> settled t t'.
Proof.
  intros Hs Hp Hk E. apply books_evaluate in E as (Hk' & Hm & Hp'); [|done].
  split; [by eapply moves_sizes|left; by rewrite Hp', Hp].
Qed.

Lemma settled_backup_finished tn o t t' :
  books [Ev_BackupFinished o] t -> handle_event tn (Ev_BackupFinished o) t = Some t' -> settled t t'.
Proof.
  intros Hk. cbn [handle_event]. destruct (finish_backup _ _ _) as [w1|] eqn:E; cbn [mbind option_bind]; [|done].
  intros [= <-]. apply settled_same; [done..|]. apply finish_backup_quiet in E. apply (books_quiet _ _ _ Hk) in E as Hk1.
  destruct (books_backup_finished _ _ Hk1) as [Eb Ef]. destruct Hk1 as [Ka Kb Kr Ko Ku Ke Kp]. split; try done.
  cbn in Eb, Ef |- *. by rewrite Eb, Ef.
Qed.

Lemma settled_operation_requested tn op t t' :
  books [Ev_RepositoryOperationRequested op] t ->
  handle_event tn (Ev_RepositoryOperationRequested op) t = Some t' -> settled t t'.
Proof.
  intros Hk. cbn [handle_event]. destruct (books_requested _ _ Hk) as (Hop & Eq & Er & Ef).
  assert (forall o w1, finish_repository_operation (tn_env tn) op o (th_runtime t) = Some w1 ->
    books [] (set_th_repository None [] (set_th_runtime w1 t))) as Hover.
  { intros o w1 E. by eapply books_operation_over. }
  destruct (is_some (th_active_backup t) || is_some (th_active_repository t)) eqn:Hact.
  - destruct (finish_repository_operation _ _ _ _) as [w1|] eqn:E; cbn [mbind option_bind]; [|done]. intros [= <-].
    apply settled_same; [done..|]. pose proof (bk_repository _ _ Hk) as Kr0. cbn in Kr0. rewrite Er, Ef in Kr0.
    destruct (Hover _ _ E) as [Ka Kb Kr Ko Ku Ke Kp]. split; cbn in *; rewrite ?Er; try done. cbn. lia.
  - apply orb_false_iff in Hact as [Hb Hr]. destruct (tn_spawn tn).
    + intros [= <-]. split.
      { right. left. unfold working. cbn. rewrite Er, (books_idle_backup _ _ Hk Hb), (books_no_install _ _ Hk); [done|].
        destruct (bk_exclusive _ _ Hk) as [Hx|Hx]; [congruence|done]. }
      left. split; [done|]. destruct Hk as [Ka Kb Kr Ko Ku Ke Kp]. split; cbn in *; rewrite ?Er, ?Ef, ?Eq, ?Hop in *; done.
    + destruct (finish_repository_operation _ _ _ _) as [w1|] eqn:E; cbn [mbind option_bind]; [|done]. intros [= <-].
      apply settled_same; [done..|]. rewrite Er. by eapply Hover.
Qed.

Lemma settled_update_requested tn package t t' :
  books [Ev_UpdateInstallRequested package] t ->
  handle_event tn (Ev_UpdateInstallRequested package) t = Some t' -> settled t t'.
Proof.
  intros Hk. cbn [handle_event]. assert (is_some (update_event (Ev_UpdateInstallRequested package)) = true) as He by done.
  destruct (is_some (th_active_backup t) || is_some (th_active_repository t)) eqn:Hact.
  { intros [= <-]. apply settled_same; [done..|]. exact (books_update_over _ _ (Upd_Failed _) _ He Hk). }
  apply orb_false_iff in Hact as [Hb Hr]. destruct (books_update _ _ He Hk) as (Hi & Hop & Eu & Ev). destruct (tn_spawn tn).
  - intros [= <-]. split.
    { right. left. unfold working. cbn. by rewrite Eu, (books_idle_backup _ _ Hk Hb), (books_idle_repository _ _ Hk Hr). }
    left. split; [done|]. destruct Hk as [Ka Kb Kr Ko Ku Ke Kp]. split; cbn in *; try done. rewrite Eu, Ev, Hi. cbn. lia.
  - intros [= <-]. apply settled_same; [done..|]. exact (books_update_over _ _ (Upd_Failed _) _ He Hk).
Qed.

(** One event of the loop. *)
Lemma settled_handle tn e t t' : books [e] t -> handle_event tn e t = Some t' -> settled t t'.
Proof.
  intros Hk E. destruct e; cbn [handle_event] in E.
  all: try (by eapply settled_evaluate; [| |by eapply books_plain, Hk|exact E]).
  - injection E as <-. split; [by left|by right].
  - eapply settled_evaluate; [..|exact E]; [done..|]. apply books_quiet; [by eapply books_plain, Hk|]. by eapply quiet_same.
  - injection E as <-. apply settled_same; [done..|]. apply books_plain in Hk as [Ka Kb Kr Ko Ku Ke Kp]; [|done].
    split; try done. cbn. by destruct (th_active_backup t).
  - by eapply settled_operation_requested.
  - destruct (finish_repository_operation _ _ _ _) as [w1|] eqn:Ef; cbn [mbind option_bind] in E; [|done].
    destruct (books_finished _ _ _ Hk) as (Hop & Eq & Er & Efin). eapply settled_evaluate; [..|exact E]; [done..|].
    rewrite Er. by eapply books_operation_over.
  - by eapply settled_update_requested.
  - eapply settled_evaluate; [..|exact E]; [done..|]. by eapply books_update_over, Hk.
  - by eapply settled_backup_finished.
Qed.

(** *** What the workers report *)
Lemma post_channel e w :
  sr_receiver_alive w = true -> channel (post e w) = (op_of w, installing w, true, sr_events w ++ [e]).
Proof. intros Ha. unfold post, send. rewrite Ha. unfold channel. cbn. by rewrite Ha. Qed.

Lemma books_post_backup o t ws :
  books [] t -> length (th_backups t) = S (length ws) ->
  books [] (set_th_backup (th_active_backup t) ws (set_th_runtime (post (Ev_BackupFinished o) (th_runtime t)) t)).
Proof.
  intros [Ka Kb Kr Ko Ku Ke Kp] Hl. pose proof (post_channel (Ev_BackupFinished o) _ Ka) as [= Eo Ei Ea Ee].
  split; cbn; rewrite ?Eo, ?Ei, ?Ea, ?Ee, ?omap_app; cbn; rewrite ?app_nil_r; try done.
  rewrite <- Kb, Hl, length_app. cbn. lia.
Qed.

Lemma books_post_operation op config o t l1 l2 :
  books [] t -> th_repositories t = l1 ++ RW_Running op config :: l2 ->
  books [] (set_th_repository (th_active_repository t) (l1 ++ l2)
              (set_th_runtime (post (Ev_RepositoryOperationFinished op o) (th_runtime t)) t)).
Proof.
  intros [Ka Kb Kr Ko Ku Ke Kp] Hw. pose proof (post_channel (Ev_RepositoryOperationFinished op o) _ Ka) as [= Eo Ei Ea Ee].
  rewrite Hw in Kr, Ko. cbn in Kr, Ko.
  split; cbn; rewrite ?Eo, ?Ei, ?Ea, ?Ee, ?omap_app; cbn; rewrite ?app_nil_r; try done.
  - rewrite <- Kr, !length_app. cbn. lia.
  - assert (length (option_list (op_of (th_runtime t))) <= 1)%nat as Hlen by (destruct (op_of (th_runtime t)); cbn; lia).
    rewrite map_app in Ko |- *. rewrite <- Ko in Hlen |- *. rewrite !length_app in Hlen. cbn in Hlen.
    destruct (omap requested_op _); [|cbn in Hlen; lia]. destruct l1; [|cbn in Hlen; lia].
    destruct l2; [|cbn in Hlen; lia]. by destruct (omap finished_op _); [|cbn in Hlen; lia].
Qed.

Lemma books_post_update package o t l1 l2 :
  books [] t -> th_updates t = l1 ++ UW_Installing package :: l2 ->
  books [] (set_th_updates (l1 ++ l2) (set_th_runtime (post (Ev_UpdateInstallFinished o) (th_runtime t)) t)).
Proof.
  intros [Ka Kb Kr Ko Ku Ke Kp] Hw. pose proof (post_channel (Ev_UpdateInstallFinished o) _ Ka) as [= Eo Ei Ea Ee].
  rewrite Hw in Ku. cbn in Ku. rewrite length_app in Ku. cbn in Ku.
  split; cbn; rewrite ?Eo, ?Ei, ?Ea, ?Ee, ?omap_app; cbn; rewrite ?app_nil_r; try done.
  rewrite !length_app. cbn. lia.
Qed.

(** A request: quiet, or one more piece of work in the channel. *)
Lemma books_effect t w' : books [] t -> th_pipe t = Pipe_Idle -> effect (th_runtime t) w' -> books [] (set_th_runtime w' t).
Proof.
  intros Hk Hp [Hq|op Hop Hin E|package Hop Hin E]; [by apply books_quiet|..]; destruct Hk as [Ka Kb Kr Ko Ku Ke Kpipe];
    injection E as Eo Ei Ea Ee; rewrite Hop in Ko; rewrite Hin in Ku; cbn in Ko, Ku;
    apply app_eq_nil in Ko as [K1 K2]; apply app_eq_nil in K2 as [K2 K3]; cbn [app] in Kr;
    split; cbn; rewrite ?Eo, ?Ei, ?Ea, ?Ee, ?omap_app; cbn; rewrite ?app_nil_r, ?K1, ?K2, ?K3, ?Hp; try done; auto.
  - by rewrite <- Kr, K3.
  - by rewrite <- Kr, K3.
  - rewrite length_app. cbn. lia.
Qed.

(** ** Every step of every thread *)
Section threads.
Context (discover : option (list DiscoveredBackupSource)) (client : rstr -> option PendingEnrollment).
Context (var_os : rstr -> option rstr) (x : ResticExecutor).

Definition accounted (t : Threads) : Prop := th_phase t = Looping -> books [] t.

Lemma accounted_quiet t w' : accounted t -> quiet (th_runtime t) w' -> accounted (set_th_runtime w' t).
Proof. intros Hk Hq Hp. apply books_quiet; [by apply Hk|done]. Qed.

(** Workers that only change their own stage. *)
Lemma accounted_stage t t' :
  (th_runtime t', th_phase t', th_active_backup t', th_active_repository t', th_pipe t')
  = (th_runtime t, th_phase t, th_active_backup t, th_active_repository t, th_pipe t) ->
  length (th_backups t') = length (th_backups t) ->
  map worker_op (th_repositories t') = map worker_op (th_repositories t) ->
  length (th_updates t') = length (th_updates t) -> accounted t -> moves t t' /\ accounted t'.
Proof.
  intros [= Ew Ep Eb Er Ei] Hb Hr Hu Hk. apply (f_equal length) in Hr as Hl. rewrite !length_map in Hl.
  split; [left; unfold sizes; congruence|]. intros Hp. rewrite Ep in Hp. destruct (Hk Hp) as [Ka Kb Kr Ko Ku Ke Kp].
  split; by rewrite ?Ew, ?Eb, ?Er, ?Ei, ?Hb, ?Hl, ?Hr, ?Hu.
Qed.

Lemma after_backup_effect env now config o w worker w' :
  after_backup env now config o w = Some (worker, w') ->
  match worker with
  | Some _ => quiet w w'
  | None => exists w1 o', quiet w w1 /\ w' = post (Ev_BackupFinished o') w1
  end.
Proof.
  unfold after_backup. destruct (outcome_is_success o); [|intros [= <- <-]; by exists w, o].
  destruct (begin_retention _ _ _) as [[plan w1]|] eqn:E; cbn [mbind option_bind]; [|done].
  apply begin_retention_quiet in E. destruct plan; intros [= <- <-]; [done|]. by exists w1, o.
Qed.

Lemma moves_less t t' : working t = S (working t') -> moves t t'.
Proof. by right; right. Qed.

(** The workers and the books after one step. *)
Lemma loop_step_settled tn t t' :
  th_phase t = Looping -> accounted t -> loop_turn tn t = Some t' -> moves t t' /\ accounted t'.
Proof.
  intros Hp Hk E. unfold loop_turn in E. destruct (take_event t) as [[e t0]|] eqn:Et.
  - apply books_take in Et as (Hk0 & Hs & Hp0); [|by apply Hk]. apply settled_handle in E as [Hm Hb]; [|done].
    split; [by eapply moves_sizes|]. intros Hl. destruct Hb as [[_ Hb]|Hb]; [done|congruence].
  - apply books_evaluate in E as (Hk' & Hm & _); [|by apply Hk].
    split; [exact Hm|intros _; exact Hk'].
Qed.

Lemma drain_step_moves tn e t t0 t' :
  take_event t = Some (e, t0) -> drain_event tn e t0 = Some t' -> sizes t' = sizes t /\ th_phase t' = th_phase t.
Proof.
  unfold take_event. destruct (sr_events _); [done|]. intros [= <- <-].
  destruct r; cbn [drain_event]; try (by intros [= <-]).
  - destruct (finish_repository_operation _ _ _ _); cbn; [|done]. by intros [= <-].
  - destruct (finish_backup _ _ _); cbn; [|done]. by intros [= <-].
Qed.

Lemma backup_done_settled t l1 l2 config env now o worker w' :
  accounted t -> th_backups t = l1 ++ BW_Backup config :: l2 ->
  after_backup env now config o (th_runtime t) = Some (worker, w') ->
  let t' := set_th_backup (th_active_backup t) (l1 ++ option_list worker ++ l2) (set_th_runtime w' t) in
  moves t t' /\ accounted t'.
Proof.
  intros Hk Hw E. apply after_backup_effect in E. destruct worker as [worker|].
  - apply (accounted_stage (set_th_runtime w' t)); try done; [|by apply accounted_quiet].
    cbn. by rewrite Hw, !length_app.
  - destruct E as (w1 & o' & Hq & ->). cbn. split.
    + apply moves_less. unfold working. cbn. rewrite Hw, !length_app. cbn. lia.
    + intros Hp. apply (books_post_backup o' (set_th_runtime w1 t)); [by apply accounted_quiet|].
      cbn. rewrite Hw, !length_app. cbn. lia.
Qed.

Lemma step_settled t t' : thread_step discover client var_os x t t' -> accounted t -> moves t t' /\ accounted t'.
Proof.
  intros Hs Hk. assert (forall w', quiet (th_runtime t) w' -> moves t (set_th_runtime w' t) /\ accounted (set_th_runtime w' t))
    as Hquiet by (intros; split; [by left|by apply accounted_quiet]).
  destruct Hs as [tn t t' Hp E|tn t t' Hp E|tn e t t0 t' Hp _ Et E|t Hp|t Hp|e t He
    |env env' command identity payload w' t Hp Hu He E|env w' t Hp E|env pending r w' t Hp E|t Hp|now t Hp Ho
    |env payload w' t Hp E|env policy expected r w' t E|env l1 l2 t Hw|progress config t Hw
    |fuel fs1 fs2 env1 env2 config o ls env now worker w' l1 l2 t Hw Er E
    |fuel env1 env2 config o plan r ls env now o' w' l1 l2 t Hw Er E|operation l1 l2 t Hw
    |fuel env operation config o ls l1 l2 t Hw Er|env package l1 l2 t Hw|fuel ienv package started outcome launched l1 l2 t Hw Er].
  - by eapply loop_step_settled.
  - apply books_evaluate in E as (Hk' & Hm & _); [by split; [|intros _]|by apply Hk].
  - apply (drain_step_moves _ _ _ _ _ Et) in E as [Hz Hph]. split; [by left|]. intros Hl. congruence.
  - split; [by left|]. intros Hl. discriminate Hl.
  - split; [by left|]. intros Hl. cbn in Hl. congruence.
  - apply Hquiet. apply quiet_send; [|done]. by repeat (apply elem_of_cons in He as [->|He]; [done|]); apply not_elem_of_nil in He.
  - split; [by left|]. intros Hl. apply books_effect; [by apply Hk|done|]. by eapply request_effect.
  - apply begin_enrollment_quiet in E as [Hq Hn]. split; [by left|]. intros Hl. pose proof (qu_op _ _ Hq) as Hop.
    apply (accounted_quiet _ _ Hk) in Hq. destruct (Hq Hl) as [Ka Kb Kr Ko Ku Ke Kp]. split; try done.
    intros _. cbn. rewrite Hop. by apply Hn.
  - split; [by left|]. intros Hl. apply books_quiet; [by apply Hk|]. eapply commit_enrollment_quiet; [|exact E].
    by apply (bk_pipe _ _ (Hk Hl)).
  - split; [by left|]. intros Hl. destruct (Hquiet (end_enrollment (th_runtime t))) as [_ Hq]; [by eapply quiet_same|].
    destruct (Hq Hl) as [Ka Kb Kr Ko Ku Ke Kp]. by split.
  - split; [by left|]. intros Hl. destruct (Hk Hl) as [Ka Kb Kr Ko Ku Ke Kp]. by split.
  - apply unenroll_commit_quiet in E. split; [by left|]. intros Hl.
    apply (accounted_quiet _ _ Hk) in E. destruct (E Hl) as [Ka Kb Kr Ko Ku Ke Kp]. by split.
  - apply Hquiet. by eapply apply_managed_policy_quiet.
  - match goal with |- moves _ (set_th_backup _ _ ?t1) /\ _ => apply (accounted_stage t1) end; try done.
    + cbn. by rewrite Hw, !length_app.
    + apply accounted_quiet; [done|]. by apply quiet_record.
  - apply Hquiet. by apply update_progress_quiet.
  - by eapply backup_done_settled.
  - apply finish_retention_quiet in E. split.
    + apply moves_less. unfold working. cbn. rewrite Hw, !length_app. cbn. lia.
    + intros Hl. apply (books_post_backup o' (set_th_runtime w' t)); [by apply accounted_quiet|].
      cbn. rewrite Hw, !length_app. cbn. lia.
  - apply (accounted_stage t); try done. cbn. by rewrite Hw, !map_app.
  - split.
    + apply moves_less. unfold working. cbn. rewrite Hw, !length_app. cbn. lia.
    + intros Hl. eapply books_post_operation; [by apply Hk|done].
  - match goal with |- moves _ (set_th_updates _ ?t1) /\ _ => apply (accounted_stage t1) end; try done.
    + cbn. by rewrite Hw, !length_app.
    + apply accounted_quiet; [done|]. by apply quiet_record.
  - split.
    + apply moves_less. unfold working. cbn. rewrite Hw, !length_app. cbn. lia.
    + intros Hl. eapply books_post_update; [by apply Hk|done].
Qed.

(** *** The start *)
Lemma from_resolved_channel now resolved local s cs cr ss hs d w :
  from_resolved_with_state now resolved local s cs cr ss hs d = Some w -> channel w = (None, false, true, []).
Proof.
  intros E. unfold from_resolved_with_state in E. apply bind_Some in E as (deadline & _ & [= <-]).
  unfold channel, op_of, installing. cbn. unfold loaded_repository_operation.
  destruct (repository_requires_validation s _); [done|]. by destruct (repository_verified_at s _).
Qed.

Lemma load_channel env path disk credentials policy w :
  load_with_credentials_and_policy env path disk credentials policy = Some (Ok w) -> channel w = (None, false, true, []).
Proof.
  unfold load_with_credentials_and_policy. destruct (config_load _) as [local|]; [|done].
  destruct (resolve_config _ _ _) as [resolved|]; [|done].
  destruct (state_load _) as [s|]; intros E; apply bind_Some in E as (w1 & E & [= <-]); by eapply from_resolved_channel.
Qed.

Lemma enroll_bootstrap_quiet env1 env2 url w r w' :
  op_of w = None -> enroll_bootstrap env1 env2 client url w = Some (r, w') -> quiet w w'.
Proof.
  intros Hop. unfold enroll_bootstrap. destruct (begin_enrollment env1 w) as [[] w1] eqn:Eb;
    apply begin_enrollment_quiet in Eb as [Hq _]; [|by intros [= <- <-]].
  assert (forall v, quiet w v -> quiet w (end_enrollment v)) as Hend by (intros v Hv; by eapply quiet_same).
  destruct (client url) as [pending|]; cbn [mbind option_bind]; [|intros [= <- <-]; by apply Hend].
  destruct (commit_enrollment _ _ _) as [[r' w2]|] eqn:Ec; cbn [mbind option_bind]; [|done]. intros [= <- <-]. apply Hend.
  apply commit_enrollment_quiet in Ec; [by transitivity w1|]. by rewrite (qu_op _ _ Hq).
Qed.

Lemma start_books env env1 env2 path disk credentials policy staged w :
  run_service client env env1 env2 path disk credentials policy staged = Some w -> books [] (idle_threads w).
Proof.
  unfold run_service. destruct (load_with_credentials_and_policy _ _ _ _ _) as [loaded|] eqn:El; cbn [mbind option_bind]; [|done].
  set (w0 := match loaded with Ok w => w | Err _ => _ end).
  assert (channel w0 = (None, false, true, [])) as [= Eo Ei Ea Ee].
  { destruct loaded; [by eapply load_channel|done]. }
  assert (books [] (idle_threads w0)) as Hk.
  { split; cbn; rewrite ?Eo, ?Ei, ?Ea, ?Ee; auto. }
  clearbody w0. intros E. apply (books_quiet _ _ w Hk). cbn.
  assert (quiet w0 (record_diagnostic env Level_Information "service.started" "The resticpal service started." None w0)) as Hq
    by (by apply quiet_record).
  destruct staged as [url|]; [|by injection E as <-].
  destruct (enroll_bootstrap _ _ _ _ _) as [[r w1]|] eqn:Eb; cbn [mbind option_bind] in E; [|done]. injection E as <-.
  apply enroll_bootstrap_quiet in Eb; [by etransitivity|]. by rewrite (qu_op _ _ Hq).
Qed.

Lemma reachable_exclusive t :
  thread_reachable discover client var_os x t -> (working t <= 1)%nat /\ accounted t.
Proof.
  induction 1 as [env env1 env2 path disk credentials policy staged w E|t t' _ [Hm Hk] Hs].
  - split; [cbn; lia|]. intros _. by eapply start_books.
  - apply step_settled in Hs as [Hv Hk']; [|done]. split; [|done].
    destruct Hv as [Hv|[[_ Hv]|Hv]]; [|lia..]. unfold sizes in Hv. injection Hv as E1 E2 E3.
    unfold working in *. lia.
Qed.

(** ** The abstract machine

    One slot: it is free, or one piece of work occupies it. *)
Inductive Slot : Type := Free | Backing | Operating | Updating.

Inductive slot_step : Slot -> Slot -> Prop :=
| slot_stutter s : slot_step s s
| slot_start s : s <> Free -> slot_step Free s
| slot_finish s : slot_step s Free.

Definition slot_of (t : Threads) : Slot :=
  match th_backups t, th_repositories t, th_updates t with
  | _ :: _, _, _ => Backing
  | [], _ :: _, _ => Operating
  | [], [], _ :: _ => Updating
  | [], [], [] => Free
  end.

Lemma slot_sizes t t' : sizes t' = sizes t -> slot_of t' = slot_of t.
Proof.
  unfold sizes, slot_of. intros [= E1 E2 E3].
  destruct (th_backups t), (th_backups t'); try discriminate E1; [|done].
  destruct (th_repositories t), (th_repositories t'); try discriminate E2; [|done].
  by destruct (th_updates t), (th_updates t'); try discriminate E3.
Qed.

Lemma slot_free t : slot_of t = Free <-> working t = 0%nat.
Proof.
  unfold slot_of, working. destruct (th_backups t), (th_repositories t), (th_updates t); cbn; split; by try lia.
Qed.

(** C18: At every moment of every interleaving of the event loop, the backup,
    repository and update workers, the pipe thread, the management thread and
    the control handler, at most one worker exists, so restic never runs twice
    and never while an update is installed; and each step refines the one-slot
    machine: work starts only when the slot is free, and no work turns into
    another. *)
Theorem threads_refine_one_slot t :
  thread_reachable discover client var_os x t ->
  (working t <= 1)%nat
  /\ forall t', thread_step discover client var_os x t t' -> slot_step (slot_of t) (slot_of t').
Proof.
  intros [Hm Hk]%reachable_exclusive. split; [done|]. intros t' [[Hz|[[Hn Hn']|Hl]] _]%step_settled; [| | |done].
  - rewrite (slot_sizes _ _ Hz). apply slot_stutter.
  - apply slot_free in Hn. rewrite Hn. apply slot_start. rewrite slot_free. lia.
  - assert (slot_of t' = Free) as -> by (apply slot_free; lia). apply slot_finish.
Qed.

(** While the event loop runs, an operation shown as running is under
    way: it is requested in the channel, on a worker, or its result is in the
    channel, exactly one of them, so the status cannot stay at "running" with
    nobody left to end it. *)
Theorem running_operation_in_flight t :
  thread_reachable discover client var_os x t -> th_phase t = Looping ->
  omap requested_op (sr_events (th_runtime t)) ++ map worker_op (th_repositories t)
  ++ omap finished_op (sr_events (th_runtime t))
  = option_list (running_op (rt_repository_operation (sr_state (th_runtime t)))).
Proof. intros [_ Hk]%reachable_exclusive Hp. exact (bk_operation _ _ (Hk Hp)). Qed.
End threads.
End exclusion.

(** ** An evaluated run *)
Module ExclusionWitness.
Import ChronoExample UrlExample ServiceWitness.
#[local] Existing Instances ManagementWitness.toy_crypto ResticWitness.ascii_unicode UpdaterWitness.toy_base64
  SourcesWitness.plain_files PolicyCacheWitness.no_dpapi PolicyCacheWitness.entry_serde
  ServiceWitness.no_messages ServiceWitness.local_serde ServiceWitness.persisted_serde ServiceWitness.entries_serde.
#[local] Existing Instance OutputWitness.one_message.

Definition none (_ : rstr) : option rstr := None.
Definition nobody (_ : rstr) : option PendingEnrollment := None.
Definition turn : TurnEnv := {| tn_env := env; tn_now := seconds 2000; tn_conditions := Some online; tn_spawn := true |}.
Definition path : rstr := lit "C:\ProgramData\resticpal\config.toml".

Definition fresh : Threads :=
  idle_threads (match run_service nobody env env env path disk None (Some policy) None with Some w => w | None => managed end).
Definition busy : Threads := match loop_turn turn fresh with Some t => t | None => fresh end.

Lemma fresh_reachable : thread_reachable None nobody none ExecutorWitness.executor fresh.
Proof.
  unfold fresh. check (is_some (run_service nobody env env env path disk None (Some policy) None)).
  destruct (run_service _ _ _ _ _ _ _ _ _) as [w|] eqn:E; [|discriminate Hcheck]. by eapply tr_start.
Qed.

Lemma one_slot_witness : slot_of busy = Backing /\ (working busy <= 1)%nat.
Proof.
  assert (thread_reachable None nobody none ExecutorWitness.executor busy) as Hr.
  { eapply tr_step; [exact fresh_reachable|]. apply (ts_turn _ _ _ _ turn); [reflexivity|].
    unfold busy. check (is_some (loop_turn turn fresh)). destruct (loop_turn turn fresh); [reflexivity|discriminate Hcheck]. }
  split; [vm_compute; reflexivity|]. exact (proj1 (threads_refine_one_slot None nobody none ExecutorWitness.executor busy Hr)).
Defined.

(** A device of its own, with a password for its repository, asked to test the connection. *)
Definition own : LocalConfig :=
  set_lc_repository
    {| lr_display_name := None; lr_url := Some (lit "s3:local/bucket"); lr_mode := None; lr_options := None;
       lr_secret_refs := Some [(ResticPassword, lit "restic-password-0123456789abcdef0123456789abcdef")] |}
    LocalConfig_default.
#[local] Instance own_serde : Serde LocalConfig :=
  {| serialize := fun _ => Some [35]; deserialize := fun _ => Some own |}.
Definition alone : Threads :=
  idle_threads (match run_service nobody env env env path disk None None None with Some w => w | None => managed end).
Lemma alone_reachable : thread_reachable None nobody none ExecutorWitness.executor alone.
Proof.
  unfold alone. check (is_some (run_service nobody env env env path disk None None None)).
  destruct (run_service _ _ _ _ _ _ _ _ _) as [w|] eqn:E; [|discriminate Hcheck]. by eapply tr_start.
Qed.
Definition testing : Threads :=
  set_th_runtime
    (match handle_command None nobody env env ValidateRepository administrator (th_runtime alone) with
     | Some (_, w) => w | None => th_runtime alone end) alone.

Lemma in_flight_witness :
  running_op (rt_repository_operation (sr_state (th_runtime testing))) = Some Kind_Validate
  /\ omap requested_op (sr_events (th_runtime testing)) ++ [] ++ omap finished_op (sr_events (th_runtime testing))
     = [Kind_Validate].
Proof.
  assert (thread_reachable None nobody none ExecutorWitness.executor testing) as Hr.
  { eapply tr_step; [exact alone_reachable|].
    unfold testing.
    check (is_some (handle_command None nobody env env ValidateRepository administrator (th_runtime alone))).
    destruct (handle_command _ _ _ _ _ _ _) as [[p w]|] eqn:E; [|discriminate Hcheck].
    eapply ts_request; [| | |exact E]; [reflexivity|discriminate|discriminate]. }
  assert (running_op (rt_repository_operation (sr_state (th_runtime testing))) = Some Kind_Validate) as Hop
    by (vm_compute; reflexivity).
  split; [exact Hop|].
  pose proof (running_operation_in_flight None nobody none ExecutorWitness.executor testing Hr eq_refl) as E.
  rewrite Hop in E. exact E.
Defined.
End ExclusionWitness.
