(* ===== verification/TrayFeed.v ===== *)
(** * The tray's update feed ([apps/resticpal-tray/src/main.rs])

    Where the tray looks for updates: the bounded download of a signed
    appcast from two places, the check of its signature with the release key,
    and the reading of the announced package out of the XML text. *)
From stdpp Require Import base option list strings.
From S2P Require Import Prelude RustStd Protocol Management Outcome Updater.

Definition MAX_UPDATE_APPCAST_BYTES : Z := 256 * 1024.
Definition MAX_UPDATE_SIGNATURE_BYTES : Z := 1024.

Record UpdateSource : Type := { appcast_url : rstr; signature_url : rstr }.
Definition UPDATE_APPCAST_SOURCES : list UpdateSource :=
  [ {| appcast_url := lit "https://updates.resticpal.com/appcast-v2.xml";
       signature_url := lit "https://updates.resticpal.com/appcast-v2.xml.signature" |};
    {| appcast_url := lit "https://github.com/theatrus/resticpal/releases/latest/download/appcast-v2.xml";
       signature_url := lit "https://github.com/theatrus/resticpal/releases/latest/download/appcast-v2.xml.signature" |} ].

Inductive UpdateCheck : Type := UC_Current | UC_Available (package : UpdatePackage).

(** ** Reading the document *)

(** [str::find] with the two slices around the match. *)
Fixpoint split_first (p s : rstr) : option (rstr * rstr) :=
  match strip_prefix p s with
  | Some rest => Some ([], rest)
  | None =>
      match s with
      | [] => None
      | c :: s => '(before, after) ← split_first p s; Some (c :: before, after)
      end
  end.

Definition extract_between (document open close : rstr) : option rstr :=
  '(_, rest) ← split_first open document;
  '(value, _) ← split_first close rest;
  Some value.

Definition extract_xml_attribute (element name : rstr) : option rstr :=
  '(_, rest) ← split_first (lit " " ++ name ++ lit "=" ++ [34]) element;
  '(value, _) ← split_first [34] rest;
  if str_is_empty value then None else Some value.

Definition parse_version_component (value : rstr) : option Z :=
  if negb (str_is_empty value) && forallb is_ascii_digit value then parse_u64_digits value else None.

Definition parse_product_version (value : rstr) : option (Z * Z * Z) :=
  match str_split 46 value with
  | a :: b :: c :: more =>
      a ← parse_version_component a;
      b ← parse_version_component b;
      c ← parse_version_component c;
      match more with [] => Some (a, b, c) | _ => None end
  | _ => None
  end.

(** [str::parse::<u64>]: digits after an optional plus sign. *)
Definition parse_u64 (s : rstr) : option Z :=
  let digits := match s with 43 :: rest => rest | _ => s end in
  if negb (str_is_empty digits) && forallb is_ascii_digit digits then parse_u64_digits digits else None.

(** From the start of the enclosure to its first [>]. *)
Definition enclosure_of (document : rstr) : option rstr :=
  '(_, rest) ← split_first (lit "<enclosure ") document;
  '(element, _) ← split_first [62] (lit "<enclosure " ++ rest);
  Some (element ++ [62]).

Definition extract_update_package (document : rstr) : option UpdatePackage :=
  version ← extract_between document (lit "<sparkle:version>") (lit "</sparkle:version>");
  let version := trim version in
  _ ← parse_product_version version;
  enclosure ← enclosure_of document;
  url ← extract_xml_attribute enclosure (lit "url");
  signature ← extract_xml_attribute enclosure (lit "sparkle:signature");
  length ← extract_xml_attribute enclosure (lit "length");
  length ← parse_u64 length;
  Some {| up_version := version; up_url := url; up_length := length; up_signature := signature |}.

Section feed.
Context `{Base64Standard} `{CryptoCrates}.

Definition verify_signed_document (document : list Z) (signature public_key : rstr) : bool :=
  match base64_decode (trim public_key) with
  | None => false
  | Some key =>
      if negb (length key =? 32)%nat then false
      else match verifying_key_from_bytes key with
      | None => false
      | Some key =>
          match base64_decode (trim signature) with
          | None => false
          | Some signature => if negb (length signature =? 64)%nat then false else verify_strict key document signature
          end
      end
  end.

(** [get url limit] is the body the HTTP agent reads, [None] when the request
    fails or the body is longer than the limit. *)
Context (get : rstr -> Z -> option (list Z)).

Definition fetch_bounded (url : rstr) (max_bytes : Z) : option (list Z) :=
  body ← get url (max_bytes + 1);
  if Z.of_nat (length body) <=? max_bytes then Some body else None.

Definition check_update_source (source : UpdateSource) : option UpdateCheck :=
  appcast ← fetch_bounded (appcast_url source) MAX_UPDATE_APPCAST_BYTES;
  signature ← fetch_bounded (signature_url source) MAX_UPDATE_SIGNATURE_BYTES;
  signature ← from_utf8 signature;
  if negb (verify_signed_document appcast signature UPDATE_PUBLIC_KEY) then None
  else
    appcast ← from_utf8 appcast;
    package ← extract_update_package appcast;
    available ← parse_product_version (up_version package);
    current ← parse_product_version CARGO_PKG_VERSION;
    Some (if negb (version_leb available current) then UC_Available package else UC_Current).
End feed.

Fixpoint check_loop (check : UpdateSource -> option UpdateCheck) (sources : list UpdateSource) (current_feed_seen : bool)
    : option UpdateCheck :=
  match sources with
  | [] => if current_feed_seen then Some UC_Current else None
  | source :: sources =>
      match check source with
      | Some (UC_Available package) => Some (UC_Available package)
      | Some UC_Current => check_loop check sources true
      | None => check_loop check sources current_feed_seen
      end
  end.
Definition check_update_sources (sources : list UpdateSource) (check : UpdateSource -> option UpdateCheck)
    : option UpdateCheck := check_loop check sources false.

Definition check_for_update `{Base64Standard} `{CryptoCrates} (get : rstr -> Z -> option (list Z)) : option UpdateCheck :=
  check_update_sources UPDATE_APPCAST_SOURCES (check_update_source get).

(** ** Searching text *)
Lemma split_first_Some p s before after : split_first p s = Some (before, after) -> s = before ++ p ++ after.
Proof.
  revert before. induction s as [|c s IH]; intros before; cbn [split_first].
  - destruct (strip_prefix p []) eqn:E; [|done]. apply strip_prefix_Some in E. by intros [= <- <-].
  - destruct (strip_prefix p (c :: s)) eqn:E; [apply strip_prefix_Some in E; by intros [= <- <-]|].
    destruct (split_first p s) as [[b a]|]; cbn; [|done]. intros [= <- <-]. cbn. f_equal. by apply IH.
Qed.

(** No occurrence of [p] begins in [block], whatever follows it. *)
Fixpoint clash (p t : rstr) : bool :=
  match p, t with
  | x :: p, y :: t => negb (x =? y) || clash p t
  | _, _ => false
  end.
Fixpoint avoids (p block : rstr) : bool :=
  match block with [] => true | _ :: rest => clash p block && avoids p rest end.

Lemma clash_starts_with p t rest : clash p t = true -> starts_with p (t ++ rest) = false.
Proof.
  revert t. induction p as [|x p IH]; intros [|y t]; cbn; try done.
  destruct (x =? y); cbn; [apply IH|done].
Qed.

Lemma split_first_avoids p block rest :
  avoids p block = true -> split_first p (block ++ rest) = prod_map (app block) id <$> split_first p rest.
Proof.
  induction block as [|x block IH]; cbn [app avoids].
  - by destruct (split_first p rest) as [[b a]|].
  - intros [Hc Ha]%andb_true_iff. pose proof (clash_starts_with _ _ rest Hc) as Hs. cbn [app] in Hs.
    cbn [split_first]. unfold strip_prefix. rewrite Hs, IH by done. by destruct (split_first p rest) as [[b a]|].
Qed.

Lemma split_first_here p rest : split_first p (p ++ rest) = Some ([], rest).
Proof.
  assert (strip_prefix p (p ++ rest) = Some rest) as E by (by apply strip_prefix_Some).
  destruct (p ++ rest) as [|x l]; cbn [split_first]; by rewrite E.
Qed.

Lemma split_first_at p before rest : avoids p before = true -> split_first p (before ++ p ++ rest) = Some (before, rest).
Proof. intros H. rewrite split_first_avoids, split_first_here by done. cbn. by rewrite app_nil_r. Qed.

Lemma avoids_app p b1 b2 : avoids p b1 = true -> avoids p b2 = true -> avoids p (b1 ++ b2) = true.
Proof.
  induction b1 as [|x b1 IH]; [done|]. cbn [app avoids]. intros [Hc Ha]%andb_true_iff Hb.
  apply andb_true_iff; split; [|by apply IH]. clear -Hc. change (x :: b1 ++ b2) with ((x :: b1) ++ b2).
  revert Hc. generalize (x :: b1) as t. induction p as [|y p IH]; intros [|z t]; cbn; try done.
  destruct (y =? z); cbn; [apply IH|done].
Qed.

(** Text without the pattern's first character avoids it. *)
Lemma avoids_first c p block : forallb (fun x => negb (c =? x)) block = true -> avoids (c :: p) block = true.
Proof.
  induction block as [|x block IH]; [done|]. cbn [forallb avoids clash]. intros [H1 H2]%andb_true_iff.
  by rewrite H1, IH.
Qed.

(** ** Decimal numbers read back *)
Definition digits_step (acc : option Z) (c : Z) : option Z :=
  n ← acc; let n := n * 10 + (c - 48) in if n <=? u64_max then Some n else None.

Lemma parse_u64_digits_fold s : parse_u64_digits s = fold_left digits_step s (Some 0).
Proof. done. Qed.

Lemma digits_of_parse fuel n acc m :
  0 <= n <= u64_max -> n < 10 ^ Z.of_nat fuel -> (0 < fuel)%nat ->
  exists ds, digits_of fuel n acc = ds ++ acc /\ forallb is_ascii_digit ds = true /\ ds <> []
    /\ fold_left digits_step ds (Some m) = (if m =? 0 then Some n else fold_left digits_step ds (Some m)).
Proof.
  revert n acc m. induction fuel as [|fuel IH]; intros n acc m Hn Hf Hz; [lia|]. cbn [digits_of].
  assert (0 <= n mod 10 < 10) as Hm by (apply Z.mod_pos_bound; lia).
  assert (is_ascii_digit (48 + n mod 10) = true) as Hd by (apply in_range_true; lia).
  destruct (Z.ltb_spec n 10) as [Hlt|Hge].
  - exists [48 + n mod 10]. cbn [app forallb fold_left]. rewrite Hd. split_and!; [done..|].
    destruct (Z.eqb_spec m 0) as [->|]; [|done]. unfold digits_step. cbn [mbind option_bind]. rewrite Z.mod_small by lia.
    replace (0 * 10 + (48 + n - 48)) with n by lia. by rewrite (proj2 (Z.leb_le n u64_max)) by lia.
  - destruct (IH (n / 10) ((48 + n mod 10) :: acc) m) as (ds & -> & Hds & Hne & Hp).
    + split; [apply Z.div_pos; lia|]. apply Z.div_le_upper_bound; unfold u64_max in *; lia.
    + apply Z.div_lt_upper_bound; [lia|]. rewrite Nat2Z.inj_succ, Z.pow_succ_r in Hf by lia. lia.
    + destruct fuel; [|lia]. cbn in Hf. lia.
    + exists (ds ++ [48 + n mod 10]). rewrite <- app_assoc. split_and!; [done| |by destruct ds|].
      * rewrite forallb_app, Hds. cbn. by rewrite Hd.
      * destruct (Z.eqb_spec m 0) as [->|]; [|done]. rewrite fold_left_app. cbn in Hp. rewrite Hp. cbn [fold_left].
        unfold digits_step. cbn [mbind option_bind]. pose proof (Z.div_mod n 10 ltac:(lia)).
        replace (n / 10 * 10 + (48 + n mod 10 - 48)) with n by lia. by rewrite (proj2 (Z.leb_le n u64_max)) by lia.
Qed.

Lemma parse_to_string n : 0 <= n <= u64_max -> parse_u64 (to_string n) = Some n.
Proof.
  intros Hn. destruct (to_string_digits n ltac:(lia)) as [Hd Hne].
  destruct (digits_of_parse 20 n [] 0) as (ds & E & _ & _ & Hp); [done| |lia|].
  { unfold u64_max in Hn. lia. }
  assert (to_string n = ds) as Heq by (unfold to_string; by rewrite E, app_nil_r). rewrite Heq in *.
  unfold parse_u64. destruct ds as [|x ds]; [done|]. assert (x <> 43) as Hx.
  { intros ->. cbn in Hd. discriminate Hd. }
  assert (match x :: ds with 43 :: rest => rest | _ => x :: ds end = x :: ds) as ->.
  { destruct x as [|x|x]; try done. do 6 (destruct x as [x|x|]; try done). }
  rewrite Hd. cbn [str_is_empty negb andb]. exact Hp.
Qed.

(** ** The feed reads what the release scripts write *)

(** The tray and the service read versions alike. *)
Lemma parse_product_version_eq v : parse_product_version v = parse_version v.
Proof.
  unfold parse_product_version, parse_version. change parse_version_component with parse_component.
  destruct (str_split 46 v) as [|a [|b [|c more]]]; [done| | |].
  - by destruct (parse_component a).
  - by destruct (parse_component a); cbn [mbind option_bind]; [destruct (parse_component b)|].
  - destruct (parse_component a); [|done]. destruct (parse_component b); [|done].
    destruct (parse_component c); [|done]. by destruct more.
Qed.

Definition version_char (c : Z) : bool := is_ascii_digit c || (c =? 46).

Lemma split_chars s : forallb (forallb is_ascii_digit) (str_split 46 s) = true -> forallb version_char s = true.
Proof.
  induction s as [|c s IH]; [done|]. cbn [str_split forallb]. unfold version_char at 1. destruct (c =? 46).
  - rewrite orb_true_r. exact IH.
  - destruct (str_split 46 s) as [|piece pieces]; cbn [forallb] in *.
    + rewrite !andb_true_r. intros H. by rewrite H, IH.
    + intros [[Hc Hp]%andb_true_iff Hs]%andb_true_iff. rewrite Hc, IH; [done|]. by rewrite Hp, Hs.
Qed.

Lemma parse_component_digits s n : parse_component s = Some n -> forallb is_ascii_digit s = true /\ s <> [].
Proof. unfold parse_component. destruct s; [done|]. cbn [str_is_empty negb andb]. by destruct (forallb _ _). Qed.

Lemma parse_version_chars s v : parse_version s = Some v -> forallb version_char s = true /\ s <> [].
Proof.
  unfold parse_version. intros E. split; [|by intros ->].
  apply split_chars. destruct (str_split 46 s) as [|a [|b [|c more]]]; [done|..].
  - by destruct (parse_component a).
  - by destruct (parse_component a); cbn in E; [destruct (parse_component b)|].
  - apply bind_Some in E as (x & Ha & E). apply bind_Some in E as (y & Hb & E). apply bind_Some in E as (z & Hc & E).
    apply parse_component_digits in Ha as [Ha _], Hb as [Hb _], Hc as [Hc _]. destruct more; [|done].
    cbn. by rewrite Ha, Hb, Hc.
Qed.

(** Text that neither ends an attribute or an element nor starts one. *)
Definition plain_char (c : Z) : bool := negb ((c =? 32) || (c =? 34) || (c =? 60) || (c =? 62)).

Lemma forallb_impl {A} (f g : A -> bool) l : (forall x, f x = true -> g x = true) -> forallb f l = true -> forallb g l = true.
Proof. intros Hi. rewrite !forallb_forall. auto. Qed.

Lemma version_plain s : forallb version_char s = true -> forallb plain_char s = true.
Proof.
  apply forallb_impl. intros c. unfold version_char, plain_char, is_ascii_digit.
  intros [H%in_range_true| ->%Z.eqb_eq]%orb_true_iff; [|done].
  rewrite !(proj2 (Z.eqb_neq c _)) by lia. done.
Qed.

Lemma version_untrimmed s : forallb version_char s = true -> s <> [] -> trim s = s.
Proof.
  intros Hs Hne. assert (forall c, version_char c = true -> is_whitespace c = false) as Hw.
  { intros c. unfold version_char, is_ascii_digit. intros [H%in_range_true| ->%Z.eqb_eq]%orb_true_iff; [|done].
    unfold is_whitespace. assert (c ∈ seqZ 48 10) as Hin by (apply elem_of_seqZ; lia). cbn in Hin.
    repeat (apply elem_of_cons in Hin as [->|Hin]; [done|]). by apply elem_of_nil in Hin. }
  unfold trim, trim_end, trim_start. assert (forall t, forallb version_char t = true -> drop_while is_whitespace t = t) as Hd.
  { intros [|c t]; [done|]. cbn [forallb drop_while]. intros [Hc _]%andb_true_iff. by rewrite (Hw c Hc). }
  rewrite (Hd s) by done. rewrite Hd, reverse_involutive; [done|].
  rewrite forallb_forall in *. intros x Hx. apply Hs. by apply list_elem_of_In, elem_of_reverse, list_elem_of_In.
Qed.


(** The element and the document that the release scripts write for a
    package, with anything before, between and after. *)
Definition opening (name : string) : rstr := lit " " ++ lit name ++ lit "=" ++ [34].
Definition attribute (name : string) (value : rstr) : rstr := opening name ++ value ++ [34].
Definition enclosure (p : UpdatePackage) : rstr :=
  lit "<enclosure" ++ attribute "url" (up_url p) ++ attribute "length" (to_string (up_length p))
  ++ attribute "type" (lit "application/octet-stream") ++ attribute "sparkle:os" (lit "windows-x64")
  ++ attribute "sparkle:version" (up_version p) ++ attribute "sparkle:shortVersionString" (up_version p)
  ++ attribute "sparkle:signature" (up_signature p) ++ lit " /".
Definition appcast_document (head middle tail : rstr) (p : UpdatePackage) : rstr :=
  head ++ lit "<sparkle:version>" ++ up_version p ++ lit "</sparkle:version>" ++ middle ++ enclosure p ++ lit ">" ++ tail.

Record announceable (p : UpdatePackage) : Prop := {
  an_version : exists v, parse_version (up_version p) = Some v;
  an_url : forallb plain_char (up_url p) = true /\ up_url p <> [];
  an_signature : forallb plain_char (up_signature p) = true /\ up_signature p <> [];
  an_length : 0 <= up_length p <= u64_max
}.

Lemma plain_avoids c p s :
  plain_char c = false -> forallb plain_char s = true -> avoids (c :: p) s = true.
Proof.
  intros Hc Hs. apply avoids_first. revert Hs. apply forallb_impl. intros x Hx.
  destruct (Z.eqb_spec c x) as [->|]; [congruence|done].
Qed.

Lemma digits_plain s : forallb is_ascii_digit s = true -> forallb plain_char s = true.
Proof. intros H. apply version_plain. revert H. apply forallb_impl. intros c Hc. unfold version_char. by rewrite Hc. Qed.

Ltac avoid :=
  match goal with |- avoids ?p ?b = true => let p := eval vm_compute in p in change (avoids p b = true) end;
  repeat match goal with |- avoids _ (_ ++ _) = true => apply avoids_app end;
  first [assumption | apply plain_avoids; [reflexivity|assumption] | vm_compute; reflexivity].

Lemma extract_attribute name before value rest :
  avoids (opening name) before = true -> forallb plain_char value = true -> value <> [] ->
  extract_xml_attribute (before ++ attribute name value ++ rest) (lit name) = Some value.
Proof.
  intros Hb Hv Hne. unfold extract_xml_attribute, attribute. fold (opening name). rewrite <- !app_assoc.
  rewrite split_first_at by done. cbn [mbind option_bind]. rewrite split_first_at by avoid. cbn [mbind option_bind].
  by destruct value.
Qed.

Lemma enclosure_at before element tail :
  avoids (lit "<enclosure ") before = true -> avoids (lit ">") (lit "<enclosure " ++ element) = true ->
  enclosure_of (before ++ lit "<enclosure " ++ element ++ lit ">" ++ tail) = Some ((lit "<enclosure " ++ element) ++ lit ">").
Proof.
  intros Hb He. unfold enclosure_of. rewrite split_first_at by done. cbn [mbind option_bind].
  change [62] with (lit ">"). rewrite app_assoc, split_first_at by done. done.
Qed.

(** The reader takes the package back out of what is written. *)
Lemma extract_appcast head middle tail p :
  announceable p -> avoids (lit "<sparkle:version>") head = true -> avoids (lit "<enclosure ") head = true ->
  avoids (lit "<enclosure ") middle = true ->
  extract_update_package (appcast_document head middle tail p) = Some p.
Proof.
  intros [[v Hv] [Hu Hue] [Hg Hge] Hl] Hh He Hm.
  destruct (parse_version_chars _ _ Hv) as [Hc Hne]. pose proof (version_plain _ Hc) as Hp.
  destruct (to_string_digits (up_length p) ltac:(lia)) as [Hd Hde]. apply digits_plain in Hd.
  unfold extract_update_package, extract_between, appcast_document. rewrite split_first_at by done.
  cbn [mbind option_bind]. rewrite split_first_at by avoid. cbn [mbind option_bind].
  rewrite version_untrimmed, parse_product_version_eq, Hv by done. cbn [mbind option_bind].
  assert (exists element, enclosure p = lit "<enclosure " ++ element /\ avoids (lit ">") (enclosure p) = true) as (element & E & Hgt).
  { eexists. split; [unfold enclosure, attribute at 1, opening at 1; rewrite <- !app_assoc, (app_assoc (lit "<enclosure")); reflexivity|].
    unfold enclosure, attribute. avoid. }
  replace (head ++ _) with ((head ++ lit "<sparkle:version>" ++ up_version p ++ lit "</sparkle:version>" ++ middle)
    ++ lit "<enclosure " ++ element ++ lit ">" ++ tail) by (rewrite (app_assoc (lit "<enclosure ")), <- E, <- !app_assoc; reflexivity).
  rewrite enclosure_at; [|avoid|by rewrite <- E]. cbn [mbind option_bind]. rewrite <- E. clear E Hgt element.
  unfold enclosure. rewrite <- !app_assoc.
  rewrite (extract_attribute "url") by first [assumption|avoid]. cbn [mbind option_bind].
  match goal with |- context [extract_xml_attribute (_ ++ ?u ++ ?n ++ ?t ++ ?o ++ ?w ++ ?s ++ ?rest) (lit "sparkle:signature")] =>
    replace (lit "<enclosure" ++ u ++ n ++ t ++ o ++ w ++ s ++ rest)
      with ((lit "<enclosure" ++ u ++ n ++ t ++ o ++ w ++ s) ++ rest) at 1 by (by rewrite <- !app_assoc);
    rewrite (extract_attribute "sparkle:signature") by first [assumption|unfold attribute; avoid]; cbn [mbind option_bind];
    rewrite (app_assoc (lit "<enclosure") u), (extract_attribute "length") by first [assumption|unfold attribute; avoid]
  end.
  cbn [mbind option_bind]. rewrite parse_to_string by done. by destruct p.
Qed.

(** ** What the feed reports *)

(** An announcement comes from the first source that makes one. *)
Lemma check_loop_available check sources seen p :
  check_loop check sources seen = Some (UC_Available p) <->
  exists before source after, sources = before ++ source :: after /\ check source = Some (UC_Available p)
    /\ forall s q, s ∈ before -> check s <> Some (UC_Available q).
Proof.
  revert seen. induction sources as [|s sources IH]; intros seen; cbn [check_loop].
  - split; [by destruct seen|]. intros (b & s & a & E & _). by destruct b.
  - assert (check s = Some (UC_Available p) \/ (forall q, check s <> Some (UC_Available q))
      /\ (exists seen', check_loop check (s :: sources) seen = check_loop check sources seen')
      \/ exists q, q <> p /\ check s = Some (UC_Available q)) as [E|[[Hn [seen' E]]|(q & Hq & E)]].
    { cbn [check_loop]. destruct (check s) as [[|q]|]; [right; left; split; [done|by eexists]| |right; left; split; [done|by eexists]].
      destruct (decide (q = p)) as [->|]; [by left|]. right; right. by exists q. }
    + rewrite E. split; [|done]. intros _. exists [], s, sources. split_and!; [done..|]. by intros ? ? ?%elem_of_nil.
    + cbn [check_loop] in E. rewrite E, IH. split.
      * intros (b & t & a & -> & Ht & Hb). exists (s :: b), t, a. split_and!; [done..|].
        intros x q [->|Hx]%elem_of_cons; [apply Hn|by apply Hb].
      * intros ([|x b] & t & a & [= -> ->] & Ht & Hb); [by destruct (Hn p)|].
        exists b, t, a. split_and!; [done..|]. intros x' q Hx. apply Hb. by apply elem_of_cons; right.
    + rewrite E. split; [by intros [= ->]|]. intros ([|x b] & t & a & [= -> ->] & Ht & Hb); [congruence|].
      destruct (Hb x q); [by apply elem_of_cons; left|done].
Qed.

Section signed.
Context `{Base64Standard} `{CryptoCrates}.

(** The document carries the release key's signature. *)
Definition release_signature (document : list Z) (signature : rstr) : Prop :=
  exists raw key s, base64_decode (trim UPDATE_PUBLIC_KEY) = Some raw /\ length raw = 32%nat
    /\ verifying_key_from_bytes raw = Some key /\ base64_decode (trim signature) = Some s
    /\ length s = 64%nat /\ verify_strict key document s = true.

Lemma verify_signed_document_iff document signature :
  verify_signed_document document signature UPDATE_PUBLIC_KEY = true <-> release_signature document signature.
Proof.
  unfold verify_signed_document, release_signature. split.
  - destruct (base64_decode (trim UPDATE_PUBLIC_KEY)) as [raw|]; [|done]. destruct (Nat.eqb_spec (length raw) 32); [cbn [negb]|done].
    destruct (verifying_key_from_bytes raw) as [key|] eqn:Ek; [|done].
    destruct (base64_decode (trim signature)) as [s|]; [|done]. destruct (Nat.eqb_spec (length s) 64); [cbn [negb]|done].
    intros Hv. by exists raw, key, s.
  - intros (raw & key & s & -> & Hr & -> & -> & Hs & Hv). by rewrite Hr, Hs.
Qed.

Variable get : rstr -> Z -> option (list Z).

(** What one source has to serve for the package to be announced. *)
Definition announces (source : UpdateSource) (p : UpdatePackage) : Prop :=
  exists body signature text document v,
    get (appcast_url source) (MAX_UPDATE_APPCAST_BYTES + 1) = Some body /\ Z.of_nat (length body) <= MAX_UPDATE_APPCAST_BYTES
    /\ get (signature_url source) (MAX_UPDATE_SIGNATURE_BYTES + 1) = Some signature
    /\ Z.of_nat (length signature) <= MAX_UPDATE_SIGNATURE_BYTES
    /\ from_utf8 signature = Some text /\ release_signature body text
    /\ from_utf8 body = Some document /\ extract_update_package document = Some p
    /\ parse_version (up_version p) = Some v /\ version_leb v (1, 0, 8) = false.

Lemma fetch_bounded_Some url limit body :
  fetch_bounded get url limit = Some body <-> get url (limit + 1) = Some body /\ Z.of_nat (length body) <= limit.
Proof.
  unfold fetch_bounded. rewrite bind_Some. split.
  - intros (b & Hb & E). destruct (Z.leb_spec (Z.of_nat (length b)) limit); [|done]. by injection E as <-.
  - intros [Hb Hl]. exists body. split; [done|]. by rewrite (proj2 (Z.leb_le _ _) Hl).
Qed.

Lemma check_update_source_available source p :
  check_update_source get source = Some (UC_Available p) <-> announces source p.
Proof.
  unfold check_update_source, announces. split.
  - intros E. apply bind_Some in E as (body & [Hb Hbl]%fetch_bounded_Some & E).
    apply bind_Some in E as (signature & [Hs Hsl]%fetch_bounded_Some & E). apply bind_Some in E as (text & Ht & E).
    destruct (verify_signed_document _ _ _) eqn:Hv; [cbn [negb] in E|done]. apply verify_signed_document_iff in Hv.
    apply bind_Some in E as (document & Hd & E). apply bind_Some in E as (q & Hq & E).
    apply bind_Some in E as (v & Hp & E). change (parse_product_version CARGO_PKG_VERSION) with (Some (1, 0, 8)) in E.
    rewrite parse_product_version_eq in Hp. cbn [mbind option_bind] in E.
    destruct (version_leb v (1, 0, 8)) eqn:Hle in E; [done|]. injection E as <-.
    by exists body, signature, text, document, v.
  - intros (body & signature & text & document & v & Hb & Hbl & Hs & Hsl & Ht & Hr & Hd & Hx & Hp & Hle).
    rewrite (proj2 (fetch_bounded_Some _ _ _) (conj Hb Hbl)). cbn [mbind option_bind].
    rewrite (proj2 (fetch_bounded_Some _ _ _) (conj Hs Hsl)). cbn [mbind option_bind]. rewrite Ht. cbn [mbind option_bind].
    rewrite (proj2 (verify_signed_document_iff _ _) Hr). cbn [negb]. rewrite Hd. cbn [mbind option_bind]. rewrite Hx.
    cbn [mbind option_bind]. rewrite (parse_product_version_eq (up_version p)), Hp.
    change (parse_product_version CARGO_PKG_VERSION) with (Some (1, 0, 8)). cbn [mbind option_bind]. by rewrite Hle.
Qed.

Lemma check_for_update_available p :
  check_for_update get = Some (UC_Available p) <->
  exists before source after, UPDATE_APPCAST_SOURCES = before ++ source :: after /\ announces source p
    /\ forall s q, s ∈ before -> ~ announces s q.
Proof.
  unfold check_for_update, check_update_sources. rewrite check_loop_available.
  by setoid_rewrite check_update_source_available.
Qed.

(** C34: the tray reports an update exactly when a source serves, within the
    size limits, an appcast that carries the release key's signature and
    announces a package of a newer version, and no source before it announces
    another; the version check is the one the service repeats. *)
Theorem feed_reports_signed_releases (p : UpdatePackage) :
  check_for_update get = Some (UC_Available p) <->
  exists before source after, UPDATE_APPCAST_SOURCES = before ++ source :: after /\ announces source p
    /\ forall s q, s ∈ before -> ~ announces s q.
Proof. apply check_for_update_available. Qed.

(** A source serves the document with its signature. *)
Definition serves (source : UpdateSource) (document signature : rstr) : Prop :=
  get (appcast_url source) (MAX_UPDATE_APPCAST_BYTES + 1) = Some (utf8 document)
  /\ get (signature_url source) (MAX_UPDATE_SIGNATURE_BYTES + 1) = Some (utf8 signature).

Lemma served_announces source head middle tail p signature v :
  let document := appcast_document head middle tail p in
  announceable p -> parse_version (up_version p) = Some v -> version_leb v (1, 0, 8) = false ->
  avoids (lit "<sparkle:version>") head = true -> avoids (lit "<enclosure ") head = true ->
  avoids (lit "<enclosure ") middle = true ->
  forallb is_scalar document = true -> str_len document <= MAX_UPDATE_APPCAST_BYTES ->
  forallb is_scalar signature = true -> str_len signature <= MAX_UPDATE_SIGNATURE_BYTES ->
  release_signature (utf8 document) signature -> serves source document signature -> announces source p.
Proof.
  intros document Ha Hv Hn Hh He Hm Hd Hdl Hs Hsl Hr [Hg Hgs].
  exists (utf8 document), (utf8 signature), signature, document, v.
  rewrite !from_utf8_utf8 by done. split_and!; try done. by apply extract_appcast.
Qed.

(** A signed appcast of a newer release, in the form the release scripts
    write, comes back as exactly its package when at least one source serves it
    and the others serve it too or cannot be reached: one unreachable source
    does not hide an update, and nothing is lost or altered in the text. *)
Theorem signed_appcast_is_found (head middle tail : rstr) (p : UpdatePackage) (signature : rstr) (v : Z * Z * Z)
    (Ha : announceable p) (Hv : parse_version (up_version p) = Some v) (Hn : version_leb v (1, 0, 8) = false)
    (Hh : avoids (lit "<sparkle:version>") head = true) (He : avoids (lit "<enclosure ") head = true)
    (Hm : avoids (lit "<enclosure ") middle = true)
    (Hd : forallb is_scalar (appcast_document head middle tail p) = true)
    (Hdl : str_len (appcast_document head middle tail p) <= MAX_UPDATE_APPCAST_BYTES)
    (Hs : forallb is_scalar signature = true) (Hsl : str_len signature <= MAX_UPDATE_SIGNATURE_BYTES)
    (Hr : release_signature (utf8 (appcast_document head middle tail p)) signature)
    (Hall : forall source, source ∈ UPDATE_APPCAST_SOURCES ->
      serves source (appcast_document head middle tail p) signature
      \/ get (appcast_url source) (MAX_UPDATE_APPCAST_BYTES + 1) = None)
    (Hone : exists source, source ∈ UPDATE_APPCAST_SOURCES /\ serves source (appcast_document head middle tail p) signature) :
  check_for_update get = Some (UC_Available p).
Proof.
  assert (forall source, serves source (appcast_document head middle tail p) signature ->
    check_update_source get source = Some (UC_Available p)) as Hc.
  { intros source Hsv. apply check_update_source_available. by eapply served_announces. }
  assert (forall source, get (appcast_url source) (MAX_UPDATE_APPCAST_BYTES + 1) = None ->
    check_update_source get source = None) as Hnone.
  { intros source Hg. unfold check_update_source, fetch_bounded. by rewrite Hg. }
  unfold check_for_update, check_update_sources. revert Hall Hone. generalize false.
  induction UPDATE_APPCAST_SOURCES as [|s sources IH]; intros seen Hall (source & Hin & Hsv); [by apply elem_of_nil in Hin|].
  cbn [check_loop]. destruct (Hall s) as [Hs'|Hg]; [by apply elem_of_cons; left|by rewrite (Hc s Hs')|].
  rewrite (Hnone s Hg). apply IH; [intros t Ht; apply Hall; by apply elem_of_cons; right|].
  apply elem_of_cons in Hin as [->|Hin]; [|by exists source]. destruct Hsv as [Hsv _]. by rewrite Hg in Hsv.
Qed.
End signed.

Module TrayFeedWitness.
#[local] Existing Instance ManagementWitness.toy_crypto.
(** The key text decodes to thirty-two bytes, every other text to its characters. *)
#[local] Instance toy_base64 : Base64Standard :=
  {| base64_decode := fun s => Some (if bool_decide (length s = 44%nat) then replicate 32 3 else s) |}.

Definition package : UpdatePackage :=
  {| up_version := lit "1.2.0"; up_url := primary_url (lit "1.2.0"); up_signature := lit "sig"; up_length := 123456789 |}.
Definition document : rstr :=
  appcast_document (lit "<item><title>resticpal 1.2.0</title>") (lit "<description/>") (lit "</item>") package.
Definition signature : rstr := replicate 64 (Z.of_nat (length (utf8 document))).

(** Only the fallback source is up. *)
Definition get (url : rstr) (_ : Z) : option (list Z) :=
  if str_contains (lit "github") url then Some (utf8 (if str_contains (lit ".signature") url then signature else document))
  else None.

Lemma signed_appcast_is_found_witness : check_for_update get = Some (UC_Available package).
Proof.
  apply (signed_appcast_is_found get (lit "<item><title>resticpal 1.2.0</title>") (lit "<description/>") (lit "</item>")
    package signature (1, 2, 0));
    [|vm_compute; reflexivity..|vm_compute; discriminate|vm_compute; reflexivity|vm_compute; discriminate| | |].
  - split; [exists (1, 2, 0); vm_compute; reflexivity|..]; vm_compute; split; first [reflexivity|discriminate].
  - exists (replicate 32 3), (replicate 32 3), signature. split_and!; vm_compute; reflexivity.
  - intros source Hin. unfold UPDATE_APPCAST_SOURCES in Hin. rewrite !elem_of_cons, elem_of_nil in Hin.
    destruct Hin as [->|[->|[]]]; [right; vm_compute; reflexivity|left; split; vm_compute; reflexivity].
  - eexists. split; [apply elem_of_cons; right; apply elem_of_cons; left; reflexivity|split; vm_compute; reflexivity].
Defined.

(** A page of the same text that is not signed announces nothing. *)
Example unsigned_is_ignored :
  check_for_update (fun url limit => if str_contains (lit ".signature") url then Some (utf8 (lit "unsigned")) else get url limit)
  = None.
Proof. vm_compute. reflexivity. Qed.
End TrayFeedWitness.
