(* ===== verification/Build.v ===== *)
(** * Build scripts ([apps/resticpal-service/build.rs], [apps/resticpal-tray/build.rs])

    The scripts that cargo runs before it compiles the two programs: they
    read the package version and write the resources that Windows and the
    installer read from the executables, the tray's with its manifest.  In
    the literals below an apostrophe stands for a double quote. *)
From stdpp Require Import base option list gmap strings.
From S2P Require Import Prelude RustStd WinPath Chrono Crates Config Status Protocol Outcome Updater Sources TrayFeed.

(** A literal of the scripts. *)
Definition text (s : string) : rstr := (fun c => if c =? 39 then 34 else c) <$> lit s.

(** [str::parse::<u16>] *)
Definition parse_u16 (s : rstr) : option Z :=
  n ← parse_u64 s;
  if n <=? 65535 then Some n else None.

(** The three [components.next()] and the assertion; [None] is a panic. *)
Definition version_components (version : rstr) : option (Z * Z * Z) :=
  match str_split 46 version with
  | [major; minor; patch] =>
      major ← parse_u16 major; minor ← parse_u16 minor; patch ← parse_u16 patch; Some (major, minor, patch)
  | _ => None
  end.

(** [path.to_string_lossy().replace('\', "/")] *)
Definition forward_slashes (path : rstr) : rstr := (fun c => if c =? backslash then slash else c) <$> to_string_lossy path.

(** What both scripts write from the second or third line on. *)
Definition version_info (description original_filename version : rstr) (major minor patch : Z) : rstr :=
  text "1 VERSIONINFO
FILEVERSION "
  ++ to_string major
  ++ text ","
  ++ to_string minor
  ++ text ","
  ++ to_string patch
  ++ text ",0
PRODUCTVERSION "
  ++ to_string major
  ++ text ","
  ++ to_string minor
  ++ text ","
  ++ to_string patch
  ++ text ",0
FILEFLAGSMASK 0x3fL
FILEFLAGS 0x0L
FILEOS 0x40004L
FILETYPE 0x1L
FILESUBTYPE 0x0L
BEGIN
    BLOCK 'StringFileInfo'
    BEGIN
        BLOCK '040904B0'
        BEGIN
            VALUE 'CompanyName', 'StackFoundry LLC\0'
            VALUE 'FileDescription', '"
  ++ description
  ++ text "\0'
            VALUE 'FileVersion', '"
  ++ version
  ++ text ".0\0'
            VALUE 'InternalName', '"
  ++ original_filename
  ++ text "\0'
            VALUE 'LegalCopyright', 'Copyright (c) 2026 Yann Ramin\0'
            VALUE 'OriginalFilename', '"
  ++ original_filename
  ++ text "\0'
            VALUE 'ProductName', 'resticpal\0'
            VALUE 'ProductVersion', '"
  ++ version
  ++ text "\0'
        END
    END
    BLOCK 'VarFileInfo'
    BEGIN
        VALUE 'Translation', 0x409, 1200
    END
END
".

(** [version_resource] of the service *)
Definition service_resource (icon description original_filename version : rstr) (major minor patch : Z) : rstr :=
  text "1 ICON '" ++ forward_slashes icon ++ text "'
" ++ version_info description original_filename version major minor patch.

(** [version_resource] of the tray *)
Definition tray_resource (icon manifest description original_filename version : rstr) (major minor patch : Z) : rstr :=
  text "1 24 '" ++ forward_slashes manifest ++ text "'
1 ICON '" ++ forward_slashes icon ++ text "'
" ++ version_info description original_filename version major minor patch.

Definition application_manifest (version processor_architecture : rstr) (major minor patch : Z) : rstr :=
  text "<?xml version='1.0' encoding='UTF-8' standalone='yes'?>
<assembly manifestVersion='1.0' xmlns='urn:schemas-microsoft-com:asm.v1'>
    <assemblyIdentity
        type='win32'
        name='resticpal.tray'
        version='"
  ++ to_string major
  ++ text "."
  ++ to_string minor
  ++ text "."
  ++ to_string patch
  ++ text ".0'
        processorArchitecture='"
  ++ processor_architecture
  ++ text "' />
    <description>resticpal tray application "
  ++ version
  ++ text "</description>
    <trustInfo xmlns='urn:schemas-microsoft-com:asm.v3'>
        <security>
            <requestedPrivileges>
                <requestedExecutionLevel level='asInvoker' uiAccess='false' />
            </requestedPrivileges>
        </security>
    </trustInfo>
    <compatibility xmlns='urn:schemas-microsoft-com:compatibility.v1'>
        <application>
            <supportedOS Id='{8e0f7a12-bfb3-4fe8-b9a5-48fd50a15a9a}' />
        </application>
    </compatibility>
    <application xmlns='urn:schemas-microsoft-com:asm.v3'>
        <windowsSettings>
            <dpiAware xmlns='http://schemas.microsoft.com/SMI/2005/WindowsSettings'>true/pm</dpiAware>
            <dpiAwareness xmlns='http://schemas.microsoft.com/SMI/2016/WindowsSettings'>PerMonitorV2, PerMonitor</dpiAwareness>
            <longPathAware xmlns='http://schemas.microsoft.com/SMI/2016/WindowsSettings'>true</longPathAware>
        </windowsSettings>
    </application>
    <dependency>
        <dependentAssembly>
            <assemblyIdentity
                type='win32'
                name='Microsoft.Windows.Common-Controls'
                version='6.0.0.0'
                processorArchitecture='*'
                publicKeyToken='6595b64144ccf1df'
                language='*' />
        </dependentAssembly>
    </dependency>
</assembly>
".

Definition processor_architecture (target : rstr) : option rstr :=
  if str_eqb target (lit "x86_64") then Some (lit "amd64")
  else if str_eqb target (lit "x86") then Some (lit "x86")
  else if str_eqb target (lit "aarch64") then Some (lit "arm64")
  else None.

(** The two [compile_windows_resources] with the arguments of their [main]:
    what is written before the resources are compiled.  [icon] is what
    [canonicalize] answers; a failure of any call is a panic. *)
Definition service_resources (version : rstr) (icon : option rstr) : option rstr :=
  '(major, minor, patch) ← version_components version;
  icon ← icon;
  Some (service_resource icon (lit "resticpal backup service") (lit "resticpal-service.exe") version major minor patch).

Definition tray_resources (version target out_dir : rstr) (icon : option rstr) : option (rstr * rstr) :=
  '(major, minor, patch) ← version_components version;
  architecture ← processor_architecture target;
  icon ← icon;
  let manifest := path_push out_dir (lit "resticpal-tray.manifest") in
  Some (application_manifest version architecture major minor patch,
        tray_resource icon manifest (lit "resticpal tray application") (lit "resticpal-tray.exe") version major minor patch).

(** ** What Windows reads *)

(** The numbers of the first [FILEVERSION] line of a resource script. *)
Definition file_version (resource : rstr) : option (list Z) :=
  line ← find (starts_with (lit "FILEVERSION ")) (str_split 10 resource);
  mapM parse_u64 (str_split 44 (drop 12 line)).

Lemma str_split_line c s rest : c ∉ s -> str_split c (s ++ c :: rest) = s :: str_split c rest.
Proof.
  induction s as [|x s IH]; cbn; intros Hs; [by rewrite Z.eqb_refl|].
  apply not_elem_of_cons in Hs as [Hx Hs]. rewrite (proj2 (Z.eqb_neq x c)) by congruence. by rewrite IH.
Qed.
Lemma str_split_end c s : c ∉ s -> str_split c s = [s].
Proof.
  induction s as [|x s IH]; cbn; intros Hs; [done|]. apply not_elem_of_cons in Hs as [Hx Hs].
  rewrite (proj2 (Z.eqb_neq x c)) by congruence. by rewrite IH.
Qed.

Lemma to_string_plain n c : 0 <= n -> is_ascii_digit c = false -> c ∉ to_string n.
Proof.
  intros Hn Hc Hin. destruct (to_string_digits n Hn) as [Hd _]. rewrite forallb_forall in Hd.
  apply list_elem_of_In, Hd in Hin. congruence.
Qed.

Lemma forward_slashes_line path : 10 ∉ path -> 10 ∉ forward_slashes path.
Proof.
  unfold forward_slashes, to_string_lossy. intros Hp (c & Hc & (d & -> & Hd)%list_elem_of_fmap)%list_elem_of_fmap.
  destruct (is_surrogate d); [done|]. destruct (d =? backslash); [done|]. by subst.
Qed.

Section version.
Context (major minor patch : Z).
Context (Hmajor : 0 <= major <= 65535) (Hminor : 0 <= minor <= 65535) (Hpatch : 0 <= patch <= 65535).

Definition version_numbers : rstr := to_string major ++ 44 :: to_string minor ++ 44 :: to_string patch ++ 44 :: [48].

Lemma version_line : mapM parse_u64 (str_split 44 version_numbers) = Some [major; minor; patch; 0].
Proof.
  unfold version_numbers.
  rewrite !str_split_line by (apply to_string_plain; [lia|done]). cbn [str_split]. cbn [mapM].
  rewrite !parse_to_string by (unfold u64_max; lia). done.
Qed.

Lemma version_info_read description original_filename version :
  exists rest, version_info description original_filename version major minor patch
    = lit "1 VERSIONINFO" ++ 10 :: (lit "FILEVERSION " ++ version_numbers) ++ 10 :: rest.
Proof.
  unfold version_info.
  assert (text "1 VERSIONINFO
FILEVERSION " = lit "1 VERSIONINFO" ++ 10 :: lit "FILEVERSION ") as -> by reflexivity.
  assert (text ",0
PRODUCTVERSION " = 44 :: 48 :: 10 :: lit "PRODUCTVERSION ") as -> by reflexivity.
  change (text ",") with [44]. eexists. unfold version_numbers.
  repeat (rewrite <- app_assoc || rewrite <- app_comm_cons). cbn [app]. reflexivity.
Qed.

Lemma version_numbers_line : 10 ∉ version_numbers.
Proof.
  unfold version_numbers. rewrite !elem_of_app, !elem_of_cons, !elem_of_app, !elem_of_cons, !elem_of_app, !elem_of_cons, elem_of_nil.
  assert (forall n, 0 <= n -> 10 ∉ to_string n) as Hn by (intros n ?; by apply to_string_plain).
  pose proof (Hn major). pose proof (Hn minor). pose proof (Hn patch). intuition lia.
Qed.

Lemma file_version_info before description original_filename version :
  Forall (fun line => 10 ∉ line /\ starts_with (lit "FILEVERSION ") line = false) before ->
  file_version (foldr (fun line rest => line ++ 10 :: rest)
                  (version_info description original_filename version major minor patch) before)
  = Some [major; minor; patch; 0].
Proof.
  intros Hb. destruct (version_info_read description original_filename version) as [rest ->]. unfold file_version.
  induction Hb as [|line before [Hn Hs] _ IH]; cbn [foldr].
  - rewrite str_split_line by (vm_compute; intros Hin; set_unfold in Hin; lia). cbn [find].
    change (starts_with (lit "FILEVERSION ") (lit "1 VERSIONINFO")) with false. cbv iota.
    rewrite str_split_line.
    2: { rewrite not_elem_of_app. split; [vm_compute; intros Hin; set_unfold in Hin; lia|apply version_numbers_line]. }
    cbn [find]. rewrite starts_with_app. cbn [mbind option_bind].
    change 12%nat with (length (lit "FILEVERSION ")). rewrite drop_app_length. apply version_line.
  - rewrite str_split_line by done. cbn [find]. rewrite Hs. exact IH.
Qed.
End version.

(** ** The versions the programs compare *)
Lemma parse_u16_bounds s n : parse_u16 s = Some n -> 0 <= n <= 65535.
Proof.
  unfold parse_u16. intros (m & Hm & Hn)%bind_Some. destruct (Z.leb_spec m 65535); [|done]. injection Hn as <-. split; [|done].
  unfold parse_u64, parse_u64_digits in Hm. destruct (_ && _) eqn:E; [|done]. apply andb_true_iff in E as [_ E].
  eapply parse_digits_nonneg in Hm; [done|done|]. by intros k [= <-].
Qed.

(** A component of the updater's versions is one of the build's, when it fits. *)
Lemma parse_component_u16 s n : parse_component s = Some n -> n <= 65535 -> parse_u16 s = Some n.
Proof.
  intros Hc Hn. pose proof (parse_component_digits _ _ Hc) as [Hd Hne]. unfold parse_u16, parse_u64.
  assert (match s with 43 :: rest => rest | _ => s end = s) as ->.
  { destruct s as [|c s]; [done|]. cbn in Hd. apply andb_true_iff in Hd as [Hc' _]. unfold is_ascii_digit in Hc'.
    apply in_range_true in Hc'. destruct c as [|c|c]; try done. do 6 (destruct c as [c|c|]; try done). }
  unfold parse_component in Hc. destruct (_ && _); [|done]. rewrite Hc. cbn. by rewrite (proj2 (Z.leb_le n 65535)).
Qed.

Lemma version_components_bounds v a b c :
  version_components v = Some (a, b, c) -> 0 <= a <= 65535 /\ 0 <= b <= 65535 /\ 0 <= c <= 65535.
Proof.
  unfold version_components. destruct (str_split 46 v) as [|x [|y [|z []]]]; try done.
  intros (a' & Ha & Hr)%bind_Some. apply bind_Some in Hr as (b' & Hb & Hr). apply bind_Some in Hr as (c' & Hc & [= <- <- <-]).
  apply parse_u16_bounds in Ha, Hb, Hc. done.
Qed.

Lemma parse_version_components v a b c :
  parse_version v = Some (a, b, c) -> a <= 65535 -> b <= 65535 -> c <= 65535 -> version_components v = Some (a, b, c).
Proof.
  unfold parse_version, version_components. destruct (str_split 46 v) as [|x [|y [|z more]]]; cbn; try done.
  - by destruct (parse_component x).
  - destruct (parse_component x); cbn; [|done]. by destruct (parse_component y).
  - destruct (parse_component x) as [x'|] eqn:Ex; cbn; [|done]. destruct (parse_component y) as [y'|] eqn:Ey; cbn; [|done].
    destruct (parse_component z) as [z'|] eqn:Ez; cbn; [|done]. case_bool_decide; [subst more|done].
    intros [= -> -> ->] Ha Hb Hc.
    rewrite (parse_component_u16 _ _ Ex), (parse_component_u16 _ _ Ey), (parse_component_u16 _ _ Ez) by done. done.
Qed.

Lemma path_line prefix path :
  10 ∉ text prefix -> 10 ∉ path -> starts_with (lit "FILEVERSION ") (text prefix ++ forward_slashes path ++ [34]) = false ->
  10 ∉ (text prefix ++ forward_slashes path ++ [34])
  /\ starts_with (lit "FILEVERSION ") (text prefix ++ forward_slashes path ++ [34]) = false.
Proof.
  intros Ht Hp Hs. split; [|done]. rewrite !elem_of_app, list_elem_of_singleton. pose proof (forward_slashes_line path Hp). intuition lia.
Qed.

Lemma service_resource_lines icon description original_filename version major minor patch :
  service_resource icon description original_filename version major minor patch
  = foldr (fun line rest => line ++ 10 :: rest) (version_info description original_filename version major minor patch)
      [text "1 ICON '" ++ forward_slashes icon ++ [34]].
Proof.
  unfold service_resource. cbn [foldr]. assert (text "'
" = [34; 10]) as -> by reflexivity. by rewrite <- !app_assoc.
Qed.
Lemma tray_resource_lines icon manifest description original_filename version major minor patch :
  tray_resource icon manifest description original_filename version major minor patch
  = foldr (fun line rest => line ++ 10 :: rest) (version_info description original_filename version major minor patch)
      [text "1 24 '" ++ forward_slashes manifest ++ [34]; text "1 ICON '" ++ forward_slashes icon ++ [34]].
Proof.
  unfold tray_resource. cbn [foldr]. assert (text "'
" = [34; 10]) as -> by reflexivity. assert (text "'
1 ICON '" = 34 :: 10 :: text "1 ICON '") as -> by reflexivity. repeat (rewrite <- app_assoc || rewrite <- app_comm_cons). done.
Qed.

(** *** What a build accepts, without the script's own parser *)

(** A decimal number that Windows can hold in a version: digits, after an
    optional plus sign, of a value of at most 65535. *)
Definition decimal_value (digits : rstr) : Z := foldl (fun n c => n * 10 + (c - 48)) 0 digits.
Definition version_number (s : rstr) (n : Z) : Prop :=
  exists digits, (s = digits \/ s = 43 :: digits) /\ digits <> [] /\ Forall (fun c => 48 <= c <= 57) digits
    /\ n = decimal_value digits /\ n <= 65535.
(** Three of them between two dots. *)
Definition release_version (version : rstr) (a b c : Z) : Prop :=
  exists x y z, version = x ++ 46 :: y ++ 46 :: z /\ version_number x a /\ version_number y b /\ version_number z c.

Lemma decimal_value_grows digits n :
  Forall (fun c => 48 <= c <= 57) digits -> 0 <= n -> n <= foldl (fun n c => n * 10 + (c - 48)) n digits.
Proof.
  intros Hd. revert n. induction Hd as [|c digits Hc _ IH]; cbn; intros n Hn; [lia|]. specialize (IH (n * 10 + (c - 48))). lia.
Qed.
Lemma decimal_value_fold digits n :
  Forall (fun c => 48 <= c <= 57) digits -> 0 <= n <= u64_max ->
  fold_left (fun acc c => n ← acc; let n := n * 10 + (c - 48) in if n <=? u64_max then Some n else None) digits (Some n)
  = let v := foldl (fun n c => n * 10 + (c - 48)) n digits in if v <=? u64_max then Some v else None.
Proof.
  intros Hd. revert n. induction Hd as [|c digits Hc Hd IH]; cbn; intros n Hn.
  - by rewrite (proj2 (Z.leb_le n u64_max)) by lia.
  - destruct (Z.leb_spec (n * 10 + (c - 48)) u64_max) as [Hl|Hl]; [apply IH; lia|].
    pose proof (decimal_value_grows digits (n * 10 + (c - 48)) Hd ltac:(lia)).
    rewrite (proj2 (Z.leb_gt _ u64_max)) by lia. clear. by induction digits.
Qed.
Lemma digits_spec digits : forallb is_ascii_digit digits = true <-> Forall (fun c => 48 <= c <= 57) digits.
Proof.
  rewrite forallb_forall, Forall_forall. unfold is_ascii_digit.
  split; intros H c Hc; [apply list_elem_of_In in Hc|apply list_elem_of_In in Hc]; specialize (H c Hc); by apply in_range_true.
Qed.

Lemma parse_u16_spec s n : parse_u16 s = Some n <-> version_number s n.
Proof.
  unfold parse_u16, parse_u64, version_number. split.
  - intros (m & Hm & Hn)%bind_Some. destruct (Z.leb_spec m 65535); [|done]. injection Hn as <-.
    exists (match s with 43 :: rest => rest | _ => s end).
    set (digits := match s with 43 :: rest => rest | _ => s end) in *.
    assert (s = digits \/ s = 43 :: digits) as Hs.
    { destruct s as [|c s]; [by left|]. destruct (Z.eq_dec c 43) as [->|Hc]; [by right|].
      left. unfold digits. destruct c as [|c|c]; try done. do 6 (destruct c as [c|c|]; try done). }
    destruct (_ && _) eqn:E; [|done]. apply andb_true_iff in E as [Ene Ed%digits_spec].
    unfold parse_u64_digits in Hm. rewrite decimal_value_fold in Hm by (done || unfold u64_max; lia).
    cbv zeta in Hm. destruct (_ <=? _) in Hm; [|done]. injection Hm as <-. split_and!; try done. by destruct digits.
  - intros (digits & Hs & Hne & Hd & -> & Hn).
    assert (match s with 43 :: rest => rest | _ => s end = digits) as ->.
    { destruct Hs as [->| ->]; [|done]. destruct Hd as [|c digits Hc _]; [done|].
      destruct c as [|c|c]; try lia. do 6 (destruct c as [c|c|]; try done). lia. }
    rewrite (proj2 (digits_spec digits) Hd). destruct digits as [|d digits]; [done|]. cbn [str_is_empty negb andb].
    unfold parse_u64_digits. rewrite decimal_value_fold by (done || unfold u64_max; lia).
    change (foldl _ 0 (d :: digits)) with (decimal_value (d :: digits)). cbv zeta.
    rewrite (proj2 (Z.leb_le _ u64_max)) by (unfold u64_max; lia). cbn [mbind option_bind]. by rewrite (proj2 (Z.leb_le _ 65535)).
Qed.
Lemma version_number_no_dot s n : version_number s n -> 46 ∉ s.
Proof.
  intros (digits & Hs & _ & Hd & _). rewrite Forall_forall in Hd.
  destruct Hs as [->| ->]; [intros Hin; specialize (Hd _ Hin); lia|].
  intros [?|Hin]%elem_of_cons; [lia|]. specialize (Hd _ Hin). lia.
Qed.

Lemma str_split_join c s : exists p ps, str_split c s = p :: ps /\ c ∉ p /\ s = p ++ concat (cons c <$> ps).
Proof.
  induction s as [|x s (p & ps & IH & Hp & Hs)]; cbn [str_split]; [by exists [], []; set_solver|].
  rewrite IH. destruct (Z.eqb_spec x c) as [->|Hx].
  - exists [], (p :: ps). cbn. split_and!; [done|set_solver|]. by rewrite Hs at 1.
  - exists (x :: p), ps. cbn. split_and!; [done|set_solver|]. by rewrite Hs at 1.
Qed.

Lemma version_components_spec version a b c :
  version_components version = Some (a, b, c) <-> release_version version a b c.
Proof.
  unfold version_components, release_version. split.
  - destruct (str_split_join 46 version) as (p & ps & Hp & _ & Hv). rewrite Hp, Hv.
    destruct ps as [|q [|r []]]; try done. intros (a' & Ha & Hr)%bind_Some.
    apply bind_Some in Hr as (b' & Hb & Hr). apply bind_Some in Hr as (c' & Hc & [= <- <- <-]).
    exists p, q, r. cbn. rewrite app_nil_r. by rewrite <- !parse_u16_spec.
  - intros (x & y & z & -> & Hx & Hy & Hz).
    rewrite !str_split_line by (by eapply version_number_no_dot). rewrite str_split_end by (by eapply version_number_no_dot).
    apply parse_u16_spec in Hx, Hy, Hz. rewrite Hx, Hy, Hz. done.
Qed.

Lemma service_resources_spec version icon resource :
  service_resources version (Some icon) = Some resource ->
  10 ∉ icon -> exists a b c, version_components version = Some (a, b, c) /\ file_version resource = Some [a; b; c; 0].
Proof.
  unfold service_resources. intros ([[a b] c] & Hv & [= <-])%bind_Some Hicon. exists a, b, c. split; [done|].
  destruct (version_components_bounds _ _ _ _ Hv) as (Ha & Hb & Hc). rewrite service_resource_lines.
  apply file_version_info; try done. repeat constructor; by apply path_line; try done; vm_compute; set_solver.
Qed.
Lemma tray_resources_spec version target out_dir icon manifest resource :
  tray_resources version target out_dir (Some icon) = Some (manifest, resource) ->
  10 ∉ icon -> 10 ∉ path_push out_dir (lit "resticpal-tray.manifest") ->
  exists a b c architecture, version_components version = Some (a, b, c) /\ file_version resource = Some [a; b; c; 0]
    /\ processor_architecture target = Some architecture /\ manifest = application_manifest version architecture a b c.
Proof.
  unfold tray_resources. intros ([[a b] c] & Hv & Hr)%bind_Some Hicon Hout.
  apply bind_Some in Hr as (architecture & Har & [= <- <-]). exists a, b, c, architecture. split; [done|].
  destruct (version_components_bounds _ _ _ _ Hv) as (Ha & Hb & Hc). rewrite tray_resource_lines. split; [|done].
  apply file_version_info; try done. repeat constructor; by apply path_line; try done; vm_compute; set_solver.
Qed.
Lemma processor_architecture_spec target architecture :
  processor_architecture target = Some architecture <->
  (target, architecture) ∈ [(lit "x86_64", lit "amd64"); (lit "x86", lit "x86"); (lit "aarch64", lit "arm64")].
Proof.
  unfold processor_architecture. rewrite !elem_of_cons, elem_of_nil. unfold str_eqb.
  repeat case_bool_decide; subst; split; intros H'; try (injection H' as <-); try discriminate H'; try done; intuition (simplify_eq; done).
Qed.
Lemma frame_app {A} (l1 l2 l3 l4 l5 l6 h p x q t rest : list A) :
  exists before after,
    l1 ++ l2 ++ l3 ++ l4 ++ l5 ++ l6 ++ (h ++ p) ++ x ++ (q ++ t) ++ rest = before ++ p ++ x ++ q ++ after.
Proof. exists (l1 ++ l2 ++ l3 ++ l4 ++ l5 ++ l6 ++ h), (t ++ rest). by rewrite <- !app_assoc. Qed.
(** The manifest names the processor it was built for. *)
Lemma application_manifest_architecture version architecture a b c :
  exists before after,
    application_manifest version architecture a b c
    = before ++ text "processorArchitecture='" ++ architecture ++ text "'" ++ after.
Proof.
  unfold application_manifest.
  set (tail := text "' />
    <description>resticpal tray application ").
  set (head := text ".0'
        processorArchitecture='").
  assert (exists h, head = h ++ text "processorArchitecture='") as [h ->].
  { exists (text ".0'
        "). reflexivity. }
  assert (exists t, tail = text "'" ++ t) as [t ->].
  { exists (text " />
    <description>resticpal tray application "). reflexivity. }
  apply frame_app.
Qed.

(** C35: the version Windows reads from both executables is the release
    version the updater compares.  The service's build writes its
    resources exactly when the package version is three decimal numbers
    of at most 65535 between two dots, the tray's exactly when moreover
    the target is x86_64, x86 or aarch64; otherwise the script panics.
    The file version is those three numbers and a zero, and the tray's
    manifest names the processor (amd64, x86, arm64).  Every version that
    the updater accepts, with components of at most 65535, can be built
    and gets exactly its numbers. *)
Theorem file_version_is_release_version (version target out_dir icon : rstr) (Hicon : 10 ∉ icon)
    (Hout : 10 ∉ path_push out_dir (lit "resticpal-tray.manifest")) :
  (is_some (service_resources version (Some icon)) = true <-> exists a b c, release_version version a b c)
  /\ (forall resource a b c, service_resources version (Some icon) = Some resource -> release_version version a b c ->
     file_version resource = Some [a; b; c; 0])
  /\ (is_some (tray_resources version target out_dir (Some icon)) = true
      <-> (exists a b c, release_version version a b c) /\ target ∈ [lit "x86_64"; lit "x86"; lit "aarch64"])
  /\ (forall manifest resource a b c,
     tray_resources version target out_dir (Some icon) = Some (manifest, resource) -> release_version version a b c ->
     file_version resource = Some [a; b; c; 0]
     /\ exists architecture before after,
          (target, architecture) ∈ [(lit "x86_64", lit "amd64"); (lit "x86", lit "x86"); (lit "aarch64", lit "arm64")]
          /\ manifest = before ++ text "processorArchitecture='" ++ architecture ++ text "'" ++ after)
  /\ (forall a b c, parse_version version = Some (a, b, c) -> a <= 65535 -> b <= 65535 -> c <= 65535 ->
     release_version version a b c).
Proof.
  split_and!.
  - split.
    + destruct (service_resources _ _) as [resource|] eqn:E; [|done]. intros _.
      destruct (service_resources_spec _ _ _ E Hicon) as (a & b & c & Hv & _). exists a, b, c. by apply version_components_spec.
    + intros (a & b & c & Hv%version_components_spec). unfold service_resources. by rewrite Hv.
  - intros resource a b c E Hv%version_components_spec.
    destruct (service_resources_spec _ _ _ E Hicon) as (a' & b' & c' & Hv' & Hf). congruence.
  - split.
    + destruct (tray_resources _ _ _ _) as [[manifest resource]|] eqn:E; [|done]. intros _.
      destruct (tray_resources_spec _ _ _ _ _ _ E Hicon Hout) as (a & b & c & architecture & Hv & _ & Har & _).
      split; [exists a, b, c; by apply version_components_spec|]. apply processor_architecture_spec in Har. set_solver.
    + intros [(a & b & c & Hv%version_components_spec) Ht]. unfold tray_resources. rewrite Hv. cbn [mbind option_bind].
      assert (exists architecture, processor_architecture target = Some architecture) as [architecture ->]; [|done].
      rewrite !elem_of_cons, elem_of_nil in Ht. destruct Ht as [->|[->|[->|[]]]]; by eexists.
  - intros manifest resource a b c E Hv%version_components_spec.
    destruct (tray_resources_spec _ _ _ _ _ _ E Hicon Hout) as (a' & b' & c' & architecture & Hv' & Hf & Har & ->).
    assert (Some (a, b, c) = Some (a', b', c')) as [= -> -> ->] by congruence. split; [done|].
    destruct (application_manifest_architecture version architecture a' b' c') as (before & after & Heq).
    exists architecture, before, after. split; [by apply processor_architecture_spec|exact Heq].
  - intros a b c Hv Ha Hb Hc. apply version_components_spec. by apply parse_version_components.
Qed.

Module BuildWitness.
Definition icon : rstr := lit "C:\src\assets\resticpal.ico".
Lemma build_witness :
  parse_version CARGO_PKG_VERSION = Some (1, 0, 8)
  /\ exists resource, service_resources CARGO_PKG_VERSION (Some icon) = Some resource /\ file_version resource = Some [1; 0; 8; 0].
Proof.
  destruct (file_version_is_release_version CARGO_PKG_VERSION (lit "x86_64") (lit "C:\out") icon) as ([_ Hs] & Hf & _ & _ & Hv);
    [vm_compute; set_solver|vm_compute; set_solver|].
  assert (parse_version CARGO_PKG_VERSION = Some (1, 0, 8)) as Hp by (vm_compute; reflexivity). split; [exact Hp|].
  pose proof (Hv 1 0 8 Hp ltac:(lia) ltac:(lia) ltac:(lia)) as Hr. specialize (Hs ltac:(by exists 1, 0, 8)).
  destruct (service_resources CARGO_PKG_VERSION (Some icon)) as [resource|]; [|discriminate Hs].
  exists resource. split; [reflexivity|]. exact (Hf resource 1 0 8 eq_refl Hr).
Defined.
(** The tray never asks for elevation. *)
Example tray_runs_as_invoker :
  str_contains (lit "asInvoker") (application_manifest (lit "1.0.8") (lit "amd64") 1 0 8) = true.
Proof. vm_compute. reflexivity. Qed.
End BuildWitness.
