(* ===== verification/NamedPipe.v ===== *)
(** * The named pipe ([crates/resticpal-windows/src/named_pipe.rs])

    The transport between the service and its clients: a pipe in non-blocking
    mode that both ends poll until a deadline, one request and one response
    per connection, and the identity Windows gives the connected client.

    Each end sees its own sequence of attempts ([Attempts]): what had arrived,
    how much could be written, which error came back and how long it took.
    The clock is part of the connection: an attempt adds what it took, a wait
    adds the retry delay. *)
From stdpp Require Import base option list gmap strings.
From S2P Require Import Prelude RustStd Chrono Crates Config Status Schedule Policy Restic Protocol Management Outcome.
From S2P Require Import ServiceState Diagnostics History Credentials Updater Sources PolicyCache.
From S2P Require Import Runtime Scheduler Lifecycle Enrollment Ipc Service Authority.

(** Milliseconds *)
Definition DEFAULT_CONNECT_TIMEOUT : Z := 2000.
Definition CONNECT_RETRY_DELAY : Z := 20.
Definition SERVER_IO_TIMEOUT : Z := 5000.
Definition IO_RETRY_DELAY : Z := 10.

Definition ERROR_BROKEN_PIPE : Z := 109.
Definition ERROR_PIPE_BUSY : Z := 231.
Definition ERROR_NO_DATA : Z := 232.
Definition ERROR_PIPE_NOT_CONNECTED : Z := 233.
Definition ERROR_PIPE_CONNECTED : Z := 535.
Definition ERROR_PIPE_LISTENING : Z := 536.

(** ** One end of a connection *)
Record Attempts : Type := {
  at_arrived : nat -> list Z;        (* bytes that arrived just before the attempt *)
  at_room : nat -> nat;              (* how many bytes a write takes at most *)
  at_error : nat -> option Z;        (* the Win32 error of the call *)
  at_elapsed : nat -> nat            (* milliseconds *)
}.

Record Connection : Type := {
  cn_attempts : Attempts;
  cn_step : nat;                     (* attempts made *)
  cn_buffer : list Z;                (* arrived and not yet read *)
  cn_sent : list Z;
  cn_clock : Z;
  cn_deadline : Z
}.

Inductive IoError : Type := TimedOut | Os (code : Z).

(** The call itself: one attempt further, the clock moved on. *)
Definition attempt (buffer sent : list Z) (c : Connection) : Connection :=
  {| cn_attempts := cn_attempts c; cn_step := S (cn_step c); cn_buffer := buffer; cn_sent := sent;
     cn_clock := cn_clock c + Z.of_nat (at_elapsed (cn_attempts c) (cn_step c)); cn_deadline := cn_deadline c |}.

(** [thread::sleep(IO_RETRY_DELAY)] *)
Definition sleep (c : Connection) : Connection :=
  {| cn_attempts := cn_attempts c; cn_step := cn_step c; cn_buffer := cn_buffer c; cn_sent := cn_sent c;
     cn_clock := cn_clock c + IO_RETRY_DELAY; cn_deadline := cn_deadline c |}.

Definition reset_deadline (c : Connection) : Connection :=
  {| cn_attempts := cn_attempts c; cn_step := cn_step c; cn_buffer := cn_buffer c; cn_sent := cn_sent c;
     cn_clock := cn_clock c; cn_deadline := cn_clock c + SERVER_IO_TIMEOUT |}.

(** [ReadFile] or [File::read], and [WriteFile] or [File::write] *)
Definition read_file (n : nat) (c : Connection) : result Z (list Z) * Connection :=
  let buffer := cn_buffer c ++ at_arrived (cn_attempts c) (cn_step c) in
  match at_error (cn_attempts c) (cn_step c) with
  | Some code => (Err code, attempt buffer (cn_sent c) c)
  | None => (Ok (take n buffer), attempt (drop n buffer) (cn_sent c) c)
  end.
Definition write_file (b : list Z) (c : Connection) : result Z nat * Connection :=
  let buffer := cn_buffer c ++ at_arrived (cn_attempts c) (cn_step c) in
  match at_error (cn_attempts c) (cn_step c) with
  | Some code => (Err code, attempt buffer (cn_sent c) c)
  | None =>
      let count := Nat.min (length b) (at_room (cn_attempts c) (cn_step c)) in
      (Ok count, attempt buffer (cn_sent c ++ take count b) c)
  end.

Definition wait_until_deadline (c : Connection) : result IoError Connection :=
  if cn_deadline c <=? cn_clock c then Err TimedOut else Ok (sleep c).

Definition wait_for_io (code : Z) (c : Connection) : result IoError Connection :=
  if negb (code =? ERROR_NO_DATA) && negb (code =? ERROR_PIPE_LISTENING) then Err (Os code)
  else wait_until_deadline c.

(** A poll loop waits at most once per retry delay before the deadline, and
    once more to find it passed. *)
Definition waits_left (c : Connection) : nat := S (Z.to_nat ((cn_deadline c - cn_clock c) / IO_RETRY_DELAY + 1)).

Fixpoint read_loop (fuel n : nat) (c : Connection) : option (result IoError (list Z * Connection)) :=
  match fuel with
  | O => None
  | S fuel =>
      match read_file n c with
      | (Ok [], c) => match wait_until_deadline c with Err e => Some (Err e) | Ok c => read_loop fuel n c end
      | (Ok b, c) => Some (Ok (b, c))
      | (Err code, c) => match wait_for_io code c with Err e => Some (Err e) | Ok c => read_loop fuel n c end
      end
  end.

Fixpoint write_loop (fuel : nat) (b : list Z) (c : Connection) : option (result IoError (nat * Connection)) :=
  match fuel with
  | O => None
  | S fuel =>
      match write_file b c with
      | (Ok O, c) => match wait_until_deadline c with Err e => Some (Err e) | Ok c => write_loop fuel b c end
      | (Ok count, c) => Some (Ok (count, c))
      | (Err code, c) => match wait_for_io code c with Err e => Some (Err e) | Ok c => write_loop fuel b c end
      end
  end.

(** [Read::read] and [Write::write] of both connection types; [pipe_polls_end]
    shows that the fuel is enough. *)
Definition pipe_read (n : nat) (c : Connection) : result IoError (list Z * Connection) :=
  default (Err TimedOut) (read_loop (waits_left c) n c).
Definition pipe_write (b : list Z) (c : Connection) : result IoError (nat * Connection) :=
  default (Err TimedOut) (write_loop (waits_left c) b c).

(** [Write::write_all] *)
Fixpoint write_all_loop (fuel : nat) (b : list Z) (c : Connection) : option Connection :=
  match b, fuel with
  | [], _ => Some c
  | _, O => None
  | _, S fuel =>
      match pipe_write b c with
      | Ok (S n, c) => write_all_loop fuel (drop (S n) b) c
      | _ => None
      end
  end.

#[global] Instance pipe_source : Source Connection :=
  {| read := fun n c => match pipe_read n c with Ok (b, c) => Some (b, c) | Err _ => None end |}.
#[global] Instance pipe_writer : Writer Connection :=
  {| write_all := fun c b => write_all_loop (length b) b c; flush := fun c => Some c; written := cn_sent |}.

(** [wait_for_response_consumption] *)
Fixpoint consumption_loop (fuel : nat) (c : Connection) : option (result IoError Connection) :=
  match fuel with
  | O => None
  | S fuel =>
      match read_file 1 c with
      | (Ok [], c) => match wait_until_deadline c with Err e => Some (Err e) | Ok c => consumption_loop fuel c end
      | (Ok _, c) => Some (Ok c)
      | (Err code, c) =>
          if (code =? ERROR_BROKEN_PIPE) || (code =? ERROR_PIPE_NOT_CONNECTED) then Some (Ok c)
          else match wait_for_io code c with Err e => Some (Err e) | Ok c => consumption_loop fuel c end
      end
  end.
Definition wait_for_response_consumption (c : Connection) : result IoError Connection :=
  default (Err TimedOut) (consumption_loop (waits_left c) c).

(** ** Errors *)
Inductive NamedPipeError : Type :=
| InvalidPipeName
| NP_Windows
| NP_Io (e : IoError)
| NP_Frame (e : FrameError)
| IncompatibleResponseProtocol (expected actual : Z)
| MismatchedResponse (expected actual : Z).

(** ** The server *)
Record NamedPipeServer : Type := { ns_name : list Z; ns_first_instance : bool }.

(** [NamedPipeServer::new] on the UTF-16 units of the name; the security
    descriptor may fail to convert. *)
Definition NamedPipeServer_new (descriptor : bool) (name : list Z) : result NamedPipeError NamedPipeServer :=
  reject_if (match name with [] => true | _ => existsb (Z.eqb 0) name end) InvalidPipeName ;;
  reject_if (negb descriptor) NP_Windows ;;
  Ok {| ns_name := name ++ [0]; ns_first_instance := true |}.

(** What Windows answers to [accept]. *)
Record AcceptEnv : Type := {
  ac_create : bool -> bool;          (* with [FILE_FLAG_FIRST_PIPE_INSTANCE] or without *)
  ac_connect : option Z;             (* the error of [ConnectNamedPipe] *)
  ac_mode : bool;
  ac_attempts : Attempts;
  ac_now : Z
}.

Definition accept (env : AcceptEnv) (server : NamedPipeServer) : result NamedPipeError Connection * NamedPipeServer :=
  let first := ns_first_instance server in
  let server := {| ns_name := ns_name server; ns_first_instance := false |} in
  (reject_if (negb (ac_create env first)) NP_Windows ;;
   reject_if (match ac_connect env with Some code => negb (code =? ERROR_PIPE_CONNECTED) | None => false end) NP_Windows ;;
   reject_if (negb (ac_mode env)) NP_Windows ;;
   Ok {| cn_attempts := ac_attempts env; cn_step := 0; cn_buffer := []; cn_sent := []; cn_clock := ac_now env;
         cn_deadline := ac_now env + SERVER_IO_TIMEOUT |}, server).

(** Whose token the thread carries. *)
Record TokenEnv : Type := {
  tk_impersonate : bool;             (* [ImpersonateNamedPipeClient] *)
  tk_sid : bool;                     (* [CreateWellKnownSid] *)
  tk_member : option bool;           (* [CheckTokenMembership] on the client's token *)
  tk_revert : bool;                  (* [RevertToSelf] in [revert] *)
  tk_revert_drop : bool              (* [RevertToSelf] when the guard is dropped *)
}.

(** [client_identity], and whether the thread still impersonates after it. *)
Definition client_identity (env : TokenEnv) : result NamedPipeError ClientIdentity * bool :=
  if negb (tk_impersonate env) then (Err NP_Windows, false)
  else
    let identity :=
      reject_if (negb (tk_sid env)) NP_Windows ;;
      member ← ok_or (tk_member env) NP_Windows;
      Ok {| is_elevated_administrator := member |} in
    if tk_revert env then (identity, false)
    else (Err NP_Windows, negb (tk_revert_drop env)).

Section serve.
Context `{Serde Request} `{Serde Response} {St : Type}.
(** The handler may panic ([None]). *)
Context (handler : Request -> ClientIdentity -> St -> option (Response * St)).

Record ServeEnv : Type := { sv_accept : AcceptEnv; sv_token : TokenEnv }.

(** What one turn of the server did: its result, the server afterwards, the
    state behind the handler, the calls of the handler, the bytes of a
    response that was written in full, and whose token the thread carries. *)
Record Served : Type := {
  sd_result : result NamedPipeError unit; sd_server : NamedPipeServer; sd_state : St;
  sd_calls : list (Request * ClientIdentity); sd_sent : list Z; sd_impersonating : bool
}.

(** The end of [serve_one]: the response and its acknowledgement. *)
Definition respond (response : Response) (c : Connection) : result NamedPipeError Connection * list Z :=
  match write_frame (reset_deadline c) response with
  | Err e => (Err (NP_Frame e), [])
  | Ok c => (map_err NP_Io (wait_for_response_consumption c), cn_sent c)
  end.

Definition serve_one (env : ServeEnv) (server : NamedPipeServer) (s : St) : option Served :=
  let '(connection, server) := accept (sv_accept env) server in
  let stop e impersonating :=
    Some {| sd_result := Err e; sd_server := server; sd_state := s; sd_calls := []; sd_sent := [];
            sd_impersonating := impersonating |} in
  match connection with
  | Err e => stop e false
  | Ok connection =>
      match read_frame (T:=Request) connection with
      | Err e => stop (NP_Frame e) false
      | Ok (request, connection) =>
          let connection := reset_deadline connection in
          match client_identity (sv_token env) with
          | (Err e, impersonating) => stop e impersonating
          | (Ok identity, impersonating) =>
              '(response, s, calls) ←
                (if rq_protocol_version request =? PROTOCOL_VERSION then
                   '(response, s) ← handler request identity s; Some (response, s, [(request, identity)])
                 else Some (Response_incompatible (rq_request_id request) (rq_protocol_version request), s, []));
              let '(r, sent) := respond response connection in
              Some {| sd_result := (_ ← r; Ok tt); sd_server := server; sd_state := s; sd_calls := calls;
                      sd_sent := sent; sd_impersonating := impersonating |}
          end
      end
  end.

(** ** The client *)
Inductive ErrorKind : Type := EK_NotFound | EK_PermissionDenied | EK_WouldBlock | EK_Other.
Record OpenError : Type := { oe_kind : ErrorKind; oe_raw : option Z }.

Definition pipe_connect_error_is_retryable (error : OpenError) : bool :=
  match oe_kind error with EK_NotFound | EK_PermissionDenied | EK_WouldBlock => true | EK_Other => false end
  || bool_decide (oe_raw error = Some ERROR_PIPE_BUSY).

Record ConnectEnv : Type := {
  ce_open : nat -> option OpenError;      (* [None]: the pipe is open *)
  ce_elapsed : nat -> nat;
  ce_mode : bool;
  ce_now : Z;
  ce_attempts : Attempts
}.

(** The loop around [OpenOptions::open]; at the end, the clock. *)
Fixpoint connect_loop (fuel : nat) (env : ConnectEnv) (k : nat) (clock deadline : Z) : option (result OpenError Z) :=
  match fuel with
  | O => None
  | S fuel =>
      let clock := clock + Z.of_nat (ce_elapsed env k) in
      match ce_open env k with
      | None => Some (Ok clock)
      | Some error =>
          if clock <? deadline then
            if negb (pipe_connect_error_is_retryable error) then Some (Err error)
            else connect_loop fuel env (S k) (clock + CONNECT_RETRY_DELAY) deadline
          else Some (Err error)
      end
  end.
Definition connect (env : ConnectEnv) (timeout : Z) : result OpenError Z :=
  default (Err {| oe_kind := EK_Other; oe_raw := None |})
    (connect_loop (S (S (Z.to_nat (timeout / CONNECT_RETRY_DELAY)))) env 0 (ce_now env) (ce_now env + timeout)).

(** After the response: the checks, then the acknowledgement, whose failure
    is ignored. *)
Definition accept_response (request : Request) (response : Response) (c : Connection)
    : result NamedPipeError (Response * Connection) :=
  reject_if (negb (rs_protocol_version response =? PROTOCOL_VERSION))
    (IncompatibleResponseProtocol PROTOCOL_VERSION (rs_protocol_version response)) ;;
  reject_if (negb (rs_request_id response =? rq_request_id request))
    (MismatchedResponse (rq_request_id request) (rs_request_id response)) ;;
  Ok (response, default c (write_all c [0])).

Definition exchange (request : Request) (c : Connection) : result NamedPipeError (Response * Connection) :=
  c ← map_err NP_Frame (write_frame c request);
  '(response, c) ← map_err NP_Frame (read_frame (T:=Response) c);
  accept_response request response c.

Definition request_at (env : ConnectEnv) (request : Request) (timeout : Z) : result NamedPipeError Response :=
  match connect env timeout with
  | Err error => Err (NP_Io (Os (default 0 (oe_raw error))))
  | Ok clock =>
      reject_if (negb (ce_mode env)) NP_Windows ;;
      '(response, _) ←
        exchange request
          {| cn_attempts := ce_attempts env; cn_step := 0; cn_buffer := []; cn_sent := []; cn_clock := clock;
             cn_deadline := ce_now env + timeout |};
      Ok response
  end.
End serve.

(** ** The poll loops end *)
Lemma wait_progress buffer sent c c' :
  wait_until_deadline (attempt buffer sent c) = Ok c' -> (waits_left c' < waits_left c)%nat.
Proof.
  unfold wait_until_deadline. case_match eqn:E; [done|]. apply Z.leb_gt in E. intros [= <-].
  unfold waits_left, IO_RETRY_DELAY in *. cbn [sleep attempt cn_deadline cn_clock] in *. unfold IO_RETRY_DELAY in *.
  set (e := Z.of_nat (at_elapsed _ _)) in *. assert (0 <= e) by lia.
  assert ((cn_deadline c - (cn_clock c + e + 10)) / 10 + 1 <= (cn_deadline c - cn_clock c) / 10).
  { replace (cn_deadline c - (cn_clock c + e + 10)) with (cn_deadline c - cn_clock c - e + -1 * 10) by lia.
    rewrite Z.div_add by lia. pose proof (Z.div_le_mono (cn_deadline c - cn_clock c - e) (cn_deadline c - cn_clock c) 10). lia. }
  assert (0 <= (cn_deadline c - cn_clock c) / 10) by (apply Z.div_pos; lia). lia.
Qed.

Lemma wait_io_progress code buffer sent c c' :
  wait_for_io code (attempt buffer sent c) = Ok c' -> (waits_left c' < waits_left c)%nat.
Proof. unfold wait_for_io. destruct (_ && _); [done|]. apply wait_progress. Qed.

(** [poll_cases] looks at the attempt a loop makes and goes past its wait. *)
Ltac poll_cases IH :=
  match goal with
  | |- context [match wait_until_deadline ?c with Err _ => _ | Ok _ => _ end] =>
      destruct (wait_until_deadline c) eqn:?; [apply IH|by eexists]
  | |- context [match wait_for_io ?code ?c with Err _ => _ | Ok _ => _ end] =>
      destruct (wait_for_io code c) eqn:?; [apply IH|by eexists]
  end;
  match goal with
  | Hw : wait_until_deadline _ = Ok _ |- _ => apply wait_progress in Hw; lia
  | Hw : wait_for_io _ _ = Ok _ |- _ => apply wait_io_progress in Hw; lia
  end.

Lemma read_loop_ends fuel n c : (waits_left c <= fuel)%nat -> is_Some (read_loop fuel n c).
Proof.
  revert c. induction fuel as [|fuel IH]; intros c Hf; [unfold waits_left in Hf; lia|]. cbn [read_loop]. unfold read_file.
  destruct (at_error _ _); [poll_cases IH|]. destruct (take n _); [poll_cases IH|by eexists].
Qed.
Lemma write_loop_ends fuel b c : (waits_left c <= fuel)%nat -> is_Some (write_loop fuel b c).
Proof.
  revert c. induction fuel as [|fuel IH]; intros c Hf; [unfold waits_left in Hf; lia|]. cbn [write_loop]. unfold write_file.
  destruct (at_error _ _); [poll_cases IH|]. destruct (Nat.min _ _); [poll_cases IH|by eexists].
Qed.
Lemma consumption_loop_ends fuel c : (waits_left c <= fuel)%nat -> is_Some (consumption_loop fuel c).
Proof.
  revert c. induction fuel as [|fuel IH]; intros c Hf; [unfold waits_left in Hf; lia|]. cbn [consumption_loop].
  unfold read_file. destruct (at_error _ _); [destruct (_ || _); [by eexists|poll_cases IH]|].
  destruct (take 1 _); [poll_cases IH|by eexists].
Qed.

Lemma connect_loop_ends fuel env k clock deadline :
  deadline - clock < CONNECT_RETRY_DELAY * (Z.of_nat fuel - 1) -> (0 < fuel)%nat ->
  is_Some (connect_loop fuel env k clock deadline).
Proof.
  unfold CONNECT_RETRY_DELAY. revert k clock. induction fuel as [|fuel IH]; intros k clock Hd Hf; [lia|]. cbn [connect_loop].
  destruct (ce_open env k); [|by eexists]. destruct (Z.ltb_spec (clock + Z.of_nat (ce_elapsed env k)) deadline); [|by eexists].
  destruct (negb _); [by eexists|]. apply IH; unfold CONNECT_RETRY_DELAY; lia.
Qed.

(** No peer can hold either end of the pipe in a poll loop: whatever
    arrives, whenever and with whatever errors, a read, a write, the wait for
    the acknowledgement and the client's connect loop come to a result after
    at most one attempt per retry delay that is left before the deadline, and
    two more. *)
Theorem pipe_polls_end (n : nat) (b : list Z) (c : Connection) (env : ConnectEnv) (timeout : Z) :
  is_Some (read_loop (waits_left c) n c)
  /\ is_Some (write_loop (waits_left c) b c)
  /\ is_Some (consumption_loop (waits_left c) c)
  /\ is_Some (connect_loop (S (S (Z.to_nat (timeout / CONNECT_RETRY_DELAY)))) env 0 (ce_now env) (ce_now env + timeout)).
Proof.
  split_and!; [by apply read_loop_ends|by apply write_loop_ends|by apply consumption_loop_ends|].
  apply connect_loop_ends; [|lia]. unfold CONNECT_RETRY_DELAY.
  destruct (Z.le_gt_cases 0 timeout) as [Hp|Hn]; [|lia].
  pose proof (Z.div_mod timeout 20). pose proof (Z.mod_pos_bound timeout 20).
  assert (0 <= timeout / 20) by (apply Z.div_pos; lia). lia.
Qed.

(** ** What arrives in time is read *)

(** What the next [m] attempts find, and the time at the [i]-th of them when
    every one before had to wait. *)
Definition arrivals (c : Connection) (m : nat) : list Z := concat (map (at_arrived (cn_attempts c)) (seq (cn_step c) m)).
Definition spent (c : Connection) (i : nat) : Z :=
  cn_clock c + Z.of_nat (sum_list (map (at_elapsed (cn_attempts c)) (seq (cn_step c) (S i)))) + IO_RETRY_DELAY * Z.of_nat i.

(** What a non-blocking pipe answers while it is empty. *)
Definition pipe_is_empty (code : Z) : Prop := code = ERROR_NO_DATA \/ code = ERROR_PIPE_LISTENING.

(** [s] is there or arrives within [m] attempts, all of them before the
    deadline even if each has to wait; any of them may find the pipe empty.
    The attempts that take the rest, at most one per byte, meet no error. *)
Definition on_time (c : Connection) (s : list Z) (m : nat) : Prop :=
  (exists tail, cn_buffer c ++ arrivals c m = s ++ tail)
  /\ (forall i, (i < m)%nat -> spent c i < cn_deadline c)
  /\ forall i code, (i < m + length s)%nat -> at_error (cn_attempts c) (cn_step c + i) = Some code ->
       pipe_is_empty code /\ (i < m)%nat.
Definition in_time (c : Connection) (s : list Z) : Prop := exists m, on_time c s m.

Lemma arrivals_step c m buffer sent : arrivals c (S m) = at_arrived (cn_attempts c) (cn_step c) ++ arrivals (attempt buffer sent c) m.
Proof. done. Qed.

Lemma spent_step c i buffer sent :
  spent (attempt buffer sent c) i + IO_RETRY_DELAY = spent c (S i).
Proof. unfold spent. cbn -[Z.of_nat Z.mul]. cbn [sum_list map seq]. unfold IO_RETRY_DELAY. lia. Qed.

Lemma spent_first c : spent c 0 = cn_clock c + Z.of_nat (at_elapsed (cn_attempts c) (cn_step c)).
Proof. unfold spent. cbn. lia. Qed.

(** Taking from a buffer that starts a text takes from the text. *)
Lemma take_from_buffer (n : nat) (buffer more s tail : list Z) :
  buffer ++ more = s ++ tail -> (n <= length s)%nat ->
  s = take n buffer ++ drop (length (take n buffer)) s
  /\ drop n buffer ++ more = drop (length (take n buffer)) s ++ tail.
Proof.
  intros E Hn. set (b := take n buffer). assert (length b <= length s)%nat as Hl by (unfold b; rewrite length_take; lia).
  assert (b ++ drop n buffer ++ more = s ++ tail) as E' by (unfold b; by rewrite app_assoc, take_drop).
  assert (take (length b) s = b) as Hpre.
  { apply (f_equal (take (length b))) in E'. by rewrite take_app_length, take_app_le in E' by done. }
  split; [rewrite <- Hpre at 1; symmetry; apply take_drop|].
  apply (f_equal (drop (length b))) in E'. by rewrite drop_app_length, drop_app_le in E' by done.
Qed.

(** The account of the attempts that follow one, with a wait or without. *)
Lemma on_time_next c s m s' tail buffer sent :
  on_time c s m -> (pred m + length s' < m + length s)%nat ->
  buffer ++ arrivals (attempt buffer sent c) (pred m) = s' ++ tail ->
  in_time (attempt buffer sent c) s' /\ in_time (sleep (attempt buffer sent c)) s'.
Proof.
  intros (_ & Ht & He) Hl Hs.
  assert (forall i, (i < pred m)%nat -> spent (attempt buffer sent c) i + IO_RETRY_DELAY < cn_deadline c) as Ht'.
  { intros i Hi. rewrite spent_step. apply Ht. lia. }
  assert (forall i code, (i < pred m + length s')%nat -> at_error (cn_attempts c) (S (cn_step c) + i) = Some code ->
            pipe_is_empty code /\ (i < pred m)%nat) as He'.
  { intros i code Hi Hc. destruct (He (S i) code) as [Hp Hm]; [lia|by rewrite <- Hc; f_equal; lia|]. split; [done|lia]. }
  split; exists (pred m); (split; [by exists tail|split; [|exact He']]); intros i Hi; specialize (Ht' i Hi);
    unfold spent in *; cbn -[Z.of_nat Z.mul sum_list] in *; unfold IO_RETRY_DELAY in *; lia.
Qed.

(** What an attempt finds starts the text; when it has to wait, the deadline
    leaves time for it. *)
Lemma on_time_now c s m :
  on_time c s m -> s <> [] ->
  let buffer := cn_buffer c ++ at_arrived (cn_attempts c) (cn_step c) in
  (exists tail, buffer ++ arrivals (attempt [] [] c) (pred m) = s ++ tail)
  /\ forall buffer' sent, buffer = [] \/ is_Some (at_error (cn_attempts c) (cn_step c)) ->
       (0 < m)%nat /\ wait_until_deadline (attempt buffer' sent c) = Ok (sleep (attempt buffer' sent c)).
Proof.
  intros ([tail Hs] & Ht & He) Hne buffer. split.
  - destruct m as [|m]; cbn [pred].
    + exists (tail ++ at_arrived (cn_attempts c) (cn_step c)). unfold arrivals in *. cbn in *. rewrite app_nil_r in Hs |- *.
      unfold buffer. by rewrite Hs, app_assoc.
    + exists tail. rewrite (arrivals_step c m [] []) in Hs. unfold buffer. by rewrite <- app_assoc.
  - intros buffer' sent Hwait. assert (0 < m)%nat as Hm.
    { destruct m as [|m]; [|lia]. destruct Hwait as [[Hb _]%app_eq_nil|[code Hc]].
      - rewrite Hb in Hs. by destruct s.
      - apply (He 0%nat code); [destruct s; cbn; [done|lia]|by rewrite Nat.add_0_r]. }
    split; [done|]. specialize (Ht 0%nat Hm). rewrite spent_first in Ht. unfold wait_until_deadline.
    cbn [attempt cn_deadline cn_clock]. apply Z.leb_gt in Ht. by rewrite Ht.
Qed.

(** One attempt: some of it, or a wait that the deadline leaves time for. *)
Lemma read_file_in_time n c s :
  in_time c s -> (0 < n <= length s)%nat ->
  match read_file n c with
  | (Ok [], c1) => exists c2, wait_until_deadline c1 = Ok c2 /\ in_time c2 s
  | (Ok b, c1) => (length b <= n)%nat /\ exists s', s = b ++ s' /\ in_time c1 s'
  | (Err code, c1) => exists c2, wait_for_io code c1 = Ok c2 /\ in_time c2 s
  end.
Proof.
  intros [m Hin] [Hn Hle]. assert (s <> []) as Hne by (intros ->; cbn in Hle; lia).
  destruct (on_time_now c s m Hin Hne) as [[tail Hs] Hw]. unfold read_file.
  set (buffer := cn_buffer c ++ at_arrived (cn_attempts c) (cn_step c)) in *.
  destruct (at_error _ _) as [code|] eqn:Ee.
  { destruct (Hw buffer (cn_sent c)) as [Hm E]; [by right|]. exists (sleep (attempt buffer (cn_sent c) c)). split.
    - destruct Hin as (_ & _ & He). destruct (He 0%nat code) as [[->| ->] _]; [lia|by rewrite Nat.add_0_r|exact E|exact E].
    - eapply on_time_next; [done|lia|exact Hs]. }
  destruct (take_from_buffer n _ _ _ _ Hs Hle) as [Hb Hd]. destruct (take n buffer) as [|x b] eqn:Eb.
  - assert (buffer = []) as Hnil by (destruct buffer; [done|destruct n; [lia|discriminate Eb]]).
    destruct (Hw (drop n buffer) (cn_sent c)) as [Hm E]; [by left|]. eexists. split; [exact E|].
    eapply on_time_next; [done|lia|exact Hd].
  - split; [rewrite <- Eb, length_take; lia|]. eexists. split; [exact Hb|].
    eapply on_time_next; [done| |exact Hd]. rewrite length_drop. cbn [length] in *.
    assert (length (x :: b) <= length s)%nat by (rewrite <- Eb, length_take; lia). cbn [length] in *. lia.
Qed.

Lemma read_loop_in_time fuel n c s r :
  in_time c s -> (0 < n <= length s)%nat -> read_loop fuel n c = Some r ->
  exists b c' s', r = Ok (b, c') /\ b <> [] /\ (length b <= n)%nat /\ s = b ++ s' /\ in_time c' s'.
Proof.
  revert c. induction fuel as [|fuel IH]; intros c Hin Hn; [done|]. cbn [read_loop].
  pose proof (read_file_in_time n c s Hin Hn) as Hf. destruct (read_file n c) as [[[|x b]|code] c1].
  - destruct Hf as (c2 & -> & Hin2). by apply IH.
  - destruct Hf as (Hl & s' & -> & Hin1). intros [= <-]. by exists (x :: b), c1, s'.
  - destruct Hf as (c2 & -> & Hin2). by apply IH.
Qed.

#[global] Program Instance pipe_delivery : Delivery Connection := {| delivers := in_time |}.
Next Obligation.
  intros n c s Hin Hn. destruct (read_loop_ends (waits_left c) n c) as [r Hr]; [done|].
  assert (pipe_read n c = r) as Hp by (unfold pipe_read; by rewrite Hr). cbn [read pipe_source]. rewrite Hp.
  destruct (read_loop_in_time _ _ _ _ _ Hin Hn Hr) as (b & c' & s' & -> & Hb & Hl & -> & Hin').
  exists b, c'. split_and!; [done..|]. by exists s'.
Qed.

(** ** What is written is sent *)
Lemma write_loop_sent fuel b c n c' :
  write_loop fuel b c = Some (Ok (n, c')) -> (n <= length b)%nat /\ cn_sent c' = cn_sent c ++ take n b.
Proof.
  revert c. induction fuel as [|fuel IH]; intros c; [done|]. cbn [write_loop]. unfold write_file.
  destruct (at_error _ _) as [code|].
  - unfold wait_for_io. destruct (_ && _); [done|]. unfold wait_until_deadline. destruct (_ <=? _); [done|].
    intros E. by apply IH in E.
  - destruct (Nat.min _ _) as [|k] eqn:Ek.
    + unfold wait_until_deadline. destruct (_ <=? _); [done|]. intros E. apply IH in E. cbn in E.
      by rewrite app_nil_r in E.
    + intros [= <- <-]. split; [lia|done].
Qed.

Lemma write_all_loop_sent fuel b c c' : write_all_loop fuel b c = Some c' -> cn_sent c' = cn_sent c ++ b.
Proof.
  revert b c. induction fuel as [|fuel IH]; intros [|x b] c; cbn [write_all_loop]; try done;
    try (intros [= <-]; by rewrite app_nil_r).
  unfold pipe_write. destruct (write_loop _ _ _) as [[[[|n] c1]|e]|] eqn:E; cbn [default]; try done.
  apply write_loop_sent in E as [_ Es]. intros E1%IH. rewrite E1, Es, <- app_assoc. f_equal. apply take_drop.
Qed.

#[global] Instance pipe_writer_laws : WriterLaws Connection.
Proof. split; [intros w b w'; apply write_all_loop_sent|by intros w w' [= <-]]. Qed.

(** ** One turn of the server *)

(** Reading sends nothing. *)
Lemma read_loop_sent fuel n c b c' : read_loop fuel n c = Some (Ok (b, c')) -> cn_sent c' = cn_sent c.
Proof.
  revert c. induction fuel as [|fuel IH]; intros c; [done|]. cbn [read_loop]. unfold read_file.
  destruct (at_error _ _) as [code|].
  - unfold wait_for_io. destruct (_ && _); [done|]. unfold wait_until_deadline. destruct (_ <=? _); [done|].
    intros E. by apply IH in E.
  - destruct (take n _) as [|x l].
    + unfold wait_until_deadline. destruct (_ <=? _); [done|]. intros E. by apply IH in E.
    + by intros [= <- <-].
Qed.

Lemma read_exact_sent fuel n (c c' : Connection) b : read_exact_loop fuel n c = Some (b, c') -> cn_sent c' = cn_sent c.
Proof.
  revert n c c' b. induction fuel as [|fuel IH]; intros [|n] c c' b; cbn [read_exact_loop]; try done; try (by intros [= <- <-]).
  intros Hb. apply bind_Some in Hb as ([b1 c1] & E1 & Hb). destruct b1 as [|x b1]; [done|].
  apply bind_Some in Hb as ([b2 c2] & E2%IH & [= _ <-]). rewrite E2. cbn [read pipe_source] in E1. unfold pipe_read in E1.
  destruct (read_loop _ _ _) as [[[b3 c3]|e]|] eqn:E; try discriminate E1. injection E1 as _ <-. by apply read_loop_sent in E.
Qed.

Section turns.
Context `{Serde Request} `{Serde Response} {St : Type}.
Context (handler : Request -> ClientIdentity -> St -> option (Response * St)).

Lemma read_frame_sent {T} `{Serde T} (c c' : Connection) (value : T) : read_frame c = Ok (value, c') -> cn_sent c' = cn_sent c.
Proof.
  unfold read_frame. intros E. apply bind_Ok in E as ([l c1] & E1%ok_or_Ok & E). apply seq_Ok in E as [_ E].
  apply bind_Ok in E as ([b c2] & E2%ok_or_Ok & E). apply bind_Ok in E as (v & _ & [= _ <-]).
  apply read_exact_sent in E1, E2. congruence.
Qed.

(** The handler was called with this request, for this identity, on [s]. *)
Record authorized_call (env : ServeEnv) (s : St) (r : Served) (request : Request) (identity : ClientIdentity) : Prop := {
  au_read : exists c0 c1 server, (accept (sv_accept env) server).1 = Ok c0 /\ read_frame c0 = Ok (request, c1);
  au_version : rq_protocol_version request = PROTOCOL_VERSION;
  au_token : tk_impersonate (sv_token env) = true /\ tk_member (sv_token env) = Some (is_elevated_administrator identity);
  au_reverted : sd_impersonating r = false;
  au_answer : exists response, handler request identity s = Some (response, sd_state r)
}.

Lemma client_identity_spec env identity impersonating :
  client_identity env = (Ok identity, impersonating) ->
  tk_impersonate env = true /\ tk_member env = Some (is_elevated_administrator identity) /\ impersonating = false.
Proof.
  unfold client_identity. destruct (tk_impersonate env); cbn; [|done]. destruct (tk_revert env); [|done].
  intros [= E <-]. apply seq_Ok in E as [_ E]. apply bind_Ok in E as (m & Hm%ok_or_Ok & [= <-]). done.
Qed.

Lemma serve_one_cases env server s r :
  serve_one handler env server s = Some r ->
  (sd_calls r = [] /\ sd_state r = s)
  \/ exists request identity, sd_calls r = [(request, identity)] /\ authorized_call env s r request identity.
Proof.
  unfold serve_one. destruct (accept _ _) as [[c0|e] server'] eqn:Ea; [|by intros [= <-]; left].
  destruct (read_frame c0) as [[request c1]|e] eqn:Er; [|by intros [= <-]; left].
  destruct (client_identity _) as [[identity|e] impersonating] eqn:Ei; [|by intros [= <-]; left].
  apply client_identity_spec in Ei as (Hi & Hm & ->).
  destruct (Z.eqb_spec (rq_protocol_version request) PROTOCOL_VERSION) as [Hv|_].
  - destruct (handler request identity s) as [[response s']|] eqn:Eh; cbn [mbind option_bind]; [|done].
    destruct (respond _ _) as [res sent]. intros [= <-]. right. exists request, identity. split; [done|].
    split; try done; [|by exists response]. exists c0, c1, server. by rewrite Ea.
  - cbn [mbind option_bind]. destruct (respond _ _) as [res sent]. intros [= <-]. by left.
Qed.

Lemma serve_one_token env server s r :
  serve_one handler env server s = Some r -> sd_impersonating r = true ->
  tk_revert (sv_token env) = false /\ tk_revert_drop (sv_token env) = false.
Proof.
  assert (forall identity, client_identity (sv_token env) = (identity, true) ->
            tk_revert (sv_token env) = false /\ tk_revert_drop (sv_token env) = false) as Ht.
  { unfold client_identity. intros identity. destruct (negb _); [done|]. destruct (tk_revert _); [done|].
    by destruct (tk_revert_drop _). }
  unfold serve_one. destruct (accept _ _) as [[c0|e] server']; [|by intros [= <-]].
  destruct (read_frame c0) as [[request c1]|e]; [|by intros [= <-]].
  destruct (client_identity _) as [[identity|e] impersonating].
  - destruct (if _ =? _ then _ else _) as [[[response s'] calls]|]; cbn [mbind option_bind]; [|done].
    destruct (respond _ _) as [res sent]. intros [= <-]. cbn. intros ->. by eapply Ht.
  - intros [= <-]. cbn. intros ->. by eapply Ht.
Qed.

(** C26: whatever the client sends and Windows answers, one turn of the pipe
    server calls the handler at most once, and only with a request of this
    protocol version that came from the pipe, with the membership Windows
    reported for the client's own token, after the thread went back to its
    own token; every other turn leaves the state alone, and the thread keeps
    the client's token only when Windows refused twice to revert it. *)
Theorem pipe_calls_are_authorized (env : ServeEnv) (server : NamedPipeServer) (s : St) (r : Served)
    (Hserve : serve_one handler env server s = Some r) :
  ((sd_calls r = [] /\ sd_state r = s)
   \/ exists request identity, sd_calls r = [(request, identity)] /\ authorized_call env s r request identity)
  /\ (sd_impersonating r = true -> tk_revert (sv_token env) = false /\ tk_revert_drop (sv_token env) = false).
Proof. split; [by eapply serve_one_cases|by eapply serve_one_token]. Qed.
End turns.

(** ** A call through the pipe *)
Section calls.
Context `{Chrono} `{UrlCrate} `{CryptoCrates} `{Dpapi} `{UnicodeData} `{Filesystem} `{Messages} `{Base64Standard}.
Context `{Serde LocalConfig} `{Serde PersistedScheduleState} `{Serde DiagnosticEntry} `{Serde CachedManifest}.
Context `{Serde Request} `{Serde Response} `{!SerdeLaws Request} `{!SerdeLaws Response}.
Context (discover : option (list DiscoveredBackupSource)) (client : rstr -> option PendingEnrollment) (env env' : Env).

Definition runtime_handler (request : Request) (identity : ClientIdentity) (w : ServiceRuntime)
    : option (Response * ServiceRuntime) := handle_request discover client env env' request identity w.

(** C27: the pipe is transparent.  When a client's request was written and
    arrives at the server before the deadline, in any pieces and after any
    number of attempts that find the pipe empty (ERROR_NO_DATA or
    ERROR_PIPE_LISTENING) or read nothing, the runtime sees exactly that
    request once, with the identity of the client; and when the response was
    written and arrives at the client in time in the same way, the client's
    call returns exactly the answer of the runtime. *)
Theorem pipe_call_is_transparent (sv : ServeEnv) (server server' : NamedPipeServer) (w w' : ServiceRuntime)
    (request : Request) (response : Response) (identity : ClientIdentity) (c0 c1 s0 : Connection)
    (Hfresh : cn_sent c0 = []) (Hversion : rq_protocol_version request = PROTOCOL_VERSION)
    (Hwrite : write_frame c0 request = Ok c1)
    (Haccept : accept (sv_accept sv) server = (Ok s0, server')) (Harrives : delivers s0 (cn_sent c1))
    (Htoken : client_identity (sv_token sv) = (Ok identity, false))
    (Hanswer : handle_request discover client env env' request identity w = Some (response, w')) :
  exists r, serve_one runtime_handler sv server w = Some r
    /\ sd_state r = w' /\ sd_calls r = [(request, identity)]
    /\ (sd_sent r <> [] -> delivers c1 (sd_sent r) -> exists c2, exchange request c0 = Ok (response, c2)).
Proof.
  rewrite <- (app_nil_r (cn_sent c1)) in Harrives.
  destruct (read_written_frame _ _ _ _ [] Hwrite Hfresh Harrives) as (s1 & Hread & _).
  unfold serve_one. rewrite Haccept, Hread, Htoken, Hversion. unfold runtime_handler. rewrite Hanswer. cbn [mbind option_bind].
  replace (PROTOCOL_VERSION =? PROTOCOL_VERSION) with true by reflexivity. cbn [mbind option_bind].
  destruct (respond response (reset_deadline s1)) as [res sent] eqn:Eres. eexists. split; [done|]. cbn. split; [done|].
  split; [done|]. intros Hsent Hback. unfold respond in Eres.
  destruct (write_frame _ response) as [s2|] eqn:Ew; injection Eres as _ Es; [|congruence].
  assert (cn_sent s0 = []) as Hs0.
  { unfold accept in Haccept. injection Haccept as Ha _. apply seq_Ok in Ha as [_ Ha]. apply seq_Ok in Ha as [_ Ha].
    apply seq_Ok in Ha as [_ Ha]. by injection Ha as <-. }
  apply read_frame_sent in Hread as Hk. rewrite <- Es, <- (app_nil_r (cn_sent s2)) in Hback.
  destruct (read_written_frame (reset_deadline (reset_deadline s1)) s2 response c1 [] Ew) as (c2 & Hc2 & _); [cbn; congruence|done|].
  exists (default c2 (write_all c2 [0])). unfold exchange. rewrite Hwrite. cbn [map_err mbind result_bind]. rewrite Hc2.
  cbn [map_err mbind result_bind]. unfold accept_response.
  unfold handle_request in Hanswer. destruct (handle_command _ _ _ _ _ _ _) as [[p w1]|]; [|done]. injection Hanswer as <- <-.
  cbn. by rewrite Z.eqb_refl.
Qed.

(** C10: end to end, a client that is not an administrator changes no setting
    over the pipe: whatever bytes it sends, if Windows reports that its token
    is not an elevated administrator's, the configuration, the credentials,
    the stores and the verification of the repository stay as they are. *)
Theorem pipe_users_change_no_settings (sv : ServeEnv) (server : NamedPipeServer) (w : ServiceRuntime) (r : Served)
    (Hserve : serve_one runtime_handler sv server w = Some r) (Hmember : tk_member (sv_token sv) <> Some true) :
  same_settings w (sd_state r).
Proof.
  apply serve_one_cases in Hserve as [[_ ->]|(request & [admin] & _ & [_ _ [_ Hm] _ (response & Ha)])]; [done|].
  cbn in Hm. destruct admin; [congruence|]. unfold runtime_handler, handle_request in Ha.
  destruct (handle_command _ _ _ _ _ _ _) as [[p w1]|] eqn:E; [|done]. injection Ha as _ <-.
  exact (proj2 (user_settings discover client env env' _ w _ p E)).
Qed.
End calls.

(** ** Evaluated examples *)
Module NamedPipeWitness.
Import ChronoExample UrlExample ServiceWitness.
#[local] Existing Instances ManagementWitness.toy_crypto ResticWitness.ascii_unicode UpdaterWitness.toy_base64
  SourcesWitness.plain_files PolicyCacheWitness.no_dpapi PolicyCacheWitness.entry_serde
  ServiceWitness.no_messages ServiceWitness.local_serde ServiceWitness.persisted_serde ServiceWitness.entries_serde.

(** A codec for one question and its answer. *)
Definition question : Request := Request_new 7 GetStatus.
Definition answer_of (identity : ClientIdentity) : option (Response * ServiceRuntime) :=
  handle_request None (fun _ => None) env env question identity managed.
Definition the_answer : Response := Response_new 7 (Resp_Status (rt_status (sr_state managed))).
#[local] Instance request_serde : Serde Request :=
  {| serialize := fun r =>
       if (rq_protocol_version r =? 4) && (rq_request_id r =? 7) && match rq_command r with GetStatus => true | _ => false end
       then Some [7; 7] else None;
     deserialize := fun b => match b with [7; 7] => Some question | _ => None end |}.
#[local] Instance request_laws : SerdeLaws Request.
Proof.
  split; intros [v i c] b; cbn; destruct (Z.eqb_spec v 4) as [->|]; cbn; try discriminate;
    destruct (Z.eqb_spec i 7) as [->|]; cbn; try discriminate; destruct c; try discriminate; by intros [= <-].
Qed.
#[local] Instance response_serde : Serde Response :=
  {| serialize := fun r => if bool_decide (r = the_answer) then Some [9] else None;
     deserialize := fun b => match b with [9] => Some the_answer | _ => None end |}.
#[local] Instance response_laws : SerdeLaws Response.
Proof. split; intros r b; cbn; case_bool_decide as Hr; try discriminate; intros [= <-]; [by rewrite Hr|discriminate]. Qed.

(** An end to which [bytes] come one per attempt, after a first look that
    finds the pipe empty. *)
Definition dripping (bytes : list Z) : Attempts :=
  {| at_arrived := fun k => match k with O => [] | S k => match bytes !! k with Some b => [b] | None => [] end end;
     at_room := fun _ => 3%nat; at_error := fun k => match k with O => Some ERROR_NO_DATA | _ => None end;
     at_elapsed := fun _ => 1%nat |}.
Definition admin_token : TokenEnv :=
  {| tk_impersonate := true; tk_sid := true; tk_member := Some true; tk_revert := true; tk_revert_drop := true |}.
Definition user_token : TokenEnv :=
  {| tk_impersonate := true; tk_sid := true; tk_member := Some false; tk_revert := true; tk_revert_drop := true |}.
Definition serving (token : TokenEnv) : ServeEnv :=
  {| sv_accept :=
       {| ac_create := fun _ => true; ac_connect := Some ERROR_PIPE_CONNECTED; ac_mode := true;
          ac_attempts := dripping [2; 0; 0; 0; 7; 7; 0]; ac_now := 0 |};
     sv_token := token |}.
Definition server : NamedPipeServer := {| ns_name := [82; 0]; ns_first_instance := true |}.
Definition calling : Connection :=
  {| cn_attempts := dripping [1; 0; 0; 0; 9]; cn_step := 0; cn_buffer := []; cn_sent := []; cn_clock := 0;
     cn_deadline := DEFAULT_CONNECT_TIMEOUT |}.
Definition called : Connection := match write_frame calling question with Ok c => c | Err _ => calling end.
Definition accepted_connection : Connection :=
  match (accept (sv_accept (serving admin_token)) server).1 with Ok c => c | Err _ => calling end.
Definition handler := runtime_handler None (fun _ => None) env env.

Lemma dripping_in_time m bytes c s tail :
  cn_attempts c = dripping bytes -> (0 < m)%nat -> cn_buffer c ++ arrivals c m = s ++ tail ->
  forallb (fun i => spent c i <? cn_deadline c) (seq 0 m) = true -> in_time c s.
Proof.
  intros Ha Hm Hs Ht. exists m. split; [by exists tail|]. split.
  - intros i Hi. rewrite forallb_forall in Ht. apply Z.ltb_lt, Ht, in_seq. lia.
  - intros i code _. rewrite Ha. cbn. destruct (cn_step c + i)%nat eqn:E; [|done]. intros [= <-]. split; [by left|lia].
Qed.

Lemma pipe_call_witness :
  exists r, serve_one handler (serving admin_token) server managed = Some r
    /\ sd_calls r = [(question, {| is_elevated_administrator := true |})]
    /\ exists c, exchange question calling = Ok (the_answer, c).
Proof.
  destruct (pipe_call_is_transparent None (fun _ => None) env env (serving admin_token) server
              {| ns_name := [82; 0]; ns_first_instance := false |} managed managed question the_answer
              {| is_elevated_administrator := true |} calling called accepted_connection) as (r & Hr & _ & Hc & Hback).
  - reflexivity.
  - reflexivity.
  - reflexivity.
  - reflexivity.
  - eapply (dripping_in_time 7 [2; 0; 0; 0; 7; 7; 0] _ _ []); [reflexivity|lia|reflexivity..].
  - reflexivity.
  - reflexivity.
  - exists r. split; [exact Hr|]. split; [exact Hc|].
    assert (sd_sent r = [1; 0; 0; 0; 9]) as Hsent.
    { assert (match serve_one handler (serving admin_token) server managed with Some r => sd_sent r | None => [] end
              = [1; 0; 0; 0; 9]) as Hs by (vm_compute; reflexivity). unfold handler in Hs. by rewrite Hr in Hs. }
    apply Hback; rewrite Hsent; [discriminate|].
    eapply (dripping_in_time 6 [1; 0; 0; 0; 9] _ _ []); [reflexivity|lia|reflexivity..].
Defined.
Definition served (token : TokenEnv) : Served :=
  match serve_one handler (serving token) server managed with
  | Some r => r
  | None => {| sd_result := Ok tt; sd_server := server; sd_state := managed; sd_calls := []; sd_sent := [];
               sd_impersonating := false |}
  end.
Lemma served_eq token :
  is_some (serve_one handler (serving token) server managed) = true ->
  serve_one handler (serving token) server managed = Some (served token).
Proof. unfold served. destruct (serve_one handler (serving token) server managed); [reflexivity|discriminate]. Qed.

Lemma authorized_witness :
  sd_calls (served user_token) = [(question, {| is_elevated_administrator := false |})]
  /\ exists request identity, authorized_call handler (serving user_token) managed (served user_token) request identity.
Proof.
  assert (sd_calls (served user_token) = [(question, {| is_elevated_administrator := false |})]) as Hc
    by (vm_compute; reflexivity).
  split; [exact Hc|].
  destruct (pipe_calls_are_authorized handler (serving user_token) server managed (served user_token)) as [[[Hn _]|H1] _].
  - apply served_eq. vm_compute. reflexivity.
  - rewrite Hc in Hn. discriminate Hn.
  - destruct H1 as (request & identity & _ & Ha). by exists request, identity.
Defined.

Lemma pipe_users_witness : same_settings managed (sd_state (served user_token)).
Proof.
  apply (pipe_users_change_no_settings None (fun _ => None) env env (serving user_token) server managed).
  - apply served_eq. vm_compute. reflexivity.
  - discriminate.
Defined.

(** A squatter owns the name before the service starts: only the first
    creation, with [FILE_FLAG_FIRST_PIPE_INSTANCE], is refused. *)
Definition squatted : ServeEnv :=
  {| sv_accept :=
       {| ac_create := fun first => negb first; ac_connect := None; ac_mode := true;
          ac_attempts := dripping [2; 0; 0; 0; 7; 7; 0]; ac_now := 0 |};
     sv_token := admin_token |}.
Lemma retry_joins_any_name :
  exists r1 r2, serve_one handler squatted server managed = Some r1 /\ sd_result r1 = Err NP_Windows
    /\ serve_one handler squatted (sd_server r1) managed = Some r2 /\ length (sd_calls r2) = 1%nat.
Proof. eexists _, _. split; [vm_compute; reflexivity|]. split; [reflexivity|]. split; [vm_compute; reflexivity|]. reflexivity. Qed.
End NamedPipeWitness.
