(* ===== verification/PipeName.v ===== *)
(** * The name of the pipe

    The service's pipe exists as long as one of its instances is open, and
    the server ([crates/resticpal-windows/src/named_pipe.rs], driven by
    [start_ipc_server] of [apps/resticpal-service/src/main.rs]) opens one
    instance per request.  Other processes may use the same name: whoever
    creates the first instance decides with its access control list who may
    add more, and clients reach any of them. *)
From stdpp Require Import base option list gmap strings.
From S2P Require Import Prelude RustStd Chrono Crates Config Status Schedule Policy Protocol Management Outcome Updater DataRoot.
From S2P Require Import Enrollment Access NamedPipe.

(** ** What Windows keeps behind the name

    An open pipe has a creator, the list of the descriptor it was created
    with, and open instances with their creators; tokens are lists of
    identities. *)
Class PipeNames := {
  PipeObject : Type;
  po_creator : PipeObject -> list rstr;
  po_aces : PipeObject -> list Ace;
  po_holders : PipeObject -> list (list rstr);
  (* [CreateNamedPipeW] with a token, a list and [FILE_FLAG_FIRST_PIPE_INSTANCE] or not *)
  create_instance : list rstr -> list Ace -> bool -> option PipeObject -> option PipeObject;
  (* [CloseHandle] on an instance of this token; [None]: it was the last one *)
  close_instance : list rstr -> PipeObject -> option PipeObject
}.

(** As documented: a new pipe gets the list that was asked for, a further
    instance is refused with the flag and needs the right to add one, and
    the list stays the one of the first. *)
Class PipeNameLaws `{PipeNames} : Prop := {
  create_first token aces first o :
    create_instance token aces first None = Some o ->
    po_creator o = token /\ po_aces o = aces /\ forall t, t ∈ po_holders o -> t = token;
  create_further token aces first o o' :
    create_instance token aces first (Some o) = Some o' ->
    first = false /\ Z.testbit (granted (po_aces o) token) CREATE_PIPE_INSTANCE = true
    /\ po_creator o' = po_creator o /\ po_aces o' = po_aces o
    /\ forall t, t ∈ po_holders o' -> t = token \/ t ∈ po_holders o;
  close_keeps token o o' :
    close_instance token o = Some o' ->
    po_creator o' = po_creator o /\ po_aces o' = po_aces o /\ forall t, t ∈ po_holders o' -> t ∈ po_holders o
}.

Definition service_token : list rstr := [LOCAL_SYSTEM].

Section system.
Context `{SddlMeaning} `{PipeNames}.

(** The list of the descriptor the server passes. *)
Definition service_aces : list Ace := from_option acl_entries [] (convert_sddl PIPE_SDDL ≫= sd_dacl).

(** The server, the name, and whether the server has an instance open. *)
Record PipeSystem : Type := { py_server : NamedPipeServer; py_name : option PipeObject; py_serving : bool }.

(** What Windows answers to the server. *)
Definition answers (name : option PipeObject) (env : AcceptEnv) : Prop :=
  forall first, ac_create env first = is_some (create_instance service_token service_aces first name).

Inductive pipe_step : PipeSystem -> PipeSystem -> Prop :=
| pn_accept env c server server' name o :
    answers name env -> accept env server = (Ok c, server') ->
    create_instance service_token service_aces (ns_first_instance server) name = Some o ->
    pipe_step {| py_server := server; py_name := name; py_serving := false |}
              {| py_server := server'; py_name := Some o; py_serving := true |}
(* an instance that was created all the same is closed at once *)
| pn_accept_failed env error server server' name :
    answers name env -> accept env server = (Err error, server') ->
    pipe_step {| py_server := server; py_name := name; py_serving := false |}
              {| py_server := server'; py_name := name; py_serving := false |}
| pn_served server o :
    pipe_step {| py_server := server; py_name := Some o; py_serving := true |}
              {| py_server := server; py_name := close_instance service_token o; py_serving := false |}
| pn_other_creates token aces first server name o serving :
    outsider token -> create_instance token aces first name = Some o ->
    pipe_step {| py_server := server; py_name := name; py_serving := serving |}
              {| py_server := server; py_name := Some o; py_serving := serving |}
| pn_other_closes token server o serving :
    outsider token -> token ∈ po_holders o ->
    pipe_step {| py_server := server; py_name := Some o; py_serving := serving |}
              {| py_server := server; py_name := close_instance token o; py_serving := serving |}.

(** The name may already be taken when the service starts, but not by it;
    without a descriptor there is no server. *)
Inductive pipe_reachable : PipeSystem -> Prop :=
| pnr_start units server name :
    NamedPipeServer_new (is_some (convert_sddl PIPE_SDDL)) units = Ok server ->
    (forall o, name = Some o -> outsider (po_creator o)) ->
    pipe_reachable {| py_server := server; py_name := name; py_serving := false |}
| pnr_step s s' : pipe_reachable s -> pipe_step s s' -> pipe_reachable s'.

(** The name belongs to the service, with its list and without strangers, or to somebody else. *)
Definition name_kept (name : option PipeObject) : Prop :=
  forall o, name = Some o -> ~ outsider (po_creator o) ->
  po_aces o = service_aces /\ forall token, token ∈ po_holders o -> ~ outsider token.
End system.
Arguments PipeSystem {_}.

(** ** While the service holds the name *)
Section kept.
Context `{SddlLaws} `{PipeNameLaws}.

Lemma service_trusted : ~ outsider service_token.
Proof. intros [Hs _]. apply Hs. unfold service_token. set_solver. Qed.

(** What Windows makes of the text of the sources. *)
Lemma service_aces_text d : convert_sddl PIPE_SDDL = Some d -> service_aces = pipe_aces.
Proof.
  intros Hd. destruct (convert_meaning _ _ _ pipe_text Hd) as (Ha & _). unfold service_aces. rewrite Hd.
  cbn [mbind option_bind]. destruct (sd_dacl d); [|done]. by injection Ha.
Qed.
Lemma reachable_text s : pipe_reachable s -> service_aces = pipe_aces.
Proof.
  induction 1 as [units server name Hn _|]; [|done]. unfold NamedPipeServer_new in Hn. apply seq_Ok in Hn as [_ Hn].
  apply seq_Ok in Hn as [Hn%reject_if_Ok%negb_false_iff _].
  destruct (convert_sddl PIPE_SDDL) as [d|] eqn:Hd; [|done]. by eapply service_aces_text.
Qed.

(** An outsider may at most read and write. *)
Lemma outsider_rights token b :
  outsider token -> b = 2 \/ b = 16 \/ b = 18 \/ b = 19 -> Z.testbit (granted pipe_aces token) b = false.
Proof.
  intros Ht Hb. pose proof (pipe_grants token) as (_ & Hnone & Hiu).
  destruct (decide (INTERACTIVE ∈ token)) as [Hi|Hi]; [rewrite Hiu by done|rewrite Hnone by done];
    destruct Hb as [->|[->|[->| ->]]]; reflexivity.
Qed.

(** Nobody outside may add an instance to the service's pipe. *)
Lemma outsider_refused token aces first o :
  outsider token -> po_aces o = pipe_aces -> create_instance token aces first (Some o) = None.
Proof.
  intros Ht Ha. destruct (create_instance _ _ _ _) as [o'|] eqn:E; [|done].
  apply create_further in E as (_ & E & _). rewrite Ha, outsider_rights in E by (unfold CREATE_PIPE_INSTANCE; auto). done.
Qed.

Lemma service_creates_kept first name o :
  name_kept name -> create_instance service_token service_aces first name = Some o -> name_kept (Some o).
Proof.
  intros Hk E o' [= <-] Hc. destruct name as [x|].
  - apply create_further in E as (_ & _ & Ec & Ea & Eh). rewrite Ec in Hc. destruct (Hk x eq_refl Hc) as [Ha Hh].
    split; [congruence|]. intros t [->|Hin]%Eh; [apply service_trusted|by apply Hh].
  - apply create_first in E as (_ & Ea & Eh). split; [done|]. intros t ->%Eh. apply service_trusted.
Qed.

Lemma other_creates_kept token aces first name o :
  service_aces = pipe_aces -> outsider token -> name_kept name -> create_instance token aces first name = Some o ->
  name_kept (Some o).
Proof.
  intros Hs Ht Hk E o' [= <-] Hc. exfalso. destruct name as [x|].
  - pose proof E as (_ & _ & Ec & _ & _)%create_further. rewrite Ec in Hc. destruct (Hk x eq_refl Hc) as [Ha _].
    rewrite (outsider_refused token aces first x Ht) in E by congruence. done.
  - apply create_first in E as (<- & _). done.
Qed.

Lemma close_kept token o : name_kept (Some o) -> name_kept (close_instance token o).
Proof.
  intros Hk o' (Ec & Ea & Eh)%close_keeps Hc. rewrite Ec in Hc. destruct (Hk o eq_refl Hc) as [Ha Hh].
  split; [congruence|]. intros t Ht%Eh. by apply Hh.
Qed.

Lemma reachable_kept s : pipe_reachable s -> name_kept (py_name s).
Proof.
  induction 1 as [units server name _ Hn|s s' Hr IH Hs].
  - intros o Ho Hc. by destruct (Hc (Hn o Ho)).
  - apply reachable_text in Hr.
    destruct Hs; cbn in *; [by eapply service_creates_kept|done|by apply close_kept|by eapply other_creates_kept|by apply close_kept].
Qed.

End kept.

(** ** Evaluated examples *)
Module PipeNameWitness.
Import AccessWitness.
#[local] Existing Instances text_sddl text_meaning text_laws.

(** Windows as documented, as a function. *)
Record Pipe : Type := { pp_creator : list rstr; pp_aces : list Ace; pp_holders : list (list rstr) }.
Definition create (token : list rstr) (aces : list Ace) (first : bool) (name : option Pipe) : option Pipe :=
  match name with
  | None => Some {| pp_creator := token; pp_aces := aces; pp_holders := [token] |}
  | Some o =>
      if first || negb (Z.testbit (granted (pp_aces o) token) CREATE_PIPE_INSTANCE) then None
      else Some {| pp_creator := pp_creator o; pp_aces := pp_aces o; pp_holders := token :: pp_holders o |}
  end.
Fixpoint remove_one (token : list rstr) (holders : list (list rstr)) : list (list rstr) :=
  match holders with
  | [] => []
  | t :: holders => if decide (t = token) then holders else t :: remove_one token holders
  end.
Definition close (token : list rstr) (o : Pipe) : option Pipe :=
  match remove_one token (pp_holders o) with
  | [] => None
  | holders => Some {| pp_creator := pp_creator o; pp_aces := pp_aces o; pp_holders := holders |}
  end.
#[local] Instance windows : PipeNames :=
  {| po_creator := pp_creator; po_aces := pp_aces; po_holders := pp_holders; create_instance := create; close_instance := close |}.

Lemma remove_one_sub token holders t : t ∈ remove_one token holders -> t ∈ holders.
Proof.
  induction holders as [|x holders IH]; cbn; [done|]. destruct (decide (x = token)); set_solver.
Qed.
#[local] Instance windows_laws : PipeNameLaws.
Proof.
  split.
  - intros token aces first o [= <-]. cbn. split_and!; [done..|]. by intros t ->%list_elem_of_singleton.
  - intros token aces first o o'. cbn. destruct (_ || _) eqn:E; [done|].
    apply orb_false_iff in E as [-> E%negb_false_iff]. intros [= <-]. cbn. split_and!; [done..|]. by intros t [->|?]%elem_of_cons; [left|right].
  - intros token o o'. cbn. unfold close. destruct (remove_one token (pp_holders o)) as [|h hs] eqn:E; [done|].
    intros [= <-]. cbn. split_and!; [done..|]. intros t Ht. apply (remove_one_sub token). by rewrite E.
Qed.

Definition environment (name : option PipeObject) : AcceptEnv :=
  {| ac_create := fun first => is_some (create_instance service_token service_aces first name); ac_connect := None; ac_mode := true;
     ac_attempts := {| at_error := fun _ => None; at_arrived := fun _ => []; at_room := fun _ => O; at_elapsed := fun _ => O |};
     ac_now := 0 |}.
Definition server (first : bool) : NamedPipeServer := {| ns_name := [114; 0]; ns_first_instance := first |}.
Definition start (name : option PipeObject) : PipeSystem := {| py_server := server true; py_name := name; py_serving := false |}.
Definition serving : PipeSystem :=
  {| py_server := server false;
     py_name := Some {| pp_creator := service_token; pp_aces := service_aces; pp_holders := [service_token] |} : option PipeObject;
     py_serving := true |}.

Lemma accepted name :
  is_ok (accept (environment name) (server (negb (is_some name)))).1 = true ->
  exists c, accept (environment name) (server (negb (is_some name))) = (Ok c, server false).
Proof.
  unfold accept. cbn [ns_first_instance server ns_name fst].
  destruct (reject_if _ _ ;; _) as [c|]; cbn; [|done]. intros _. by exists c.
Qed.

Lemma serving_reachable : pipe_reachable serving.
Proof.
  apply (pnr_step (start None)).
  - by apply (pnr_start [114]).
  - destruct (accepted None eq_refl) as [c Hc]. exact (pn_accept (environment None) c (server true) (server false) None
      {| pp_creator := service_token; pp_aces := service_aces; pp_holders := [service_token] |} (fun _ => eq_refl) Hc eq_refl).
Qed.


(** A process that took the name first, with a list that lets everybody in. *)
Definition user : list rstr := [INTERACTIVE].
Definition open_list : list Ace := [ {| ace_inherit := false; ace_mask := GENERIC_ALL; ace_sid := LOCAL_SYSTEM |} ].
Definition squatted : PipeObject := {| pp_creator := user; pp_aces := open_list; pp_holders := [user] |}.
Definition joined : PipeObject := {| pp_creator := user; pp_aces := open_list; pp_holders := [service_token; user] |}.

(** The first attempt notices the squatter, but it also uses up the flag:
    when the loop of the IPC thread tries again, the server adds its instance
    to the stranger's pipe, and clients may reach either. *)
Theorem squatted_name_is_joined :
  exists s1 s2, pipe_reachable (start (Some squatted)) /\ pipe_step (start (Some squatted)) s1 /\ py_serving s1 = false
    /\ pipe_step s1 s2 /\ py_serving s2 = true
    /\ exists o token, py_name s2 = Some o /\ outsider (po_creator o) /\ token ∈ po_holders o /\ outsider token.
Proof.
  assert (outsider user) as Hu by (split; apply (bool_decide_eq_true_1 (_ ∉ _)); vm_compute; reflexivity).
  exists {| py_server := server false; py_name := Some squatted; py_serving := false |},
         {| py_server := server false; py_name := Some joined; py_serving := true |}.
  split; [by apply (pnr_start [114]); [|intros o [= <-]]|].
  split; [by apply (pn_accept_failed (environment (Some squatted)) NP_Windows)|]. split; [done|].
  destruct (accepted (Some squatted) eq_refl) as [c Hc].
  split; [exact (pn_accept (environment (Some squatted)) c (server false) (server false) (Some squatted) joined (fun _ => eq_refl) Hc eq_refl)|].
  split; [done|].
  exists joined, user. split; [done|]. split; [done|]. split; [|done]. unfold joined. cbn. set_solver.
Qed.

(** Between two requests the name is free again: a process that takes it then
    is joined as well, on the very next attempt. *)
Theorem name_can_be_taken_between_requests :
  exists s0 s1 s2 s3, pipe_reachable s0 /\ py_serving s0 = true /\ pipe_step s0 s1 /\ pipe_step s1 s2 /\ pipe_step s2 s3
    /\ py_serving s3 = true /\ exists o, py_name s3 = Some o /\ outsider (po_creator o).
Proof.
  assert (outsider user) as Hu by (split; apply (bool_decide_eq_true_1 (_ ∉ _)); vm_compute; reflexivity).
  exists serving, {| py_server := server false; py_name := None; py_serving := false |},
    {| py_server := server false; py_name := Some squatted; py_serving := false |},
    {| py_server := server false; py_name := Some joined; py_serving := true |}.
  split; [exact serving_reachable|]. split; [done|].
  split; [exact (pn_served (server false) {| pp_creator := service_token; pp_aces := service_aces; pp_holders := [service_token] |})|].
  split; [by apply (pn_other_creates user open_list false)|].
  destruct (accepted (Some squatted) eq_refl) as [c Hc].
  split; [exact (pn_accept (environment (Some squatted)) c (server false) (server false) (Some squatted) joined (fun _ => eq_refl) Hc eq_refl)|].
  split; [done|]. by exists joined.
Qed.
End PipeNameWitness.
