(* ===== verification/Tray.v ===== *)
(** * The tray application ([apps/resticpal-tray/src/main.rs])

    The notification icon, its window procedure, the update checks and the
    watch on a backup that was started from the menu.  Every function is a
    program over the effects it has: the process's statics, the requests to
    the service and the calls of Windows.  Calls that let Windows deliver
    further messages to the window are where another activation of the window
    procedure can begin. *)
From stdpp Require Import base option list gmap strings.
From S2P Require Import Prelude RustStd Chrono Crates Config Status Protocol Management Outcome Updater NamedPipe TrayFeed.

(** ** Constants *)
Definition WM_APP : Z := 0x8000.
Definition WM_DESTROY : Z := 0x2.
Definition WM_CLOSE : Z := 0x10.
Definition WM_CONTEXTMENU : Z := 0x7B.
Definition WM_TIMER : Z := 0x113.
Definition WM_LBUTTONUP : Z := 0x202.
Definition WM_LBUTTONDBLCLK : Z := 0x203.
Definition WM_RBUTTONUP : Z := 0x205.
Definition NIN_SELECT : Z := 0x400.
Definition NIN_BALLOONSHOW : Z := 0x402.
Definition NIN_BALLOONHIDE : Z := 0x403.
Definition NIN_BALLOONTIMEOUT : Z := 0x404.
Definition NIN_BALLOONUSERCLICK : Z := 0x405.

Definition TRAY_CALLBACK : Z := WM_APP + 1.
Definition MENU_OPEN : Z := 1.
Definition MENU_RUN_BACKUP : Z := 2.
Definition MENU_EXIT : Z := 3.
Definition MENU_UPDATE : Z := 4.
Definition ONBOARDING_TIMER_ID : Z := 2.
Definition ONBOARDING_RETRY_INTERVAL_MS : Z := 1_000.
Definition ONBOARDING_MAX_ATTEMPTS : Z := 120.
Definition UPDATE_TIMER_ID : Z := 3.
Definition UPDATE_RETRY_TIMER_ID : Z := 4.
Definition BACKUP_STATUS_TIMER_ID : Z := 5.
Definition BACKUP_STATUS_INTERVAL_MS : Z := 1_000.
Definition BACKUP_WAITING_INTERVAL_MS : Z := 30_000.
Definition BACKUP_FAST_POLL_TICKS : Z := 15.
(** nanoseconds *)
Definition BACKUP_MONITOR_TIMEOUT : Z := 2 * 60 * 60 * ns_per_second.
Definition BACKUP_WARNING_NOTIFICATION : rstr :=
  lit "The backup finished with a warning. Open resticpal to review what needs attention.".
Definition UPDATE_CHECK_INTERVAL_MS : Z := 6 * 60 * 60 * 1_000.
Definition UPDATE_RETRY_INTERVAL_MS : Z := 5 * 60 * 1_000.
Definition UPDATE_ACCEPTED_FOLLOW_UP_INTERVAL_MS : Z := UPDATE_CHECK_INTERVAL_MS.
Definition UPDATE_AVAILABLE_MESSAGE : Z := WM_APP + 2.
Definition NIN_KEYSELECT_EVENT : Z := Z.lor NIN_SELECT 1.
Definition MAX_PENDING_BALLOON_ROUTES : nat := 16.
Definition UPDATE_PROMPT_INTERVAL : Z := 24 * 60 * 60 * ns_per_second.

(** ** Where a click on a balloon leads *)
Inductive UiDestination : Type := Dest_Default | Dest_Setup | Dest_Updates.
#[global] Instance UiDestination_eq_dec : EqDecision UiDestination.
Proof. solve_decision. Defined.

Record BalloonRouteState : Type := { br_pending : list UiDestination; br_active : option UiDestination }.
Definition BalloonRouteState_default : BalloonRouteState := {| br_pending := []; br_active := None |}.

Definition reserve (destination : UiDestination) (r : BalloonRouteState) : bool * BalloonRouteState :=
  if (MAX_PENDING_BALLOON_ROUTES <=? length (br_pending r))%nat then (false, r)
  else (true, {| br_pending := br_pending r ++ [destination]; br_active := br_active r |}).

Definition cancel_latest (r : BalloonRouteState) : unit * BalloonRouteState :=
  (tt, {| br_pending := removelast (br_pending r); br_active := br_active r |}).

Definition shown (r : BalloonRouteState) : unit * BalloonRouteState :=
  match br_pending r with
  | destination :: pending => (tt, {| br_pending := pending; br_active := Some destination |})
  | [] => (tt, r)
  end.

Definition dismissed (r : BalloonRouteState) : unit * BalloonRouteState :=
  match br_active r with
  | Some _ => (tt, {| br_pending := br_pending r; br_active := None |})
  | None => (tt, {| br_pending := tail (br_pending r); br_active := None |})
  end.

Definition clicked (r : BalloonRouteState) : UiDestination * BalloonRouteState :=
  match br_active r, br_pending r with
  | Some destination, pending => (destination, {| br_pending := pending; br_active := None |})
  | None, destination :: pending => (destination, {| br_pending := pending; br_active := None |})
  | None, [] => (Dest_Default, r)
  end.

Definition clear (r : BalloonRouteState) : unit * BalloonRouteState := (tt, BalloonRouteState_default).

(** ** Decisions *)
Inductive TrayIconAction : Type := OpenSettings | OpenUpdates | ShowContextMenu.
Inductive AutomaticUpdateSetting : Type := AU_Enabled | AU_Disabled | AU_Unavailable.
Inductive AvailableUpdateAction : Type := RequestSilentInstall | Prompt | AA_RetrySilently.
Inductive UserUpdateAction : Type := OpenManualUi | CheckSilently | UA_RetrySilently.

Definition available_update_action (setting : AutomaticUpdateSetting) : AvailableUpdateAction :=
  match setting with
  | AU_Enabled => RequestSilentInstall
  | AU_Disabled => Prompt
  | AU_Unavailable => AA_RetrySilently
  end.

Definition automatic_update_follow_up_interval (accepted : bool) : Z :=
  if accepted then UPDATE_ACCEPTED_FOLLOW_UP_INTERVAL_MS else UPDATE_RETRY_INTERVAL_MS.

Definition silent_recheck_follow_up_required (_check_started : bool) : bool := true.

Definition user_update_action (setting : AutomaticUpdateSetting) : UserUpdateAction :=
  match setting with
  | AU_Disabled => OpenManualUi
  | AU_Enabled => CheckSilently
  | AU_Unavailable => UA_RetrySilently
  end.

Definition is_taskbar_created_message (message registered_message : Z) : bool :=
  negb (registered_message =? 0) && (message =? registered_message).

Definition u32_wrapping_sub (a b : Z) : Z := (a - b) mod 2 ^ 32.
Definition u64_wrapping_add (a b : Z) : Z := (a + b) mod 2 ^ 64.

Definition tray_left_click_is_distinct (previous_message_time : option Z) (message_time double_click_time : Z) : bool :=
  match previous_message_time with
  | None => true
  | Some previous => double_click_time <? u32_wrapping_sub message_time previous
  end.

Definition tray_callback_event (raw_lparam : Z) : Z := Z.land (raw_lparam mod 2 ^ 64) 0xFFFF.

Definition tray_icon_action (event : Z) (balloon_opens_updates : bool) : option TrayIconAction :=
  if (event =? WM_LBUTTONUP) || (event =? WM_LBUTTONDBLCLK) || (event =? NIN_SELECT) || (event =? NIN_KEYSELECT_EVENT)
  then Some OpenSettings
  else if (event =? NIN_BALLOONUSERCLICK) && balloon_opens_updates then Some OpenUpdates
  else if event =? NIN_BALLOONUSERCLICK then Some OpenSettings
  else if (event =? WM_RBUTTONUP) || (event =? WM_CONTEXTMENU) then Some ShowContextMenu
  else None.

Definition should_launch_onboarding (marker_exists : bool) (state : BackupState) : bool :=
  negb marker_exists && match state with Unconfigured => true | _ => false end.

Definition update_prompt_is_due (now : Z) (last_prompt : option Z) : bool :=
  match last_prompt with
  | None => true
  | Some last => (last <=? now) && (UPDATE_PROMPT_INTERVAL <=? now - last)
  end.

Definition backup_attempt_changed (baseline_known : bool) (baseline_attempt last_attempt : option Z) : bool :=
  baseline_known && is_some last_attempt && negb (bool_decide (last_attempt = baseline_attempt)).

Definition status_tooltip (status : ServiceStatus) : rstr :=
  match ss_state status with
  | Unconfigured => lit "resticpal: setup required"
  | BS_Idle | BS_Succeeded => lit "resticpal: protected"
  | BS_Waiting WR_Battery => lit "resticpal: backup waiting for AC power"
  | BS_Waiting WR_Network => lit "resticpal: backup waiting for network"
  | BS_Waiting WR_MeteredNetwork => lit "resticpal: backup waiting for an unmetered network"
  | BS_Waiting _ => lit "resticpal: backup waiting"
  | BS_Running _ =>
      match progress ← ss_progress status; bp_percent_done progress with
      | Some percent => lit "resticpal: backup running (" ++ to_string percent ++ lit "%)"
      | None => lit "resticpal: backup running"
      end
  | BS_SucceededWithWarnings => lit "resticpal: backup completed with warnings"
  | BS_Failed _ => lit "resticpal: backup needs attention"
  | BS_Cancelled => lit "resticpal: last backup cancelled"
  | BS_Paused => lit "resticpal: backups paused"
  end.

(** The copy into a fixed buffer of the shell. *)
Definition copy_wide (value : rstr) (destination : list Z) : list Z :=
  overwrite destination (take (length destination - 1) (encode_utf16 value)).
Definition wide_null (value : rstr) : list Z := encode_utf16 value ++ [0].

(** ** The process *)

(** The statics, except the two flags that are taken and given back. *)
Record Statics : Type := {
  st_next_request_id : Z;
  st_onboarding_attempts : Z;
  st_last_left_click : Z;
  st_taskbar_created : Z;
  st_icon_handle : Z;
  st_update_available : bool;
  st_routes : BalloonRouteState;
  st_baseline_attempt : Z;
  st_baseline_known : bool;
  st_baseline_has_attempt : bool;
  st_ticks : Z;
  st_started : option Z;
  st_observed_running : bool;
  st_started_notification_shown : bool
}.
Definition i64_min : Z := - 2 ^ 63.
Definition initial_statics : Statics := {|
  st_next_request_id := 1; st_onboarding_attempts := 0; st_last_left_click := u64_max; st_taskbar_created := 0;
  st_icon_handle := 0; st_update_available := false; st_routes := BalloonRouteState_default;
  st_baseline_attempt := i64_min; st_baseline_known := false; st_baseline_has_attempt := false; st_ticks := 0;
  st_started := None; st_observed_running := false; st_started_notification_shown := false
|}.

(** [UI_LAUNCH_IN_PROGRESS] and [UPDATE_CHECK_RUNNING] *)
Inductive Flag : Type := Launching | Checking.
#[global] Instance Flag_eq_dec : EqDecision Flag.
Proof. solve_decision. Defined.

(** Failure codes of Windows. *)
Definition Hresult : Type := Z.
Inductive SetupCall : Type :=
| GetModuleHandle | LoadCursor | LoadTrayIcon | RegisterTaskbarMessage | RegisterClass | CreateTrayWindow.

(** [Shell_NotifyIconW] with what it changes. *)
Inductive NotifyCall : Type :=
| NC_Add (tip : rstr) | NC_SetVersion | NC_Tip (tip : rstr) | NC_Balloon (title message : rstr) | NC_Delete.

Inductive Effect : Type -> Type :=
| Access {R : Type} (f : Statics -> R * Statics) : Effect R
| TryAcquire (l : Flag) : Effect bool
| Release (l : Flag) : Effect unit
| PipeRequest (r : Request) : Effect (result NamedPipeError Response)
| FetchFeed : Effect (rstr -> Z -> option (list Z))
| SpawnCheck : Effect bool
| SetTimer (id interval_ms : Z) : Effect unit
| KillTimer (id : Z) : Effect unit
| NotifyIcon (call : NotifyCall) : Effect (result Hresult unit)
| ShellExecute (arguments : rstr) : Effect Z
| MessageBox (text : rstr) : Effect unit
| CreatePopupMenu : Effect (result Hresult unit)
| AppendMenu (id : Z) (label : rstr) : Effect (result Hresult unit)
| GetCursorPos : Effect (result Hresult unit)
| SetForegroundWindow : Effect unit
| TrackPopupMenu : Effect Z
| DestroyMenu : Effect (result Hresult unit)
| DestroyWindow : Effect (result Hresult unit)
| PostUpdateAvailable : Effect unit
| PostQuitMessage : Effect unit
| DefWindowProc : Effect unit
| FindTrayWindow : Effect bool
| Setup (call : SetupCall) : Effect (result Hresult Z)
| CurrentExe : Effect bool
| GetMessageTime : Effect Z
| GetDoubleClickTime : Effect Z
| InstantNow : Effect Z
| SystemNow : Effect Z
| OnboardingMarker : Effect bool
| PromptMarkerPath : Effect bool
| PromptMarkerTime : Effect (option Z)
| WritePromptMarker : Effect unit
| Panic : Effect Empty_set
| Exit : Effect Empty_set.

Inductive prog (A : Type) : Type :=
| Ret (a : A)
| Do {X : Type} (e : Effect X) (k : X -> prog A).
Arguments Ret {A} a.
Arguments Do {A X} e k.

#[global] Instance prog_ret : MRet prog := fun A a => Ret a.
#[global] Instance prog_bind : MBind prog := fun A B f =>
  fix bind (p : prog A) : prog B :=
    match p with
    | Ret a => f a
    | Do e k => Do e (fun x => bind (k x))
    end.

Definition perform {X} (e : Effect X) : prog X := Do e Ret.
Definition access {R} (f : Statics -> R * Statics) : prog R := perform (Access f).
Definition load {R} (g : Statics -> R) : prog R := access (fun s => (g s, s)).
Definition store (g : Statics -> Statics) : prog unit := access (fun s => (tt, g s)).
Definition panic {A} : prog A := Do Panic (fun x : Empty_set => match x with end).
Definition exit {A} : prog A := Do Exit (fun x : Empty_set => match x with end).

(** The [?] operator in a program. *)
Definition try {E A B} (p : prog (result E A)) (f : A -> prog (result E B)) : prog (result E B) :=
  r ← p; match r with Ok a => f a | Err e => mret (Err e) end.

Definition set_update_available (b : bool) (s : Statics) : Statics := {|
  st_next_request_id := st_next_request_id s; st_onboarding_attempts := st_onboarding_attempts s;
  st_last_left_click := st_last_left_click s; st_taskbar_created := st_taskbar_created s;
  st_icon_handle := st_icon_handle s; st_update_available := b; st_routes := st_routes s;
  st_baseline_attempt := st_baseline_attempt s; st_baseline_known := st_baseline_known s;
  st_baseline_has_attempt := st_baseline_has_attempt s; st_ticks := st_ticks s; st_started := st_started s;
  st_observed_running := st_observed_running s; st_started_notification_shown := st_started_notification_shown s |}.
Definition set_routes (r : BalloonRouteState) (s : Statics) : Statics := {|
  st_next_request_id := st_next_request_id s; st_onboarding_attempts := st_onboarding_attempts s;
  st_last_left_click := st_last_left_click s; st_taskbar_created := st_taskbar_created s;
  st_icon_handle := st_icon_handle s; st_update_available := st_update_available s; st_routes := r;
  st_baseline_attempt := st_baseline_attempt s; st_baseline_known := st_baseline_known s;
  st_baseline_has_attempt := st_baseline_has_attempt s; st_ticks := st_ticks s; st_started := st_started s;
  st_observed_running := st_observed_running s; st_started_notification_shown := st_started_notification_shown s |}.
Definition set_icon (taskbar icon : Z) (s : Statics) : Statics := {|
  st_next_request_id := st_next_request_id s; st_onboarding_attempts := st_onboarding_attempts s;
  st_last_left_click := st_last_left_click s; st_taskbar_created := taskbar;
  st_icon_handle := icon; st_update_available := st_update_available s; st_routes := st_routes s;
  st_baseline_attempt := st_baseline_attempt s; st_baseline_known := st_baseline_known s;
  st_baseline_has_attempt := st_baseline_has_attempt s; st_ticks := st_ticks s; st_started := st_started s;
  st_observed_running := st_observed_running s; st_started_notification_shown := st_started_notification_shown s |}.
Definition set_counters (request_id attempts click : Z) (s : Statics) : Statics := {|
  st_next_request_id := request_id; st_onboarding_attempts := attempts;
  st_last_left_click := click; st_taskbar_created := st_taskbar_created s;
  st_icon_handle := st_icon_handle s; st_update_available := st_update_available s; st_routes := st_routes s;
  st_baseline_attempt := st_baseline_attempt s; st_baseline_known := st_baseline_known s;
  st_baseline_has_attempt := st_baseline_has_attempt s; st_ticks := st_ticks s; st_started := st_started s;
  st_observed_running := st_observed_running s; st_started_notification_shown := st_started_notification_shown s |}.
Definition set_baseline (attempt : Z) (known has_attempt : bool) (s : Statics) : Statics := {|
  st_next_request_id := st_next_request_id s; st_onboarding_attempts := st_onboarding_attempts s;
  st_last_left_click := st_last_left_click s; st_taskbar_created := st_taskbar_created s;
  st_icon_handle := st_icon_handle s; st_update_available := st_update_available s; st_routes := st_routes s;
  st_baseline_attempt := attempt; st_baseline_known := known;
  st_baseline_has_attempt := has_attempt; st_ticks := st_ticks s; st_started := st_started s;
  st_observed_running := st_observed_running s; st_started_notification_shown := st_started_notification_shown s |}.
Definition set_watch (ticks : Z) (started : option Z) (observed notified : bool) (s : Statics) : Statics := {|
  st_next_request_id := st_next_request_id s; st_onboarding_attempts := st_onboarding_attempts s;
  st_last_left_click := st_last_left_click s; st_taskbar_created := st_taskbar_created s;
  st_icon_handle := st_icon_handle s; st_update_available := st_update_available s; st_routes := st_routes s;
  st_baseline_attempt := st_baseline_attempt s; st_baseline_known := st_baseline_known s;
  st_baseline_has_attempt := st_baseline_has_attempt s; st_ticks := ticks; st_started := started;
  st_observed_running := observed; st_started_notification_shown := notified |}.
Definition set_started (started : option Z) (s : Statics) : Statics :=
  set_watch (st_ticks s) started (st_observed_running s) (st_started_notification_shown s) s.

Definition with_balloon_routes {T} (action : BalloonRouteState -> T * BalloonRouteState) : prog T :=
  access (fun s => let '(t, r) := action (st_routes s) in (t, set_routes r s)).
Definition store_update_available (b : bool) : prog unit := store (set_update_available b).

(** [BACKUP_MONITOR_TICKS.fetch_add(1) + 1] *)
Definition next_tick : prog Z :=
  access (fun s => let ticks := u64_wrapping_add (st_ticks s) 1 in
    (ticks, set_watch ticks (st_started s) (st_observed_running s) (st_started_notification_shown s) s)).

(** ** Requests to the service *)
Definition send_request (command : RequestCommand) : prog (result NamedPipeError Response) :=
  request_id ← access (fun s => (st_next_request_id s,
    set_counters (u64_wrapping_add (st_next_request_id s) 1) (st_onboarding_attempts s) (st_last_left_click s) s));
  perform (PipeRequest (Request_new request_id command)).

Definition fetch_service_status : prog (result NamedPipeError (option ServiceStatus)) :=
  try (send_request GetStatus) (fun response =>
    mret (Ok match rs_payload response with Resp_Status status => Some status | _ => None end)).

Definition fetch_status_tooltip : prog (result NamedPipeError rstr) :=
  try fetch_service_status (fun status =>
    mret (Ok match status with
             | None => lit "resticpal: unexpected service response"
             | Some status => status_tooltip status
             end)).

Definition is_running (state : BackupState) : bool := match state with BS_Running _ => true | _ => false end.

Definition backup_is_running : prog (result NamedPipeError bool) :=
  try fetch_service_status (fun status =>
    mret (Ok match status with Some status => is_running (ss_state status) | None => false end)).

Definition setting_of_response (answer : result NamedPipeError Response) : AutomaticUpdateSetting :=
  match answer with
  | Ok response =>
      match rs_payload response with
      | Resp_UpdateSettings configuration => if uv_automatic_install configuration then AU_Enabled else AU_Disabled
      | _ => AU_Unavailable
      end
  | Err _ => AU_Unavailable
  end.
Definition automatic_update_setting : prog AutomaticUpdateSetting :=
  answer ← send_request GetUpdateSettings; mret (setting_of_response answer).

Definition request_automatic_update (package : UpdatePackage) : prog bool :=
  answer ← send_request (InstallUpdate package);
  mret match answer with
       | Ok response => match rs_payload response with Resp_Accepted _ => true | _ => false end
       | Err _ => false
       end.

(** ** Windows *)
Definition show_error (message : rstr) : prog unit := perform (MessageBox message).
Definition remove_tray_icon : prog unit := _ ← perform (NotifyIcon NC_Delete); mret ().

Definition add_tray_icon : prog (result Hresult unit) :=
  tooltip ← fetch_status_tooltip;
  let tooltip := match tooltip with Ok tooltip => tooltip | Err _ => lit "resticpal: backup service unavailable" end in
  try (perform (NotifyIcon (NC_Add tooltip))) (fun _ =>
    versioned ← perform (NotifyIcon NC_SetVersion);
    match versioned with
    | Ok _ => mret (Ok ())
    | Err error => _ ← remove_tray_icon; mret (Err error)
    end).

Definition show_tray_notification (title message : rstr) (destination : UiDestination) : prog (result Hresult unit) :=
  reserved ← with_balloon_routes (reserve destination);
  if negb reserved then mret (Ok ())
  else
    shown ← perform (NotifyIcon (NC_Balloon title message));
    match shown with
    | Ok _ => mret (Ok ())
    | Err error => _ ← with_balloon_routes cancel_latest; mret (Err error)
    end.

Definition UPDATE_TITLE : rstr := lit "resticpal update available".
Definition show_update_notification : prog (result Hresult unit) :=
  show_tray_notification UPDATE_TITLE (lit "A signed resticpal update is ready. Click to review and install it.")
    Dest_Updates.

Definition refresh_tray_status : prog (result NamedPipeError (option ServiceStatus)) :=
  try fetch_service_status (fun status =>
    match status with
    | None => mret (Ok None)
    | Some status =>
        shown ← perform (NotifyIcon (NC_Tip (status_tooltip status)));
        mret match shown with Ok _ => Ok (Some status) | Err _ => Err NP_Windows end
    end).

Definition schedule_update_retry_after (interval_ms : Z) : prog unit :=
  perform (SetTimer UPDATE_RETRY_TIMER_ID interval_ms).
Definition schedule_update_retry : prog unit := schedule_update_retry_after UPDATE_RETRY_INTERVAL_MS.

Definition arguments_of (destination : UiDestination) : rstr :=
  match destination with Dest_Default => [] | Dest_Setup => lit "--setup" | Dest_Updates => lit "--updates" end.

(** The guard is given back on every way out. *)
Definition launch_ui (destination : UiDestination) : prog bool :=
  acquired ← perform (TryAcquire Launching);
  if negb acquired then mret true
  else
    opened ← (
      executable ← perform CurrentExe;
      if negb executable then
        _ ← show_error (lit "The resticpal installation path could not be found."); mret false
      else
        code ← perform (ShellExecute (arguments_of destination));
        if code <=? 32 then
          _ ← show_error (lit "The resticpal settings application could not be opened." ++ [10; 10]
                            ++ lit "Shell error " ++ (if code <? 0 then lit "-" ++ to_string (- code) else to_string code));
          mret false
        else mret true);
    _ ← perform (Release Launching);
    mret opened.

Definition maybe_launch_onboarding : prog bool :=
  marker_exists ← perform OnboardingMarker;
  if (marker_exists : bool) then mret true
  else
    answer ← send_request GetStatus;
    match answer with
    | Err _ => mret false
    | Ok response =>
        match rs_payload response with
        | Resp_Status status =>
            if should_launch_onboarding marker_exists (ss_state status) then
              _ ← perform (KillTimer ONBOARDING_TIMER_ID);
              _ ← launch_ui Dest_Setup;
              mret true
            else mret (match ss_state status with BS_Waiting _ => false | _ => true end)
        | _ => mret false
        end
    end.

(** ** Updates *)
Definition record_update_prompt_if_due (now : Z) : prog bool :=
  path ← perform PromptMarkerPath;
  if negb path then mret true
  else
    last_prompt ← perform PromptMarkerTime;
    if negb (update_prompt_is_due now last_prompt) then mret false
    else _ ← perform WritePromptMarker; mret true.

Section feed.
Context `{Base64Standard} `{CryptoCrates}.

(** The thread that [start_update_check] spawns. *)
Definition update_check_thread : prog unit :=
  get ← perform FetchFeed;
  _ ← match check_for_update get with
      | Some (UC_Available package) =>
          setting ← automatic_update_setting;
          match available_update_action setting with
          | RequestSilentInstall =>
              _ ← store_update_available false;
              accepted ← request_automatic_update package;
              schedule_update_retry_after (automatic_update_follow_up_interval accepted)
          | Prompt =>
              _ ← store_update_available true;
              now ← perform SystemNow;
              due ← record_update_prompt_if_due now;
              if (due : bool) then perform PostUpdateAvailable else mret ()
          | AA_RetrySilently =>
              _ ← store_update_available false;
              schedule_update_retry
          end
      | Some UC_Current => store_update_available false
      | None => mret ()
      end;
  perform (Release Checking).
End feed.

(** [std::thread::spawn] panics when the thread cannot be created. *)
Definition start_update_check : prog bool :=
  acquired ← perform (TryAcquire Checking);
  if negb acquired then mret false
  else
    spawned ← perform SpawnCheck;
    if (spawned : bool) then mret true else panic.

Definition check_update_silently : prog unit :=
  _ ← store_update_available false;
  check_started ← start_update_check;
  if silent_recheck_follow_up_required check_started then schedule_update_retry else mret ().

Definition retry_silently : prog unit := _ ← store_update_available false; schedule_update_retry.

Definition handle_user_update_request : prog unit :=
  setting ← automatic_update_setting;
  match user_update_action setting with
  | OpenManualUi => _ ← launch_ui Dest_Updates; mret ()
  | CheckSilently => check_update_silently
  | UA_RetrySilently => retry_silently
  end.

(** [UPDATE_AVAILABLE_MESSAGE] *)
Definition announce_update : prog unit :=
  setting ← automatic_update_setting;
  match user_update_action setting with
  | OpenManualUi => _ ← show_update_notification; mret ()
  | CheckSilently => check_update_silently
  | UA_RetrySilently => retry_silently
  end.

(** ** The watch on a backup started here *)
Record BackupAttemptBaseline : Type := { bb_known : bool; bb_attempt : option Z }.
Definition baseline_UNKNOWN : BackupAttemptBaseline := {| bb_known := false; bb_attempt := None |}.
Definition baseline_from_status (status : ServiceStatus) : BackupAttemptBaseline :=
  {| bb_known := true; bb_attempt := timestamp_millis <$> ss_last_attempt status |}.

Definition start_backup_status_monitor (baseline : BackupAttemptBaseline) (observed_running : bool) : prog unit :=
  _ ← store (set_baseline (default i64_min (bb_attempt baseline)) (bb_known baseline) (is_some (bb_attempt baseline)));
  now ← perform InstantNow;
  _ ← store (set_watch 0 (Some now) observed_running observed_running);
  perform (SetTimer BACKUP_STATUS_TIMER_ID BACKUP_STATUS_INTERVAL_MS).

Definition monitor_timed_out (now : Z) (started : option Z) : bool :=
  match started with
  | Some started => (started <=? now) && (BACKUP_MONITOR_TIMEOUT <=? now - started)
  | None => false
  end.
Definition backup_monitor_timed_out (now : Z) : prog bool := load (fun s => monitor_timed_out now (st_started s)).

Definition finish_backup_status_monitor (title message : rstr) : prog unit :=
  _ ← perform (KillTimer BACKUP_STATUS_TIMER_ID);
  _ ← store (set_started None);
  _ ← show_tray_notification title message Dest_Default;
  mret ().

Definition TITLE_COMPLETE : rstr := lit "Backup complete".
Definition TITLE_WARNINGS : rstr := lit "Backup completed with warnings".
Definition TITLE_ATTENTION : rstr := lit "Backup needs attention".
Definition TITLE_CANCELLED : rstr := lit "Backup cancelled".

(** What the watch does with a status, once the timeout has been ruled out. *)
Definition report_backup_status (status : ServiceStatus) (ticks : Z) : prog unit :=
  observed_running ← load st_observed_running;
  baseline_known ← load st_baseline_known;
  baseline_attempt ← load (fun s => if st_baseline_has_attempt s then Some (st_baseline_attempt s) else None);
  let attempt_changed :=
    backup_attempt_changed baseline_known baseline_attempt (timestamp_millis <$> ss_last_attempt status) in
  _ ← (if (ticks =? BACKUP_FAST_POLL_TICKS) && negb observed_running && negb attempt_changed
            && negb (is_running (ss_state status)) then
         _ ← show_tray_notification (lit "Backup waiting")
               (lit "The request is still queued. resticpal will keep watching its power, network, and service conditions.")
               Dest_Default;
         perform (SetTimer BACKUP_STATUS_TIMER_ID BACKUP_WAITING_INTERVAL_MS)
       else mret ());
  let ended := observed_running || attempt_changed in
  match ss_state status with
  | BS_Running _ =>
      already ← access (fun s => (st_started_notification_shown s, set_watch (st_ticks s) (st_started s) true true s));
      if negb already then
        _ ← show_tray_notification (lit "Backup started") (lit "resticpal is now protecting this PC.") Dest_Default; mret ()
      else mret ()
  | BS_Succeeded =>
      if ended then finish_backup_status_monitor TITLE_COMPLETE (lit "The latest backup finished successfully.") else mret ()
  | BS_SucceededWithWarnings =>
      if ended then finish_backup_status_monitor TITLE_WARNINGS BACKUP_WARNING_NOTIFICATION else mret ()
  | BS_Failed _ =>
      if ended then
        finish_backup_status_monitor TITLE_ATTENTION
          (lit "The backup did not complete. Open resticpal diagnostics for details.")
      else mret ()
  | BS_Cancelled =>
      if ended then finish_backup_status_monitor TITLE_CANCELLED (lit "The active backup was cancelled.") else mret ()
  | Unconfigured | BS_Paused =>
      finish_backup_status_monitor (lit "Backup request stopped")
        (lit "The service can no longer run the requested backup. Open resticpal to review its configuration.")
  | BS_Idle | BS_Waiting _ => mret ()
  end.

Definition poll_backup_status : prog unit :=
  refreshed ← refresh_tray_status;
  match refreshed with
  | Ok (Some status) =>
      ticks ← next_tick;
      now ← perform InstantNow;
      timed_out ← backup_monitor_timed_out now;
      if (timed_out : bool) then
        finish_backup_status_monitor (lit "Backup still pending")
          (lit "resticpal stopped the dedicated status watch after two hours. Open the app to review current conditions.")
      else report_backup_status status ticks
  | _ =>
      ticks ← next_tick;
      now ← perform InstantNow;
      timed_out ← backup_monitor_timed_out now;
      if (timed_out : bool) then
        finish_backup_status_monitor (lit "Backup status unavailable")
          (lit "resticpal stopped the dedicated status watch. Open the app to review the service.")
      else if ticks =? BACKUP_FAST_POLL_TICKS then perform (SetTimer BACKUP_STATUS_TIMER_ID BACKUP_WAITING_INTERVAL_MS)
      else mret ()
  end.

(** ** The window *)
Section window.
(** The texts of errors ([Display]), which include those of the system. *)
Context (pipe_error_text : NamedPipeError -> rstr) (windows_error_text : Hresult -> rstr).

Definition send_backup_action (command : RequestCommand) : prog unit :=
  let run_backup := match command with RunBackupNow => true | _ => false end in
  baseline_attempt ← (
    if run_backup then
      status ← fetch_service_status;
      mret match status with Ok (Some status) => baseline_from_status status | _ => baseline_UNKNOWN end
    else mret baseline_UNKNOWN);
  answer ← send_request command;
  match answer with
  | Ok response =>
      match rs_payload response with
      | Resp_Accepted message =>
          _ ← show_tray_notification (if run_backup then lit "Backup requested" else lit "Cancellation requested") message
                Dest_Default;
          _ ← refresh_tray_status;
          start_backup_status_monitor baseline_attempt (negb run_backup)
      | Resp_Rejected _ message => show_error message
      | _ => show_error (lit "The backup service returned an unexpected response.")
      end
  | Err error => show_error (lit "The backup service could not be reached." ++ [10; 10] ++ pipe_error_text error)
  end.

Definition UPDATE_LABEL : rstr := lit "Update available" ++ [0x2026].

(** The closure of [show_context_menu]: whether an update is offered, the
    items, and the command. *)
Definition offers_update : prog bool :=
  available ← load st_update_available;
  if (available : bool) then
    setting ← automatic_update_setting;
    match user_update_action setting with
    | OpenManualUi => mret true
    | CheckSilently => _ ← check_update_silently; mret false
    | UA_RetrySilently => _ ← retry_silently; mret false
    end
  else mret false.

Definition append_items (update_available backup_running : bool) : prog (result Hresult unit) :=
  try (perform (AppendMenu MENU_OPEN (lit "Open resticpal"))) (fun _ =>
  try (if update_available then perform (AppendMenu MENU_UPDATE UPDATE_LABEL) else mret (Ok ())) (fun _ =>
  try (perform (AppendMenu MENU_RUN_BACKUP (if backup_running then lit "Cancel backup" else lit "Run backup now"))) (fun _ =>
  perform (AppendMenu MENU_EXIT (lit "Exit tray"))))).

Definition menu_command (backup_running : bool) (command : Z) : prog (result Hresult unit) :=
  if command =? MENU_OPEN then _ ← launch_ui Dest_Default; mret (Ok ())
  else if command =? MENU_UPDATE then _ ← handle_user_update_request; mret (Ok ())
  else if command =? MENU_RUN_BACKUP then
    _ ← send_backup_action (if backup_running then CancelBackup else RunBackupNow); mret (Ok ())
  else if command =? MENU_EXIT then perform DestroyWindow
  else mret (Ok ()).

Definition context_menu_body : prog (result Hresult unit) :=
  running ← backup_is_running;
  let backup_running := match running with Ok running => running | Err _ => false end in
  update_available ← offers_update;
  try (append_items update_available backup_running) (fun _ =>
  try (perform GetCursorPos) (fun _ =>
  _ ← perform SetForegroundWindow;
  command ← perform TrackPopupMenu;
  menu_command backup_running command)).

Definition show_context_menu : prog (result Hresult unit) :=
  try (perform CreatePopupMenu) (fun _ =>
    outcome ← context_menu_body;
    destroyed ← perform DestroyMenu;
    mret (match outcome with Ok _ => destroyed | Err error => Err error end)).

Definition tray_callback (lparam : Z) : prog unit :=
  let event := tray_callback_event lparam in
  if event =? NIN_BALLOONSHOW then with_balloon_routes shown
  else if (event =? NIN_BALLOONHIDE) || (event =? NIN_BALLOONTIMEOUT) then with_balloon_routes dismissed
  else
    balloon_opens_updates ← (
      if event =? NIN_BALLOONUSERCLICK then
        destination ← with_balloon_routes clicked; mret (bool_decide (destination = Dest_Updates))
      else mret false);
    match tray_icon_action event balloon_opens_updates with
    | Some OpenSettings =>
        message_time ← perform GetMessageTime;
        double_click_time ← perform GetDoubleClickTime;
        previous ← load st_last_left_click;
        let previous := if previous =? u64_max then None else Some (previous mod 2 ^ 32) in
        if tray_left_click_is_distinct previous message_time double_click_time then
          _ ← store (fun s => set_counters (st_next_request_id s) (st_onboarding_attempts s) message_time s);
          _ ← launch_ui Dest_Default;
          mret ()
        else mret ()
    | Some OpenUpdates => handle_user_update_request
    | Some ShowContextMenu =>
        result ← show_context_menu;
        match result with Ok _ => mret () | Err error => show_error (windows_error_text error) end
    | None => mret ()
    end.

Definition window_proc_inner (message wparam lparam : Z) : prog unit :=
  registered ← load st_taskbar_created;
  if is_taskbar_created_message message (if registered <=? u32_max then registered else 0) then
    icon ← load st_icon_handle;
    if negb (icon =? 0) then
      _ ← with_balloon_routes clear;
      _ ← add_tray_icon;
      mret ()
    else mret ()
  else if message =? TRAY_CALLBACK then tray_callback lparam
  else if message =? WM_CLOSE then _ ← perform DestroyWindow; mret ()
  else if (message =? WM_TIMER) && (wparam =? ONBOARDING_TIMER_ID) then
    attempts ← access (fun s => let attempts := u64_wrapping_add (st_onboarding_attempts s) 1 in
      (attempts, set_counters (st_next_request_id s) attempts (st_last_left_click s) s));
    settled ← maybe_launch_onboarding;
    if settled || (ONBOARDING_MAX_ATTEMPTS <=? attempts) then perform (KillTimer ONBOARDING_TIMER_ID) else mret ()
  else if (message =? WM_TIMER) && (wparam =? UPDATE_TIMER_ID) then _ ← start_update_check; mret ()
  else if (message =? WM_TIMER) && (wparam =? UPDATE_RETRY_TIMER_ID) then
    _ ← perform (KillTimer UPDATE_RETRY_TIMER_ID);
    _ ← start_update_check;
    mret ()
  else if (message =? WM_TIMER) && (wparam =? BACKUP_STATUS_TIMER_ID) then poll_backup_status
  else if message =? UPDATE_AVAILABLE_MESSAGE then
    if negb (wparam =? 0) then announce_update else mret ()
  else if message =? WM_DESTROY then
    _ ← perform (KillTimer ONBOARDING_TIMER_ID);
    _ ← perform (KillTimer UPDATE_TIMER_ID);
    _ ← perform (KillTimer UPDATE_RETRY_TIMER_ID);
    _ ← perform (KillTimer BACKUP_STATUS_TIMER_ID);
    _ ← remove_tray_icon;
    perform PostQuitMessage
  else perform DefWindowProc.

(** [run] up to the message loop; [Ok false]: another instance has the icon. *)
Definition run : prog (result Hresult bool) :=
  existing ← perform FindTrayWindow;
  if (existing : bool) then mret (Ok false)
  else
    try (perform (Setup GetModuleHandle)) (fun _ =>
    try (perform (Setup LoadCursor)) (fun _ =>
    try (perform (Setup LoadTrayIcon)) (fun icon =>
    try (perform (Setup RegisterTaskbarMessage)) (fun registered =>
    _ ← store (set_icon registered icon);
    try (perform (Setup RegisterClass)) (fun _ =>
    try (perform (Setup CreateTrayWindow)) (fun _ =>
    try add_tray_icon (fun _ =>
    settled ← maybe_launch_onboarding;
    _ ← (if negb settled then perform (SetTimer ONBOARDING_TIMER_ID ONBOARDING_RETRY_INTERVAL_MS) else mret ());
    _ ← start_update_check;
    _ ← perform (SetTimer UPDATE_TIMER_ID UPDATE_CHECK_INTERVAL_MS);
    mret (Ok true)))))))).

(** [main]: the process ends when [run] does. *)
Definition main : prog unit :=
  started ← run;
  match started with
  | Ok true => mret ()
  | Ok false => exit
  | Err error =>
      _ ← show_error (lit "resticpal tray could not start:" ++ [10; 10] ++ windows_error_text error);
      exit
  end.
End window.
