(* ===== verification/TrayLoop.v ===== *)
(** * The tray running ([apps/resticpal-tray/src/main.rs])

    The tray's programs put together: activations of the window procedure on
    the message thread, nested where a call of Windows delivers further
    messages, and the threads that check for updates, one effect at a time
    and in every interleaving.  Any message can arrive whenever messages are
    delivered.  A small program logic carries facts about the programs to
    every state the process can reach. *)
From stdpp Require Import base option list gmap strings.
From S2P Require Import Prelude RustStd Chrono Crates Config Status Protocol Management Outcome Updater NamedPipe.
From S2P Require Import TrayFeed Tray.

(** What the world sees of the tray. *)
Inductive Obs : Type :=
| O_Request (r : Request) (answer : result NamedPipeError Response)
| O_Feed (get : rstr -> Z -> option (list Z))
| O_Notify (call : NotifyCall) (answer : result Hresult unit)
| O_Launch (arguments : rstr) (code : Z)
| O_Error (text : rstr)
| O_Menu (id : Z) (label : rstr)
| O_Instant (now : Z).

Definition observe {X} (e : Effect X) : X -> list Obs :=
  match e in Effect X return X -> list Obs with
  | PipeRequest r => fun answer => [O_Request r answer]
  | FetchFeed => fun get => [O_Feed get]
  | NotifyIcon call => fun answer => [O_Notify call answer]
  | ShellExecute arguments => fun code => [O_Launch arguments code]
  | MessageBox text => fun _ => [O_Error text]
  | AppendMenu id label => fun _ => [O_Menu id label]
  | InstantNow => fun now => [O_Instant now]
  | _ => fun _ => []
  end.

Record Shared : Type := {
  sh_statics : Statics;
  sh_launching : bool;
  sh_checking : bool;
  sh_timers : gmap Z Z;
  sh_posted : nat;
  sh_quit : bool;
  sh_log : list Obs
}.
Definition initial_shared : Shared := {|
  sh_statics := initial_statics; sh_launching := false; sh_checking := false; sh_timers := ∅; sh_posted := 0;
  sh_quit := false; sh_log := [] |}.

Definition set_sh_statics (v : Statics) (s : Shared) : Shared := {|
  sh_statics := v; sh_launching := sh_launching s; sh_checking := sh_checking s; sh_timers := sh_timers s;
  sh_posted := sh_posted s; sh_quit := sh_quit s; sh_log := sh_log s |}.
Definition flag (l : Flag) (s : Shared) : bool := match l with Launching => sh_launching s | Checking => sh_checking s end.
Definition set_flag (l : Flag) (b : bool) (s : Shared) : Shared := {|
  sh_statics := sh_statics s;
  sh_launching := (if bool_decide (l = Launching) then b else sh_launching s);
  sh_checking := (if bool_decide (l = Checking) then b else sh_checking s);
  sh_timers := sh_timers s; sh_posted := sh_posted s; sh_quit := sh_quit s; sh_log := sh_log s |}.
Definition set_sh_timers (t : gmap Z Z) (s : Shared) : Shared := {|
  sh_statics := sh_statics s; sh_launching := sh_launching s; sh_checking := sh_checking s; sh_timers := t;
  sh_posted := sh_posted s; sh_quit := sh_quit s; sh_log := sh_log s |}.
Definition set_sh_posts (posted : nat) (quit : bool) (s : Shared) : Shared := {|
  sh_statics := sh_statics s; sh_launching := sh_launching s; sh_checking := sh_checking s; sh_timers := sh_timers s;
  sh_posted := posted; sh_quit := quit; sh_log := sh_log s |}.
Definition record_obs (o : list Obs) (s : Shared) : Shared := {|
  sh_statics := sh_statics s; sh_launching := sh_launching s; sh_checking := sh_checking s; sh_timers := sh_timers s;
  sh_posted := sh_posted s; sh_quit := sh_quit s; sh_log := o ++ sh_log s |}.

(** One effect: what it answers, given what the world would answer, and what
    it changes. *)
Definition effect {X} (e : Effect X) : X -> Shared -> X * Shared :=
  match e in Effect X return X -> Shared -> X * Shared with
  | Access f => fun _ s => let '(r, v) := f (sh_statics s) in (r, set_sh_statics v s)
  | TryAcquire l => fun _ s => (negb (flag l s), set_flag l true s)
  | Release l => fun _ s => (tt, set_flag l false s)
  | SetTimer id interval_ms => fun _ s => (tt, set_sh_timers (<[id := interval_ms]> (sh_timers s)) s)
  | KillTimer id => fun _ s => (tt, set_sh_timers (delete id (sh_timers s)) s)
  | PostUpdateAvailable => fun _ s => (tt, set_sh_posts (S (sh_posted s)) (sh_quit s) s)
  | PostQuitMessage => fun _ s => (tt, set_sh_posts (sh_posted s) true s)
  | e => fun x s => (x, record_obs (observe e x) s)
  end.

(** Calls during which Windows may deliver another message to the window. *)
Definition pumps {X} (e : Effect X) : bool :=
  match e with
  | NotifyIcon _ | ShellExecute _ | MessageBox _ | SetForegroundWindow | TrackPopupMenu | DestroyWindow
  | DefWindowProc | Setup _ => true
  | _ => false
  end.

(** ** The process *)
Inductive Role : Type := Main | Callback | CheckThread.
#[global] Instance Role_eq_dec : EqDecision Role.
Proof. solve_decision. Defined.

Record Event : Type := Ev { ev_type : Type; ev_effect : Effect ev_type; ev_answer : ev_type }.
Arguments Ev {_} _ _.

(** An activation or a thread: what it has done, newest first, and what is left. *)
Record Agent : Type := Ag { ag_role : Role; ag_trace : list Event; ag_prog : prog unit }.

Record System : Type := Sys { sy_shared : Shared; sy_frames : list Agent; sy_threads : list Agent; sy_alive : bool }.
Definition agents (s : System) : list Agent := sy_frames s ++ sy_threads s.

Definition delivers_messages (frames : list Agent) : bool :=
  match frames with
  | [] => true
  | a :: _ => match ag_prog a with Do e _ => pumps e | Ret _ => false end
  end.

Section system.
Context `{Base64Standard} `{CryptoCrates} (pipe_error_text : NamedPipeError -> rstr) (windows_error_text : Hresult -> rstr).

Definition check_agent : Agent := Ag CheckThread [] update_check_thread.
Definition spawned {X} (e : Effect X) : X -> list Agent :=
  match e in Effect X return X -> list Agent with
  | SpawnCheck => fun created => if created then [check_agent] else []
  | _ => fun _ => []
  end.

Definition initial : System := Sys initial_shared [Ag Main [] (main windows_error_text)] [] true.
Definition dead (sh : Shared) : System := Sys sh [] [] false.

(** A panic of a callback is caught where panics unwind (the development
    profile) and ends the process where they abort, which [Cargo.toml] asks
    of release builds: both are steps. *)
Inductive tray_step : System -> System -> Prop :=
| TS_Message sh frames threads message wparam lparam :
    delivers_messages frames = true ->
    tray_step (Sys sh frames threads true)
      (Sys sh (Ag Callback [] (window_proc_inner pipe_error_text windows_error_text message wparam lparam) :: frames)
         threads true)
| TS_Frame sh frames threads role trace X (e : Effect X) k x :
    tray_step (Sys sh (Ag role trace (Do e k) :: frames) threads true)
      (Sys (effect e x sh).2 (Ag role (Ev e (effect e x sh).1 :: trace) (k (effect e x sh).1) :: frames)
         (spawned e (effect e x sh).1 ++ threads) true)
| TS_Return sh frames threads role trace :
    tray_step (Sys sh (Ag role trace (Ret ()) :: frames) threads true) (Sys sh frames threads true)
| TS_Caught sh frames threads trace k :
    tray_step (Sys sh (Ag Callback trace (Do Panic k) :: frames) threads true)
      (Sys sh (Ag Callback trace (perform DefWindowProc) :: frames) threads true)
| TS_Uncaught sh frames threads role trace k :
    tray_step (Sys sh (Ag role trace (Do Panic k) :: frames) threads true) (dead sh)
| TS_Exit sh frames threads role trace k :
    tray_step (Sys sh (Ag role trace (Do Exit k) :: frames) threads true) (dead sh)
| TS_Quit sh threads :
    sh_quit sh = true -> tray_step (Sys sh [] threads true) (dead sh)
| TS_Thread sh frames before after role trace X (e : Effect X) k x :
    tray_step (Sys sh frames (before ++ Ag role trace (Do e k) :: after) true)
      (Sys (effect e x sh).2 frames
         (spawned e (effect e x sh).1 ++ before
          ++ Ag role (Ev e (effect e x sh).1 :: trace) (k (effect e x sh).1) :: after) true)
| TS_ThreadEnd sh frames before after role trace :
    tray_step (Sys sh frames (before ++ Ag role trace (Ret ()) :: after) true) (Sys sh frames (before ++ after) true).

Inductive tray_reachable : System -> Prop :=
| TR_init : tray_reachable initial
| TR_step s s' : tray_reachable s -> tray_step s s' -> tray_reachable s'.
End system.

(** ** A program logic

    A logic follows a program with a ghost value, changed by each effect and
    its answer, and says before which ghost values an effect may happen. *)
Record Logic : Type := {
  ghost : Type;
  start : Role -> ghost;
  upd : forall {X}, Effect X -> X -> ghost -> ghost;
  pre : forall {X}, Effect X -> ghost -> Prop
}.
Arguments start {_} _.
Arguments upd {_ X} _ _ _.
Arguments pre {_ X} _ _.

Fixpoint wp (L : Logic) {A} (p : prog A) (g : ghost L) (Q : A -> ghost L -> Prop) : Prop :=
  match p with
  | Ret a => Q a g
  | Do e k => pre e g /\ forall x, wp L (k x) (upd e x g) Q
  end.

Definition ghost_of (L : Logic) (a : Agent) : ghost L :=
  foldr (fun ev g => upd (ev_effect ev) (ev_answer ev) g) (start (ag_role a)) (ag_trace a).

(** Everything left of an agent respects the logic. *)
Definition respects (L : Logic) (a : Agent) : Prop := wp L (ag_prog a) (ghost_of L a) (fun _ _ => True).

Section logic.
Context {L : Logic}.

Lemma wp_mono {A} (p : prog A) g (Q R : A -> ghost L -> Prop) : wp L p g Q -> (forall a g, Q a g -> R a g) -> wp L p g R.
Proof.
  intros Hw HQ. revert g Hw. induction p as [a|X e k IH]; intros g; cbn; [apply HQ|].
  intros [Hp Hk]. split; [done|]. intros x. apply IH, Hk.
Qed.

Lemma wp_bind {A B} (p : prog A) (f : A -> prog B) g Q :
  wp L (p ≫= f) g Q <-> wp L p g (fun a g => wp L (f a) g Q).
Proof.
  revert g. induction p as [a|X e k IH]; intros g; cbn; [done|].
  split; intros [Hp Hk]; (split; [done|]); intros x; by apply IH, Hk.
Qed.

Lemma wp_seq {A B} (p : prog A) (f : A -> prog B) g Q R :
  wp L p g R -> (forall a g, R a g -> wp L (f a) g Q) -> wp L (p ≫= f) g Q.
Proof. intros Hp Hf. apply wp_bind. eapply wp_mono; [exact Hp|exact Hf]. Qed.

Lemma wp_perform {X} (e : Effect X) g Q : pre e g -> (forall x, Q x (upd e x g)) -> wp L (perform e) g Q.
Proof. done. Qed.

Lemma wp_ret {A} (a : A) g Q : Q a g -> wp L (mret a) g Q.
Proof. done. Qed.

Lemma wp_try {E A B} (p : prog (result E A)) (f : A -> prog (result E B)) g Q :
  wp L p g (fun r g => match r with Ok a => wp L (f a) g Q | Err e => Q (Err e) g end) -> wp L (try p f) g Q.
Proof. intros Hp. apply wp_bind. eapply wp_mono; [exact Hp|]. by intros [a|e] g'. Qed.
End logic.

Section sound.
Context `{Base64Standard} `{CryptoCrates} (pipe_error_text : NamedPipeError -> rstr) (windows_error_text : Hresult -> rstr).

(** The programs the process is made of respect the logic. *)
Class Verified (L : Logic) : Prop := {
  verified_main : wp L (main windows_error_text) (start Main) (fun _ _ => True);
  verified_callback message wparam lparam :
    wp L (window_proc_inner pipe_error_text windows_error_text message wparam lparam) (start Callback) (fun _ _ => True);
  verified_thread : wp L update_check_thread (start CheckThread) (fun _ _ => True);
  verified_default g : pre (l := L) DefWindowProc g
}.

Notation step := (tray_step pipe_error_text windows_error_text).
Notation reachable := (tray_reachable pipe_error_text windows_error_text).

Lemma respects_effect L role trace X (e : Effect X) k x :
  respects L (Ag role trace (Do e k)) -> respects L (Ag role (Ev e x :: trace) (k x)).
Proof. intros [_ Hk]. apply Hk. Qed.

Lemma spawned_respects L `{!Verified L} {X} (e : Effect X) x : Forall (respects L) (spawned e x).
Proof.
  destruct e; cbn; try constructor. destruct x; constructor; [|constructor]. apply verified_thread.
Qed.

(** In every reachable state every agent respects a verified logic. *)
Lemma logic_sound L `{!Verified L} s : reachable s -> Forall (respects L) (agents s).
Proof.
  induction 1 as [|s s' _ IH Hs].
  - constructor; [apply verified_main|constructor].
  - unfold agents in *. destruct Hs; cbn [sy_frames sy_threads dead] in *; try by constructor.
    + constructor; [apply verified_callback|done].
    + cbn [app] in *. apply Forall_cons in IH as [Ha IH]. apply Forall_app in IH as [Hf Ht].
      constructor; [by apply respects_effect|]. rewrite !Forall_app. split_and!; [done|by apply spawned_respects|done].
    + by apply Forall_cons in IH as [_ IH].
    + cbn [app] in *. apply Forall_cons in IH as [_ IH]. constructor; [|done]. split; [apply verified_default|done].
    + rewrite !Forall_app, Forall_cons in IH. destruct IH as (Hf & Hb & Ha & Hr).
      rewrite !Forall_app, Forall_cons. split_and!; [done|by apply spawned_respects|done|by apply respects_effect|done].
    + rewrite !Forall_app, Forall_cons in IH. rewrite !Forall_app. tauto.
Qed.
End sound.

(** A program that keeps a property of the ghost value. *)
Definition keeps (L : Logic) (I : ghost L -> Prop) {A} (p : prog A) : Prop := forall g, I g -> wp L p g (fun _ g => I g).

Section keeps.
Context {L : Logic} {I : ghost L -> Prop}.

Lemma keeps_ret {A} (a : A) : keeps L I (mret a).
Proof. by intros g Hg. Qed.

Lemma keeps_bind {A B} (p : prog A) (f : A -> prog B) : keeps L I p -> (forall a, keeps L I (f a)) -> keeps L I (p ≫= f).
Proof. intros Hp Hf g Hg. eapply wp_seq; [by apply Hp|]. intros a g' Hg'. by apply Hf. Qed.

Lemma keeps_try {E A B} (p : prog (result E A)) (f : A -> prog (result E B)) :
  keeps L I p -> (forall a, keeps L I (f a)) -> keeps L I (try p f).
Proof. intros Hp Hf. apply keeps_bind; [done|]. intros [a|e]; [apply Hf|apply keeps_ret]. Qed.

Lemma keeps_perform {X} (e : Effect X) : (forall g, I g -> pre e g /\ forall x, I (upd e x g)) -> keeps L I (perform e).
Proof. intros He g Hg. by apply He. Qed.
End keeps.

(** Goes through a program down to effects and functions known to the hints. *)
Ltac keep :=
  repeat match goal with
  | |- keeps _ _ (mret _) => apply keeps_ret
  | |- keeps _ _ (mbind _ _) => apply keeps_bind; [|intros ?]
  | |- keeps _ _ (try _ _) => apply keeps_try; [|intros ?]
  | |- keeps _ _ (match ?x with _ => _ end) => destruct x
  | |- keeps _ _ (let _ := _ in _) => cbv zeta
  | |- keeps _ _ _ => solve [auto with tray]
  end.
Create HintDb tray discriminated.
#[export] Hint Constants Opaque : tray.

(** The balloons that wait are bounded. *)
Definition routes_ok (s : Statics) : Prop := (length (br_pending (st_routes s)) <= MAX_PENDING_BALLOON_ROUTES)%nat.

(** Effects that neither take part in the flags nor in updates. *)
Definition benign {X} (e : Effect X) : Prop :=
  match e with
  | Access f => forall s, routes_ok s -> routes_ok (f s).2
  | PipeRequest r => match rq_command r with InstallUpdate _ => False | _ => True end
  | NotifyIcon (NC_Balloon title _) => title <> UPDATE_TITLE
  | AppendMenu id _ => id <> MENU_UPDATE
  | TryAcquire _ | Release _ | SpawnCheck | FetchFeed | ShellExecute _ | PostUpdateAvailable => False
  | _ => True
  end.

(** A property of ghost values that benign effects do not touch. *)
Class Ignores (L : Logic) (I : ghost L -> Prop) : Prop :=
  ignores : forall {X} (e : Effect X) g, benign e -> I g -> pre e g /\ forall x, I (upd e x g).
#[export] Hint Extern 0 (Ignores _ _) => typeclasses eauto : tray.

Section benign.
Context {L : Logic} {I : ghost L -> Prop} `{!Ignores L I}.
Notation kept p := (keeps L I p).

Lemma kept_perform {X} (e : Effect X) : benign e -> kept (perform e).
Proof. intros He. apply keeps_perform. intros g Hg. by apply ignores. Qed.
#[local] Hint Extern 1 (keeps _ _ (perform _)) => (apply kept_perform; solve [done | vm_compute; discriminate]) : tray.

Lemma kept_load {R} (f : Statics -> R) : kept (load f).
Proof. apply kept_perform. by intros s Hs. Qed.
Lemma kept_access {R} (f : Statics -> R * Statics) : (forall s, st_routes (f s).2 = st_routes s) -> kept (access f).
Proof. intros Hf. apply kept_perform. intros s. cbn. unfold routes_ok. by rewrite Hf. Qed.
Lemma kept_store f : (forall s, st_routes (f s) = st_routes s) -> kept (store f).
Proof. intros Hf. by apply kept_access. Qed.
#[local] Hint Resolve kept_load : tray.
#[local] Hint Extern 1 (keeps _ _ (access _)) => (apply kept_access; done) : tray.
#[local] Hint Extern 1 (keeps _ _ (store _)) => (apply kept_store; done) : tray.

Lemma kept_routes {T} (action : BalloonRouteState -> T * BalloonRouteState) :
  (forall r, (length (br_pending r) <= MAX_PENDING_BALLOON_ROUTES)%nat ->
     (length (br_pending (action r).2) <= MAX_PENDING_BALLOON_ROUTES)%nat) ->
  kept (with_balloon_routes action).
Proof.
  intros Ha. apply kept_perform. intros s Hs. specialize (Ha _ Hs). unfold routes_ok. cbn.
  by destruct (action (st_routes s)) as [t r].
Qed.

Lemma kept_send_request c : (forall p, c <> InstallUpdate p) -> kept (send_request c).
Proof.
  intros Hc. unfold send_request. keep. apply kept_perform. cbn. by destruct c; try done; destruct (Hc package).
Qed.
#[local] Hint Extern 1 (keeps _ _ (send_request _)) => (apply kept_send_request; intros ?; discriminate) : tray.

Lemma kept_fetch : kept fetch_service_status.
Proof. unfold fetch_service_status. keep. Qed.
#[local] Hint Resolve kept_fetch : tray.

Lemma kept_setting : kept automatic_update_setting.
Proof. unfold automatic_update_setting. keep. Qed.
Lemma kept_tooltip : kept fetch_status_tooltip.
Proof. unfold fetch_status_tooltip. keep. Qed.
Lemma kept_running : kept backup_is_running.
Proof. unfold backup_is_running. keep. Qed.
#[local] Hint Resolve kept_setting kept_tooltip kept_running : tray.

Lemma kept_reserve d : kept (with_balloon_routes (reserve d)).
Proof.
  apply kept_routes. intros r Hr. unfold reserve. destruct (Nat.leb_spec MAX_PENDING_BALLOON_ROUTES (length (br_pending r))); [done|].
  cbn. rewrite length_app. cbn. lia.
Qed.
Lemma kept_cancel : kept (with_balloon_routes cancel_latest).
Proof.
  apply kept_routes. intros r Hr. cbn. rewrite removelast_firstn_len, length_take. lia.
Qed.
Lemma kept_shown : kept (with_balloon_routes shown).
Proof. apply kept_routes. intros r Hr. unfold shown. destruct (br_pending r) eqn:E; cbn in *; [by rewrite E|lia]. Qed.
Lemma kept_dismissed : kept (with_balloon_routes dismissed).
Proof.
  apply kept_routes. intros r Hr. unfold dismissed. destruct (br_active r); cbn; [done|]. destruct (br_pending r); cbn in *; lia.
Qed.
Lemma kept_clicked : kept (with_balloon_routes clicked).
Proof.
  apply kept_routes. intros r Hr. unfold clicked. destruct (br_active r); cbn; [done|].
  destruct (br_pending r) eqn:E; cbn in *; [by rewrite E|lia].
Qed.
Lemma kept_clear : kept (with_balloon_routes clear).
Proof. apply kept_routes. intros r Hr. cbn. lia. Qed.
#[local] Hint Resolve kept_reserve kept_cancel kept_shown kept_dismissed kept_clicked kept_clear : tray.

Lemma kept_notification title message d : title <> UPDATE_TITLE -> kept (show_tray_notification title message d).
Proof. intros Ht. unfold show_tray_notification. keep. Qed.
#[local] Hint Extern 1 (keeps _ _ (show_tray_notification _ _ _)) =>
  (apply kept_notification; vm_compute; discriminate) : tray.

Lemma kept_error t : kept (show_error t).
Proof. unfold show_error. keep. Qed.
Lemma kept_remove : kept remove_tray_icon.
Proof. unfold remove_tray_icon. keep. Qed.
Lemma kept_refresh : kept refresh_tray_status.
Proof. unfold refresh_tray_status. keep. Qed.
Lemma kept_retry : kept retry_silently.
Proof. unfold retry_silently, store_update_available, schedule_update_retry, schedule_update_retry_after. keep. Qed.
Lemma kept_tick : kept next_tick.
Proof. unfold next_tick. keep. Qed.
#[local] Hint Resolve kept_error kept_remove kept_refresh kept_retry kept_tick : tray.

Lemma kept_add : kept add_tray_icon.
Proof. unfold add_tray_icon. keep. Qed.
Lemma kept_monitor b o : kept (start_backup_status_monitor b o).
Proof. unfold start_backup_status_monitor. keep. Qed.
Lemma kept_finish title m : title <> UPDATE_TITLE -> kept (finish_backup_status_monitor title m).
Proof. intros Ht. unfold finish_backup_status_monitor. keep. by apply kept_notification. Qed.
#[local] Hint Resolve kept_add kept_monitor : tray.
#[local] Hint Extern 1 (keeps _ _ (finish_backup_status_monitor _ _)) => (apply kept_finish; vm_compute; discriminate) : tray.

Lemma kept_report status ticks : kept (report_backup_status status ticks).
Proof. unfold report_backup_status. keep. Qed.
#[local] Hint Resolve kept_report : tray.
Lemma kept_poll : kept poll_backup_status.
Proof. unfold poll_backup_status, backup_monitor_timed_out. keep. Qed.

Lemma kept_backup_action text c : (forall p, c <> InstallUpdate p) -> kept (send_backup_action text c).
Proof.
  intros Hc. unfold send_backup_action. keep; first [by apply kept_send_request|apply kept_notification; by destruct c].
Qed.
#[local] Hint Resolve kept_poll : tray.
End benign.

(** The functions of the window procedure that a logic has to treat itself. *)
Class Handles (L : Logic) (I : ghost L -> Prop) : Prop := {
  handles_launch d : d <> Dest_Updates -> keeps L I (launch_ui d);
  handles_check : keeps L I start_update_check;
  handles_user : keeps L I handle_user_update_request;
  handles_announce : keeps L I announce_update;
  handles_items running : keeps L I (update_available ← offers_update; append_items update_available running)
}.

Section handled.
Context {L : Logic} {I : ghost L -> Prop} `{!Ignores L I} `{!Handles L I}.
Context (pipe_error_text : NamedPipeError -> rstr) (windows_error_text : Hresult -> rstr).
Notation kept p := (keeps L I p).
#[local] Hint Extern 1 (keeps _ _ (perform _)) => (apply kept_perform; solve [done | vm_compute; discriminate]) : tray.
#[local] Hint Extern 1 (keeps _ _ (access _)) => (apply kept_access; done) : tray.
#[local] Hint Extern 1 (keeps _ _ (store _)) => (apply kept_store; done) : tray.
#[local] Hint Extern 1 (keeps _ _ (send_request _)) => (apply kept_send_request; intros ?; discriminate) : tray.
#[local] Hint Extern 1 (keeps _ _ (launch_ui _)) => (apply handles_launch; discriminate) : tray.
#[local] Hint Resolve kept_load kept_running kept_shown kept_dismissed kept_clicked kept_clear kept_error kept_remove
  kept_add kept_poll handles_check handles_user handles_announce : tray.

Lemma kept_onboarding : kept maybe_launch_onboarding.
Proof. unfold maybe_launch_onboarding. keep. Qed.

Lemma kept_menu_command running command : kept (menu_command pipe_error_text running command).
Proof. unfold menu_command. keep; apply kept_backup_action; by destruct running. Qed.
#[local] Hint Resolve kept_onboarding kept_menu_command : tray.

Lemma kept_context_menu : kept (show_context_menu pipe_error_text).
Proof.
  unfold show_context_menu, context_menu_body. apply keeps_try; [auto with tray|intros _]. apply keeps_bind; [|intros; keep].
  apply keeps_bind; [auto with tray|]. intros running. cbv zeta. set (b := match running with Ok _ => _ | Err _ => _ end).
  intros g Hg. apply wp_bind. pose proof (handles_items b g Hg) as Hi. apply wp_bind in Hi.
  eapply wp_mono; [exact Hi|]. cbn beta. intros u g' Hu. apply wp_bind. eapply wp_mono; [exact Hu|]. cbn beta.
  intros [[]|e] g'' Hg''; [|done]. revert g'' Hg''. change (kept (try (perform GetCursorPos) (fun _ =>
    _ ← perform SetForegroundWindow; command ← perform TrackPopupMenu; menu_command pipe_error_text b command))). keep.
Qed.
#[local] Hint Resolve kept_context_menu : tray.

Lemma kept_callback lparam : kept (tray_callback pipe_error_text windows_error_text lparam).
Proof. unfold tray_callback. keep. Qed.
#[local] Hint Resolve kept_callback : tray.

Lemma kept_window_proc m w l : kept (window_proc_inner pipe_error_text windows_error_text m w l).
Proof. unfold window_proc_inner. keep. Qed.

Lemma kept_exit {A} : kept (exit (A := A)).
Proof. intros g Hg. split; [by apply (ignores Exit)|intros []]. Qed.

Lemma kept_main : kept (main windows_error_text).
Proof. unfold main, run. keep; apply kept_exit. Qed.

Lemma handled_verified `{Base64Standard} `{CryptoCrates} :
  I (start Main) -> I (start Callback) -> wp L update_check_thread (start CheckThread) (fun _ _ => True) ->
  (forall g, pre (l := L) DefWindowProc g) -> Verified pipe_error_text windows_error_text L.
Proof.
  intros Hm Hc Ht Hd. split; [|intros|done|done]; (eapply wp_mono; [|done]); [by apply kept_main|by apply kept_window_proc].
Qed.
End handled.

(** Effects that a logic treats by computation. *)
Ltac keep_leaf := apply keeps_perform; intros ? ?; cbn in *; split; [done|intros ?; cbn in *; done].

(** ** The waiting balloons *)
Definition routes : Logic := {|
  ghost := unit; start _ := tt; upd X e x g := g;
  pre X e _ := match e with Access f => forall s, routes_ok s -> routes_ok (f s).2 | _ => True end
|}.

Section balloons.
Notation kept p := (keeps routes (fun _ => True) p).

#[export] Instance routes_ignores : Ignores routes (fun _ => True).
Proof. intros X e g He _. split; [|done]. by destruct e. Qed.

#[local] Hint Extern 2 (keeps _ _ (perform _)) => keep_leaf : tray.
#[local] Hint Extern 1 (keeps _ _ (store _)) => (apply kept_store; done) : tray.
#[local] Hint Resolve kept_load kept_setting kept_error kept_retry kept_reserve kept_cancel : tray.

Lemma routes_launch d : kept (launch_ui d).
Proof. unfold launch_ui. keep. Qed.
Lemma routes_panic {A} : kept (panic (A := A)).
Proof. intros g Hg. split; [done|intros []]. Qed.
#[local] Hint Resolve routes_launch routes_panic : tray.
Lemma routes_check : kept start_update_check.
Proof. unfold start_update_check. keep. Qed.
#[local] Hint Resolve routes_check : tray.
Lemma routes_silently : kept check_update_silently.
Proof. unfold check_update_silently, store_update_available, schedule_update_retry, schedule_update_retry_after. keep. Qed.
#[local] Hint Resolve routes_silently : tray.

#[export] Instance routes_handles : Handles routes (fun _ => True).
Proof.
  split; [intros d _; apply routes_launch|apply routes_check|..].
  - unfold handle_user_update_request. keep.
  - unfold announce_update, show_update_notification, show_tray_notification. keep.
  - intros running. unfold offers_update, append_items. keep.
Qed.
End balloons.

(** ** Who holds the two flags *)
Definition own (l : Flag) : Logic := {|
  ghost := bool;
  start role := bool_decide (l = Checking /\ role = CheckThread);
  upd X e :=
    match e in Effect X return X -> bool -> bool with
    | TryAcquire l' => fun acquired g => if bool_decide (l' = l) then acquired else g
    | Release l' => fun _ g => if bool_decide (l' = l) then false else g
    | SpawnCheck => fun _ g => if bool_decide (l = Checking) then false else g
    | _ => fun _ g => g
    end;
  pre X e g :=
    match e with
    | TryAcquire l' => l' = l -> g = false
    | Release l' => l' = l -> g = true
    | ShellExecute _ => l = Launching -> g = true
    | FetchFeed | SpawnCheck => l = Checking -> g = true
    | _ => True
    end
|}.

#[export] Instance own_ignores l b : Ignores (own l) (fun g => g = b).
Proof. intros X e g He ->. by destruct e. Qed.

Section ownership.
Context (l : Flag).
Notation kept p := (keeps (own l) (fun g => g = false) p).

#[local] Hint Extern 2 (keeps _ _ (perform _)) => keep_leaf : tray.
#[local] Hint Extern 1 (keeps _ _ (store _)) => (apply kept_store; done) : tray.
#[local] Hint Resolve kept_load kept_setting kept_error kept_retry kept_reserve kept_cancel : tray.

(** The guard is held exactly around the call. *)
Lemma own_launch d : kept (launch_ui d).
Proof.
  unfold launch_ui. destruct (decide (l = Launching)) as [->|Hl].
  - intros g ->. apply wp_bind, wp_perform; [done|]. intros [|]; [|done]. cbn [upd own negb].
    eapply wp_seq with (R := fun _ g => g = true); [|by intros a g ->; split].
    match goal with |- wp _ ?p _ _ => assert (keeps (own Launching) (fun g => g = true) p) as Hk by keep end. by apply Hk.
  - destruct l; [done|]. keep.
Qed.

Lemma own_check : kept start_update_check.
Proof. intros g ->. destruct l; (split; [done|]); intros [|]; try done; (split; [done|]); intros [|]; try done; (split; [done|intros []]). Qed.
#[local] Hint Resolve own_launch own_check : tray.
Lemma own_silently : kept check_update_silently.
Proof. unfold check_update_silently, store_update_available, schedule_update_retry, schedule_update_retry_after. keep. Qed.
#[local] Hint Resolve own_silently : tray.

#[export] Instance own_handles : Handles (own l) (fun g => g = false).
Proof.
  split; [intros d _; apply own_launch|apply own_check|..].
  - unfold handle_user_update_request. keep.
  - unfold announce_update, show_update_notification, show_tray_notification. keep.
  - intros running. unfold offers_update, append_items. keep.
Qed.
End ownership.

Section exclusion.
Context `{Base64Standard} `{CryptoCrates} (pipe_error_text : NamedPipeError -> rstr) (windows_error_text : Hresult -> rstr).
Notation reachable := (tray_reachable pipe_error_text windows_error_text).

#[local] Hint Extern 2 (keeps _ _ (perform _)) => keep_leaf : tray.
#[local] Hint Extern 1 (keeps _ _ (store _)) => (apply kept_store; done) : tray.
#[local] Hint Extern 1 (keeps _ _ (access _)) => (apply kept_access; done) : tray.
#[local] Hint Resolve kept_setting : tray.

Lemma own_thread l : wp (own l) update_check_thread (start CheckThread) (fun _ _ => True).
Proof.
  assert (forall b get, keeps (own l) (fun g => g = b)
    match check_for_update get with
    | Some (UC_Available package) =>
        setting ← automatic_update_setting;
        match available_update_action setting with
        | RequestSilentInstall =>
            _ ← store_update_available false;
            accepted ← request_automatic_update package;
            schedule_update_retry_after (automatic_update_follow_up_interval accepted)
        | Prompt =>
            _ ← store_update_available true;
            now ← perform SystemNow;
            due ← record_update_prompt_if_due now;
            if (due : bool) then perform PostUpdateAvailable else mret ()
        | AA_RetrySilently => _ ← store_update_available false; schedule_update_retry
        end
    | Some UC_Current => store_update_available false
    | None => mret ()
    end) as Hbody.
  { intros b get. unfold store_update_available, request_automatic_update, send_request, record_update_prompt_if_due,
      schedule_update_retry, schedule_update_retry_after. keep. }
  unfold update_check_thread. destruct l.
  - eapply wp_mono with (Q := fun _ g => g = false); [|done].
    apply wp_bind, wp_perform; [done|]. intros get. eapply wp_seq; [by apply Hbody|]. by intros ? g ->.
  - apply wp_bind, wp_perform; [done|]. intros get. eapply wp_seq; [by apply (Hbody true)|]. by intros ? g ->.
Qed.

#[export] Instance own_verified l : Verified pipe_error_text windows_error_text (own l).
Proof. apply (handled_verified (L := own l) (I := fun g => g = false)); [by destruct l..|apply own_thread|done]. Qed.

Definition holds (l : Flag) (a : Agent) : nat := Nat.b2n (ghost_of (own l) a).
Definition holders (l : Flag) (l0 : list Agent) : nat := sum_list_with (holds l) l0.

Lemma own_effect l {X} (e : Effect X) x g sh rest :
  pre (l := own l) e g -> (Nat.b2n g + rest <= Nat.b2n (flag l sh))%nat ->
  (Nat.b2n (upd (l := own l) e (effect e x sh).1 g) + (holders l (spawned e (effect e x sh).1) + rest)
   <= Nat.b2n (flag l (effect e x sh).2))%nat.
Proof.
  intros Hp Hc. destruct l, e; cbn in *; try lia; try (destruct (f _); cbn; lia).
  all: try destruct x; repeat (case_bool_decide; simplify_eq); try specialize (Hp eq_refl); subst; cbn in *.
  all: try (destruct (sh_launching sh)); try (destruct (sh_checking sh)); cbn in *; try lia; done.
Qed.

Lemma holds_effect l role trace {X} (e : Effect X) x k p :
  holds l (Ag role (Ev e x :: trace) p) = Nat.b2n (upd (l := own l) e x (ghost_of (own l) (Ag role trace (Do e k)))).
Proof. done. Qed.

(** Each flag has at most one holder, and none when it is clear. *)
Lemma flag_holders l s : reachable s -> (holders l (agents s) <= Nat.b2n (flag l (sy_shared s)))%nat.
Proof.
  intros Hr. induction Hr as [|s s' Hr IH Hs]; [by destruct l|].
  pose proof (logic_sound pipe_error_text windows_error_text (own l) s Hr) as Hl.
  unfold agents, holders in *. destruct Hs; cbn [sy_frames sy_threads sy_shared app sum_list_with] in *; rewrite ?sum_list_with_app in *.
  - enough (holds l (Ag Callback [] (window_proc_inner pipe_error_text windows_error_text message wparam lparam)) = 0%nat) by lia.
    by destruct l.
  - apply Forall_cons in Hl as [[Hp _] _].
    pose proof (own_effect l e x _ sh _ Hp IH) as He. unfold holders in He. rewrite (holds_effect _ _ _ _ _ k). lia.
  - lia.
  - done.
  - cbn. lia.
  - cbn. lia.
  - cbn. lia.
  - cbn [sum_list_with] in *. apply Forall_app in Hl as [_ Hl]. apply Forall_app in Hl as [_ Hl]. apply Forall_cons in Hl as [[Hp _] _].
    pose proof (own_effect l e x _ sh
      (sum_list_with (holds l) frames + sum_list_with (holds l) before + sum_list_with (holds l) after)%nat Hp) as He.
    unfold holders in He. rewrite (holds_effect _ _ _ _ _ k). change (Nat.b2n (ghost_of (own l) (Ag role trace (Do e k))))
      with (holds l (Ag role trace (Do e k))) in He. lia.
  - cbn [sum_list_with] in *. lia.
Qed.

(** At the elevation prompt, and downloading the feed. *)
Definition prompting (a : Agent) : bool := match ag_prog a with Do (ShellExecute _) _ => true | _ => false end.
Definition fetching (a : Agent) : bool := match ag_prog a with Do FetchFeed _ => true | _ => false end.

Lemma sum_le (f g : Agent -> nat) l : Forall (fun a => (f a <= g a)%nat) l -> (sum_list_with f l <= sum_list_with g l)%nat.
Proof. induction 1; cbn; lia. Qed.

Lemma flag_exclusive l (at_work : Agent -> bool) s :
  (forall a, respects (own l) a -> at_work a = true -> ghost_of (own l) a = true) -> reachable s ->
  (sum_list_with (fun a => Nat.b2n (at_work a)) (agents s) <= 1)%nat.
Proof.
  intros Hw Hr. pose proof (flag_holders l s Hr) as Hf. unfold holders in Hf.
  assert (sum_list_with (fun a => Nat.b2n (at_work a)) (agents s) <= sum_list_with (holds l) (agents s))%nat.
  { apply sum_le. eapply Forall_impl; [exact (logic_sound pipe_error_text windows_error_text (own l) s Hr)|].
    intros a Ha. specialize (Hw a Ha). unfold holds. destruct (at_work a); cbn; [rewrite Hw by done; done|lia]. }
  destruct (flag l (sy_shared s)); cbn in Hf; lia.
Qed.

(** Whatever messages arrive, also while Windows shows its consent
    prompt, a menu or an error, at most one activation of the tray's window
    procedure is waiting for the settings window to be launched with
    elevation, and at most one thread at a time is downloading the update feed. *)
Theorem one_prompt_one_check (s : System) (Hs : reachable s) :
  (sum_list_with (fun a => Nat.b2n (prompting a)) (agents s) <= 1)%nat
  /\ (sum_list_with (fun a => Nat.b2n (fetching a)) (agents s) <= 1)%nat.
Proof.
  split; [apply (flag_exclusive Launching)|apply (flag_exclusive Checking)]; try done; intros [role trace p] Hp Hw; cbn in Hw.
  - destruct p as [|X e k]; [done|]. destruct e; try done. destruct Hp as [Hp _]. by apply Hp.
  - destruct p as [|X e k]; [done|]. destruct e; try done. destruct Hp as [Hp _]. by apply Hp.
Qed.

#[export] Instance routes_verified : Verified pipe_error_text windows_error_text routes.
Proof.
  apply (handled_verified (L := routes) (I := fun _ => True)); [done..| |done].
  unfold update_check_thread, store_update_available, request_automatic_update, send_request, record_update_prompt_if_due,
      schedule_update_retry, schedule_update_retry_after. eapply wp_mono; [|done].
  match goal with |- wp _ ?p _ _ => assert (keeps routes (fun _ => True) p) as Hk by keep end. by apply Hk.
Qed.

Lemma routes_effect {X} (e : Effect X) x sh :
  pre (l := routes) e tt -> routes_ok (sh_statics sh) -> routes_ok (sh_statics (effect e x sh).2).
Proof. intros Hp Hs. destruct e; try done. cbn in *. specialize (Hp _ Hs). by destruct (f (sh_statics sh)). Qed.

(** C36: at most sixteen balloons ever wait to be shown, whatever the shell
    reports and in whatever order. *)
Theorem waiting_balloons_bounded (s : System) (Hs : reachable s) :
  (length (br_pending (st_routes (sh_statics (sy_shared s)))) <= MAX_PENDING_BALLOON_ROUTES)%nat.
Proof.
  induction Hs as [|s s' Hr IH Hs]; [cbn; lia|].
  pose proof (logic_sound pipe_error_text windows_error_text routes s Hr) as Hl. unfold agents in Hl.
  destruct Hs; cbn [sy_frames sy_threads sy_shared dead] in *; try done.
  - apply Forall_cons in Hl as [[Hp _] _]. by apply routes_effect; [destruct (ghost_of _ _)|].
  - rewrite !Forall_app, Forall_cons in Hl. destruct Hl as (_ & _ & [Hp _] & _).
    by apply routes_effect; [destruct (ghost_of _ _)|].
Qed.
End exclusion.

(** ** What an agent has asked and learnt *)
Definition asks {X} (e : Effect X) : X -> list Obs :=
  match e in Effect X return X -> list Obs with
  | PipeRequest r => fun answer => [O_Request r answer]
  | FetchFeed => fun get => [O_Feed get]
  | _ => fun _ => []
  end.

(** The last answer an agent got says how updates are to be installed. *)
Definition told (setting : AutomaticUpdateSetting) (g : list Obs) : Prop :=
  exists r answer, hd_error g = Some (O_Request r answer) /\ rq_command r = GetUpdateSettings
    /\ setting_of_response answer = setting.

Section updates.
Context `{Base64Standard} `{CryptoCrates} (pipe_error_text : NamedPipeError -> rstr) (windows_error_text : Hresult -> rstr).
Notation reachable := (tray_reachable pipe_error_text windows_error_text).

(** The agent found this package in a feed it downloaded. *)
Definition found (p : UpdatePackage) (g : list Obs) : Prop :=
  exists get, O_Feed get ∈ g /\ check_for_update get = Some (UC_Available p).

Definition history : Logic := {|
  ghost := list Obs; start _ := []; upd X e x g := asks e x ++ g;
  pre X e g :=
    match e with
    | PipeRequest r => forall p, rq_command r = InstallUpdate p -> told AU_Enabled g /\ found p g
    | NotifyIcon (NC_Balloon title _) => title = UPDATE_TITLE -> told AU_Disabled g
    | ShellExecute arguments => arguments = lit "--updates" -> told AU_Disabled g
    | AppendMenu id _ => id = MENU_UPDATE -> told AU_Disabled g
    | PostUpdateAvailable => told AU_Disabled g
    | _ => True
    end
|}.

#[export] Instance history_ignores : Ignores history (fun _ => True).
Proof.
  intros X e g He _. split; [|done]. destruct e; try done; cbn in *.
  - intros p Hp. by rewrite Hp in He.
  - by destruct call.
  - by intros ->.
Qed.

(** Asking for the setting leaves its answer as the last one. *)
Lemma history_setting g : wp history automatic_update_setting g (fun setting g' =>
  told setting g' /\ exists o, g' = o :: g).
Proof. split; [done|]. intros id. split; [done|]. intros answer. split; [|by eexists]. by eexists _, _. Qed.

#[local] Hint Extern 2 (keeps _ _ (perform _)) => keep_leaf : tray.
#[local] Hint Extern 1 (keeps _ _ (store _)) => (apply kept_store; done) : tray.
#[local] Hint Resolve kept_error kept_retry : tray.

Lemma history_launch d : d <> Dest_Updates -> keeps history (fun _ => True) (launch_ui d).
Proof. intros Hd. unfold launch_ui. keep. apply keeps_perform. intros g _. split; [|done]. by destruct d. Qed.

Lemma history_launch_manual d : keeps history (told AU_Disabled) (launch_ui d).
Proof. unfold launch_ui, show_error. keep. Qed.

Lemma history_check : keeps history (fun _ => True) start_update_check.
Proof. unfold start_update_check. keep. intros g _. by split; [|intros []]. Qed.
#[local] Hint Resolve history_check : tray.
Lemma history_silently : keeps history (fun _ => True) check_update_silently.
Proof. unfold check_update_silently, store_update_available, schedule_update_retry, schedule_update_retry_after. keep. Qed.

(** A user-visible step after the question, when the answer was to ask the user. *)
Lemma history_user {A} (manual silent retry : prog A) :
  keeps history (told AU_Disabled) manual -> keeps history (fun _ => True) silent -> keeps history (fun _ => True) retry ->
  keeps history (fun _ => True)
    (setting ← automatic_update_setting;
     match user_update_action setting with OpenManualUi => manual | CheckSilently => silent | UA_RetrySilently => retry end).
Proof.
  intros Hm Hs Hr g _. eapply wp_seq; [apply history_setting|]. intros setting g' [Ht _].
  destruct setting; cbn; [by apply Hs| |by apply Hr]. eapply wp_mono; [by apply Hm|done].
Qed.

#[export] Instance history_handles : Handles history (fun _ => True).
Proof.
  split; [apply history_launch|apply history_check|..].
  - apply history_user; [|apply history_silently|apply kept_retry].
    apply keeps_bind; [apply history_launch_manual|intros; apply keeps_ret].
  - apply history_user; [|apply history_silently|apply kept_retry].
    unfold show_update_notification, show_tray_notification, with_balloon_routes, access. keep.
  - intros running g _. eapply wp_seq with (R := fun b g => b = true -> told AU_Disabled g).
    + unfold offers_update. eapply wp_seq with (R := fun _ _ => True); [done|]. intros [|] g0 _; [|done].
      eapply wp_seq; [apply history_setting|]. intros setting g' [Ht _]. destruct setting; cbn [user_update_action]; [|by intros _|].
      all: eapply wp_seq; [first [by apply history_silently|by apply kept_retry]|done].
    + intros b g' Hb. unfold append_items. apply wp_try, wp_perform; [done|]. intros [|]; [|done]. apply wp_try.
      eapply wp_mono with (Q := fun _ _ => True); [destruct b; [split; [by intros _; apply Hb|done]|done]|].
      intros [|] g'' _; [|done]. match goal with |- wp _ ?p _ _ => assert (keeps history (fun _ => True) p) as Hk by keep end.
      by apply Hk.
Qed.

Lemma history_thread : wp history update_check_thread (start CheckThread) (fun _ _ => True).
Proof.
  unfold update_check_thread. apply wp_bind, wp_perform; [done|]. intros get. cbn [upd history asks app start].
  eapply wp_seq with (R := fun _ _ => True); [|done]. destruct (check_for_update get) as [[|p]|] eqn:Hc; [done| |done].
  eapply wp_seq; [apply history_setting|]. intros setting g [Ht [o ->]]. destruct setting; cbn [available_update_action].
  - apply wp_bind. split; [done|]. intros []. apply wp_bind. unfold request_automatic_update, send_request.
    apply wp_bind, wp_bind. split; [done|]. intros id. split; [|done]. intros q [= <-]. split; [done|].
    exists get. split; [|done]. by apply elem_of_cons; right; apply list_elem_of_singleton.
  - apply wp_bind. split; [done|]. intros []. apply wp_bind, wp_perform; [done|]. intros now. cbn [upd history asks app].
    assert (keeps history (told AU_Disabled) (record_update_prompt_if_due now)) as Hd.
    { unfold record_update_prompt_if_due. keep. }
    eapply wp_seq; [by apply Hd|]. intros [|] g Hg; [|done]. by split.
  - by apply kept_retry.
Qed.

#[export] Instance history_verified : Verified pipe_error_text windows_error_text history.
Proof. apply (handled_verified (L := history) (I := fun _ => True)); [done..|apply history_thread|done]. Qed.

(** What an agent has asked the service and the feed, newest first. *)
Definition asked (a : Agent) : list Obs := ghost_of history a.
Definition next_request (a : Agent) : option Request :=
  match ag_prog a with Do (PipeRequest r) _ => Some r | _ => None end.

(** About to put an update before the user: as a balloon, as a menu item, by
    opening the settings at the updates, or by asking the window to. *)
Definition invites (a : Agent) : bool :=
  match ag_prog a with
  | Do (NotifyIcon (NC_Balloon title _)) _ => bool_decide (title = UPDATE_TITLE)
  | Do (AppendMenu id _) _ => id =? MENU_UPDATE
  | Do (ShellExecute arguments) _ => bool_decide (arguments = lit "--updates")
  | Do PostUpdateAvailable _ => true
  | _ => false
  end.

(** C16: in every reachable state of the tray, whatever is about to ask the
    service to install a package has just been told by the service that
    automatic installation is on, and found exactly that package in a feed
    document with the release key's signature, newer than the running version. *)
Theorem silent_installs_are_signed (s : System) (a : Agent) (r : Request) (p : UpdatePackage)
    (Hs : reachable s) (Ha : a ∈ agents s) (Hr : next_request a = Some r) (Hp : rq_command r = InstallUpdate p) :
  told AU_Enabled (asked a)
  /\ exists get source, O_Feed get ∈ asked a /\ source ∈ UPDATE_APPCAST_SOURCES /\ announces get source p.
Proof.
  pose proof (proj1 (Forall_forall _ _) (logic_sound pipe_error_text windows_error_text history s Hs) a Ha) as Hw.
  unfold respects, next_request, asked in *. destruct (ag_prog a) as [|X e k]; [done|]. destruct e; try done.
  injection Hr as ->. destruct Hw as [Hw _]. destruct (Hw p Hp) as [Ht (get & Hin & Hc)]. split; [done|].
  apply check_for_update_available in Hc as (before & source & after & E & Hc & _).
  exists get, source. split_and!; [done| |done]. rewrite E. apply elem_of_app. right. by apply elem_of_cons; left.
Qed.

(** In every reachable state of the tray, whatever is about to put an
    update before the user has just been told by the service that automatic
    installation is off. *)
Theorem users_asked_only_in_manual_mode (s : System) (a : Agent) (Hs : reachable s) (Ha : a ∈ agents s)
    (Hi : invites a = true) :
  told AU_Disabled (asked a).
Proof.
  pose proof (proj1 (Forall_forall _ _) (logic_sound pipe_error_text windows_error_text history s Hs) a Ha) as Hw.
  unfold respects, invites, asked in *. destruct (ag_prog a) as [|X e k]; [done|]. destruct e; try done; destruct Hw as [Hw _].
  - destruct call; try done. apply bool_decide_eq_true in Hi. by apply Hw.
  - apply bool_decide_eq_true in Hi. by apply Hw.
  - apply Z.eqb_eq in Hi. by apply Hw.
  - exact Hw.
Qed.
End updates.

(** ** One activation, undisturbed *)
Fixpoint undisturbed {A} (p : prog A) (sh : Shared) (Q : A -> Shared -> Prop) : Prop :=
  match p with
  | Ret a => Q a sh
  | Do e k => forall x, undisturbed (k (effect e x sh).1) (effect e x sh).2 Q
  end.

Lemma undisturbed_bind {A B} (p : prog A) (f : A -> prog B) sh Q :
  undisturbed p sh (fun a sh => undisturbed (f a) sh Q) -> undisturbed (p ≫= f) sh Q.
Proof. revert sh. induction p as [a|X e k IH]; intros sh; cbn; [done|]. intros Hk x. by apply IH. Qed.

Lemma undisturbed_mono {A} (p : prog A) sh (Q R : A -> Shared -> Prop) :
  undisturbed p sh Q -> (forall a sh, Q a sh -> R a sh) -> undisturbed p sh R.
Proof.
  intros Hw HQ. revert sh Hw. induction p as [a|X e k IH]; intros sh; cbn; [apply HQ|]. intros Hk x. by apply IH.
Qed.

Lemma undisturbed_seq {A B} (p : prog A) (f : A -> prog B) sh Q R :
  undisturbed p sh R -> (forall a sh, R a sh -> undisturbed (f a) sh Q) -> undisturbed (p ≫= f) sh Q.
Proof. intros Hp Hf. apply undisturbed_bind. by eapply undisturbed_mono. Qed.

Lemma undisturbed_load {R B} (g : Statics -> R) (f : R -> prog B) sh Q :
  undisturbed (f (g (sh_statics sh))) sh Q -> undisturbed (load g ≫= f) sh Q.
Proof. intros Hf. apply undisturbed_bind. intros x. by destruct sh. Qed.

(** The balloons that a stretch of the log shows. *)
Definition balloons (log : list Obs) : list rstr :=
  omap (fun o => match o with O_Notify (NC_Balloon title _) _ => Some title | _ => None end) log.

(** A notification touches the routes only, and the log. *)
Lemma undisturbed_notification title message d sh :
  undisturbed (show_tray_notification title message d) sh (fun _ sh' =>
    (exists r, sh_statics sh' = set_routes r (sh_statics sh)) /\ sh_timers sh' = sh_timers sh
    /\ exists new, sh_log sh' = new ++ sh_log sh /\ (new = [] \/ exists answer, new = [O_Notify (NC_Balloon title message) answer])).
Proof.
  intros reserved. cbn. destruct (reserve d (st_routes (sh_statics sh))) as [[|] r]; cbn.
  - intros [[]|e]; cbn; (split; [|split; [done|]]).
    + by eexists. 
    + eexists [_]. split; [done|]. right. by eexists.
    + by eexists.
    + eexists [_]. split; [done|]. right. by eexists.
  - split; [by eexists|]. split; [done|]. exists []. by split; [|left].
Qed.

(** How a finished backup is announced, by the state the service reports. *)
Definition result_title (state : BackupState) : option rstr :=
  match state with
  | BS_Succeeded => Some TITLE_COMPLETE
  | BS_SucceededWithWarnings => Some TITLE_WARNINGS
  | BS_Failed _ => Some TITLE_ATTENTION
  | BS_Cancelled => Some TITLE_CANCELLED
  | _ => None
  end.
Definition result_titles : list rstr := [TITLE_COMPLETE; TITLE_WARNINGS; TITLE_ATTENTION; TITLE_CANCELLED].

(** The status is about the backup that is watched: it was seen running, or
    the last attempt is another one than before the request. *)
Definition concerns (s : Statics) (status : ServiceStatus) : Prop :=
  st_observed_running s = true
  \/ st_baseline_known s = true /\ exists t, ss_last_attempt status = Some t
       /\ ~ (st_baseline_has_attempt s = true /\ st_baseline_attempt s = timestamp_millis t).

Definition watch_ended (sh : Shared) : Prop :=
  st_started (sh_statics sh) = None /\ sh_timers sh !! BACKUP_STATUS_TIMER_ID = None.

(** What a stretch of the watch may do. *)
Record watched (sh sh' : Shared) (may_show : rstr -> Prop) : Prop := {
  wa_log : exists new, sh_log sh' = new ++ sh_log sh /\ forall title, title ∈ balloons new -> title ∈ result_titles -> may_show title;
  wa_state : watch_ended sh' \/ st_started (sh_statics sh') = st_started (sh_statics sh)
}.

Lemma concerns_iff s status :
  concerns s status <->
  st_observed_running s || backup_attempt_changed (st_baseline_known s)
    (if st_baseline_has_attempt s then Some (st_baseline_attempt s) else None) (timestamp_millis <$> ss_last_attempt status) = true.
Proof.
  unfold concerns, backup_attempt_changed. rewrite orb_true_iff, !andb_true_iff, negb_true_iff, bool_decide_eq_false.
  destruct (ss_last_attempt status) as [t|]; cbn.
  - apply or_iff_compat_l. split.
    + intros (Hk & t' & [= <-] & Hn). split_and!; [done..|]. destruct (st_baseline_has_attempt s); [|done].
      intros [= E]. by apply Hn.
    + intros [[Hk _] Hn]. split; [done|]. exists t. split; [done|]. intros [Hb E]. apply Hn. by rewrite Hb, E.
  - split; [intros [Hr|(_ & t & Ht & _)]; [by left|done]|]. intros [Hr|[[_ Hr] _]]; [by left|done].
Qed.

Lemma balloons_app l1 l2 : balloons (l1 ++ l2) = balloons l1 ++ balloons l2.
Proof. apply omap_app. Qed.

Lemma watched_trans sh sh1 sh2 P :
  watched sh sh1 P -> st_started (sh_statics sh1) = st_started (sh_statics sh) -> watched sh1 sh2 P -> watched sh sh2 P.
Proof.
  intros [(n1 & E1 & H1) _] Hs [(n2 & E2 & H2) Hst]. split; [|by rewrite <- Hs].
  exists (n2 ++ n1). split; [by rewrite E2, E1, app_assoc|]. intros t. rewrite balloons_app.
  intros [Ht|Ht]%elem_of_app; [by apply H2|by apply H1].
Qed.

Lemma undisturbed_finish title message sh (may_show : rstr -> Prop) :
  (title ∈ result_titles -> may_show title) ->
  undisturbed (finish_backup_status_monitor title message) sh (fun _ sh' => watched sh sh' may_show /\ watch_ended sh').
Proof.
  intros Ht. unfold finish_backup_status_monitor.
  apply undisturbed_bind. intros []. cbn [undisturbed]. apply undisturbed_bind. intros []. cbn [undisturbed]. eapply undisturbed_seq; [apply undisturbed_notification|].
  intros _ sh' ([r Hr] & Htm & new & Hl & Hn). cbn in *.
  assert (watch_ended sh') as He.
  { split; [by rewrite Hr|]. rewrite Htm. cbn. apply lookup_delete_eq. }
  split; [|done]. split; [|by left]. exists new. split; [by rewrite Hl|]. intros t Hin.
  destruct Hn as [->|[answer ->]]; cbn in Hin; [by apply elem_of_nil in Hin|]. by apply list_elem_of_singleton in Hin as ->.
Qed.

Lemma undisturbed_report status ticks sh :
  undisturbed (report_backup_status status ticks) sh (fun _ sh' =>
    watched sh sh' (fun title => result_title (ss_state status) = Some title /\ concerns (sh_statics sh) status)
    /\ (is_Some (result_title (ss_state status)) -> concerns (sh_statics sh) status -> watch_ended sh')).
Proof.
  unfold report_backup_status. do 3 apply undisturbed_load. cbv zeta.
  set (changed := backup_attempt_changed _ _ _). pose proof (concerns_iff (sh_statics sh) status) as Hc. fold changed in Hc.
  set (may_show := fun title => _ /\ concerns _ _).
  eapply undisturbed_seq with (R := fun _ sh' => watched sh sh' may_show /\ st_started (sh_statics sh') = st_started (sh_statics sh)).
  { destruct (_ && negb (is_running _)).
    - eapply undisturbed_seq; [apply undisturbed_notification|]. intros _ sh' ([r Hr] & Htm & new & Hl & Hn) [].
      cbn. rewrite Hr. split; [|done]. split; [|by right; cbn; rewrite Hr]. exists new. split; [done|]. intros t Hin Ht. exfalso.
      destruct Hn as [->|[answer ->]]; cbn in Hin; [by apply elem_of_nil in Hin|]. apply list_elem_of_singleton in Hin as ->.
      revert Ht. apply (bool_decide_unpack (_ ∉ _)). vm_compute. exact I.
    - split; [|done]. split; [|by right]. exists []. by split; [|intros ? ?%elem_of_nil]. }
  intros _ sh1 [Hw Hs].
  assert (forall title m, (title ∈ result_titles -> may_show title) ->
    undisturbed (finish_backup_status_monitor title m) sh1 (fun _ sh' => watched sh sh' may_show /\
      (is_Some (result_title (ss_state status)) -> concerns (sh_statics sh) status -> watch_ended sh'))) as Hfin.
  { intros title m Ht. eapply undisturbed_mono; [by apply undisturbed_finish|]. intros _ sh' [Hw' He].
    split; [by eapply watched_trans|done]. }
  assert (watched sh sh1 may_show /\ (is_Some (result_title (ss_state status)) -> ~ concerns (sh_statics sh) status ->
    concerns (sh_statics sh) status -> watch_ended sh1)) as Hstay by (split; [done|tauto]).
  destruct (ss_state status) eqn:Est; cbn [result_title] in *.
  1, 9: apply Hfin; intros Ht; exfalso; revert Ht; apply (bool_decide_unpack (_ ∉ _)); vm_compute; exact I.
  1, 2: by split; [|intros [? ?]].
  2-5: destruct (st_observed_running (sh_statics sh) || changed) eqn:Eo;
    [apply Hfin; intros _; split; [done|by apply Hc]|split; [done|intros _ Hcn; apply Hc in Hcn; congruence]].
  apply undisturbed_bind. intros x. cbn [effect fst snd undisturbed]. destruct (st_started_notification_shown _); cbn [negb].
  - split; [|by intros [? ?]]. eapply watched_trans; [done|done|]. split; [by exists []; split; [|intros ? ?%elem_of_nil]|by right].
  - eapply undisturbed_seq; [apply undisturbed_notification|]. intros _ sh' ([r Hr] & Htm & new & Hl & Hn).
    split; [|by intros [? ?]]. eapply watched_trans; [done|done|]. split; [|right; by rewrite Hr].
    exists new. split; [done|]. intros t Hin Ht. exfalso.
    destruct Hn as [->|[answer ->]]; cbn in Hin; [by apply elem_of_nil in Hin|]. apply list_elem_of_singleton in Hin as ->.
    revert Ht. apply (bool_decide_unpack (_ ∉ _)). vm_compute. exact I.
Qed.

(** What the watch depends on. *)
Definition watch_fields (s : Statics) : option Z * bool * bool * Z * bool :=
  (st_started s, st_observed_running s, st_baseline_known s, st_baseline_attempt s, st_baseline_has_attempt s).
Lemma concerns_fields s s' status : watch_fields s' = watch_fields s -> concerns s' status -> concerns s status.
Proof. unfold watch_fields, concerns. intros [= _ -> -> -> ->]. done. Qed.

Definition reports (new : list Obs) (status : ServiceStatus) : Prop :=
  exists rq response, O_Request rq (Ok response) ∈ new /\ rs_payload response = Resp_Status status.

Lemma undisturbed_refresh sh :
  undisturbed refresh_tray_status sh (fun r sh' =>
    watch_fields (sh_statics sh') = watch_fields (sh_statics sh)
    /\ exists new, sh_log sh' = new ++ sh_log sh /\ balloons new = [] /\ forall status, r = Ok (Some status) -> reports new status).
Proof.
  unfold refresh_tray_status, try, fetch_service_status. apply undisturbed_bind, undisturbed_bind.
  intros id answer. cbn [undisturbed effect fst snd observe record_obs sh_statics set_sh_statics sh_log].
  destruct answer as [response|e]; [|split; [done|]; exists [O_Request (Request_new (st_next_request_id (sh_statics sh)) GetStatus) (Err e)]; by split_and!].
  cbn. set (o := O_Request _ _). destruct (rs_payload response) eqn:Ep; cbn.
  all: try (split; [done|]; exists [o]; by split_and!).
  intros [[]|e]; cbn; (split; [done|]); eexists [_; o]; (split_and!; [done|done|]); intros st [= <-].
  exists (Request_new (st_next_request_id (sh_statics sh)) GetStatus), response. split; [|done].
  by apply elem_of_cons; right; apply list_elem_of_singleton.
Qed.

(** After the status has been asked for: the tick, the clock, and either the end or the rest. *)
Lemma undisturbed_tick sh title message cont (may_show : rstr -> Prop) (ends : Prop) :
  title ∉ result_titles ->
  (forall ticks sh', watch_fields (sh_statics sh') = watch_fields (sh_statics sh) ->
     undisturbed (cont ticks) sh' (fun _ sh'' => watched sh' sh'' may_show /\ (ends -> watch_ended sh''))) ->
  undisturbed (ticks ← next_tick; now ← perform InstantNow; timed_out ← backup_monitor_timed_out now;
    if (timed_out : bool) then finish_backup_status_monitor title message else cont ticks) sh
    (fun _ sh' => watched sh sh' may_show /\ (ends -> watch_ended sh')
      /\ exists new now, sh_log sh' = new ++ sh_log sh /\ O_Instant now ∈ new
           /\ (monitor_timed_out now (st_started (sh_statics sh)) = true -> watch_ended sh')).
Proof.
  intros Ht Hk. apply undisturbed_bind. intros t. cbn [undisturbed effect fst snd]. apply undisturbed_bind. intros now.
  cbn [undisturbed effect fst snd]. unfold backup_monitor_timed_out. apply undisturbed_load.
  set (sh1 := record_obs _ _). cbn beta.
  assert (watch_fields (sh_statics sh1) = watch_fields (sh_statics sh)) as Hf by done.
  assert (st_started (sh_statics sh1) = st_started (sh_statics sh)) as Hst by done.
  assert (watched sh sh1 may_show) as Hw by (split; [exists [O_Instant now]; split; [done|by intros ? ?%elem_of_nil]|by right]).
  rewrite Hst. eapply undisturbed_mono with (Q := fun _ sh' => watched sh1 sh' may_show /\ (ends -> watch_ended sh')
    /\ (monitor_timed_out now (st_started (sh_statics sh)) = true -> watch_ended sh')).
  - destruct (monitor_timed_out now _).
    + eapply undisturbed_mono; [by apply undisturbed_finish|]. naive_solver.
    + eapply undisturbed_mono; [by apply Hk|]. naive_solver.
  - intros _ sh' (Hw' & He & Hto). split; [by eapply watched_trans|]. split; [done|].
    destruct Hw' as [(new & Hl & _) _]. exists (new ++ [O_Instant now]), now. split_and!; [|set_solver|done].
    by rewrite Hl, <- app_assoc.
Qed.

(** A poll of the tray that no further message interrupts announces a
    finished backup only when the service reports that result and it belongs
    to the watched backup (seen running, or a later attempt than before the
    request); such a report ends the watch, two hours end it in any case, and
    an ended watch leaves no timer. *)
Theorem watch_reports_this_backup (sh : Shared) :
  undisturbed poll_backup_status sh (fun _ sh' => exists new seen now,
    sh_log sh' = new ++ sh_log sh /\ (forall status, seen = Some status -> reports new status) /\ O_Instant now ∈ new
    /\ (forall title, title ∈ balloons new -> title ∈ result_titles ->
          exists status, seen = Some status /\ result_title (ss_state status) = Some title /\ concerns (sh_statics sh) status)
    /\ (forall status, seen = Some status -> is_Some (result_title (ss_state status)) -> concerns (sh_statics sh) status ->
          watch_ended sh')
    /\ (monitor_timed_out now (st_started (sh_statics sh)) = true -> watch_ended sh')
    /\ (watch_ended sh' \/ st_started (sh_statics sh') = st_started (sh_statics sh))).
Proof.
  unfold poll_backup_status. eapply undisturbed_seq; [apply undisturbed_refresh|].
  intros r sh1 (Hf & new1 & Hl1 & Hb1 & Hr).
  assert (st_started (sh_statics sh1) = st_started (sh_statics sh)) as Hst by (by injection Hf).
  set (seen := match r with Ok (Some status) => Some status | _ => None end).
  eapply undisturbed_mono with (Q := fun _ sh' =>
    watched sh1 sh' (fun title => exists status, seen = Some status /\ result_title (ss_state status) = Some title
      /\ concerns (sh_statics sh) status)
    /\ ((exists status, seen = Some status /\ is_Some (result_title (ss_state status)) /\ concerns (sh_statics sh) status) ->
        watch_ended sh')
    /\ exists new now, sh_log sh' = new ++ sh_log sh1 /\ O_Instant now ∈ new
         /\ (monitor_timed_out now (st_started (sh_statics sh1)) = true -> watch_ended sh')).
  - destruct r as [[status|]|e]; (apply undisturbed_tick; [apply (bool_decide_unpack (_ ∉ _)); by vm_compute|]);
      intros ticks sh2 Hf2; [rewrite Hf in Hf2| |].
    2-3: destruct (ticks =? _); [intros []|]; (split; [split; [by exists []; split; [|intros ? ?%elem_of_nil]|by right]|]);
      by intros (st & E & _).
    eapply undisturbed_mono; [apply undisturbed_report|]. cbn beta. intros _ sh3 [[(new & Hl & Hn) Hs] He].
    split; [split; [|done]|].
    + exists new. split; [done|]. intros title Hin Ht. destruct (Hn title Hin Ht) as [Hrt Hcn]. exists status.
      split_and!; [done..|]. by eapply concerns_fields.
    + intros (st & [= <-] & Hrt & Hcn). apply He; [done|]. by eapply concerns_fields.
  - intros _ sh' ([(new & Hl & Hn) Hs] & He & new' & now & Hl' & Hnow & Hto).
    rewrite Hl in Hl'. apply app_inv_tail in Hl' as <-.
    exists (new ++ new1), seen, now. split_and!.
    + by rewrite Hl, Hl1, app_assoc.
    + intros status Hst'. destruct (Hr status) as (rq & resp & Hin & Hp); [by destruct r as [[|]|]; naive_solver|].
      exists rq, resp. split; [|done]. apply elem_of_app. by right.
    + apply elem_of_app. by left.
    + intros title. rewrite balloons_app, Hb1, app_nil_r. apply Hn.
    + intros status Hse Hrt Hcn. apply He. by exists status.
    + by rewrite <- Hst.
    + by rewrite <- Hst.
Qed.

(** ** Running the tray *)
Inductive Choice : Type :=
| Ch_Message (message wparam lparam : Z)
| Ch_Frame (answers : forall X, Effect X -> option X)
| Ch_Thread (answers : forall X, Effect X -> option X)
| Ch_Return.

Definition propose (answers : forall X, Effect X -> option X) {X} (e : Effect X) : Shared -> option X :=
  match e in Effect X return Shared -> option X with
  | Access f => fun sh => Some (f (sh_statics sh)).1
  | e => fun _ => answers _ e
  end.

Section running.
Context `{Base64Standard} `{CryptoCrates} (pipe_error_text : NamedPipeError -> rstr) (windows_error_text : Hresult -> rstr).

Definition advance (c : Choice) (s : System) : option System :=
  match s with
  | Sys sh frames threads true =>
      match c, frames, threads with
      | Ch_Message m w l, _, _ =>
          if delivers_messages frames then
            Some (Sys sh (Ag Callback [] (window_proc_inner pipe_error_text windows_error_text m w l) :: frames) threads true)
          else None
      | Ch_Frame answers, Ag role trace (Do e k) :: frames, _ =>
          x ← propose answers e sh;
          Some (Sys (effect e x sh).2 (Ag role (Ev e (effect e x sh).1 :: trace) (k (effect e x sh).1) :: frames)
                  (spawned e (effect e x sh).1 ++ threads) true)
      | Ch_Thread answers, _, Ag role trace (Do e k) :: threads =>
          x ← propose answers e sh;
          Some (Sys (effect e x sh).2 frames
                  (spawned e (effect e x sh).1 ++ Ag role (Ev e (effect e x sh).1 :: trace) (k (effect e x sh).1) :: threads)
                  true)
      | Ch_Return, Ag role trace (Ret _) :: frames, _ => Some (Sys sh frames threads true)
      | _, _, _ => None
      end
  | _ => None
  end.

Lemma advance_sound c s s' : advance c s = Some s' -> tray_step pipe_error_text windows_error_text s s'.
Proof.
  destruct s as [sh frames threads [|]]; [|by destruct c]. destruct c as [m w l|answers|answers|]; cbn [advance].
  - destruct (delivers_messages frames) eqn:E; [|done]. intros [= <-]. by constructor.
  - destruct frames as [|[role trace [|X e k]] frames]; [done..|]. intros (x & _ & [= <-])%bind_Some. constructor.
  - destruct threads as [|[role trace [|X e k]] threads]; [by destruct frames as [|[? ? []]]..|].
    intros E. assert (exists x, Some s' = Some (Sys (effect e x sh).2 frames (spawned e (effect e x sh).1
      ++ Ag role (Ev e (effect e x sh).1 :: trace) (k (effect e x sh).1) :: threads) true)) as [x [= ->]].
    { destruct frames as [|[? ? []]]; apply bind_Some in E as (x & _ & E); by exists x. }
    apply (TS_Thread _ _ sh frames [] threads).
  - destruct frames as [|[role trace [[]|X e k]] frames]; [done| |done]. intros [= <-]. constructor.
Qed.

Fixpoint drive (cs : list Choice) (s : System) : option System :=
  match cs with [] => Some s | c :: cs => s ← advance c s; drive cs s end.

Lemma drive_reachable cs s s' :
  tray_reachable pipe_error_text windows_error_text s -> drive cs s = Some s' ->
  tray_reachable pipe_error_text windows_error_text s'.
Proof.
  revert s. induction cs as [|c cs IH]; intros s Hs; cbn; [by intros [= <-]|].
  intros (s1 & H1 & H2)%bind_Some. apply (IH s1); [|done]. eapply TR_step; [exact Hs|by apply (advance_sound c)].
Qed.
End running.

Module TrayWitness.
#[local] Existing Instance ManagementWitness.toy_crypto.
#[local] Existing Instance TrayFeedWitness.toy_base64.
Definition no_text {A} (_ : A) : rstr := [].

(** Windows does what it is asked, the fallback feed announces a release, and
    the service answers only for the update setting. *)
Definition answers (automatic : bool) (X : Type) (e : Effect X) : option X :=
  match e in Effect X return option X with
  | TryAcquire _ => Some true
  | PipeRequest r =>
      match rq_command r with
      | GetUpdateSettings =>
          Some (Ok (Response_new (rq_request_id r)
            (Resp_UpdateSettings {| uv_automatic_install := automatic; uv_automatic_install_locked := false |})))
      | _ => Some (Err NP_Windows)
      end
  | FetchFeed => Some TrayFeedWitness.get
  | SpawnCheck => Some true
  | SetTimer _ _ | KillTimer _ => Some tt
  | NotifyIcon _ => Some (Ok tt)
  | FindTrayWindow => Some false
  | Setup _ => Some (Ok 7)
  | OnboardingMarker => Some true
  | CurrentExe => Some true
  | GetMessageTime => Some 1000
  | GetDoubleClickTime => Some 500
  | SystemNow => Some 0
  | PromptMarkerPath => Some false
  | _ => None
  end.

(** Startup, up to the message loop. *)
Definition startup (automatic : bool) : list Choice :=
  replicate 16 (Ch_Frame (answers automatic)) ++ [Ch_Return].

(** Started, with a check that has found the release. *)
Definition checked (automatic : bool) (steps : nat) : option System :=
  drive no_text no_text (startup automatic ++ replicate steps (Ch_Thread (answers automatic))) (initial no_text).

Lemma checked_reachable automatic steps s : checked automatic steps = Some s -> tray_reachable no_text no_text s.
Proof. apply drive_reachable. constructor. Qed.

Definition asks_install (a : Agent) : bool :=
  match next_request a with
  | Some r => match rq_command r with InstallUpdate p => bool_decide (up_version p = lit "1.2.0") | _ => false end
  | None => false
  end.

Lemma silent_installs_witness : exists s a, checked true 5 = Some s /\ a ∈ agents s /\ told AU_Enabled (asked a).
Proof.
  assert (match checked true 5 with Some s => existsb asks_install (agents s) | None => false end = true) as Hc
    by (vm_compute; reflexivity).
  destruct (checked true 5) as [s|] eqn:E; [|discriminate].
  apply existsb_exists in Hc as (a & Ha & Hc). apply list_elem_of_In in Ha. exists s, a. split; [reflexivity|]. split; [exact Ha|].
  unfold asks_install in Hc. destruct (next_request a) as [r|] eqn:Er; [|discriminate].
  destruct (rq_command r) as [] eqn:Ep; try discriminate Hc.
  exact (proj1 (silent_installs_are_signed no_text no_text s a r package (checked_reachable _ _ _ E) Ha Er Ep)).
Defined.

Lemma users_asked_witness : exists s a, checked false 6 = Some s /\ a ∈ agents s /\ told AU_Disabled (asked a).
Proof.
  assert (match checked false 6 with Some s => existsb invites (agents s) | None => false end = true) as Hc
    by (vm_compute; reflexivity).
  destruct (checked false 6) as [s|] eqn:E; [|discriminate].
  apply existsb_exists in Hc as (a & Ha & Hc). apply list_elem_of_In in Ha. exists s, a. split; [reflexivity|]. split; [exact Ha|].
  exact (users_asked_only_in_manual_mode no_text no_text s a (checked_reachable _ _ _ E) Ha Hc).
Defined.

(** A click opens the settings; while the consent prompt is up, another message arrives. *)
Definition prompted : option System :=
  drive no_text no_text
    (startup false ++ Ch_Message TRAY_CALLBACK 0 WM_LBUTTONUP :: replicate 7 (Ch_Frame (answers false))
     ++ [Ch_Message WM_TIMER UPDATE_TIMER_ID 0]) (initial no_text).

Lemma prompted_reachable s : prompted = Some s -> tray_reachable no_text no_text s.
Proof. apply drive_reachable. constructor. Qed.

Lemma one_prompt_witness : exists s, prompted = Some s /\ length (sy_frames s) = 2%nat
  /\ sum_list_with (fun a => Nat.b2n (prompting a)) (agents s) = 1%nat
  /\ (sum_list_with (fun a => Nat.b2n (fetching a)) (agents s) <= 1)%nat.
Proof.
  assert (match prompted with
    | Some s => (length (sy_frames s) =? 2)%nat && (sum_list_with (fun a => Nat.b2n (prompting a)) (agents s) =? 1)%nat
    | None => false end = true) as Hc by (vm_compute; reflexivity).
  destruct prompted as [s|] eqn:E; [|discriminate]. apply andb_true_iff in Hc as [H1%Nat.eqb_eq H2%Nat.eqb_eq].
  exists s. split; [reflexivity|]. split; [exact H1|]. split; [exact H2|].
  exact (proj2 (one_prompt_one_check no_text no_text s (prompted_reachable s E))).
Defined.

Lemma waiting_balloons_witness : exists s, checked false 6 = Some s
  /\ (length (br_pending (st_routes (sh_statics (sy_shared s)))) <= MAX_PENDING_BALLOON_ROUTES)%nat.
Proof.
  assert (is_some (checked false 6) = true) as Hc by (vm_compute; reflexivity).
  destruct (checked false 6) as [s|] eqn:E; [|discriminate]. exists s. split; [reflexivity|].
  exact (waiting_balloons_bounded no_text no_text s (checked_reachable _ _ _ E)).
Defined.
End TrayWitness.
